(* ===== verification/_CoqProject ===== *)
-Q . S2P
Prelude.v
Policy.v
Lru.v
Heap.v
IndexedHeap.v
Lfu.v
TtlPolicy.v
RandomPolicy.v
Cache.v
CacheTheorems.v
CacheInterface.v
CacheConc.v
Ring.v
Raft.v
RaftCluster.v
RaftLiveness.v
GoStrings.v
Json.v
StateFile.v
GoFmt.v
Cluster.v
Metrics.v
Flags.v
Node.v
Debug.v
CacheNode.v
Proxy.v
ProxyConc.v
Invalidation.v
Db.v
DbSetup.v
Api.v
ApiConc.v
ApiServer.v
ApiHttp.v
Stack.v
GoNumbers.v
FloatExact.v
Rounding.v
Decimal.v
Js.v
Web.v
GoTime.v
ProductJson.v
Dashboard.v
DashboardTheorems.v
DashboardPage.v
Cards.v
Catalogue.v
Llm.v
Benchmark.v
Report.v
Commands.v
Scripts.v
Simulate.v
Py.v
PyModels.v
PyCache.v
PyScenarios.v
PyRag.v
PyReport.v
