(* ===== verification/Prelude.v ===== *)
(** * A verification of the distributed cache

    The repository is a distributed product cache written in Go.
    A client's request reaches a caching HTTP proxy ([src/internal/proxy]), which
    also serves a dashboard for the browser and forwards misses to the product API
    ([src/internal/api]). The API looks
    a product up in an in-process cache ([src/internal/cache]) before it asks
    PostgreSQL ([src/internal/db]), and after a write an invalidation strategy
    ([src/internal/invalidation]) decides what becomes of the cached copy. Cache
    nodes ([src/cmd/cachenode]) hold such a cache each; a consistent-hash ring
    and a coordinator ([src/internal/cluster]) say which node owns a key, and
    Raft leader election ([src/internal/raft]) says which node coordinates. Which
    key a full cache gives up is left to an eviction policy
    ([src/internal/eviction]). Beside them stand a simulator of prefix caching
    for language models ([src/internal/llm]), benchmarks of the eviction policies
    and of the invalidation strategies ([src/internal/benchmark]), and two
    scripts that measure elections and a running system ([src/scripts]). The
    simulator also exists as a Python package ([src/python/src/llmsim]).

    ** Conventions

    A Go function becomes a Rocq function of the same name that passes its state
    along; where two methods of a name meet, the type is put in front, as in
    [LRU_OnAccess]. [None] is a panic, so a theorem that a call returns [Some]
    says that it neither dereferences nil nor indexes out of range. Errors are
    values of inductive types. Pointers that are shared or mutated are locations
    in a finite map ([lruNode], the entries of the heaps, [CacheEntry]). An
    [int64] is a [Z] with [wrap64] written at each operation that may leave the
    range; a [float64] is the standard library's executable binary64. What the
    program takes from outside is an argument: the readings of the clock, in
    order, as a [Clock]; random numbers; the order of a map iteration; whether a
    write to disk succeeds; which goroutine or message moves next. Code that is
    not in the repository is a class of operations with its documented behaviour
    as laws: PostgreSQL ([Db.PostgresSpec], and [DbSetup.PgServerSpec] for
    connecting and running the migration; what it does with an update is given by
    the assignments that the text of the statement lists), the Prometheus registry
    ([Metrics.RegistererSpec]) and the browser's parsers of markup and of URLs
    ([Web.BrowserSpec], for markup and paths that are plain), each with an instance
    that meets the laws; the API
    is written against a class [Api.JSON] of the same kind, of which the encoder
    and decoder of products in [ProductJson] are an instance. NumPy's generator
    and comparison are arguments of the Python definitions, which raise exceptions
    as values of [Py.error].

    ** Files

    - [Prelude]: integers, time, and the lemmas and tactics the components share.
    - [Policy]: the eviction-policy interface ([shared/eviction.go]) as a class,
      and the contract the cache relies on.
    - [Lru], [Lfu], [TtlPolicy], [RandomPolicy]: the policies
      ([eviction/*.go]), each with its structure (linked list, indexed heap,
      slice), its representation invariant, what it evicts, and the contract.
      [Heap] is [container/heap] against an interface with laws, [IndexedHeap]
      the pointer heap of LFU and TTL that discharges it.
    - [Cache]: [InMemoryCache] with [Get], [Set_], [Delete], [Len] and [LiveLen],
      its invariant and its refinement of a bounded map with expiries.
      [CacheTheorems]: what follows for call sequences, and the equivalence with
      a recency list. [CacheInterface]: the interface [shared/cache.go] as a class
      with laws, the in-memory cache as its instance, and what a client of the
      interface can rely on. [CacheConc]: the same calls cut at their lock
      boundaries and interleaved; a read that [Get] makes outside the lock gives
      anything if a [Set] of the entry overlaps it.
    - [Ring]: the consistent-hash ring with FNV-1a and [sort.Search].
    - [Raft]: the node of [raft/state.go] and the handlers of [raft/rpc.go].
      [RaftCluster]: all event loops of [raft/timer.go] as one transition system.
      [RaftLiveness]: that elections end and can always be won, and the transport
      of [cluster/transport.go]. [StateFile]: the state file as text in a
      directory.
    - [Cluster]: coordinator, node health and cache server. [Node]: configuration
      and the pieces of a cache node. [Debug]: the pages a cache node serves and
      the debug pages of the API that read them. [CacheNode]: [main] of the cache
      node from its command line on, and the running process.
    - [Metrics]: the collectors of [internal/metrics] and their registration.
    - [Proxy]: response store, [ServeHTTP] and the routes of [Handler].
      [ProxyConc]: its requests cut at the locks of the store and interleaved.
    - [Invalidation], [Db], [DbSetup], [Api]: the strategies, the database layer
      and its migration, and the cache-aside paths and handlers on top of them.
      [ApiConc]: those paths cut at their calls and interleaved. [ApiServer]: the
      route table and [main] of the API process. [ApiHttp]: its requests and
      responses as text. [Stack]: the proxy in front of the API, over a network
      that loses what it likes. [ProductJson]: the JSON of products and of request
      bodies, as [encoding/json] reads and writes the structs of [api/model.go].
    - [Web]: elements, their markup, and what the dashboard needs of a browser.
      [Dashboard]: the script of [proxy/dashboard.go], its functions as tasks that
      wait for answers and timers and the event loop of the browser that runs
      them, on the page they change. [DashboardTheorems]: invariants of the event
      loop, and the script against the API's answers and the proxy's store.
      [DashboardPage]: the elements of the document and the handlers of its
      buttons. [Cards]: the markup of a product as a tree of elements. [Catalogue]:
      products from the database to the cards of the dashboard, and prices and new
      products from its forms to the database.
    - [GoStrings], [GoNumbers], [GoFmt], [Json], [Flags]: the parts of Go's
      [strings], [strconv], [unicode/utf8], [crypto/sha256], [fmt],
      [encoding/json] and [flag] and of its floating point that are used. [Js]:
      the values of the browser's language, and its conversions, JSON and
      escapes. [Decimal]: shortest decimal text of a [float64], as JavaScript and
      [encoding/json] both write it, and the number a decimal text stands for.
      [GoTime]: the calendar and the RFC 3339 text of [time].
    - [Llm], [Benchmark]: the prefix-cache simulators and the benchmarks.
      [Report]: the text these and their command lines print. [Commands]: the
      command lines of the proxy, the simulator and the benchmarks.
    - [Scripts]: the election script and the counting of the metrics script.
      [Simulate]: the phases of the metrics script and its pool of goroutines.
    - [FloatExact]: when binary64 arithmetic does not round. [Rounding]: that its
      division and normalisation otherwise round to nearest.
    - [Py]: Python's exceptions, numbers, [OrderedDict] and formats. [PyModels],
      [PyCache], [PyScenarios], [PyRag], [PyReport]: the modules of the Python
      package ([models.py], [prefix_cache.py], [scenarios.py], [rag.py],
      [report.py] and [cli.py]), each related to its Go counterpart in [Llm].

    ** What is shown

    Policies: on every legal history of callbacks each policy tracks exactly the
    live keys and proposes the key its name promises. Cache: sequentially the
    cache refines a bounded map for any policy that meets the contract, hits
    return the last write, and with LRU it equals a list implementation; under
    concurrency no call panics, and a hit is current unless a [Set] of the key
    races with it, in which case it can be garbage. Ring: routing goes to the
    clockwise successor and agrees between members as long as tokens do not collide
    and no node registers twice, and moves no key that need not move. Raft: at most
    one leader and one vote per node and term under any schedule with reliable
    disks, and what goes wrong with an unreliable one; every election ends, from
    every state reachable with whatever disks a leader can still be elected, and no
    node of the deployed cluster is; the state file survives a save cut off
    anywhere. Cluster and node: routing and ownership agree, health changes stay
    local, processes started from their command lines form an initial cluster of
    the Raft system and route alike, the cache server refines a bounded map and
    counts exactly, but no call reaches the one of a running node, whose pages
    report the last leader and zeros, and the debug pages report what the nodes
    serve. Proxy: cached answers replay upstream answers, and through proxy and API
    together a product page is at most five minutes old if nobody sends [HEAD]
    requests; under concurrency what it serves was sent for the URI and is within
    the lifetime of the page, and a newer page is never lost to the cleaning up of
    an older one. Dashboard: its script only touches elements its document has, its
    counters are always current, it shows the cluster as the API reports it; of
    products whose texts are free of markup it makes a card each, with the data of
    the database and buttons that work; a saved price and an added product arrive
    in the database unless the proxy has a page under the path, and are lost there
    if it does.
    Database and API: a product read back from its JSON is the same to the bit of
    its price and the nanosecond of its times, start-up keeps the rows, the text of
    a partial update assigns the given fields and the time of the update only,
    write-through reads are current for sequential requests to the server that
    [main] starts, write-behind repairs the cache, a concrete overlap of requests
    leaves a stale entry, and no interleaving makes an answer older than five
    minutes and the duration of a request. Metrics: the collectors of the three
    services register together. Simulators, benchmarks and scripts: their
    statistics count what they claim, the printed numbers are correctly rounded,
    the commands print the reports of their mode and end for every command line,
    and the pool of the metrics script
    keeps its bound and counts every success. Python package: its cost model is
    exact, its scenarios report what the Go simulator reports for the same random
    numbers, its retrieval counts document sets, and every mode of its command
    line completes.

    ** Fuel and bounds

    Few recursions are not structural. [Ring.search_loop] halves an interval and
    is given its length; [Heap.up_loop] and [Heap.down_loop] move along a path of
    the heap and are given its size; [GoStrings.trim_front] removes at least a
    byte per step and is given the length of the text; so are [Json.value], of
    which [value_enough] shows that more fuel changes nothing, and the scanner of
    [GoFmt]; the random policy's removal loop runs over the slice. An election has
    no fuel: [RaftLiveness.rank] decreases with each step of its goroutine.
    [Scripts.poll] is given one unit more than the 250 polls the script makes, and
    [poll_spec] shows that it ends. [PyRag.sample] is given the number of batches
    of draws it may ask for, and [sample_ends] says how many are enough.
    [Decimal.shortest] tries up to seventeen digits, and [seventeen_digits] shows
    that one of them reads back as the number. [ProxyConc.alone] is given seven
    steps, which [alone_is_ServeHTTP] shows to be enough. The
    lemmas about them are stated at that fuel, so running out is excluded by
    proof. The theorems on counters assume histories too short to overflow an
    [int64].

    ** Not modelled

    Left out: signals, log lines, usage messages, contexts and listening sockets;
    the style sheet of the dashboard, and the elements its script might find in
    markup that is inserted outside the grid of products; waiting for a lock, since
    a critical section is one step; the text a Prometheus registry serves; the
    argument parser of the Python command line; the helper [parseStatus] of the
    metrics script, which nothing calls. Constructors and accessors that only build
    or read a field ([NewDebugHandler], [NewCacheAside], [Addr], [CurrentTerm] and
    the like) are the constructors and fields of the records. Opening and closing
    connections ([Close] of the database, [dial] of the transport, [Start] of the
    API server) is left to the drivers and the network, whose failures are
    arguments where the code looks at them. The text of a decoding error of
    [encoding/json], and the lenient spellings of instants its parser takes beyond
    RFC 3339, are left out. *)
From stdpp Require Export base tactics option list gmap fin_maps strings sorting pretty.
From Stdlib Require Export ZArith Lia.

(** ** Panics

    A Go operation that can panic (nil dereference, index out of range) is a
    function into [option]: [None] is the panic, [Some r] a normal return. The
    binds are stdpp's option monad. *)

(** Steps through a bind whose first computation has returned. *)
Ltac bind := cbn [mbind option_bind].

(** The hints and rewrite rules the components share. *)
Create HintDb go.
Create Rewrite HintDb go.

(** ** Machine integers *)

(** A Go [int64] (and [int] on the 64-bit targets the repository builds for)
    keeps the residue of the mathematical result in [-2^63, 2^63). *)
Definition wrap64 (z : Z) : Z := ((z + 2 ^ 63) `mod` 2 ^ 64 - 2 ^ 63)%Z.

(** A Go [uint32]. *)
Definition wrap32u (z : Z) : Z := (z `mod` 2 ^ 32)%Z.

Definition int64_min : Z := (- 2 ^ 63)%Z.
Definition int64_max : Z := (2 ^ 63 - 1)%Z.

Lemma wrap64_range z : (int64_min ≤ wrap64 z ≤ int64_max)%Z.
Proof.
  unfold wrap64, int64_min, int64_max.
  pose proof (Z.mod_pos_bound (z + 2 ^ 63) (2 ^ 64) ltac:(lia)). lia.
Qed.

Lemma wrap64_id z : (int64_min ≤ z ≤ int64_max)%Z → wrap64 z = z.
Proof.
  unfold wrap64, int64_min, int64_max. intros H.
  rewrite Z.mod_small by lia. lia.
Qed.

(** Go's [+] and [-] on [int64]. *)
Declare Scope go_scope.
Delimit Scope go_scope with go.
Notation "x +₆₄ y" := (wrap64 (x + y)%Z) (at level 50, left associativity) : go_scope.
Notation "x -₆₄ y" := (wrap64 (x - y)%Z) (at level 50, left associativity) : go_scope.

(** Removes [wrap64] from results that [lia] shows to be in range. *)
Ltac unwrap64 := rewrite ?wrap64_id by (unfold int64_min, int64_max in *; lia).

Lemma wrap32u_range z : (0 ≤ wrap32u z < 2 ^ 32)%Z.
Proof. apply Z.mod_pos_bound. lia. Qed.

(** ** Time

    An instant is the number of nanoseconds since Go's zero [time.Time]; a
    [time.Duration] is a signed nanosecond count. Both are kept as [Z], named
    by abbreviations so that [lia] sees integers. *)
Abbreviation Time := Z (only parsing).
Abbreviation Duration := Z (only parsing).

Definition time_zero : Time := 0%Z.
Definition IsZero (t : Time) : bool := (t =? time_zero)%Z.
Definition After (t u : Time) : bool := (u <? t)%Z.
Definition Before (t u : Time) : bool := (t <? u)%Z.
Definition Add (t : Time) (d : Duration) : Time := (t + d)%Z.

Definition Millisecond : Duration := 1000000%Z.
Definition Second : Duration := 1000000000%Z.
Definition Minute : Duration := (60 * Second)%Z.

(** The readings of the clock that one call takes, in the order of its
    [time.Now()] calls. *)
Abbreviation Clock := (nat → Z) (only parsing).

(** The clock does not run backwards. *)
Definition monotone (now : Clock) : Prop := ∀ i j, i ≤ j → (now i ≤ now j)%Z.

(** Heap locations of the modelled pointers. *)
Abbreviation loc := positive (only parsing).
Abbreviation bytes := (list Byte.byte) (only parsing).

(** ** Lists *)

Lemma NoDup_perm {A} (l l' : list A) : l ≡ₚ l' → NoDup l → NoDup l'.
Proof. by intros ->. Qed.

Lemma filter_all {A} (P : A → Prop) `{!∀ x, Decision (P x)} (l : list A) :
  (∀ x, x ∈ l → P x) → filter P l = l.
Proof.
  induction l as [|x l IH]; intros Hl; [done|].
  rewrite filter_cons_True by (apply Hl; set_solver). f_equal. apply IH. set_solver.
Qed.

Lemma filter_ext {A} (P Q : A → Prop) `{!∀ x, Decision (P x), !∀ x, Decision (Q x)} (l : list A) :
  (∀ x, x ∈ l → P x ↔ Q x) → filter P l = filter Q l.
Proof.
  induction l as [|x l IH]; intros Hl; [done|]. rewrite !filter_cons, IH by set_solver.
  apply decide_ext, Hl. set_solver.
Qed.

Lemma StronglySorted_filter {A} (R : relation A) (P : A → Prop) `{!∀ x, Decision (P x)} (l : list A) :
  StronglySorted R l → StronglySorted R (filter P l).
Proof.
  induction 1 as [|x l Hs IH Hx]; [constructor|].
  rewrite filter_cons. destruct (decide (P x)); [|done]. constructor; [done|].
  rewrite Forall_forall in *. intros y. rewrite list_elem_of_filter. naive_solver.
Qed.

(** ** Finite sets of keys *)

Lemma keys_union_empty_l (X : gset string) : ∅ ∪ X = X.
Proof. set_solver. Qed.

Lemma keys_union_empty_r (X : gset string) : X ∪ ∅ = X.
Proof. set_solver. Qed.

Lemma keys_difference_empty (X : gset string) : X ∖ ∅ = X.
Proof. set_solver. Qed.

#[export] Hint Rewrite keys_union_empty_l keys_union_empty_r keys_difference_empty : go.
#[export] Hint Resolve wrap64_range wrap32u_range : go.
