(* ===== verification/Policy.v ===== *)
(** The eviction-policy interface of [src/internal/shared/eviction.go], as a
    class of operations, and the contract the in-memory cache relies on, as a
    class of laws that each policy discharges. *)
From S2P Require Import Prelude.

(** [shared.EvictionPolicy]. A policy that reads the clock inside a callback
    receives the reading as the first argument; a callback that panics is
    [None]. *)
Class EvictionPolicy (P : Type) := {
  OnAccess : Time → string → P → option P;
  OnInsert : Time → string → Time → P → option P;
  OnEvict : string → P → option P;
  Evict : P → option (option string * P);
  Name : P → string
}.

(** The contract: no callback panics on a well-formed policy state, the policy
    tracks exactly the keys inserted and not yet evicted, and [Evict] proposes
    a tracked key whenever there is one, changing nothing it tracks. *)
Class EvictionPolicySpec (P : Type) `{!EvictionPolicy P} := {
  policy_wf : P → Prop;
  tracked : P → gset string;
  OnAccess_spec now k p :
    policy_wf p →
    ∃ p', OnAccess now k p = Some p' ∧ policy_wf p' ∧ tracked p' = tracked p;
  OnInsert_spec now k e p :
    policy_wf p → k ∉ tracked p →
    ∃ p', OnInsert now k e p = Some p' ∧ policy_wf p' ∧
          tracked p' = {[k]} ∪ tracked p;
  OnEvict_spec k p :
    policy_wf p →
    ∃ p', OnEvict k p = Some p' ∧ policy_wf p' ∧
          tracked p' = tracked p ∖ {[k]};
  Evict_spec p :
    policy_wf p →
    ∃ r p', Evict p = Some (r, p') ∧ policy_wf p' ∧ tracked p' = tracked p ∧
            match r with
            | Some k => k ∈ tracked p
            | None => tracked p = ∅
            end
}.
