(* ===== verification/Lru.v ===== *)
(** The LRU eviction policy, [src/internal/eviction/lru.go]: a doubly linked
    list with two sentinels over a heap of nodes, and the map from keys to
    nodes. The list is shown to implement the recency order of its keys. *)
From S2P Require Import Prelude Policy.

Module LRU.

(** [lruNode]; a nil pointer is [None]. *)
Record lruNode := mk_lruNode {
  key : string;
  prev : option loc;
  next : option loc
}.

(** [LRU]; [mem] is the part of the Go heap that holds its nodes. *)
Record LRU := mk_LRU {
  mem : gmap loc lruNode;
  nodes : gmap string loc;
  head : loc;
  tail : loc
}.

(** Field assignments [a.prev = v] and [a.next = v]. *)
Definition set_prev (a : loc) (v : option loc) (m : gmap loc lruNode) : option (gmap loc lruNode) :=
  n ← m !! a; Some (<[a := mk_lruNode (key n) v (next n)]> m).

Definition set_next (a : loc) (v : option loc) (m : gmap loc lruNode) : option (gmap loc lruNode) :=
  n ← m !! a; Some (<[a := mk_lruNode (key n) (prev n) v]> m).

Definition with_mem (l : LRU) (m : gmap loc lruNode) : LRU :=
  mk_LRU m (nodes l) (head l) (tail l).

Definition NewLRU : LRU :=
  let head := 1%positive in
  let tail := 2%positive in
  mk_LRU (<[head := mk_lruNode "" None (Some tail)]>
         (<[tail := mk_lruNode "" (Some head) None]> ∅)) ∅ head tail.

Definition insertAtFront (node : loc) (l : LRU) : option LRU :=
  m1 ← set_prev node (Some (head l)) (mem l);
  h1 ← m1 !! head l;
  m2 ← set_next node (next h1) m1;
  h2 ← m2 !! head l;
  f ← next h2;
  m3 ← set_prev f (Some node) m2;
  m4 ← set_next (head l) (Some node) m3;
  Some (with_mem l m4).

Definition removeNode (node : loc) (l : LRU) : option LRU :=
  n1 ← mem l !! node;
  p ← prev n1;
  m1 ← set_next p (next n1) (mem l);
  n2 ← m1 !! node;
  s ← next n2;
  m2 ← set_prev s (prev n2) m1;
  Some (with_mem l m2).

Definition moveToFront (node : loc) (l : LRU) : option LRU :=
  l1 ← removeNode node l;
  insertAtFront node l1.

Definition LRU_OnAccess (k : string) (l : LRU) : option LRU :=
  match nodes l !! k with
  | None => Some l
  | Some node => moveToFront node l
  end.

Definition LRU_OnInsert (k : string) (l : LRU) : option LRU :=
  let node := fresh (dom (mem l)) in
  insertAtFront node
    (mk_LRU (<[node := mk_lruNode k None None]> (mem l))
            (<[k := node]> (nodes l)) (head l) (tail l)).

Definition LRU_OnEvict (k : string) (l : LRU) : option LRU :=
  match nodes l !! k with
  | None => Some l
  | Some node =>
      l1 ← removeNode node l;
      Some (mk_LRU (mem l1) (delete k (nodes l1)) (head l1) (tail l1))
  end.

Definition LRU_Evict (l : LRU) : option (option string) :=
  t ← mem l !! tail l;
  if decide (prev t = Some (head l)) then Some None
  else p ← prev t; n ← mem l !! p; Some (Some (key n)).

Definition LRU_Name (_ : LRU) : string := "lru".

#[global] Instance LRU_policy : EvictionPolicy LRU := {
  OnAccess _ k l := LRU_OnAccess k l;
  OnInsert _ k _ l := LRU_OnInsert k l;
  OnEvict := LRU_OnEvict;
  Evict l := r ← LRU_Evict l; Some (r, l);
  Name := LRU_Name
}.


(** ** The linked list as a segment of the heap *)

Definition nextOf (m : gmap loc lruNode) (a : loc) : option loc := m !! a ≫= next.
Definition prevOf (m : gmap loc lruNode) (a : loc) : option loc := m !! a ≫= prev.
Definition keyOf (m : gmap loc lruNode) (a : loc) : option string := key <$> m !! a.

Definition link (m : gmap loc lruNode) (a b : loc) : Prop :=
  nextOf m a = Some b ∧ prevOf m b = Some a.

(** [seg m a ls b]: following [next] from [a] visits [ls] and then [b], and
    every [prev] on the way points back. *)
Fixpoint seg (m : gmap loc lruNode) (a : loc) (ls : list loc) (b : loc) : Prop :=
  match ls with
  | [] => link m a b
  | c :: ls' => link m a c ∧ seg m c ls' b
  end.

Lemma set_next_spec a v m :
  is_Some (m !! a) →
  ∃ m', set_next a v m = Some m' ∧ dom m' = dom m ∧
    (∀ x, nextOf m' x = if decide (x = a) then v else nextOf m x) ∧
    (∀ x, prevOf m' x = prevOf m x) ∧ (∀ x, keyOf m' x = keyOf m x).
Proof.
  intros [n Hn]. unfold set_next. rewrite Hn. eexists. split; [done|].
  split; [apply dom_insert_lookup_L; eauto|].
  unfold nextOf, prevOf, keyOf.
  split; [|split]; intros x; destruct (decide (x = a)) as [->|];
    rewrite ?lookup_insert_eq, ?lookup_insert_ne, ?Hn by done; done.
Qed.

Lemma set_prev_spec a v m :
  is_Some (m !! a) →
  ∃ m', set_prev a v m = Some m' ∧ dom m' = dom m ∧
    (∀ x, prevOf m' x = if decide (x = a) then v else prevOf m x) ∧
    (∀ x, nextOf m' x = nextOf m x) ∧ (∀ x, keyOf m' x = keyOf m x).
Proof.
  intros [n Hn]. unfold set_prev. rewrite Hn. eexists. split; [done|].
  split; [apply dom_insert_lookup_L; eauto|].
  unfold nextOf, prevOf, keyOf.
  split; [|split]; intros x; destruct (decide (x = a)) as [->|];
    rewrite ?lookup_insert_eq, ?lookup_insert_ne, ?Hn by done; done.
Qed.

Lemma nextOf_dom m a b : nextOf m a = Some b → is_Some (m !! a).
Proof. unfold nextOf. destruct (m !! a); [eauto|done]. Qed.

Lemma prevOf_dom m a b : prevOf m a = Some b → is_Some (m !! a).
Proof. unfold prevOf. destruct (m !! a); [eauto|done]. Qed.

Lemma seg_app m a l1 c l2 b :
  seg m a (l1 ++ c :: l2) b ↔ seg m a l1 c ∧ seg m c l2 b.
Proof.
  revert a. induction l1 as [|d l1 IH]; intros a; simpl; [done|].
  rewrite IH. tauto.
Qed.

(** A segment reads the [next] fields of its sources and the [prev] fields of
    its targets, and nothing else. *)
Lemma seg_frame m m' a ls b :
  (∀ x, x ∈ a :: ls → nextOf m' x = nextOf m x) →
  (∀ x, x ∈ ls ++ [b] → prevOf m' x = prevOf m x) →
  seg m a ls b → seg m' a ls b.
Proof.
  revert a. induction ls as [|c ls IH]; intros a Hn Hp; simpl; unfold link.
  - intros [H1 H2]. rewrite Hn, Hp by set_solver. done.
  - intros [[H1 H2] H3]. rewrite Hn, Hp by set_solver. split; [done|].
    apply IH; [| |done]; intros x Hx; [apply Hn|apply Hp]; set_solver.
Qed.

Lemma seg_first m a ls b : seg m a ls b → ∃ c, c ∈ ls ++ [b] ∧ link m a c.
Proof. destruct ls; simpl; intros; destruct_and?; set_solver. Qed.

Lemma seg_last m a ls b : seg m a ls b → ∃ c, c ∈ a :: ls ∧ link m c b.
Proof.
  destruct ls as [|d ls' _] using rev_ind; simpl; [set_solver|].
  rewrite seg_app. intros [_ ?]. exists d. set_solver.
Qed.

Lemma seg_dom m a ls b x :
  seg m a ls b → x ∈ a :: ls ++ [b] → is_Some (m !! x).
Proof.
  revert a. induction ls as [|c ls IH]; intros a; simpl; unfold link.
  - intros [?%nextOf_dom ?%prevOf_dom]. set_solver.
  - intros [[?%nextOf_dom _] Hs] [->|Hx]%elem_of_cons; [done|].
    by apply (IH c).
Qed.

(** Unlinking [x] by redirecting its neighbours to each other. *)
Lemma seg_unlink m m' a l1 x l2 b :
  NoDup (a :: l1 ++ x :: l2 ++ [b]) →
  seg m a (l1 ++ x :: l2) b →
  ∀ p s, prevOf m x = Some p → nextOf m x = Some s →
  (∀ y, nextOf m' y = if decide (y = p) then Some s else nextOf m y) →
  (∀ y, prevOf m' y = if decide (y = s) then Some p else prevOf m y) →
  p ∈ a :: l1 ∧ s ∈ l2 ++ [b] ∧ seg m' a (l1 ++ l2) b.
Proof.
  intros Hnd Hseg p s Hp Hs Hn' Hp'. rewrite seg_app in Hseg.
  destruct Hseg as [H1 H2].
  assert (p ∈ a :: l1 ∧ s ∈ l2 ++ [b]) as [Hpin Hsin].
  { destruct (seg_last _ _ _ _ H1) as (p0 & ? & ? & ?).
    destruct (seg_first _ _ _ _ H2) as (s0 & ? & ? & ?). naive_solver. }
  split; [done|]. split; [done|].
  assert (∀ y, y ∈ a :: l1 → y ∉ x :: l2 ++ [b]) as Hdis.
  { change (NoDup ((a :: l1) ++ x :: l2 ++ [b])) in Hnd.
    apply NoDup_app in Hnd. naive_solver. }
  assert (NoDup (a :: l1) ∧ NoDup (l2 ++ [b]) ∧ x ∉ l2 ++ [b]) as (Hnd1 & Hnd2 & Hx).
  { change (NoDup ((a :: l1) ++ x :: l2 ++ [b])) in Hnd.
    rewrite NoDup_app, (NoDup_cons x) in Hnd. naive_solver. }
  (* the part after the unlinked node, whose first target is [s] *)
  assert (∃ l2', (l2 = [] ∧ s = b ∨ l2 = s :: l2' ∧ seg m' s l2' b)) as [l2' Hr].
  { destruct l2 as [|d l2]; simpl in *; unfold link in *.
    - exists []. left. naive_solver.
    - exists l2. right. destruct H2 as [[Hxd _] H2].
      assert (d = s) as -> by congruence. split; [done|].
      eapply seg_frame; [| |exact H2]; intros y Hy; rewrite ?Hn', ?Hp';
        case_decide; subst; try done; exfalso.
      + apply (Hdis p); set_solver.
      + apply NoDup_cons in Hnd2. set_solver. }
  (* the part before it, whose last source is [p] *)
  destruct l1 as [|q l1' _] using rev_ind.
  - assert (p = a) as -> by set_solver. destruct Hr as [[-> ->]|[-> Hr]]; simpl;
      unfold link; rewrite Hn', Hp', !decide_True by done; done.
  - rewrite seg_app in H1. destruct H1 as [H1 [_ Hq]].
    assert (q = p) as -> by (simpl in Hq; congruence).
    rewrite <-(assoc_L (++)); simpl. rewrite seg_app.
    split.
    + eapply seg_frame; [| |exact H1]; intros y Hy; rewrite ?Hn', ?Hp';
        case_decide; subst; try done; exfalso.
      * change (a :: l1' ++ [p]) with ((a :: l1') ++ [p]) in Hnd1.
        rewrite NoDup_app in Hnd1. set_solver.
      * apply (Hdis s); set_solver.
    + destruct Hr as [[-> ->]|[-> Hr]]; simpl;
        unfold link; rewrite Hn', Hp', !decide_True by done; done.
Qed.

(** ** The pointer operations on a represented list *)

(** What the two primitives leave alone. *)
Definition same_shell (l l' : LRU) : Prop :=
  nodes l' = nodes l ∧ head l' = head l ∧ tail l' = tail l ∧
  ∀ x, keyOf (mem l') x = keyOf (mem l) x.

Lemma keyOf_dom m x : is_Some (keyOf m x) ↔ is_Some (m !! x).
Proof. unfold keyOf. apply fmap_is_Some. Qed.

Lemma nextOf_inv m a b : nextOf m a = Some b → ∃ n, m !! a = Some n ∧ next n = Some b.
Proof. unfold nextOf. destruct (m !! a) as [n|]; [eauto|done]. Qed.

Lemma seg_push m m' h node f ls t :
  NoDup (node :: h :: ls ++ [t]) →
  seg m h ls t → nextOf m h = Some f →
  (∀ x, nextOf m' x = if decide (x = h) then Some node else
                      if decide (x = node) then Some f else nextOf m x) →
  (∀ x, prevOf m' x = if decide (x = f) then Some node else
                      if decide (x = node) then Some h else prevOf m x) →
  seg m' h (node :: ls) t.
Proof.
  intros Hnd Hseg Hf Hn Hp.
  apply NoDup_cons in Hnd as [Hnode Hnd]. apply NoDup_cons in Hnd as [Hh Hls].
  assert (f ∈ ls ++ [t]) as Hfin.
  { destruct (seg_first _ _ _ _ Hseg) as (f' & ? & ? & _). naive_solver. }
  simpl. unfold link. rewrite Hn, Hp.
  rewrite (decide_True (P := h = h)), (decide_True (P := node = node)) by done.
  rewrite decide_False by set_solver. split; [done|].
  assert (nextOf m' node = Some f ∧ prevOf m' f = Some node) as Hlk.
  { rewrite Hn, Hp, decide_False, !decide_True by set_solver. done. }
  destruct ls as [|c ls]; simpl in *; unfold link in *.
  - by assert (f = t) as -> by set_solver.
  - destruct Hseg as [[Hc _] Hseg]. assert (c = f) as -> by congruence.
    split; [done|]. apply NoDup_cons in Hls as [Hfn Hls].
    eapply seg_frame; [| |exact Hseg]; intros x Hx.
    + rewrite Hn, !decide_False; set_solver.
    + rewrite Hp, !decide_False; set_solver.
Qed.

Lemma insertAtFront_spec l node ls :
  NoDup (node :: head l :: ls ++ [tail l]) →
  is_Some (mem l !! node) →
  seg (mem l) (head l) ls (tail l) →
  ∃ l', insertAtFront node l = Some l' ∧ same_shell l l' ∧
        seg (mem l') (head l) (node :: ls) (tail l).
Proof.
  intros Hnd Hnode Hseg. unfold insertAtFront.
  destruct (seg_first _ _ _ _ Hseg) as (f & Hf & Hhf & Hfh).
  destruct (set_prev_spec node (Some (head l)) (mem l) Hnode)
    as (m1 & -> & Hd1 & Hp1 & Hn1 & Hk1); simpl.
  assert (nextOf m1 (head l) = Some f) as (h1 & -> & Hh1)%nextOf_inv by by rewrite Hn1.
  simpl. rewrite Hh1.
  destruct (set_next_spec node (Some f) m1) as (m2 & -> & Hd2 & Hn2 & Hp2 & Hk2).
  { rewrite <-elem_of_dom, Hd1, elem_of_dom. done. }
  simpl. assert (nextOf m2 (head l) = Some f) as (h2 & -> & Hh2)%nextOf_inv.
  { rewrite Hn2, Hn1, Hhf. by case_decide. }
  simpl. rewrite Hh2; simpl.
  destruct (set_prev_spec f (Some node) m2) as (m3 & -> & Hd3 & Hp3 & Hn3 & Hk3).
  { rewrite <-elem_of_dom, Hd2, Hd1, elem_of_dom. by eapply prevOf_dom. }
  simpl.
  destruct (set_next_spec (head l) (Some node) m3) as (m4 & -> & Hd4 & Hn4 & Hp4 & Hk4).
  { rewrite <-elem_of_dom, Hd3, Hd2, Hd1, elem_of_dom. by eapply nextOf_dom. }
  simpl. eexists. split; [done|]. split.
  { repeat split; try done. intros x. simpl. congruence. }
  simpl. eapply (seg_push (mem l) m4 _ _ f _ _ Hnd Hseg Hhf); intros x.
  - by rewrite Hn4, Hn3, Hn2, Hn1.
  - by rewrite Hp4, Hp3, Hp2, Hp1.
Qed.

Lemma removeNode_spec l l1 x l2 :
  NoDup (head l :: l1 ++ x :: l2 ++ [tail l]) →
  seg (mem l) (head l) (l1 ++ x :: l2) (tail l) →
  ∃ l', removeNode x l = Some l' ∧ same_shell l l' ∧
        seg (mem l') (head l) (l1 ++ l2) (tail l).
Proof.
  intros Hnd Hseg. unfold removeNode.
  destruct (proj1 (seg_app _ _ _ _ _ _) Hseg) as [H1 H2].
  destruct (seg_last _ _ _ _ H1) as (p & Hpin & Hpx & Hxp).
  destruct (seg_first _ _ _ _ H2) as (s & Hsin & Hxs & Hsx).
  destruct (nextOf_dom _ _ _ Hxs) as [n1 Hn1].
  assert (prev n1 = Some p ∧ next n1 = Some s) as [Hp1 Hs1].
  { unfold prevOf, nextOf in *. rewrite Hn1 in Hxp, Hxs. done. }
  rewrite Hn1; simpl. rewrite Hp1, Hs1; simpl.
  destruct (set_next_spec p (Some s) (mem l) (nextOf_dom _ _ _ Hpx))
    as (m1 & -> & Hd1 & Hnx1 & Hpv1 & Hk1); simpl.
  assert (prevOf m1 x = Some p ∧ nextOf m1 x = Some s) as [Hx1 Hx2].
  { rewrite Hpv1, Hnx1. split; [done|]. case_decide; congruence. }
  destruct (nextOf_dom _ _ _ Hx2) as [n2 Hn2].
  unfold prevOf, nextOf in Hx1, Hx2. rewrite Hn2 in Hx1, Hx2; simpl in Hx1, Hx2.
  rewrite Hn2; simpl. rewrite Hx1, Hx2; simpl.
  destruct (set_prev_spec s (Some p) m1) as (m2 & -> & Hd2 & Hpv2 & Hnx2 & Hk2).
  { apply prevOf_dom with x. by rewrite Hpv1. }
  simpl. eexists. split; [done|]. split.
  { repeat split; try done. intros y; simpl; congruence. }
  simpl. eapply (seg_unlink (mem l) m2 _ l1 x l2 _ Hnd Hseg p s Hxp Hxs).
  - intros y. by rewrite Hnx2, Hnx1.
  - intros y. by rewrite Hpv2, Hpv1.
Qed.

(** ** The recency order *)

(** [l] holds the keys [xs.*1] from most to least recently used, in the nodes
    [xs.*2]. *)
Record LRU_rep (l : LRU) (xs : list (string * loc)) : Prop := {
  rep_seg : seg (mem l) (head l) xs.*2 (tail l);
  rep_locs : NoDup (head l :: xs.*2 ++ [tail l]);
  rep_keys : NoDup xs.*1;
  rep_keyOf k p : (k, p) ∈ xs → keyOf (mem l) p = Some k;
  rep_nodes : nodes l = list_to_map xs
}.

Definition recency (l : LRU) (ks : list string) : Prop :=
  ∃ xs, LRU_rep l xs ∧ xs.*1 = ks.

(** The abstract policy: a list of keys, most recently used first. *)
Definition forget (k : string) (ks : list string) : list string :=
  filter (λ x, x ≠ k) ks.

Definition touch (k : string) (ks : list string) : list string :=
  if decide (k ∈ ks) then k :: forget k ks else ks.

Lemma forget_notin k ks : k ∉ ks → forget k ks = ks.
Proof.
  intros Hk. unfold forget. induction ks as [|x ks IH]; [done|].
  rewrite filter_cons_True, IH; set_solver.
Qed.

Lemma forget_split k ks1 ks2 :
  NoDup (ks1 ++ k :: ks2) → forget k (ks1 ++ k :: ks2) = ks1 ++ ks2.
Proof.
  intros Hnd. pose proof Hnd as Hnd'. rewrite NoDup_app, NoDup_cons in Hnd'.
  unfold forget. rewrite filter_app, filter_cons_False by naive_solver.
  f_equal; apply (forget_notin k); set_solver.
Qed.

Lemma elem_of_forget k x ks : x ∈ forget k ks ↔ x ∈ ks ∧ x ≠ k.
Proof. unfold forget. rewrite list_elem_of_filter. tauto. Qed.

Lemma NoDup_forget k ks : NoDup ks → NoDup (forget k ks).
Proof. apply NoDup_filter. Qed.

Lemma LRU_rep_lookup l xs k :
  LRU_rep l xs →
  match nodes l !! k with
  | Some p => ∃ xs1 xs2, xs = xs1 ++ (k, p) :: xs2
  | None => k ∉ xs.*1
  end.
Proof.
  intros [_ _ Hk _ ->]. destruct (list_to_map xs !! k) as [p|] eqn:E.
  - apply elem_of_list_to_map_2 in E. by apply list_elem_of_split.
  - by apply not_elem_of_list_to_map.
Qed.

Lemma NoDup_mid {A} (a b x : A) l1 l2 :
  NoDup (a :: (l1 ++ x :: l2) ++ [b]) → NoDup (x :: a :: (l1 ++ l2) ++ [b]).
Proof.
  apply NoDup_perm.
  rewrite <-!(assoc_L (++)); simpl. rewrite <-Permutation_middle. constructor.
Qed.

(** Removing a tracked node, in either callback that does so. *)
Lemma removeNode_rep l xs1 k p xs2 :
  LRU_rep l (xs1 ++ (k, p) :: xs2) →
  ∃ l', removeNode p l = Some l' ∧ same_shell l l' ∧
        seg (mem l') (head l) (xs1 ++ xs2).*2 (tail l) ∧
        is_Some (mem l' !! p) ∧
        NoDup (p :: head l :: (xs1 ++ xs2).*2 ++ [tail l]).
Proof.
  intros [Hseg Hlocs Hkeys HkeyOf Hnodes].
  rewrite fmap_app, fmap_cons in Hseg, Hlocs. simpl in Hseg, Hlocs.
  destruct (removeNode_spec l xs1.*2 p xs2.*2) as (l' & Hrm & Hsh & Hseg').
  { by rewrite <-(assoc_L (++)) in Hlocs. }
  { done. }
  exists l'. split; [done|]. split; [done|]. rewrite fmap_app. split; [done|].
  split; [|by apply NoDup_mid].
  destruct Hsh as (_ & _ & _ & Hk).
  apply keyOf_dom. rewrite Hk, (HkeyOf k p) by set_solver. eauto.
Qed.

Lemma LRU_OnAccess_refines l ks k :
  recency l ks →
  ∃ l', LRU_OnAccess k l = Some l' ∧ recency l' (touch k ks).
Proof.
  intros (xs & Hrep & <-). unfold LRU_OnAccess, touch.
  pose proof (LRU_rep_lookup l xs k Hrep) as Hlk.
  destruct (nodes l !! k) as [p|] eqn:E.
  2:{ exists l. split; [done|]. rewrite decide_False by done. exists xs. done. }
  destruct Hlk as (xs1 & xs2 & ->).
  destruct (removeNode_rep _ _ _ _ _ Hrep) as (l1 & Hrm & Hsh & Hseg & Hp & Hnd).
  unfold moveToFront. rewrite Hrm; simpl.
  destruct Hsh as (Hn & Hh & Ht & Hk).
  rewrite <-Hh, <-Ht in Hseg, Hnd.
  destruct (insertAtFront_spec _ _ _ Hnd Hp Hseg) as (l' & -> & (Hn' & Hh' & Ht' & Hk') & Hseg').
  exists l'. split; [done|]. destruct Hrep as [_ _ Hkeys HkeyOf Hnodes].
  rewrite fmap_app, fmap_cons in *; simpl in *.
  rewrite decide_True, forget_split by set_solver.
  exists ((k, p) :: xs1 ++ xs2). split; [|by rewrite fmap_cons, fmap_app].
  assert ((k, p) :: xs1 ++ xs2 ≡ₚ xs1 ++ (k, p) :: xs2) as Hperm
    by by rewrite Permutation_middle.
  assert (nodes l' = list_to_map ((k, p) :: xs1 ++ xs2)) as Hmap.
  { rewrite Hn', Hn, Hnodes. symmetry. apply list_to_map_proper; [|done].
    rewrite fmap_cons, fmap_app; simpl. by rewrite Permutation_middle. }
  split; rewrite ?fmap_cons, ?fmap_app; simpl; [| | | |done].
  - by rewrite Hh', Ht', fmap_app in *.
  - rewrite Hh', Ht'. rewrite fmap_app in Hnd.
    eapply NoDup_perm; [|exact Hnd]. apply perm_swap.
  - rewrite (Permutation_middle xs1.*1 xs2.*1 k). done.
  - intros k' p'. rewrite Hperm, Hk', Hk. apply HkeyOf.
Qed.

Lemma LRU_OnInsert_refines l ks k :
  recency l ks → k ∉ ks →
  ∃ l', LRU_OnInsert k l = Some l' ∧ recency l' (k :: ks).
Proof.
  intros (xs & [Hseg Hlocs Hkeys HkeyOf Hnodes] & <-) Hk. unfold LRU_OnInsert.
  set (node := fresh (dom (mem l))).
  assert (mem l !! node = None) as Hfresh
    by (apply not_elem_of_dom, is_fresh).
  set (l0 := mk_LRU _ _ _ _).
  assert (∀ x, x ∈ head l :: xs.*2 ++ [tail l] → x ≠ node) as Hne.
  { intros x Hx ->. destruct (seg_dom _ _ _ _ _ Hseg Hx). congruence. }
  assert (∀ x, x ≠ node → mem l0 !! x = mem l !! x) as Hmem
    by (intros; simpl; by rewrite lookup_insert_ne).
  destruct (insertAtFront_spec l0 node xs.*2) as (l' & -> & (Hn' & Hh' & Ht' & Hk') & Hseg').
  { constructor; [|done]. intros Hx. by apply (Hne node). }
  { simpl. rewrite lookup_insert_eq. eauto. }
  { eapply seg_frame; [| |exact Hseg]; intros x Hx; unfold nextOf, prevOf;
      rewrite Hmem; try done; apply Hne; set_solver. }
  exists l'. split; [done|]. exists ((k, node) :: xs).
  split; [|done]. simpl in *. split; simpl.
  - by rewrite Hh', Ht'.
  - rewrite Hh', Ht'. eapply NoDup_perm; [apply perm_swap|].
    constructor; [|done]. intros Hx. by apply (Hne node).
  - by constructor.
  - intros k' p' [[= -> ->]|Hin]%elem_of_cons; rewrite Hk'; unfold keyOf.
    + by rewrite lookup_insert_eq.
    + rewrite lookup_insert_ne; [by apply HkeyOf|]. apply not_eq_sym, Hne.
      apply elem_of_cons. right. apply elem_of_app. left.
      by apply (list_elem_of_fmap_2 snd _ (k', p')).
  - by rewrite Hn', Hnodes.
Qed.

Lemma LRU_OnEvict_refines l ks k :
  recency l ks →
  ∃ l', LRU_OnEvict k l = Some l' ∧ recency l' (forget k ks).
Proof.
  intros (xs & Hrep & <-). unfold LRU_OnEvict.
  pose proof (LRU_rep_lookup l xs k Hrep) as Hlk.
  destruct (nodes l !! k) as [p|] eqn:E.
  2:{ exists l. split; [done|]. rewrite forget_notin by done. exists xs. done. }
  destruct Hlk as (xs1 & xs2 & ->).
  destruct (removeNode_rep _ _ _ _ _ Hrep) as (l1 & -> & (Hn & Hh & Ht & Hk) & Hseg & Hp & Hnd).
  simpl. eexists. split; [done|]. destruct Hrep as [_ _ Hkeys HkeyOf Hnodes].
  rewrite fmap_app, fmap_cons in *; simpl in *. rewrite forget_split by done.
  exists (xs1 ++ xs2). split; [|by rewrite fmap_app]. split; simpl.
  - by rewrite Hh, Ht.
  - rewrite Hh, Ht. by apply NoDup_cons in Hnd as [_ ?].
  - rewrite fmap_app. rewrite <-Permutation_middle in Hkeys.
    by apply NoDup_cons in Hkeys as [_ ?].
  - intros k' p' Hin. rewrite Hk. apply HkeyOf. set_solver.
  - rewrite Hn, Hnodes. rewrite <-Permutation_middle in Hkeys.
    apply NoDup_cons in Hkeys as [Hk1 Hk2].
    rewrite (list_to_map_proper (xs1 ++ (k, p) :: xs2) ((k, p) :: xs1 ++ xs2)); simpl.
    + apply delete_insert_id. apply not_elem_of_list_to_map. by rewrite fmap_app.
    + rewrite fmap_app, fmap_cons; simpl. rewrite <-Permutation_middle.
      by constructor.
    + by rewrite Permutation_middle.
Qed.

Lemma LRU_Evict_refines l ks : recency l ks → LRU_Evict l = Some (last ks).
Proof.
  intros (xs & [Hseg Hlocs _ HkeyOf _] & <-). unfold LRU_Evict.
  destruct xs as [|[k p] xs _] using rev_ind.
  - destruct Hseg as [_ Ht]. unfold prevOf in Ht.
    destruct (mem l !! tail l) as [t|]; [|done]. simpl in *.
    by rewrite decide_True.
  - rewrite fmap_app in Hseg; simpl in Hseg. rewrite seg_app in Hseg.
    destruct Hseg as [_ [_ Ht]]. unfold prevOf in Ht.
    destruct (mem l !! tail l) as [t|]; [|done]. simpl in *. rewrite Ht.
    rewrite decide_False.
    2:{ intros [= Heq]. rewrite fmap_app in Hlocs. apply NoDup_cons in Hlocs as [Hl _].
        apply Hl. rewrite <-Heq. simpl. set_solver. }
    simpl. specialize (HkeyOf k p ltac:(set_solver)). unfold keyOf in HkeyOf.
    destruct (mem l !! p); simplify_eq/=. rewrite fmap_app; simpl. by rewrite last_snoc.
Qed.

Lemma recency_NoDup l ks : recency l ks → NoDup ks.
Proof. by intros (xs & [] & <-). Qed.

Lemma recency_unique l ks : recency l ks → dom (nodes l) = list_to_set ks.
Proof. intros (xs & [] & <-). by rewrite rep_nodes0, dom_list_to_map_L. Qed.

Lemma recency_new : recency NewLRU [].
Proof.
  exists []. split; [|done]. split; simpl.
  - split; reflexivity.
  - apply (bool_decide_unpack _). by vm_compute.
  - constructor.
  - set_solver.
  - done.
Qed.

#[global] Program Instance LRU_spec : EvictionPolicySpec LRU := {
  policy_wf l := ∃ ks, recency l ks;
  tracked l := dom (nodes l)
}.
Next Obligation.
  intros now k l [ks Hks]. destruct (LRU_OnAccess_refines l ks k Hks) as (l' & Hl' & Hr).
  exists l'. split; [done|]. split; [eauto|].
  rewrite (recency_unique _ _ Hks), (recency_unique _ _ Hr). unfold touch.
  case_decide; [|done]. apply set_eq. intros x. simpl.
  rewrite elem_of_union, elem_of_singleton, !elem_of_list_to_set, elem_of_forget.
  destruct (decide (x = k)) as [->|]; tauto.
Qed.
Next Obligation.
  intros now k e l [ks Hks] Hk. rewrite (recency_unique _ _ Hks), elem_of_list_to_set in Hk.
  destruct (LRU_OnInsert_refines l ks k Hks Hk) as (l' & Hl' & Hr).
  exists l'. split; [done|]. split; [eauto|].
  by rewrite (recency_unique _ _ Hks), (recency_unique _ _ Hr).
Qed.
Next Obligation.
  intros k l [ks Hks]. destruct (LRU_OnEvict_refines l ks k Hks) as (l' & Hl' & Hr).
  exists l'. split; [done|]. split; [eauto|].
  rewrite (recency_unique _ _ Hks), (recency_unique _ _ Hr).
  apply set_eq. intros x.
  rewrite elem_of_difference, elem_of_singleton, !elem_of_list_to_set, elem_of_forget. tauto.
Qed.
Next Obligation.
  intros l [ks Hks]. exists (last ks), l.
  rewrite (recency_unique _ _ Hks). simpl. rewrite (LRU_Evict_refines l ks Hks).
  split; [done|]. split; [eauto|]. split; [done|].
  destruct ks as [|k ks _] using rev_ind; [done|].
  rewrite last_snoc. set_solver.
Qed.

(** ** Whole histories of callbacks *)

(** The callbacks the cache makes: a hit or an update, the insertion of a new
    key, and the removal of a key. *)
Inductive event := Access (k : string) | Insert (k : string) | Remove (k : string).

Definition step (l : LRU) (e : event) : option LRU :=
  match e with
  | Access k => LRU_OnAccess k l
  | Insert k => LRU_OnInsert k l
  | Remove k => LRU_OnEvict k l
  end.

Fixpoint run (l : LRU) (evs : list event) : option LRU :=
  match evs with
  | [] => Some l
  | e :: evs => l' ← step l e; run l' evs
  end.

Definition spec_step (ks : list string) (e : event) : list string :=
  match e with
  | Access k => touch k ks
  | Insert k => k :: ks
  | Remove k => forget k ks
  end.

Definition spec_run (evs : list event) : list string := foldl spec_step [] evs.

(** The cache only inserts keys the policy does not track yet. *)
Definition enabled (ks : list string) (e : event) : bool :=
  match e with
  | Insert k => bool_decide (k ∉ ks)
  | _ => true
  end.

Fixpoint legal (ks : list string) (evs : list event) : bool :=
  match evs with
  | [] => true
  | e :: evs => enabled ks e && legal (spec_step ks e) evs
  end.

Definition uses (k : string) (e : event) : bool :=
  match e with
  | Access k' | Insert k' => bool_decide (k = k')
  | Remove _ => false
  end.

(** One plus the position of the last use of [k] in the history; 0 if none. *)
Fixpoint last_use_from (i : nat) (evs : list event) (k : string) : nat :=
  match evs with
  | [] => 0
  | e :: evs =>
      match last_use_from (S i) evs k with
      | 0 => if uses k e then S i else 0
      | n => n
      end
  end.

Definition last_use (evs : list event) (k : string) : nat := last_use_from 0 evs k.

Lemma LRU_step_refines l ks e :
  recency l ks → enabled ks e = true →
  ∃ l', step l e = Some l' ∧ recency l' (spec_step ks e).
Proof.
  intros Hr He. destruct e as [k|k|k]; simpl in *.
  - by apply LRU_OnAccess_refines.
  - apply bool_decide_eq_true in He. by apply LRU_OnInsert_refines.
  - by apply LRU_OnEvict_refines.
Qed.

Lemma LRU_run_refines l ks evs :
  recency l ks → legal ks evs = true →
  ∃ l', run l evs = Some l' ∧ recency l' (foldl spec_step ks evs).
Proof.
  revert l ks. induction evs as [|e evs IH]; intros l ks Hr Hl; simpl in *; [eauto|].
  apply andb_prop in Hl as [He Hl].
  destruct (LRU_step_refines l ks e Hr He) as (l1 & -> & Hr1). simpl. eauto.
Qed.

Lemma last_use_from_snoc i evs e k :
  last_use_from i (evs ++ [e]) k =
    if uses k e then S (i + length evs) else last_use_from i evs k.
Proof.
  revert i. induction evs as [|e' evs IH]; intros i; simpl.
  - destruct (uses k e); [f_equal; lia|done].
  - rewrite IH. destruct (uses k e); [f_equal; lia|done].
Qed.

Lemma last_use_from_le i evs k : last_use_from i evs k ≤ i + length evs.
Proof.
  induction evs as [|e evs IH] using rev_ind; simpl; [lia|].
  rewrite last_use_from_snoc, length_app; simpl. destruct (uses k e); lia.
Qed.

Lemma last_use_snoc evs e k :
  last_use (evs ++ [e]) k = if uses k e then S (length evs) else last_use evs k.
Proof. apply (last_use_from_snoc 0). Qed.

Lemma last_use_le evs k : last_use evs k ≤ length evs.
Proof. apply (last_use_from_le 0). Qed.

Lemma legal_snoc ks evs e :
  legal ks (evs ++ [e]) = legal ks evs && enabled (foldl spec_step ks evs) e.
Proof.
  revert ks. induction evs as [|e' evs IH]; intros ks; simpl.
  - by rewrite andb_true_r.
  - by rewrite IH, andb_assoc.
Qed.

(** [k] is listed before every key used less recently. *)
Definition by_last_use (evs : list event) (ks : list string) : Prop :=
  StronglySorted (λ a b, last_use evs b < last_use evs a) ks.

Lemma by_last_use_forget evs k ks : by_last_use evs ks → by_last_use evs (forget k ks).
Proof. apply StronglySorted_filter. Qed.

Lemma by_last_use_keep evs e ks :
  (∀ x, x ∈ ks → uses x e = false) → by_last_use evs ks → by_last_use (evs ++ [e]) ks.
Proof.
  unfold by_last_use. intros Hl. induction 1 as [|x l Hs IH Hx]; constructor.
  - apply IH. set_solver.
  - rewrite Forall_forall in *. intros y Hy.
    rewrite !last_use_snoc, !Hl by set_solver. by apply Hx.
Qed.

Lemma by_last_use_push evs e k ks :
  e = Access k ∨ e = Insert k → k ∉ ks →
  by_last_use evs ks → by_last_use (evs ++ [e]) (k :: ks).
Proof.
  intros He Hk Hs.
  assert (∀ x, uses x e = bool_decide (x = k)) as Hu
    by (intros x; by destruct He as [-> | ->]).
  assert (∀ x, x ∈ ks → uses x e = false) as Hf.
  { intros x Hx. rewrite Hu. apply bool_decide_eq_false. set_solver. }
  constructor; [by apply by_last_use_keep|].
  apply Forall_forall. intros y Hy. rewrite !last_use_snoc, Hf by done.
  rewrite Hu, bool_decide_eq_true_2 by done. pose proof (last_use_le evs y). lia.
Qed.

Lemma spec_run_by_last_use evs :
  legal [] evs = true → by_last_use evs (spec_run evs).
Proof.
  induction evs as [|e evs IH] using rev_ind; [constructor|].
  rewrite legal_snoc. intros [Hl He]%andb_prop. specialize (IH Hl).
  unfold spec_run in *. rewrite foldl_app; simpl.
  destruct e as [k|k|k]; simpl in *.
  - unfold touch. case_decide as Hk.
    + apply by_last_use_push; [by left| |by apply by_last_use_forget].
      rewrite elem_of_forget. tauto.
    + apply by_last_use_keep; [|done]. intros x Hx. simpl.
      apply bool_decide_eq_false. congruence.
  - apply bool_decide_eq_true in He. apply by_last_use_push; auto.
  - apply by_last_use_keep; [done|]. by apply by_last_use_forget.
Qed.

Lemma by_last_use_last evs ks k k' :
  by_last_use evs ks → last ks = Some k → k' ∈ ks → k' = k ∨ last_use evs k < last_use evs k'.
Proof.
  unfold by_last_use. induction 1 as [|x ks Hs IH Hx]; [done|].
  rewrite Forall_forall in Hx. destruct ks as [|y ks].
  - intros [= ->] Hk'. left. set_solver.
  - change (last (x :: y :: ks)) with (last (y :: ks)). intros Hlast [->|Hk']%elem_of_cons.
    + right. apply Hx. by apply last_Some_elem_of.
    + by apply IH.
Qed.

(** C29: the LRU policy, run on any legal history of callbacks from a new
    policy, never panics and implements the recency list: its keys are exactly
    those inserted and not removed, and the key [Evict] proposes is the one
    whose last use in the history is the oldest of all tracked keys (none is
    proposed only if none is tracked). *)
Theorem LRU_evicts_least_recently_used (evs : list event) (H : legal [] evs = true) :
  ∃ l, run NewLRU evs = Some l ∧
       dom (nodes l) = list_to_set (spec_run evs) ∧
       LRU_Evict l = Some (last (spec_run evs)) ∧
       (∀ k, LRU_Evict l = Some (Some k) →
             k ∈ dom (nodes l) ∧
             ∀ k', k' ∈ dom (nodes l) → k' ≠ k → last_use evs k < last_use evs k') ∧
       (LRU_Evict l = Some None → dom (nodes l) = ∅).
Proof.
  destruct (LRU_run_refines _ _ _ recency_new H) as (l & Hrun & Hr).
  fold (spec_run evs) in Hr. pose proof (spec_run_by_last_use evs H) as Hs.
  exists l. split; [done|].
  rewrite (recency_unique _ _ Hr), (LRU_Evict_refines _ _ Hr).
  split; [done|]. split; [done|]. split.
  - intros k [= Hk]. split; [apply elem_of_list_to_set; by apply last_Some_elem_of|].
    intros k' Hk' Hne. rewrite elem_of_list_to_set in Hk'.
    by destruct (by_last_use_last _ _ _ _ Hs Hk Hk').
  - intros [= ->%last_None]. done.
Qed.

Lemma LRU_evicts_least_recently_used_witness :
  ∃ l, run NewLRU [Insert "a"; Insert "b"; Insert "c"; Access "a"; Remove "c"] = Some l ∧
       LRU_Evict l = Some (Some "b").
Proof.
  destruct (LRU_evicts_least_recently_used
    [Insert "a"; Insert "b"; Insert "c"; Access "a"; Remove "c"] eq_refl)
    as (l & Hl & _ & Hev & _).
  exists l. split; [exact Hl|]. rewrite Hev. reflexivity.
Defined.

End LRU.
