(* ===== verification/Heap.v ===== *)
(** Go's [container/heap], which the LFU and TTL-only policies are built on:
    the sift-up and sift-down loops over the [heap.Interface] methods, the
    operations the policies call, and their correctness against the laws any
    [heap.Interface] implementation has to satisfy. *)
From S2P Require Import Prelude.

(** [heap.Interface]: [Len], [Less] and [Swap] of [sort.Interface], [Push] and
    [Pop]. An index out of range panics. *)
Class HeapInterface (H X : Type) := {
  heap_Len : H → nat;
  heap_Less : nat → nat → H → option bool;
  heap_Swap : nat → nat → H → option H;
  heap_Push : X → H → option H;
  heap_Pop : H → option (X * H)
}.

Section Ops.
Context {H X : Type} `{!HeapInterface H X}.

(** The loop of [heap.up]; each iteration moves to a smaller index, so [S j]
    iterations suffice. *)
Fixpoint up_loop (fuel : nat) (j : nat) (h : H) : option H :=
  match fuel with
  | 0 => None
  | S fuel =>
      let i := (j - 1) / 2 in
      if decide (i = j) then Some h
      else lt ← heap_Less j i h;
           if (lt : bool) then h' ← heap_Swap i j h; up_loop fuel i h'
           else Some h
  end.

Definition up (j : nat) (h : H) : option H := up_loop (S j) j h.

(** The loop of [heap.down]; the index grows, so [n] iterations suffice. *)
Fixpoint down_loop (fuel : nat) (i0 i n : nat) (h : H) : option (H * bool) :=
  match fuel with
  | 0 => None
  | S fuel =>
      let j1 := 2 * i + 1 in
      if decide (n ≤ j1) then Some (h, bool_decide (i0 < i))
      else
        let j2 := j1 + 1 in
        right ← (if decide (j2 < n) then heap_Less j2 j1 h else Some false);
        let j := if (right : bool) then j2 else j1 in
        lt ← heap_Less j i h;
        if (lt : bool) then h' ← heap_Swap i j h; down_loop fuel i0 j n h'
        else Some (h, bool_decide (i0 < i))
  end.

Definition down (i0 n : nat) (h : H) : option (H * bool) := down_loop (S n) i0 i0 n h.

(** [heap.Init] sifts down every index from [n/2 - 1] to 0. *)
Definition Init (h : H) : option H :=
  let n := heap_Len h in
  foldl (λ acc i, h ← acc; '(h', _) ← down i n h; Some h') (Some h)
        (reverse (seq 0 (n / 2))).

Definition Push (x : X) (h : H) : option H :=
  h' ← heap_Push x h; up (heap_Len h' - 1) h'.

Definition Fix (i : nat) (h : H) : option H :=
  '(h', moved) ← down i (heap_Len h) h;
  if (moved : bool) then Some h' else up i h'.

Definition Remove (i : nat) (h : H) : option (X * H) :=
  let n := heap_Len h - 1 in
  h' ← (if decide (n = i) then Some h
        else h1 ← heap_Swap i n h;
             '(h2, moved) ← down i n h1;
             if (moved : bool) then Some h2 else up i h2);
  heap_Pop h'.
End Ops.

(** ** The heap order on index functions *)

Definition parent (k : nat) : nat := (k - 1) / 2.

Lemma parent_lt k : 0 < k → parent k < k.
Proof. unfold parent. intros. apply Nat.Div0.div_lt_upper_bound. lia. Qed.

Lemma parent_iff k i : 0 < k → parent k = i ↔ k = 2 * i + 1 ∨ k = 2 * i + 2.
Proof.
  unfold parent. intros Hk. pose proof (Nat.div_mod_eq (k - 1) 2).
  pose proof (Nat.mod_upper_bound (k - 1) 2 ltac:(lia)). lia.
Qed.

Definition swapf {E} (i j : nat) (f : nat → E) (k : nat) : E :=
  if decide (k = i) then f j else if decide (k = j) then f i else f k.

Lemma swapf_l {E} i j (f : nat → E) : swapf i j f i = f j.
Proof. unfold swapf. by rewrite decide_True. Qed.

Lemma swapf_r {E} i j (f : nat → E) : swapf i j f j = f i.
Proof. unfold swapf. case_decide; subst; [done|]. by rewrite decide_True. Qed.

Lemma swapf_ne {E} i j (f : nat → E) k : k ≠ i → k ≠ j → swapf i j f k = f k.
Proof. intros. unfold swapf. by rewrite !decide_False. Qed.

Section Order.
Context {E : Type} (le : E → E → Prop).
Context `{!Transitive le} (le_total : ∀ a b, le a b ∨ le b a).

Definition heap_ordered (n : nat) (f : nat → E) : Prop :=
  ∀ k, 0 < k < n → le (f (parent k)) (f k).

(** The grandparent condition that survives a change of the element at [j]. *)
Definition grand (n j : nat) (f : nat → E) : Prop :=
  ∀ k, 0 < j → 0 < k < n → parent k = j → le (f (parent j)) (f k).

(** Ordered except between [j] and its parent. *)
Definition up_inv (n j : nat) (f : nat → E) : Prop :=
  (∀ k, 0 < k < n → k ≠ j → le (f (parent k)) (f k)) ∧ grand n j f.

(** Ordered except between [i] and its children and, before the first move,
    between [i0] and its parent. *)
Definition down_inv (n i0 i : nat) (f : nat → E) : Prop :=
  (∀ k, 0 < k < n → parent k ≠ i → k ≠ i0 ∨ i ≠ i0 → le (f (parent k)) (f k)) ∧
  grand n i f.

Lemma le_refl_total a : le a a.
Proof. by destruct (le_total a a). Qed.

Lemma not_le_flip a b : ¬ le a b → le b a.
Proof. by destruct (le_total a b). Qed.

Lemma up_step n j f :
  0 < j → j < n → up_inv n j f → ¬ le (f (parent j)) (f j) →
  up_inv n (parent j) (swapf (parent j) j f).
Proof.
  intros Hj Hn [Ho Hg] Hlt%not_le_flip. pose proof (parent_lt j Hj) as Hp.
  split.
  - intros k Hk Hkp. pose proof (parent_lt k ltac:(lia)).
    destruct (decide (k = j)) as [->|Hkj]; [by rewrite swapf_l, swapf_r|].
    rewrite (swapf_ne _ _ _ k) by done.
    destruct (decide (parent k = parent j)) as [Heq|].
    { rewrite Heq, swapf_l. etrans; [exact Hlt|]. rewrite <-Heq. apply Ho; lia. }
    destruct (decide (parent k = j)) as [Heq|].
    { rewrite Heq, swapf_r. apply Hg; lia. }
    rewrite swapf_ne by done. apply Ho; lia.
  - intros k Hpos Hk Hkp. pose proof (parent_lt (parent j) Hpos).
    assert (le (f (parent (parent j))) (f (parent j))) as Hpp by (apply Ho; lia).
    rewrite (swapf_ne _ _ _ (parent (parent j))) by lia.
    destruct (decide (k = j)) as [->|]; [by rewrite swapf_r|].
    pose proof (parent_lt k ltac:(lia)).
    rewrite swapf_ne by lia. etrans; [exact Hpp|]. rewrite <-Hkp. apply Ho; lia.
Qed.

Lemma up_done n j f :
  up_inv n j f → j = 0 ∨ le (f (parent j)) (f j) → heap_ordered n f.
Proof.
  intros [Ho _] Hj k Hk. destruct (decide (k = j)) as [->|]; [|by apply Ho].
  destruct Hj; [lia|done].
Qed.

Lemma down_step n i0 i j f :
  i0 ≤ i → 0 < j < n → parent j = i →
  (∀ c, 0 < c < n → parent c = i → le (f j) (f c)) →
  ¬ le (f i) (f j) →
  down_inv n i0 i f → down_inv n i0 j (swapf i j f).
Proof.
  intros Hi Hj Hpj Hmin Hlt%not_le_flip [Ho Hg]. pose proof (parent_lt j ltac:(lia)).
  split.
  - intros k Hk Hkj _. pose proof (parent_lt k ltac:(lia)).
    destruct (decide (k = i)) as [->|Hki].
    { rewrite swapf_l, swapf_ne by lia. apply Hg; lia. }
    destruct (decide (parent k = i)) as [Heq|].
    { rewrite Heq, swapf_l. destruct (decide (k = j)) as [->|].
      - by rewrite swapf_r.
      - rewrite swapf_ne by done. by apply Hmin. }
    assert (k ≠ j) by congruence. rewrite !swapf_ne by done. apply Ho; lia.
  - intros k Hpos Hk Hkp. pose proof (parent_lt k ltac:(lia)).
    rewrite Hpj, swapf_l, swapf_ne by lia. rewrite <-Hkp at 1. apply Ho; lia.
Qed.

Lemma down_done n i0 i f :
  down_inv n i0 i f →
  (∀ c, 0 < c < n → parent c = i → le (f i) (f c)) →
  if decide (i = i0) then up_inv n i0 f else heap_ordered n f.
Proof.
  intros [Ho Hg] Hc. case_decide as Hi.
  - subst. split; [|done]. intros k Hk Hne.
    destruct (decide (parent k = i0)) as [<-|]; [by apply Hc|]. apply Ho; tauto.
  - intros k Hk. destruct (decide (parent k = i)) as [<-|]; [by apply Hc|].
    apply Ho; tauto.
Qed.

(** Changing the element at [i] of an ordered heap. *)
Lemma heap_ordered_change n i f f' :
  (∀ k, k < n → k ≠ i → f' k = f k) → i < n →
  heap_ordered n f → down_inv n i i f'.
Proof.
  intros Hf Hi Ho. split.
  - intros k Hk Hp Hor. pose proof (parent_lt k ltac:(lia)).
    rewrite !Hf by lia. by apply Ho.
  - intros k Hpos Hk Hp. pose proof (parent_lt k ltac:(lia)).
    pose proof (parent_lt i Hpos). rewrite !Hf by lia.
    transitivity (f i); [by apply Ho|]. rewrite <-Hp. by apply Ho.
Qed.

Lemma heap_ordered_root n f k : heap_ordered n f → k < n → le (f 0) (f k).
Proof.
  intros Ho. induction (lt_wf k) as [k _ IH]. intros Hk.
  destruct (decide (k = 0)) as [->|]; [apply le_refl_total|].
  pose proof (parent_lt k ltac:(lia)).
  etrans; [apply (IH (parent k)); lia|]. apply Ho; lia.
Qed.
End Order.

#[export] Instance heap_ordered_proper {E} (le : relation E) n :
  Proper (pointwise_relation nat eq ==> iff) (heap_ordered le n).
Proof. intros f g Hfg. unfold heap_ordered. by setoid_rewrite Hfg. Qed.

#[export] Instance up_inv_proper {E} (le : relation E) n j :
  Proper (pointwise_relation nat eq ==> iff) (up_inv le n j).
Proof. intros f g Hfg. unfold up_inv, grand. by setoid_rewrite Hfg. Qed.

#[export] Instance down_inv_proper {E} (le : relation E) n i0 i :
  Proper (pointwise_relation nat eq ==> iff) (down_inv le n i0 i).
Proof. intros f g Hfg. unfold down_inv, grand. by setoid_rewrite Hfg. Qed.

(** ** The laws of [heap.Interface] and the operations under them *)

Section SwapList.
Context {E : Type} `{!Inhabited E}.

Definition swap_list (i j : nat) (v : list E) : list E :=
  <[i := v !!! j]> (<[j := v !!! i]> v).

Lemma length_swap_list i j v : length (swap_list i j v) = length v.
Proof. unfold swap_list. by rewrite !length_insert. Qed.

Lemma lookup_swap_list i j v k :
  i < length v → j < length v → swap_list i j v !!! k = swapf i j (λ k, v !!! k) k.
Proof.
  intros Hi Hj. unfold swap_list, swapf.
  destruct (decide (k = i)) as [->|].
  { by rewrite list_lookup_total_insert_eq by (by rewrite length_insert). }
  rewrite list_lookup_total_insert_ne by done.
  destruct (decide (k = j)) as [->|].
  - by rewrite list_lookup_total_insert_eq.
  - by rewrite list_lookup_total_insert_ne.
Qed.

Lemma list_eq_total (l1 l2 : list E) :
  length l1 = length l2 → (∀ k, k < length l1 → l1 !!! k = l2 !!! k) → l1 = l2.
Proof.
  intros Hl Hk. apply list_eq. intros k. destruct (decide (k < length l1)).
  - rewrite !list_lookup_lookup_total_lt by lia. f_equal. auto.
  - rewrite !lookup_ge_None_2 by lia. done.
Qed.

Lemma swap_list_perm i j v :
  i < length v → j < length v → swap_list i j v ≡ₚ v.
Proof.
  intros Hi Hj. apply Permutation_inj. rewrite length_swap_list. split; [done|].
  exists (λ k, if decide (k = i) then j else if decide (k = j) then i else k).
  split.
  - intros k k'. repeat case_decide; lia.
  - intros k. destruct (decide (k < length v)) as [Hk|].
    + rewrite list_lookup_lookup_total_lt by (by rewrite length_swap_list).
      rewrite lookup_swap_list by done. unfold swapf.
      repeat case_decide; by rewrite list_lookup_lookup_total_lt by lia.
    + rewrite lookup_ge_None_2 by (rewrite length_swap_list; lia).
      rewrite !decide_False by lia. by rewrite lookup_ge_None_2 by lia.
Qed.
End SwapList.

Class HeapLaws (H X E : Type) `{!HeapInterface H X, !Inhabited E} (le : relation E) := {
  heap_wf : H → Prop;
  view : H → list E;
  pushable : X → E → H → Prop;
  Len_law h : heap_wf h → heap_Len h = length (view h);
  Less_law h i j :
    heap_wf h → i < length (view h) → j < length (view h) →
    ∃ b : bool, heap_Less i j h = Some b ∧
      if b then ¬ le (view h !!! j) (view h !!! i) else le (view h !!! j) (view h !!! i);
  Swap_law h i j :
    heap_wf h → i < length (view h) → j < length (view h) →
    ∃ h', heap_Swap i j h = Some h' ∧ heap_wf h' ∧ view h' = swap_list i j (view h);
  Push_law h x a :
    heap_wf h → pushable x a h →
    ∃ h', heap_Push x h = Some h' ∧ heap_wf h' ∧ view h' = view h ++ [a];
  Pop_law h v a :
    heap_wf h → view h = v ++ [a] →
    ∃ x h', heap_Pop h = Some (x, h') ∧ heap_wf h' ∧ view h' = v
}.

Section Spec.
Context {H X E : Type} (le : relation E).
Context `{!HeapInterface H X, !Inhabited E, !HeapLaws H X E le}.
Context `{!Transitive le} (le_total : ∀ a b, le a b ∨ le b a).

(** The element at each index. *)
Definition at_ (h : H) (k : nat) : E := view h !!! k.

(** [h'] holds the elements of [h], those from index [n] on in place. *)
Definition shuffled (n : nat) (h h' : H) : Prop :=
  heap_wf h' ∧ view h' ≡ₚ view h ∧ ∀ k, n ≤ k → at_ h' k = at_ h k.

Lemma shuffled_refl n h : heap_wf h → shuffled n h h.
Proof. done. Qed.

Lemma shuffled_trans n h1 h2 h3 : shuffled n h1 h2 → shuffled n h2 h3 → shuffled n h1 h3.
Proof.
  intros (? & Hp1 & H1) (? & Hp2 & H2). split; [done|]. split; [by rewrite Hp2|].
  intros k Hk. by rewrite H2, H1.
Qed.

Lemma shuffled_length n h h' : shuffled n h h' → length (view h') = length (view h).
Proof. by intros (_ & -> & _). Qed.

Lemma swap_spec n h i j :
  heap_wf h → i < n → j < n → n ≤ length (view h) →
  ∃ h', heap_Swap i j h = Some h' ∧ shuffled n h h' ∧
        ∀ k, at_ h' k = swapf i j (at_ h) k.
Proof.
  intros Hwf Hi Hj Hn. destruct (Swap_law h i j Hwf) as (h' & -> & Hwf' & Hv); [lia..|].
  assert (∀ k, at_ h' k = swapf i j (at_ h) k) as Hat.
  { intros k. unfold at_. rewrite Hv. apply lookup_swap_list; lia. }
  exists h'. split; [done|]. split; [|done]. split; [done|]. split.
  - rewrite Hv. apply swap_list_perm; lia.
  - intros k Hk. rewrite Hat. apply swapf_ne; lia.
Qed.

Lemma up_loop_spec fuel n j h :
  heap_wf h → j < n → n ≤ length (view h) → j < fuel → up_inv le n j (at_ h) →
  ∃ h', up_loop fuel j h = Some h' ∧ shuffled n h h' ∧ heap_ordered le n (at_ h').
Proof.
  revert j h. induction fuel as [|fuel IH]; intros j h Hwf Hj Hn Hf Hinv; [lia|].
  cbn [up_loop]. cbv zeta. change ((j - 1) `div` 2) with (parent j). case_decide as Hz.
  { exists h. split; [done|]. split; [by apply shuffled_refl|].
    eapply up_done; [done|]. left. destruct (decide (0 < j)); [|lia].
    pose proof (parent_lt j ltac:(done)). lia. }
  assert (0 < j) as Hpos. { destruct j; [done|lia]. }
  pose proof (parent_lt j Hpos).
  destruct (Less_law h j (parent j) Hwf) as (b & -> & Hb); [lia..|]. simpl.
  destruct b.
  - destruct (swap_spec n h (parent j) j Hwf) as (h1 & -> & Hsh & Hat); [lia..|]. simpl.
    pose proof (shuffled_length _ _ _ Hsh) as Hlen.
    destruct (IH (parent j) h1) as (h' & -> & Hsh' & Ho); [apply Hsh|lia..| |].
    { rewrite (up_inv_proper le n (parent j) _ _ Hat). by apply up_step. }
    exists h'. split; [done|]. split; [by eapply shuffled_trans|done].
  - exists h. split; [done|]. split; [by apply shuffled_refl|].
    eapply up_done; [done|]. by right.
Qed.

Lemma up_spec n j h :
  heap_wf h → j < n → n ≤ length (view h) → up_inv le n j (at_ h) →
  ∃ h', up j h = Some h' ∧ shuffled n h h' ∧ heap_ordered le n (at_ h').
Proof. intros. apply up_loop_spec; auto. Qed.

Lemma child_choice n i h :
  heap_wf h → n ≤ length (view h) → 2 * i + 1 < n →
  ∃ right : bool,
    (if decide (2 * i + 1 + 1 < n) then heap_Less (2 * i + 1 + 1) (2 * i + 1) h
     else Some false) = Some right ∧
    let j := if right then 2 * i + 1 + 1 else 2 * i + 1 in
    0 < j < n ∧ i < j ∧ parent j = i ∧
    ∀ c, 0 < c < n → parent c = i → le (at_ h j) (at_ h c).
Proof.
  intros Hwf Hn Hi.
  assert (∀ a, le a a) as Hrefl by (intros a; by destruct (le_total a a)).
  case_decide as H2.
  - destruct (Less_law h (2 * i + 1 + 1) (2 * i + 1) Hwf) as (b & -> & Hb); [lia..|].
    exists b. split; [done|]. fold (at_ h (2 * i + 1)) (at_ h (2 * i + 1 + 1)) in Hb.
    destruct b; cbn zeta; (split; [lia|]); (split; [lia|]);
      (split; [apply parent_iff; lia|]); intros c Hc [-> | ->]%parent_iff; try lia; try done.
    + by destruct (le_total (at_ h (2 * i + 1 + 1)) (at_ h (2 * i + 1))).
    + by replace (2 * i + 2) with (2 * i + 1 + 1) by lia.
    + by replace (2 * i + 2) with (2 * i + 1 + 1) by lia.
  - exists false. split; [done|]. cbn zeta. split; [lia|]. split; [lia|].
    split; [apply parent_iff; lia|]. intros c Hc [-> | ->]%parent_iff; [done|lia..].
Qed.

(** The result of sifting down from [i0]. *)
Definition down_post (n i0 : nat) (h h' : H) (moved : bool) : Prop :=
  shuffled n h h' ∧
  if moved then heap_ordered le n (at_ h') else up_inv le n i0 (at_ h').

Lemma down_stop n i0 i h :
  heap_wf h → i0 ≤ i → down_inv le n i0 i (at_ h) →
  (∀ c, 0 < c < n → parent c = i → le (at_ h i) (at_ h c)) →
  down_post n i0 h h (bool_decide (i0 < i)).
Proof.
  intros Hwf Hi Hinv Hc. split; [by apply shuffled_refl|].
  pose proof (down_done le n i0 i _ Hinv Hc) as Hd. revert Hd.
  case_decide; [rewrite bool_decide_eq_false_2|rewrite bool_decide_eq_true_2]; done || lia.
Qed.

Lemma down_loop_spec fuel n i0 i h :
  heap_wf h → i0 ≤ i → i < n → n ≤ length (view h) → n < fuel + i →
  down_inv le n i0 i (at_ h) →
  ∃ h' moved, down_loop fuel i0 i n h = Some (h', moved) ∧ down_post n i0 h h' moved.
Proof.
  revert i h. induction fuel as [|fuel IH]; intros i h Hwf H0 Hi Hn Hf Hinv; [lia|].
  cbn [down_loop]. cbv zeta. destruct (decide (n ≤ 2 * i + 1)) as [Hleaf|Hin].
  { eexists h, _. split; [done|]. apply down_stop; try done.
    intros c Hc Hp%parent_iff; lia. }
  destruct (child_choice n i h Hwf Hn) as (right & -> & Hch); [lia|]. bind.
  set (j := if right then _ else _) in *. cbn zeta in Hch.
  destruct Hch as (Hj & Hij & Hpj & Hmin).
  destruct (Less_law h j i Hwf) as (b & -> & Hb); [lia..|]. bind.
  destruct b.
  - destruct (swap_spec n h i j Hwf) as (h1 & -> & Hsh & Hat); [lia..|].
    bind. pose proof (shuffled_length _ _ _ Hsh) as Hlen.
    destruct (IH j h1) as (h' & mv & -> & Hsh' & Ho); [apply Hsh|lia..| |].
    { rewrite (down_inv_proper le n i0 j _ _ Hat). by apply down_step. }
    eexists h', mv. split; [done|]. split; [by eapply shuffled_trans|done].
  - eexists h, _. split; [done|]. apply down_stop; try done.
    intros c Hc Hp. transitivity (at_ h j); [done|]. by apply Hmin.
Qed.

(** A well-formed heap whose elements are in heap order. *)
Definition heap_ok (h : H) : Prop :=
  heap_wf h ∧ heap_ordered le (length (view h)) (at_ h).

Lemma at_view_app h h' v a k :
  view h = v → view h' = v ++ [a] → k < length v → at_ h' k = at_ h k.
Proof. intros <- Hv Hk. unfold at_. rewrite Hv. by apply lookup_total_app_l. Qed.

Lemma Push_spec h x a :
  heap_ok h → pushable x a h →
  ∃ h', Push x h = Some h' ∧ heap_ok h' ∧ view h' ≡ₚ a :: view h.
Proof.
  intros [Hwf Ho] Hx. unfold Push.
  destruct (Push_law h x a Hwf Hx) as (h1 & -> & Hwf1 & Hv1). bind.
  assert (length (view h1) = S (length (view h))) as Hlen
    by (rewrite Hv1, length_app; simpl; lia).
  rewrite Len_law, Hlen by done.
  replace (S (length (view h)) - 1) with (length (view h)) by lia.
  destruct (up_spec (S (length (view h))) (length (view h)) h1) as (h' & -> & Hsh & Ho');
    [done|lia..| |].
  { split.
    - intros k Hk Hne. pose proof (parent_lt k ltac:(lia)).
      rewrite !(at_view_app h h1 _ a) by (done || lia). apply Ho. lia.
    - intros k Hpos Hk Hp%parent_iff; lia. }
  exists h'. split; [done|]. pose proof (shuffled_length _ _ _ Hsh) as Hl'.
  destruct Hsh as (Hwf' & Hperm & _). split.
  - split; [done|]. by rewrite Hl', Hlen.
  - rewrite Hperm, Hv1. by rewrite (comm (++)).
Qed.

(** [down] followed by [up] when nothing moved, as [Fix] and [Remove] do. *)
Lemma sift_spec n i h :
  heap_wf h → i < n → n ≤ length (view h) → down_inv le n i i (at_ h) →
  ∃ h', ('(h', moved) ← down i n h; if (moved : bool) then Some h' else up i h') = Some h' ∧
        shuffled n h h' ∧ heap_ordered le n (at_ h').
Proof.
  intros Hwf Hi Hn Hinv.
  destruct (down_loop_spec (S n) n i i h) as (h1 & mv & Hd & Hsh & Ho); [done|lia..|done|].
  unfold down. rewrite Hd. bind. destruct mv; [eauto|].
  pose proof (shuffled_length _ _ _ Hsh).
  destruct (up_spec n i h1) as (h' & -> & Hsh' & Ho'); [apply Hsh|lia..|done|].
  exists h'. split; [done|]. split; [by eapply shuffled_trans|done].
Qed.

Lemma Fix_spec i h :
  heap_wf h → i < length (view h) → down_inv le (length (view h)) i i (at_ h) →
  ∃ h', Fix i h = Some h' ∧ heap_ok h' ∧ view h' ≡ₚ view h.
Proof.
  intros Hwf Hi Hinv. unfold Fix. rewrite Len_law by done.
  destruct (sift_spec _ i h Hwf Hi (Nat.le_refl _) Hinv) as (h' & -> & Hsh & Ho).
  exists h'. split; [done|]. pose proof (shuffled_length _ _ _ Hsh) as Hl.
  destruct Hsh as (Hwf' & Hperm & _). split; [|done]. split; [done|]. by rewrite Hl.
Qed.

(** Popping the last element of a heap ordered up to it. *)
Lemma pop_ordered h n :
  heap_wf h → length (view h) = S n → heap_ordered le n (at_ h) →
  ∃ x h', heap_Pop h = Some (x, h') ∧ heap_ok h' ∧ view h ≡ₚ at_ h n :: view h'.
Proof.
  intros Hwf Hlen Ho. destruct (view h) as [|a v _] eqn:Hv using rev_ind; [done|].
  rewrite length_app in Hlen; simpl in Hlen.
  destruct (Pop_law h v a Hwf Hv) as (x & h' & -> & Hwf' & Hv').
  exists x, h'. split; [done|]. split.
  - split; [done|]. rewrite Hv'. intros k Hk. pose proof (parent_lt k ltac:(lia)).
    rewrite <-!(at_view_app h' h v a) by (done || lia). apply Ho. lia.
  - unfold at_. rewrite Hv, Hv', lookup_total_app_r by lia.
    replace (n - length v) with 0 by lia. simpl. by rewrite (comm (++)).
Qed.

Lemma Remove_spec i h :
  heap_ok h → i < length (view h) →
  ∃ x h', Remove i h = Some (x, h') ∧ heap_ok h' ∧ view h ≡ₚ at_ h i :: view h'.
Proof.
  intros [Hwf Ho] Hi. unfold Remove. rewrite Len_law by done.
  destruct (length (view h)) as [|n] eqn:Hlen; [lia|].
  replace (S n - 1) with n by lia.
  assert (heap_ordered le n (at_ h)) as Hon by (intros k Hk; apply Ho; lia).
  case_decide as Hni.
  { subst i. bind. by apply pop_ordered. }
  destruct (swap_spec (S n) h i n Hwf) as (h1 & -> & Hsh1 & Hat1); [lia..|].
  bind. pose proof (shuffled_length _ _ _ Hsh1) as Hl1.
  destruct (sift_spec n i h1) as (h2 & -> & Hsh2 & Ho2); [apply Hsh1|lia..| |].
  { eapply (heap_ordered_change le n i (at_ h)); [|lia|done].
    intros k Hk Hne. rewrite Hat1. apply swapf_ne; lia. }
  pose proof (shuffled_length _ _ _ Hsh2) as Hl2.
  bind.
  destruct (pop_ordered h2 n) as (x & h' & -> & Hok & Hperm); [apply Hsh2|lia|done|].
  exists x, h'. split; [done|]. split; [done|].
  destruct Hsh1 as (_ & Hp1 & _), Hsh2 as (_ & Hp2 & Hk2).
  rewrite <-Hp1, <-Hp2, Hperm, Hk2, Hat1, swapf_r by done. done.
Qed.

Lemma heap_ok_root h k : heap_ok h → k < length (view h) → le (at_ h 0) (at_ h k).
Proof. intros [_ Ho] Hk. by eapply heap_ordered_root. Qed.
End Spec.
