(* ===== verification/IndexedHeap.v ===== *)
(** The slice of entry pointers with back-indices that [lfuHeap]
    ([src/internal/eviction/lfu.go]) and [ttlHeap] ([.../ttl.go]) both are,
    generic in the entry record, and the map of entries that both policies keep
    beside it. The heap laws are proved here once for both. *)
From S2P Require Import Prelude Heap.

(** What an entry record gives: its back-index, the rest of its fields, and
    the order [Less] compares by, which reads only the latter. *)
Class IndexedEntry (T D : Type) := {
  index : T → Z;
  set_index : Z → T → T;
  data : T → D;
  data_key : D → string;
  ltb : D → D → bool;
  index_set i e : index (set_index i e) = i;
  data_set i e : data (set_index i e) = data e;
  ltb_asym a b : ltb a b = true → ltb b a = false;
  ltb_trans a b c : ltb b a = false → ltb c b = false → ltb c a = false
}.

(** An [int] used as a slice index; a negative one panics. *)
Definition slice_index (z : Z) : option nat :=
  if (z <? 0)%Z then None else Some (Z.to_nat z).

Lemma slice_index_nat (n : nat) : slice_index (Z.of_nat n) = Some n.
Proof.
  unfold slice_index. destruct (Z.ltb_spec (Z.of_nat n) 0); [lia|].
  by rewrite Nat2Z.id.
Qed.

(** The heap slice and the entries its pointers refer to. *)
Record pheap (T : Type) := mk_pheap { pmem : gmap loc T; parr : list loc }.
Arguments mk_pheap {T} _ _.
Arguments pmem {T} _.
Arguments parr {T} _.

Section Ops.
Context {T D : Type} `{!IndexedEntry T D}.

(** [p.index = i]. *)
Definition put_index (p : loc) (i : Z) (m : gmap loc T) : option (gmap loc T) :=
  e ← m !! p;
  Some (<[p := set_index i e]> m).

Definition ph_Len (h : pheap T) : nat := length (parr h).

Definition ph_Less (i j : nat) (h : pheap T) : option bool :=
  p ← parr h !! i; q ← parr h !! j;
  a ← pmem h !! p; b ← pmem h !! q;
  Some (ltb (data a) (data b)).

Definition ph_Swap (i j : nat) (h : pheap T) : option (pheap T) :=
  p ← parr h !! i; q ← parr h !! j;
  let arr := <[j := p]> (<[i := q]> (parr h)) in
  r ← arr !! i; m1 ← put_index r (Z.of_nat i) (pmem h);
  s ← arr !! j; m2 ← put_index s (Z.of_nat j) m1;
  Some (mk_pheap m2 arr).

Definition ph_Push (p : loc) (h : pheap T) : option (pheap T) :=
  m ← put_index p (Z.of_nat (length (parr h))) (pmem h);
  Some (mk_pheap m (parr h ++ [p])).

Definition ph_Pop (h : pheap T) : option (loc * pheap T) :=
  let n := length (parr h) in
  p ← parr h !! (n - 1);
  m ← put_index p (-1) (pmem h);
  Some (p, mk_pheap m (take (n - 1) (parr h))).

#[export] Instance pheap_interface : HeapInterface (pheap T) loc := {
  heap_Len := ph_Len;
  heap_Less := ph_Less;
  heap_Swap := ph_Swap;
  heap_Push := ph_Push;
  heap_Pop := ph_Pop
}.

(** ** The laws *)

(** The pointers are distinct and each entry knows its position. *)
Definition ph_wf (h : pheap T) : Prop :=
  NoDup (parr h) ∧
  ∀ i p, parr h !! i = Some p →
    ∃ e, pmem h !! p = Some e ∧ index e = Z.of_nat i.

Context `{!Inhabited D}.

Definition ph_data (m : gmap loc T) (p : loc) : D := default inhabitant (data <$> m !! p).

Definition ph_view (h : pheap T) : list (loc * D) :=
  (λ p, (p, ph_data (pmem h) p)) <$> parr h.

Definition ph_pushable (p : loc) (a : loc * D) (h : pheap T) : Prop :=
  (p ∉ parr h) ∧ ∃ e, pmem h !! p = Some e ∧ a = (p, data e).

Definition ph_le (a b : loc * D) : Prop := ltb b.2 a.2 = false.

Lemma put_index_spec p i m e :
  m !! p = Some e →
  ∃ m', put_index p i m = Some m' ∧
    (∀ q, m' !! q = if decide (q = p) then Some (set_index i e) else m !! q) ∧
    ∀ q, ph_data m' q = ph_data m q.
Proof.
  intros He. unfold put_index, ph_data. rewrite He. eexists. split; [done|].
  assert (∀ q, <[p := set_index i e]> m !! q =
    if decide (q = p) then Some (set_index i e) else m !! q) as Hlk.
  { intros q. case_decide; subst; [by rewrite lookup_insert_eq|].
    by rewrite lookup_insert_ne. }
  split; [done|]. intros q. rewrite Hlk. case_decide; subst; [|done].
  rewrite He; simpl. by rewrite data_set.
Qed.

Lemma ph_view_lookup h i p :
  parr h !! i = Some p → ph_view h !! i = Some (p, ph_data (pmem h) p).
Proof. intros Hp. unfold ph_view. by rewrite list_lookup_fmap, Hp. Qed.

Lemma ph_view_data (m m' : gmap loc T) arr :
  (∀ q, q ∈ arr → ph_data m' q = ph_data m q) →
  ph_view (mk_pheap m' arr) = ph_view (mk_pheap m arr).
Proof.
  intros Hd. unfold ph_view; simpl. apply list_fmap_ext. intros i p Hp.
  rewrite Hd; [done|]. by eapply list_elem_of_lookup_2.
Qed.

Lemma ph_view_fst h : (ph_view h).*1 = parr h.
Proof. unfold ph_view. rewrite <-list_fmap_compose. apply list_fmap_id. Qed.

Lemma length_ph_view h : length (ph_view h) = length (parr h).
Proof. apply length_fmap. Qed.

Lemma ph_view_total h i p :
  parr h !! i = Some p → ph_view h !!! i = (p, ph_data (pmem h) p).
Proof. intros Hp. by apply list_lookup_total_correct, ph_view_lookup. Qed.

Lemma ph_arr_lookup h i : i < length (ph_view h) → ∃ p, parr h !! i = Some p.
Proof. rewrite length_ph_view. apply lookup_lt_is_Some_2. Qed.

Lemma ph_Less_law h i j :
  ph_wf h → i < length (ph_view h) → j < length (ph_view h) →
  ∃ b : bool, ph_Less i j h = Some b ∧
    if b then ¬ ph_le (ph_view h !!! j) (ph_view h !!! i)
    else ph_le (ph_view h !!! j) (ph_view h !!! i).
Proof.
  intros [_ Hidx] [p Hp]%ph_arr_lookup [q Hq]%ph_arr_lookup.
  destruct (Hidx i p Hp) as (a & Ha & _), (Hidx j q Hq) as (b & Hb & _).
  exists (ltb (data a) (data b)).
  rewrite (ph_view_total h i p), (ph_view_total h j q) by done.
  unfold ph_Less, ph_le, ph_data. rewrite Hp, Hq; simpl. rewrite Ha, Hb; simpl.
  split; [done|]. destruct (ltb (data a) (data b)) eqn:E; done.
Qed.

Lemma ph_swap_arr (arr : list loc) i j p q :
  arr !! i = Some p → arr !! j = Some q →
  <[j := p]> (<[i := q]> arr) = swap_list i j arr.
Proof.
  intros Hp Hq. unfold swap_list.
  rewrite (list_lookup_total_correct _ _ _ Hp), (list_lookup_total_correct _ _ _ Hq).
  destruct (decide (i = j)) as [->|Hne]; [congruence|].
  by apply list_insert_insert_ne.
Qed.

Lemma fmap_swap_list {A B} `{!Inhabited A, !Inhabited B} (g : A → B) i j (l : list A) :
  i < length l → j < length l → g <$> swap_list i j l = swap_list i j (g <$> l).
Proof.
  intros Hi Hj. unfold swap_list. rewrite !list_fmap_insert.
  by rewrite (list_lookup_total_fmap g l i Hi), (list_lookup_total_fmap g l j Hj).
Qed.

(** The back-indices after a swap. *)
Lemma ph_swap_index h i j p q m1 m2 :
  ph_wf h → parr h !! i = Some p → parr h !! j = Some q →
  put_index q (Z.of_nat i) (pmem h) = Some m1 →
  put_index p (Z.of_nat j) m1 = Some m2 →
  ∀ k r, swap_list i j (parr h) !! k = Some r →
    ∃ e, m2 !! r = Some e ∧ index e = Z.of_nat k.
Proof.
  intros [Hnd Hidx] Hp Hq H1 H2 k r.
  destruct (Hidx i p Hp) as (a & Ha & _), (Hidx j q Hq) as (b & Hb & _).
  destruct (put_index_spec q (Z.of_nat i) (pmem h) b Hb) as (m1' & H1' & Hm1 & _).
  assert (m1' = m1) as -> by congruence.
  assert (∃ e, m1 !! p = Some e) as [e He] by (rewrite Hm1; case_decide; eauto).
  destruct (put_index_spec p (Z.of_nat j) m1 e He) as (m2' & H2' & Hm2 & _).
  assert (m2' = m2) as -> by congruence.
  rewrite <-(ph_swap_arr _ _ _ _ _ Hp Hq).
  pose proof (lookup_lt_Some _ _ _ Hp). pose proof (lookup_lt_Some _ _ _ Hq).
  destruct (decide (k = j)) as [->|].
  { rewrite list_lookup_insert_eq by (by rewrite length_insert). intros [= <-].
    rewrite Hm2, decide_True by done. eexists. split; [done|]. apply index_set. }
  rewrite list_lookup_insert_ne by done.
  destruct (decide (k = i)) as [->|].
  { rewrite list_lookup_insert_eq by done. intros [= <-].
    assert (q ≠ p). { intros ->. by pose proof (NoDup_lookup _ _ _ _ Hnd Hp Hq). }
    rewrite Hm2, decide_False, Hm1, decide_True by done.
    eexists. split; [done|]. apply index_set. }
  rewrite list_lookup_insert_ne by done. intros Hr.
  assert (r ≠ p) by (intros ->; by pose proof (NoDup_lookup _ _ _ _ Hnd Hp Hr)).
  assert (r ≠ q) by (intros ->; by pose proof (NoDup_lookup _ _ _ _ Hnd Hq Hr)).
  rewrite Hm2, decide_False, Hm1, decide_False by done. by apply Hidx.
Qed.

Lemma ph_Swap_law h i j :
  ph_wf h → i < length (ph_view h) → j < length (ph_view h) →
  ∃ h', ph_Swap i j h = Some h' ∧ ph_wf h' ∧ ph_view h' = swap_list i j (ph_view h).
Proof.
  intros Hwf Hi Hj. pose proof Hwf as [Hnd Hidx].
  destruct (ph_arr_lookup h i Hi) as [p Hp], (ph_arr_lookup h j Hj) as [q Hq].
  rewrite length_ph_view in Hi, Hj.
  destruct (Hidx i p Hp) as (a & Ha & _), (Hidx j q Hq) as (b & Hb & _).
  unfold ph_Swap. rewrite Hp, Hq; bind. cbv zeta.
  assert (<[j:=p]> (<[i:=q]> (parr h)) !! i = Some q) as ->.
  { destruct (decide (i = j)) as [->|].
    - rewrite list_lookup_insert_eq by (by rewrite length_insert). congruence.
    - by rewrite list_lookup_insert_ne, list_lookup_insert_eq. }
  rewrite list_lookup_insert_eq by (by rewrite length_insert). bind.
  destruct (put_index_spec q (Z.of_nat i) (pmem h) b Hb) as (m1 & H1 & Hm1 & Hd1).
  rewrite H1; bind.
  assert (∃ e, m1 !! p = Some e) as [e He] by (rewrite Hm1; case_decide; eauto).
  destruct (put_index_spec p (Z.of_nat j) m1 e He) as (m2 & H2 & Hm2 & Hd2).
  rewrite H2; bind. rewrite (ph_swap_arr _ _ _ _ _ Hp Hq).
  eexists. split; [done|]. split.
  - split; simpl; [|by eapply ph_swap_index].
    by eapply NoDup_perm; [symmetry; apply swap_list_perm|].
  - rewrite (ph_view_data (pmem h)) by (intros; by rewrite Hd2, Hd1).
    unfold ph_view; simpl. by apply fmap_swap_list.
Qed.

Lemma ph_Push_law h p a :
  ph_wf h → ph_pushable p a h →
  ∃ h', ph_Push p h = Some h' ∧ ph_wf h' ∧ ph_view h' = ph_view h ++ [a].
Proof.
  intros [Hnd Hidx] [Hp (e & He & ->)]. unfold ph_Push.
  destruct (put_index_spec p (Z.of_nat (length (parr h))) _ e He) as (m & -> & Hm & Hd).
  bind. eexists. split; [done|]. split.
  - split; simpl.
    + apply NoDup_app. split; [done|]. split; [set_solver|]. apply NoDup_singleton.
    + intros i q [Hq|[Hi Hq]]%lookup_app_Some.
      * assert (q ≠ p) by (intros ->; by apply Hp, list_elem_of_lookup_2 with i).
        rewrite Hm, decide_False by done. by apply Hidx.
      * apply list_lookup_singleton_Some in Hq as [Hi0 ->].
        rewrite Hm, decide_True by done. eexists. split; [done|].
        rewrite index_set. f_equal. lia.
  - rewrite (ph_view_data (pmem h)) by (intros; apply Hd).
    unfold ph_view; simpl. rewrite fmap_app; simpl.
    by replace (ph_data (pmem h) p) with (data e) by (unfold ph_data; by rewrite He).
Qed.

Lemma ph_Pop_law h v a :
  ph_wf h → ph_view h = v ++ [a] →
  ∃ x h', ph_Pop h = Some (x, h') ∧ ph_wf h' ∧ ph_view h' = v.
Proof.
  intros [Hnd Hidx] Hv. unfold ph_Pop.
  assert (∃ arr p, parr h = arr ++ [p]) as (arr & p & Harr).
  { destruct (parr h) as [|p arr _] eqn:E using rev_ind; [|eauto].
    unfold ph_view in Hv. rewrite E in Hv. by destruct v. }
  rewrite Harr, length_app; simpl. replace (length arr + 1 - 1) with (length arr) by lia.
  rewrite list_lookup_middle by done. bind.
  destruct (Hidx (length arr) p) as (e & He & _); [by rewrite Harr, list_lookup_middle|].
  destruct (put_index_spec p (-1) _ e He) as (m & -> & Hm & Hd).
  bind. rewrite take_app_length.
  eexists _, _. split; [done|]. rewrite Harr in Hnd. apply NoDup_app in Hnd as (Hnd & Hdis & _).
  split.
  - split; simpl; [done|]. intros i q Hq.
    assert (q ≠ p). { intros ->. apply (Hdis p); [by eapply list_elem_of_lookup_2|set_solver]. }
    rewrite Hm, decide_False by done. apply Hidx. rewrite Harr. by apply lookup_app_l_Some.
  - rewrite (ph_view_data (pmem h)) by (intros; apply Hd).
    unfold ph_view in Hv. rewrite Harr, fmap_app in Hv. simpl in Hv.
    by apply app_inj_tail in Hv as [<- _].
Qed.

#[export] Program Instance pheap_laws : HeapLaws (pheap T) loc (loc * D) ph_le := {
  heap_wf := ph_wf;
  view := ph_view;
  pushable := ph_pushable
}.
Next Obligation. intros h _. by rewrite length_ph_view. Qed.
Next Obligation. exact ph_Less_law. Qed.
Next Obligation. exact ph_Swap_law. Qed.
Next Obligation. exact ph_Push_law. Qed.
Next Obligation. exact ph_Pop_law. Qed.

#[export] Instance ph_le_trans : Transitive ph_le.
Proof. intros a b c. unfold ph_le. intros H1 H2. by eapply ltb_trans. Qed.

Lemma ph_le_total a b : ph_le a b ∨ ph_le b a.
Proof.
  unfold ph_le. destruct (ltb b.2 a.2) eqn:E; [|by left].
  right. by apply ltb_asym.
Qed.
End Ops.

(** ** The policy state: the heap and the map from keys to entries *)

Record hpolicy (T : Type) := mk_hpolicy { hp : pheap T; entries : gmap string loc }.
Arguments mk_hpolicy {T} _ _.
Arguments hp {T} _.
Arguments entries {T} _.

Section Policy.
Context {T D : Type} `{!IndexedEntry T D, !Inhabited D}.

(** [s] implements the abstract policy [m], a map from the tracked keys to
    the fields of their entries. *)
Record hp_rep (s : hpolicy T) (m : gmap string D) : Prop := {
  rep_heap : heap_ok ph_le (hp s);
  rep_entries k p :
    entries s !! k = Some p ↔ ∃ d, (p, d) ∈ ph_view (hp s) ∧ data_key d = k;
  rep_map k d :
    m !! k = Some d ↔ ∃ p, (p, d) ∈ ph_view (hp s) ∧ data_key d = k
}.

Lemma rep_wf s m : hp_rep s m → ph_wf (hp s).
Proof. by intros [[Hwf _] _ _]. Qed.

(** A viewed entry is in the heap memory, and its pointer determines it. *)
Lemma view_mem (h : pheap T) p d :
  ph_wf h → (p, d) ∈ ph_view h →
  ∃ i e, parr h !! i = Some p ∧ pmem h !! p = Some e ∧ data e = d ∧
         index e = Z.of_nat i ∧ ph_view h !! i = Some (p, d).
Proof.
  intros [_ Hidx] [i Hi]%list_elem_of_lookup. pose proof Hi as Hv.
  unfold ph_view in Hi. rewrite list_lookup_fmap in Hi.
  destruct (parr h !! i) as [q|] eqn:Hq; simplify_eq/=.
  destruct (Hidx i p Hq) as (e & He & Hie). exists i, e.
  unfold ph_data in *. rewrite He in *. done.
Qed.

Lemma view_fun (h : pheap T) p d d' :
  ph_wf h → (p, d) ∈ ph_view h → (p, d') ∈ ph_view h → d = d'.
Proof.
  intros Hwf (i & e & _ & He & <- & _)%view_mem (j & e' & _ & He' & <- & _)%view_mem;
    congruence.
Qed.

Lemma rep_dom s m : hp_rep s m → dom (entries s) = dom m.
Proof.
  intros [_ He Hm]. apply set_eq. intros k. rewrite !elem_of_dom. split.
  - intros [p (d & ? & ?)%He]. exists d. apply Hm. eauto.
  - intros [d (p & ? & ?)%Hm]. exists p. apply He. eauto.
Qed.

(** The entry of a tracked key. *)
Lemma rep_lookup s m k :
  hp_rep s m →
  match entries s !! k with
  | Some p => ∃ i e, parr (hp s) !! i = Some p ∧ pmem (hp s) !! p = Some e ∧
                index e = Z.of_nat i ∧ m !! k = Some (data e) ∧
                data_key (data e) = k ∧ ph_view (hp s) !! i = Some (p, data e)
  | None => m !! k = None
  end.
Proof.
  intros Hrep. pose proof (rep_wf _ _ Hrep) as Hwf. destruct Hrep as [_ He Hm].
  destruct (entries s !! k) as [p|] eqn:E.
  - apply He in E as (d & Hin & Hk).
    destruct (view_mem _ _ _ Hwf Hin) as (i & e & ? & ? & <- & ? & ?).
    exists i, e. rewrite Hm. eauto 10.
  - destruct (m !! k) as [d|] eqn:Ed; [|done]. apply Hm in Ed as (p & Hin & Hk).
    assert (entries s !! k = Some p) by (apply He; eauto). congruence.
Qed.

(** The three ways the view changes. *)
Lemma rep_view_add s m h' k p d :
  hp_rep s m → heap_ok ph_le h' → entries s !! k = None → data_key d = k →
  ph_view h' ≡ₚ (p, d) :: ph_view (hp s) → p ∉ parr (hp s) →
  hp_rep (mk_hpolicy h' (<[k := p]> (entries s))) (<[k := d]> m).
Proof.
  intros Hrep Hok Hk Hd Hv Hp. pose proof (rep_lookup s m k Hrep) as Hmk.
  rewrite Hk in Hmk. destruct Hrep as [_ He Hm].
  assert (∀ q e, (q, e) ∈ ph_view (hp s) → q ≠ p) as Hq.
  { intros q e Hin ->. apply Hp. rewrite <-(ph_view_fst (hp s)).
    by apply (list_elem_of_fmap_2 fst _ (p, e)). }
  split; simpl; [done| |]; intros k'; setoid_rewrite Hv; setoid_rewrite elem_of_cons.
  - intros q. destruct (decide (k' = k)) as [->|Hne].
    + rewrite lookup_insert_eq. split; [naive_solver|].
      intros (e & [[= -> ->]|Hin] & Hke); [done|].
      assert (entries s !! k = Some q) by (apply He; eauto). congruence.
    + rewrite lookup_insert_ne, He by done. naive_solver.
  - intros e. destruct (decide (k' = k)) as [->|Hne].
    + rewrite lookup_insert_eq. split; [naive_solver|].
      intros (q & [[= -> ->]|Hin] & Hke); [done|].
      assert (m !! k = Some e) by (apply Hm; eauto). congruence.
    + rewrite lookup_insert_ne, Hm by done. naive_solver.
Qed.

Lemma rep_view_remove s m h' k p d :
  hp_rep s m → heap_ok ph_le h' → data_key d = k →
  ph_view (hp s) ≡ₚ (p, d) :: ph_view h' → 
  hp_rep (mk_hpolicy h' (delete k (entries s))) (delete k m).
Proof.
  intros Hrep Hok Hd Hv. pose proof (rep_wf _ _ Hrep) as Hwf.
  assert (NoDup (p :: (ph_view h').*1)) as [Hp _]%NoDup_cons.
  { destruct Hwf as [Hnd _]. rewrite <-(ph_view_fst (hp s)) in Hnd.
    by rewrite Hv in Hnd. }
  destruct Hrep as [_ He Hm].
  assert (∀ q e, (q, e) ∈ ph_view h' → data_key e ≠ k) as Hk.
  { intros q e Hin Hke.
    assert (entries s !! k = Some p) as Hep by (apply He; exists d; rewrite Hv; set_solver).
    assert (entries s !! k = Some q) as Heq by (apply He; exists e; rewrite Hv; set_solver).
    apply Hp. assert (q = p) as -> by congruence.
    by apply (list_elem_of_fmap_2 fst _ (p, e)). }
  setoid_rewrite Hv in He. setoid_rewrite Hv in Hm. setoid_rewrite elem_of_cons in He.
  setoid_rewrite elem_of_cons in Hm.
  split; simpl; [done| |]; intros k'.
  - intros q. destruct (decide (k' = k)) as [->|Hne].
    + rewrite lookup_delete_eq. split; [done|]. intros (e & Hin & Hke). by destruct (Hk q e).
    + rewrite lookup_delete_ne, He by done. naive_solver.
  - intros e. destruct (decide (k' = k)) as [->|Hne].
    + rewrite lookup_delete_eq. split; [done|]. intros (q & Hin & Hke). by destruct (Hk q e).
    + rewrite lookup_delete_ne, Hm by done. naive_solver.
Qed.

Lemma rep_view_update s m h' k p d d' rest :
  hp_rep s m → heap_ok ph_le h' → data_key d = k → data_key d' = k →
  ph_view (hp s) ≡ₚ (p, d) :: rest → ph_view h' ≡ₚ (p, d') :: rest →
  hp_rep (mk_hpolicy h' (entries s)) (<[k := d']> m).
Proof.
  intros Hrep Hok Hd Hd' Hv Hv'.
  assert (NoDup (p :: rest.*1)) as [Hp _]%NoDup_cons.
  { destruct (rep_wf _ _ Hrep) as [Hnd _]. rewrite <-(ph_view_fst (hp s)) in Hnd.
    by rewrite Hv in Hnd. }
  destruct Hrep as [_ He Hm].
  assert (entries s !! k = Some p) as Hkp by (apply He; exists d; rewrite Hv; set_solver).
  setoid_rewrite Hv in He. setoid_rewrite Hv in Hm.
  setoid_rewrite elem_of_cons in He. setoid_rewrite elem_of_cons in Hm.
  assert (∀ q e, (q, e) ∈ rest → data_key e ≠ k) as Hk.
  { intros q e Hin Hke. assert (entries s !! k = Some q) by (apply He; eauto).
    assert (q = p) as -> by congruence.
    by apply Hp, (list_elem_of_fmap_2 fst _ (p, e)). }
  split; simpl; [done| |]; intros k'; setoid_rewrite Hv'; setoid_rewrite elem_of_cons.
  - intros q. rewrite He. naive_solver.
  - intros e. destruct (decide (k' = k)) as [->|Hne].
    + rewrite lookup_insert_eq. split; [naive_solver|].
      intros (q & [[= -> ->]|Hin] & Hke); [done|].
      by destruct (Hk q e).
    + rewrite lookup_insert_ne, Hm by done. naive_solver.
Qed.

(** ** The operations both policies perform *)

(** Tracking a fresh entry: store it, index it, push it. *)
Lemma hp_insert_spec s m k e :
  hp_rep s m → k ∉ dom m → data_key (data e) = k →
  let p := fresh (dom (pmem (hp s))) in
  ∃ h', Push p (mk_pheap (<[p := e]> (pmem (hp s))) (parr (hp s))) = Some h' ∧
        hp_rep (mk_hpolicy h' (<[k := p]> (entries s))) (<[k := data e]> m).
Proof.
  intros Hrep Hk Hkey p. pose proof (rep_wf _ _ Hrep) as [Hnd Hidx].
  assert (pmem (hp s) !! p = None) as Hfresh by (apply not_elem_of_dom, is_fresh).
  set (h0 := mk_pheap _ _).
  assert (p ∉ parr (hp s)) as Hp.
  { intros [i Hi]%list_elem_of_lookup. destruct (Hidx i p Hi) as (? & ? & _). congruence. }
  assert (ph_view h0 = ph_view (hp s)) as Hv.
  { apply (ph_view_data (pmem (hp s))). intros q Hq. unfold ph_data.
    rewrite lookup_insert_ne; [done|]. by intros ->. }
  assert (heap_ok ph_le h0) as Hok.
  { destruct (rep_heap _ _ Hrep) as [_ Ho]. split.
    - split; [done|]. intros i q Hq. simpl in *. rewrite lookup_insert_ne; [by apply Hidx|].
      intros <-. by apply Hp, list_elem_of_lookup_2 with i.
    - unfold at_. simpl. rewrite Hv. exact Ho. }
  destruct (Push_spec ph_le ph_le_total h0 p (p, data e) Hok) as (h' & -> & Hok' & Hv').
  { split; [done|]. exists e. simpl. by rewrite lookup_insert_eq. }
  exists h'. split; [done|]. apply rep_view_add; try done.
  - apply not_elem_of_dom. by rewrite (rep_dom _ _ Hrep).
  - simpl in Hv'. by rewrite Hv', Hv.
Qed.

(** Forgetting a tracked entry. *)
Lemma hp_remove_spec s m k p :
  hp_rep s m → entries s !! k = Some p →
  ∃ e i x h', pmem (hp s) !! p = Some e ∧ slice_index (index e) = Some i ∧
    Remove i (hp s) = Some (x, h') ∧
    hp_rep (mk_hpolicy h' (delete k (entries s))) (delete k m).
Proof.
  intros Hrep Hp. pose proof (rep_lookup s m k Hrep) as Hlk. rewrite Hp in Hlk.
  destruct Hlk as (i & e & Hi & He & Hie & _ & Hke & Hvi).
  destruct (Remove_spec (X := loc) ph_le ph_le_total i (hp s) (rep_heap _ _ Hrep)) as (x & h' & Hrm & Hok & Hv).
  { simpl. by eapply lookup_lt_Some. }
  exists e, i, x, h'. split; [done|]. split; [by rewrite Hie, slice_index_nat|].
  split; [done|]. eapply (rep_view_remove s m h' k p (data e)); try done.
  simpl in Hv. unfold at_ in Hv. simpl in Hv.
  by rewrite (list_lookup_total_correct _ _ _ Hvi) in Hv.
Qed.

Lemma ph_view_update (h : pheap T) i p e e' :
  ph_wf h → parr h !! i = Some p → pmem h !! p = Some e → index e' = index e →
  let h0 := mk_pheap (<[p := e']> (pmem h)) (parr h) in
  ph_wf h0 ∧ ph_view h0 = <[i := (p, data e')]> (ph_view h).
Proof.
  intros [Hnd Hidx] Hi He Hie h0. split.
  - split; [done|]. intros j q Hj. simpl in *. destruct (decide (q = p)) as [->|].
    + exists e'. rewrite lookup_insert_eq. split; [done|]. rewrite Hie.
      destruct (Hidx j p Hj) as (? & ? & ?). congruence.
    + rewrite lookup_insert_ne by done. by apply Hidx.
  - apply list_eq. intros j. unfold ph_view. simpl.
    pose proof (lookup_lt_Some _ _ _ Hi). destruct (decide (j = i)) as [->|Hne].
    + rewrite list_lookup_insert_eq by (by rewrite length_fmap).
      rewrite list_lookup_fmap, Hi. simpl. unfold ph_data. by rewrite lookup_insert_eq.
    + rewrite list_lookup_insert_ne, !list_lookup_fmap by done.
      destruct (parr h !! j) as [q|] eqn:Hj; [|done]. simpl. unfold ph_data.
      rewrite lookup_insert_ne; [done|]. intros ->. by pose proof (NoDup_lookup _ _ _ _ Hnd Hi Hj).
Qed.

(** Changing the fields of a tracked entry in place and repairing the heap. *)
Lemma hp_update_spec s m k p e e' :
  hp_rep s m → entries s !! k = Some p → pmem (hp s) !! p = Some e →
  index e' = index e → data_key (data e') = k →
  ∃ i h', slice_index (index e') = Some i ∧
    Fix i (mk_pheap (<[p := e']> (pmem (hp s))) (parr (hp s))) = Some h' ∧
    hp_rep (mk_hpolicy h' (entries s)) (<[k := data e']> m).
Proof.
  intros Hrep Hp He Hie Hk'. pose proof (rep_lookup s m k Hrep) as Hlk. rewrite Hp in Hlk.
  destruct Hlk as (i & e0 & Hi & He0 & Hie0 & _ & Hke & Hvi).
  assert (e0 = e) as -> by congruence. exists i.
  destruct (ph_view_update _ i p e e' (rep_wf _ _ Hrep) Hi He Hie) as [Hwf0 Hv0].
  set (h0 := mk_pheap _ _) in *.
  pose proof (lookup_lt_Some _ _ _ Hvi) as Hlt.
  destruct (Fix_spec (X := loc) ph_le ph_le_total i h0) as (h' & Hfix & Hok & Hv).
  { exact Hwf0. }
  { simpl. by rewrite Hv0, length_insert. }
  { simpl. rewrite Hv0, length_insert. destruct (rep_heap _ _ Hrep) as [_ Ho].
    eapply (heap_ordered_change ph_le _ i (at_ ph_le (hp s))); [|done|exact Ho].
    intros j Hj Hne. unfold at_. simpl. by rewrite Hv0, list_lookup_total_insert_ne. }
  exists h'. split; [by rewrite Hie, Hie0, slice_index_nat|]. split; [done|].
  eapply (rep_view_update s m h' k p (data e) (data e')
    (take i (ph_view (hp s)) ++ drop (S i) (ph_view (hp s)))); try done.
  - by rewrite Permutation_middle, take_drop_middle.
  - simpl in Hv. rewrite Hv, Hv0, insert_take_drop by done.
    by rewrite Permutation_middle.
Qed.

(** The root of the heap. *)
Lemma hp_root_spec s m :
  hp_rep s m →
  match parr (hp s) !! 0 with
  | None => parr (hp s) = [] ∧ m = ∅
  | Some p => ∃ e, pmem (hp s) !! p = Some e ∧ m !! data_key (data e) = Some (data e) ∧
                ∀ k d, m !! k = Some d → ltb d (data e) = false
  end.
Proof.
  intros Hrep. pose proof (rep_wf _ _ Hrep) as Hwf.
  destruct (parr (hp s) !! 0) as [p|] eqn:Hp.
  - destruct Hwf as [_ Hidx]. destruct (Hidx 0 p Hp) as (e & He & _).
    assert (ph_view (hp s) !! 0 = Some (p, data e)) as Hv0.
    { rewrite (ph_view_lookup _ _ p Hp). unfold ph_data. by rewrite He. }
    exists e. split; [done|]. split.
    + apply (rep_map _ _ Hrep). exists p. split; [|done]. by eapply list_elem_of_lookup_2.
    + intros k d (q & Hin & _)%(rep_map _ _ Hrep).
      apply list_elem_of_lookup in Hin as [j Hj].
      pose proof (heap_ok_root (X := loc) ph_le ph_le_total (hp s) j (rep_heap _ _ Hrep)) as Hle.
      unfold at_ in Hle. simpl in Hle. specialize (Hle (lookup_lt_Some _ _ _ Hj)).
      rewrite (list_lookup_total_correct _ _ _ Hj), (list_lookup_total_correct _ _ _ Hv0) in Hle.
      exact Hle.
  - apply lookup_ge_None in Hp. destruct (parr (hp s)) eqn:E; [|simpl in Hp; lia].
    split; [done|]. apply map_eq. intros k. rewrite lookup_empty.
    destruct (m !! k) as [d|] eqn:Hd; [|done]. apply (rep_map _ _ Hrep) in Hd as (q & Hin & _).
    unfold ph_view in Hin. rewrite E in Hin. set_solver.
Qed.

Lemma hp_rep_empty : hp_rep (mk_hpolicy (mk_pheap ∅ []) ∅) ∅.
Proof.
  split; simpl.
  - split; [split; [constructor|done]|]. intros k Hk. simpl in Hk. lia.
  - intros k p. rewrite lookup_empty. set_solver.
  - intros k d. rewrite lookup_empty. set_solver.
Qed.
End Policy.
