(* ===== verification/Lfu.v ===== *)
(** The LFU eviction policy, [src/internal/eviction/lfu.go]: a min-heap of
    entries ordered by access count and, among equal counts, by last access. *)
From S2P Require Import Prelude Policy Heap IndexedHeap.

Module LFU.

(** [lfuEntry]. *)
Record lfuEntry := mk_lfuEntry {
  key : string;
  freq : Z;
  accessedAt : Time;
  heap_index : Z
}.

(** The fields [lfuHeap.Less] and [Evict] read: key, count, last access. *)
Definition fields (e : lfuEntry) : string * (Z * Time) := (key e, (freq e, accessedAt e)).

(** [lfuHeap.Less] on the two entries compared. *)
Definition lfuHeap_Less (a b : string * (Z * Time)) : bool :=
  if negb (a.2.1 =? b.2.1)%Z then (a.2.1 <? b.2.1)%Z
  else Before a.2.2 b.2.2.

#[export] Program Instance lfu_indexed : IndexedEntry lfuEntry (string * (Z * Time)) := {
  index := heap_index;
  set_index i e := mk_lfuEntry (key e) (freq e) (accessedAt e) i;
  data := fields;
  data_key := fst;
  ltb := lfuHeap_Less
}.
Next Obligation. done. Qed.
Next Obligation. done. Qed.
Next Obligation.
  intros [ka [fa ta]] [kb [fb tb]]; unfold lfuHeap_Less, Before; simpl.
  destruct (Z.eqb_spec fa fb), (Z.eqb_spec fb fa); simpl; lia.
Qed.
Next Obligation.
  intros [ka [fa ta]] [kb [fb tb]] [kc [fc tc]]; unfold lfuHeap_Less, Before; simpl.
  destruct (Z.eqb_spec fb fa), (Z.eqb_spec fc fb), (Z.eqb_spec fc fa); simpl; lia.
Qed.

(** [LFU]: the heap [h] and the map [entries]. *)
Definition LFU : Type := hpolicy lfuEntry.

Definition NewLFU : option LFU :=
  h ← Init (mk_pheap ∅ []);
  Some (mk_hpolicy h ∅).

Definition LFU_OnAccess (now : Time) (k : string) (l : LFU) : option LFU :=
  match entries l !! k with
  | None => Some l
  | Some p =>
      e ← pmem (hp l) !! p;
      let e' := mk_lfuEntry (key e) (wrap64 (freq e + 1)) now (heap_index e) in
      i ← slice_index (heap_index e');
      h ← Fix i (mk_pheap (<[p := e']> (pmem (hp l))) (parr (hp l)));
      Some (mk_hpolicy h (entries l))
  end.

Definition LFU_OnInsert (now : Time) (k : string) (l : LFU) : option LFU :=
  let p := fresh (dom (pmem (hp l))) in
  let e := mk_lfuEntry k 1 now 0 in
  h ← Push p (mk_pheap (<[p := e]> (pmem (hp l))) (parr (hp l)));
  Some (mk_hpolicy h (<[k := p]> (entries l))).

Definition LFU_OnEvict (k : string) (l : LFU) : option LFU :=
  match entries l !! k with
  | None => Some l
  | Some p =>
      e ← pmem (hp l) !! p;
      i ← slice_index (heap_index e);
      '(_, h) ← Remove i (hp l);
      Some (mk_hpolicy h (delete k (entries l)))
  end.

Definition LFU_Evict (l : LFU) : option (option string) :=
  if decide (heap_Len (hp l) = 0) then Some None
  else p ← parr (hp l) !! 0; e ← pmem (hp l) !! p; Some (Some (key e)).

Definition LFU_Name (_ : LFU) : string := "lfu".

#[global] Instance LFU_policy : EvictionPolicy LFU := {
  OnAccess := LFU_OnAccess;
  OnInsert now k _ l := LFU_OnInsert now k l;
  OnEvict := LFU_OnEvict;
  Evict l := r ← LFU_Evict l; Some (r, l);
  Name := LFU_Name
}.

(** ** The abstract policy: a map from tracked keys to count and last access *)

Abbreviation table := (gmap string (string * (Z * Z))) (only parsing).

Definition spec_access (now : Time) (k : string) (m : table) : table :=
  match m !! k with
  | None => m
  | Some d => <[k := (k, (wrap64 (d.2.1 + 1), now))]> m
  end.

Lemma LFU_OnAccess_refines l m now k :
  hp_rep l m →
  ∃ l', LFU_OnAccess now k l = Some l' ∧ hp_rep l' (spec_access now k m).
Proof.
  intros Hrep. unfold LFU_OnAccess, spec_access.
  pose proof (rep_lookup l m k Hrep) as Hlk.
  destruct (entries l !! k) as [p|] eqn:Hp; [|rewrite Hlk; eauto].
  destruct Hlk as (j & e & _ & He & _ & -> & Hk & _). simpl in Hk.
  rewrite He. bind.
  destruct (hp_update_spec l m k p e
    (mk_lfuEntry (key e) (wrap64 (freq e + 1)) now (heap_index e)) Hrep Hp He)
    as (i & h & Hi & Hfix & Hrep'); [done..|].
  simpl in Hi |- *. rewrite Hi; simpl. rewrite Hfix; simpl. eexists. split; [done|].
  unfold fields in Hrep'; simpl in Hrep'. by rewrite Hk in Hrep'.
Qed.

Lemma LFU_OnInsert_refines l m now k :
  hp_rep l m → k ∉ dom m →
  ∃ l', LFU_OnInsert now k l = Some l' ∧ hp_rep l' (<[k := (k, (1%Z, now))]> m).
Proof.
  intros Hrep Hk. unfold LFU_OnInsert.
  destruct (hp_insert_spec l m k (mk_lfuEntry k 1 now 0) Hrep Hk) as (h & -> & Hrep'); [done|].
  simpl. eauto.
Qed.

Lemma LFU_OnEvict_refines l m k :
  hp_rep l m → ∃ l', LFU_OnEvict k l = Some l' ∧ hp_rep l' (delete k m).
Proof.
  intros Hrep. unfold LFU_OnEvict. pose proof (rep_lookup l m k Hrep) as Hlk.
  destruct (entries l !! k) as [p|] eqn:Hp; [|rewrite delete_id; eauto].
  destruct (hp_remove_spec l m k p Hrep Hp) as (e & i & x & h & -> & Hi & Hrm & Hrep').
  bind. simpl in Hi. rewrite Hi. bind.
  rewrite Hrm. simpl. eauto.
Qed.

Lemma LFU_Evict_refines l m :
  hp_rep l m →
  ∃ r, LFU_Evict l = Some r ∧
    match r with
    | None => m = ∅
    | Some k => ∃ d, m !! k = Some d ∧
                  ∀ k' d', m !! k' = Some d' → lfuHeap_Less d' d = false
    end.
Proof.
  intros Hrep. pose proof (hp_root_spec l m Hrep) as Hroot. unfold LFU_Evict.
  destruct (parr (hp l) !! 0) as [p|] eqn:Hp.
  - destruct Hroot as (e & He & Hm & Hmin). rewrite decide_False.
    2:{ simpl. unfold ph_Len. apply lookup_lt_Some in Hp. lia. }
    bind. rewrite He. eexists. split; [done|]. exists (fields e). done.
  - destruct Hroot as [Hnil ->]. exists None. rewrite decide_True; [done|].
    simpl. unfold ph_Len. by rewrite Hnil.
Qed.

#[global] Program Instance LFU_spec : EvictionPolicySpec LFU := {
  policy_wf l := ∃ m, hp_rep l m;
  tracked l := dom (entries l)
}.
Next Obligation.
  intros now k l [m Hm]. destruct (LFU_OnAccess_refines l m now k Hm) as (l' & Hl' & Hr).
  exists l'. split; [done|]. split; [eauto|].
  rewrite (rep_dom _ _ Hm), (rep_dom _ _ Hr). unfold spec_access.
  destruct (m !! k) eqn:E; [|done]. apply dom_insert_lookup_L. eauto.
Qed.
Next Obligation.
  intros now k e l [m Hm] Hk. rewrite (rep_dom _ _ Hm) in Hk.
  destruct (LFU_OnInsert_refines l m now k Hm Hk) as (l' & Hl' & Hr).
  exists l'. split; [done|]. split; [eauto|].
  by rewrite (rep_dom _ _ Hm), (rep_dom _ _ Hr), dom_insert_L.
Qed.
Next Obligation.
  intros k l [m Hm]. destruct (LFU_OnEvict_refines l m k Hm) as (l' & Hl' & Hr).
  exists l'. split; [done|]. split; [eauto|].
  by rewrite (rep_dom _ _ Hm), (rep_dom _ _ Hr), dom_delete_L.
Qed.
Next Obligation.
  intros l [m Hm]. destruct (LFU_Evict_refines l m Hm) as (r & Hr & Hs).
  exists r, l. rewrite (rep_dom _ _ Hm). simpl. rewrite Hr.
  split; [done|]. split; [eauto|]. split; [done|].
  destruct r as [k|]; [|subst; apply dom_empty_L].
  destruct Hs as (d & Hd & _). by apply elem_of_dom_2 in Hd.
Qed.

(** ** Whole histories of callbacks *)

Inductive event :=
| Access (now : Time) (k : string)
| Insert (now : Time) (k : string)
| Remove_ (k : string).

Definition step (l : LFU) (e : event) : option LFU :=
  match e with
  | Access now k => LFU_OnAccess now k l
  | Insert now k => LFU_OnInsert now k l
  | Remove_ k => LFU_OnEvict k l
  end.

Fixpoint run (l : LFU) (evs : list event) : option LFU :=
  match evs with
  | [] => Some l
  | e :: evs => l' ← step l e; run l' evs
  end.

(** What a history says of one key: whether it is tracked, how often it has
    been used since it was inserted, and when last. *)
Record usage := mk_usage { live : bool; count : Z; last_at : Time }.

Definition use (k : string) (u : usage) (e : event) : usage :=
  match e with
  | Insert now k' =>
      if decide (k' = k) then mk_usage true 1 now else u
  | Access now k' =>
      if decide (k' = k ∧ live u = true) then mk_usage true (count u + 1) now else u
  | Remove_ k' =>
      if decide (k' = k) then mk_usage false 0 0 else u
  end.

Definition usage_of (evs : list event) (k : string) : usage :=
  foldl (use k) (mk_usage false 0 0) evs.

(** The cache only inserts keys the policy does not track yet. *)
Fixpoint legal_after (past evs : list event) : bool :=
  match evs with
  | [] => true
  | e :: evs =>
      match e with Insert _ k => negb (live (usage_of past k)) | _ => true end &&
      legal_after (past ++ [e]) evs
  end.

Definition legal (evs : list event) : bool := legal_after [] evs.

Lemma usage_snoc evs e k : usage_of (evs ++ [e]) k = use k (usage_of evs k) e.
Proof. unfold usage_of. by rewrite foldl_app. Qed.

Lemma count_bound evs k : (0 ≤ count (usage_of evs k) ≤ Z.of_nat (length evs))%Z.
Proof.
  induction evs as [|e evs IH] using rev_ind; [done|].
  rewrite usage_snoc, length_app; simpl.
  destruct e; simpl; case_decide; simpl; lia.
Qed.

(** The table that a history defines. *)
Definition agrees (evs : list event) (m : table) : Prop :=
  ∀ k, m !! k =
    let u := usage_of evs k in if live u then Some (k, (count u, last_at u)) else None.

Lemma LFU_step_refines l m past e :
  hp_rep l m → agrees past m → (Z.of_nat (length past) < int64_max)%Z →
  match e with Insert _ k => negb (live (usage_of past k)) | _ => true end = true →
  ∃ l' m', step l e = Some l' ∧ hp_rep l' m' ∧ agrees (past ++ [e]) m'.
Proof.
  intros Hrep Hag Hlen Hleg. unfold agrees.
  destruct e as [now k|now k|k]; simpl.
  - destruct (LFU_OnAccess_refines l m now k Hrep) as (l' & Hl' & Hrep').
    exists l', (spec_access now k m). split; [done|]. split; [done|].
    intros k'. cbv zeta. rewrite usage_snoc; simpl. unfold spec_access. pose proof (Hag k) as Hk. pose proof (Hag k') as Hk'.
    cbv zeta in Hk, Hk' |- *. pose proof (count_bound past k).
    destruct (m !! k) as [d|] eqn:Ed.
    + destruct (live (usage_of past k)) eqn:Hlive; simplify_eq/=.
      destruct (decide (k = k')) as [->|].
      * rewrite lookup_insert_eq, decide_True by done. simpl.
        rewrite wrap64_id; [done|]. unfold int64_min, int64_max in *. lia.
      * rewrite lookup_insert_ne, decide_False by (done || intros [-> ?]; done). done.
    + destruct (live (usage_of past k)) eqn:Hlive; simplify_eq/=.
      rewrite decide_False by (intros [-> ?]; congruence). done.
  - apply negb_true_iff in Hleg. pose proof (Hag k) as Hk. cbv zeta in Hk.
    rewrite Hleg in Hk.
    destruct (LFU_OnInsert_refines l m now k Hrep) as (l' & Hl' & Hrep').
    { by apply not_elem_of_dom. }
    eexists l', _. split; [done|]. split; [done|]. intros k'.
    cbv zeta. rewrite usage_snoc; simpl. destruct (decide (k = k')) as [->|].
    + by rewrite lookup_insert_eq.
    + rewrite lookup_insert_ne by done. apply Hag.
  - destruct (LFU_OnEvict_refines l m k Hrep) as (l' & Hl' & Hrep').
    eexists l', _. split; [done|]. split; [done|]. intros k'.
    cbv zeta. rewrite usage_snoc; simpl. destruct (decide (k = k')) as [->|].
    + by rewrite lookup_delete_eq.
    + rewrite lookup_delete_ne by done. apply Hag.
Qed.

Lemma LFU_run_refines past evs l m :
  hp_rep l m → agrees past m → (Z.of_nat (length past + length evs) ≤ int64_max)%Z →
  legal_after past evs = true →
  ∃ l' m', run l evs = Some l' ∧ hp_rep l' m' ∧ agrees (past ++ evs) m'.
Proof.
  revert past l m. induction evs as [|e evs IH]; intros past l m Hrep Hag Hlen Hleg; simpl in *.
  - exists l, m. by rewrite app_nil_r.
  - apply andb_prop in Hleg as [He Hleg].
    destruct (LFU_step_refines l m past e Hrep Hag) as (l1 & m1 & -> & Hrep1 & Hag1); [lia|done|].
    destruct (IH (past ++ [e]) l1 m1) as (l' & m' & Hrun & Hrep' & Hag'); [done|done| |done|].
    { rewrite length_app; simpl. lia. }
    exists l', m'. split; [done|]. split; [done|]. by rewrite <-(assoc_L (++)) in Hag'.
Qed.

(** C28: the LFU policy, run on any legal history of callbacks short enough
    that no counter overflows, never panics, tracks exactly the live keys, and
    proposes for eviction a live key used least often since its insertion,
    among those a key whose last use is oldest; it proposes none only if none
    is live. *)
Theorem LFU_evicts_least_frequently_used (evs : list event)
  (Hlegal : legal evs = true) (Hlen : (Z.of_nat (length evs) ≤ int64_max)%Z) :
  ∃ l, (l0 ← NewLFU; run l0 evs) = Some l ∧
    (∀ k, k ∈ dom (entries l) ↔ live (usage_of evs k) = true) ∧
    ∃ r, LFU_Evict l = Some r ∧
    match r with
    | None => ∀ k, live (usage_of evs k) = false
    | Some k =>
        live (usage_of evs k) = true ∧
        ∀ k', live (usage_of evs k') = true →
          (count (usage_of evs k) < count (usage_of evs k'))%Z ∨
          count (usage_of evs k) = count (usage_of evs k') ∧
          (last_at (usage_of evs k) ≤ last_at (usage_of evs k'))%Z
    end.
Proof.
  destruct (LFU_run_refines [] evs (mk_hpolicy (mk_pheap ∅ []) ∅) ∅ hp_rep_empty)
    as (l & m & Hrun & Hrep & Hag); [done|done|done|].
  exists l. split; [done|]. simpl in Hag. split.
  - intros k. rewrite (rep_dom _ _ Hrep), elem_of_dom, Hag; cbv zeta.
    destruct (live _); [|by split; [intros [? ?]|]]. split; eauto.
  - destruct (LFU_Evict_refines l m Hrep) as (r & Hr & Hspec). exists r. split; [done|].
    destruct r as [k|].
    + destruct Hspec as (d & Hd & Hmin). pose proof (Hag k) as Hk. cbv zeta in Hk.
      rewrite Hd in Hk. destruct (live (usage_of evs k)); simplify_eq. split; [done|].
      intros k' Hk'. pose proof (Hag k') as Hmk'. cbv zeta in Hmk'. rewrite Hk' in Hmk'.
      specialize (Hmin _ _ Hmk'). unfold lfuHeap_Less, Before in Hmin. simpl in Hmin.
      destruct (Z.eqb_spec (count (usage_of evs k')) (count (usage_of evs k))); simpl in Hmin; lia.
    + subst m. intros k. specialize (Hag k). cbv zeta in Hag. by destruct (live _).
Qed.

Lemma LFU_evicts_least_frequently_used_witness :
  ∃ l, (l0 ← NewLFU; run l0 [Insert 1 "a"; Insert 2 "b"; Insert 3 "c"; Access 4 "a"; Access 5 "b"]) = Some l ∧
       LFU_Evict l = Some (Some "c").
Proof.
  destruct (LFU_evicts_least_frequently_used
    [Insert 1 "a"; Insert 2 "b"; Insert 3 "c"; Access 4 "a"; Access 5 "b"] eq_refl
    ltac:(vm_compute; discriminate)) as (l & Hl & _).
  exists l. split; [exact Hl|].
  vm_compute in Hl. injection Hl as <-. vm_compute. reflexivity.
Defined.

End LFU.
