(* ===== verification/TtlPolicy.v ===== *)
(** The TTL-only eviction policy, [src/internal/eviction/ttl.go]: a min-heap of
    entries ordered by the expiry time recorded when the key was inserted. *)
From S2P Require Import Prelude Policy Heap IndexedHeap.

Module TTLOnly.

(** [ttlEntry]. *)
Record ttlEntry := mk_ttlEntry {
  key : string;
  expiresAt : Time;
  heap_index : Z
}.

(** The fields [ttlHeap.Less] and [Evict] read. *)
Definition fields (e : ttlEntry) : string * Time := (key e, expiresAt e).

(** [ttlHeap.Less] on the two entries compared. *)
Definition ttlHeap_Less (a b : string * Time) : bool := Before a.2 b.2.

#[export] Program Instance ttl_indexed : IndexedEntry ttlEntry (string * Time) := {
  index := heap_index;
  set_index i e := mk_ttlEntry (key e) (expiresAt e) i;
  data := fields;
  data_key := fst;
  ltb := ttlHeap_Less
}.
Next Obligation. done. Qed.
Next Obligation. done. Qed.
Next Obligation. intros [ka ta] [kb tb]; unfold ttlHeap_Less, Before; simpl. lia. Qed.
Next Obligation.
  intros [ka ta] [kb tb] [kc tc]; unfold ttlHeap_Less, Before; simpl. lia.
Qed.

(** [TTLOnly]: the heap [h] and the map [entries]. *)
Definition TTLOnly : Type := hpolicy ttlEntry.

Definition NewTTLOnly : option TTLOnly :=
  h ← Init (mk_pheap ∅ []);
  Some (mk_hpolicy h ∅).

Definition TTLOnly_OnAccess (_ : string) (t : TTLOnly) : option TTLOnly := Some t.

Definition TTLOnly_OnInsert (k : string) (expires : Time) (t : TTLOnly) : option TTLOnly :=
  let p := fresh (dom (pmem (hp t))) in
  let e := mk_ttlEntry k expires 0 in
  h ← Push p (mk_pheap (<[p := e]> (pmem (hp t))) (parr (hp t)));
  Some (mk_hpolicy h (<[k := p]> (entries t))).

Definition TTLOnly_OnEvict (k : string) (t : TTLOnly) : option TTLOnly :=
  match entries t !! k with
  | None => Some t
  | Some p =>
      e ← pmem (hp t) !! p;
      i ← slice_index (heap_index e);
      '(_, h) ← Remove i (hp t);
      Some (mk_hpolicy h (delete k (entries t)))
  end.

Definition TTLOnly_Evict (t : TTLOnly) : option (option string) :=
  if decide (heap_Len (hp t) = 0) then Some None
  else p ← parr (hp t) !! 0; e ← pmem (hp t) !! p; Some (Some (key e)).

Definition TTLOnly_Name (_ : TTLOnly) : string := "ttl".

#[global] Instance TTLOnly_policy : EvictionPolicy TTLOnly := {
  OnAccess _ k t := TTLOnly_OnAccess k t;
  OnInsert _ k e t := TTLOnly_OnInsert k e t;
  OnEvict := TTLOnly_OnEvict;
  Evict t := r ← TTLOnly_Evict t; Some (r, t);
  Name := TTLOnly_Name
}.

(** ** The abstract policy: a map from tracked keys to recorded expiries *)

Lemma TTLOnly_OnInsert_refines l m k exp :
  hp_rep l m → k ∉ dom m →
  ∃ l', TTLOnly_OnInsert k exp l = Some l' ∧ hp_rep l' (<[k := (k, exp)]> m).
Proof.
  intros Hrep Hk. unfold TTLOnly_OnInsert.
  destruct (hp_insert_spec l m k (mk_ttlEntry k exp 0) Hrep Hk) as (h & -> & Hrep'); [done|].
  simpl. eauto.
Qed.

Lemma TTLOnly_OnEvict_refines l m k :
  hp_rep l m → ∃ l', TTLOnly_OnEvict k l = Some l' ∧ hp_rep l' (delete k m).
Proof.
  intros Hrep. unfold TTLOnly_OnEvict. pose proof (rep_lookup l m k Hrep) as Hlk.
  destruct (entries l !! k) as [p|] eqn:Hp; [|rewrite delete_id; eauto].
  destruct (hp_remove_spec l m k p Hrep Hp) as (e & i & x & h & -> & Hi & Hrm & Hrep').
  bind. simpl in Hi. rewrite Hi. bind.
  rewrite Hrm. simpl. eauto.
Qed.

Lemma TTLOnly_Evict_refines l m :
  hp_rep l m →
  ∃ r, TTLOnly_Evict l = Some r ∧
    match r with
    | None => m = ∅
    | Some k => ∃ d, m !! k = Some d ∧
                  ∀ k' d', m !! k' = Some d' → ttlHeap_Less d' d = false
    end.
Proof.
  intros Hrep. pose proof (hp_root_spec l m Hrep) as Hroot. unfold TTLOnly_Evict.
  destruct (parr (hp l) !! 0) as [p|] eqn:Hp.
  - destruct Hroot as (e & He & Hm & Hmin). rewrite decide_False.
    2:{ simpl. unfold ph_Len. apply lookup_lt_Some in Hp. lia. }
    bind. rewrite He. eexists. split; [done|]. exists (fields e). done.
  - destruct Hroot as [Hnil ->]. exists None. rewrite decide_True; [done|].
    simpl. unfold ph_Len. by rewrite Hnil.
Qed.

#[global] Program Instance TTLOnly_spec : EvictionPolicySpec TTLOnly := {
  policy_wf l := ∃ m, hp_rep l m;
  tracked l := dom (entries l)
}.
Next Obligation. intros now k t [m Hm]. exists t. simpl. eauto 10. Qed.
Next Obligation.
  intros now k e l [m Hm] Hk. rewrite (rep_dom _ _ Hm) in Hk.
  destruct (TTLOnly_OnInsert_refines l m k e Hm Hk) as (l' & Hl' & Hr).
  exists l'. split; [done|]. split; [eauto|].
  by rewrite (rep_dom _ _ Hm), (rep_dom _ _ Hr), dom_insert_L.
Qed.
Next Obligation.
  intros k l [m Hm]. destruct (TTLOnly_OnEvict_refines l m k Hm) as (l' & Hl' & Hr).
  exists l'. split; [done|]. split; [eauto|].
  by rewrite (rep_dom _ _ Hm), (rep_dom _ _ Hr), dom_delete_L.
Qed.
Next Obligation.
  intros l [m Hm]. destruct (TTLOnly_Evict_refines l m Hm) as (r & Hr & Hs).
  exists r, l. rewrite (rep_dom _ _ Hm). simpl. rewrite Hr.
  split; [done|]. split; [eauto|]. split; [done|].
  destruct r as [k|]; [|subst; apply dom_empty_L].
  destruct Hs as (d & Hd & _). by apply elem_of_dom_2 in Hd.
Qed.

(** ** Whole histories of callbacks *)

Inductive event :=
| Access (k : string)
| Insert (k : string) (expires : Time)
| Remove_ (k : string).

Definition step (t : TTLOnly) (e : event) : option TTLOnly :=
  match e with
  | Access k => TTLOnly_OnAccess k t
  | Insert k exp => TTLOnly_OnInsert k exp t
  | Remove_ k => TTLOnly_OnEvict k t
  end.

Fixpoint run (t : TTLOnly) (evs : list event) : option TTLOnly :=
  match evs with
  | [] => Some t
  | e :: evs => t' ← step t e; run t' evs
  end.

(** The expiry a history records for one key; [None] if it is not tracked. *)
Definition note (k : string) (r : option Time) (e : event) : option Time :=
  match e with
  | Insert k' exp => if decide (k' = k) then Some exp else r
  | Access _ => r
  | Remove_ k' => if decide (k' = k) then None else r
  end.

Definition recorded (evs : list event) (k : string) : option Time := foldl (note k) None evs.

Fixpoint legal_after (past evs : list event) : bool :=
  match evs with
  | [] => true
  | e :: evs =>
      match e with Insert k _ => bool_decide (recorded past k = None) | _ => true end &&
      legal_after (past ++ [e]) evs
  end.

Definition legal (evs : list event) : bool := legal_after [] evs.

Lemma recorded_snoc evs e k : recorded (evs ++ [e]) k = note k (recorded evs k) e.
Proof. unfold recorded. by rewrite foldl_app. Qed.

Definition agrees (evs : list event) (m : gmap string (string * Time)) : Prop :=
  ∀ k, m !! k = pair k <$> recorded evs k.

Lemma TTLOnly_step_refines t m past e :
  hp_rep t m → agrees past m →
  match e with Insert k _ => bool_decide (recorded past k = None) | _ => true end = true →
  ∃ t' m', step t e = Some t' ∧ hp_rep t' m' ∧ agrees (past ++ [e]) m'.
Proof.
  intros Hrep Hag Hleg. unfold agrees.
  destruct e as [k|k exp|k]; simpl.
  - exists t, m. split; [done|]. split; [done|]. intros k'. rewrite recorded_snoc. apply Hag.
  - apply bool_decide_eq_true in Hleg.
    destruct (TTLOnly_OnInsert_refines t m k exp Hrep) as (t' & Ht' & Hrep').
    { apply not_elem_of_dom. by rewrite Hag, Hleg. }
    eexists t', _. split; [done|]. split; [done|]. intros k'. rewrite recorded_snoc; simpl.
    case_decide; subst; [by rewrite lookup_insert_eq|]. rewrite lookup_insert_ne by done. apply Hag.
  - destruct (TTLOnly_OnEvict_refines t m k Hrep) as (t' & Ht' & Hrep').
    eexists t', _. split; [done|]. split; [done|]. intros k'. rewrite recorded_snoc; simpl.
    case_decide; subst; [by rewrite lookup_delete_eq|]. rewrite lookup_delete_ne by done. apply Hag.
Qed.

Lemma TTLOnly_run_refines past evs t m :
  hp_rep t m → agrees past m → legal_after past evs = true →
  ∃ t' m', run t evs = Some t' ∧ hp_rep t' m' ∧ agrees (past ++ evs) m'.
Proof.
  revert past t m. induction evs as [|e evs IH]; intros past t m Hrep Hag Hleg; simpl in *.
  - exists t, m. by rewrite app_nil_r.
  - apply andb_prop in Hleg as [He Hleg].
    destruct (TTLOnly_step_refines t m past e Hrep Hag He) as (t1 & m1 & -> & Hrep1 & Hag1).
    destruct (IH (past ++ [e]) t1 m1) as (t' & m' & Hrun & Hrep' & Hag'); [done..|].
    exists t', m'. split; [done|]. split; [done|]. by rewrite <-(assoc_L (++)) in Hag'.
Qed.

(** C30: the TTL-only policy, run on any legal history of callbacks, never
    panics, tracks exactly the keys inserted and not removed, and proposes for
    eviction a tracked key whose expiry as recorded at insertion is the
    earliest, whatever the accesses in between; it proposes none only if none
    is tracked. *)
Theorem TTLOnly_evicts_earliest_recorded_expiry (evs : list event) (Hlegal : legal evs = true) :
  ∃ t, (t0 ← NewTTLOnly; run t0 evs) = Some t ∧
    (∀ k, k ∈ dom (entries t) ↔ is_Some (recorded evs k)) ∧
    ∃ r, TTLOnly_Evict t = Some r ∧
    match r with
    | None => ∀ k, recorded evs k = None
    | Some k => ∃ x, recorded evs k = Some x ∧
                  ∀ k' x', recorded evs k' = Some x' → (x ≤ x')%Z
    end.
Proof.
  destruct (TTLOnly_run_refines [] evs (mk_hpolicy (mk_pheap ∅ []) ∅) ∅ hp_rep_empty)
    as (t & m & Hrun & Hrep & Hag); [done|done|].
  exists t. split; [done|]. simpl in Hag. split.
  - intros k. by rewrite (rep_dom _ _ Hrep), elem_of_dom, Hag, fmap_is_Some.
  - destruct (TTLOnly_Evict_refines t m Hrep) as (r & Hr & Hspec). exists r. split; [done|].
    destruct r as [k|].
    + destruct Hspec as (d & Hd & Hmin). rewrite Hag in Hd.
      destruct (recorded evs k) as [x|] eqn:Hx; simplify_eq/=. exists x. split; [done|].
      intros k' x' Hx'. specialize (Hmin k' (k', x')). rewrite Hag, Hx' in Hmin.
      specialize (Hmin eq_refl). unfold ttlHeap_Less, Before in Hmin. simpl in Hmin. lia.
    + subst m. intros k. specialize (Hag k). rewrite lookup_empty in Hag. by destruct (recorded evs k).
Qed.

Lemma TTLOnly_evicts_earliest_recorded_expiry_witness :
  ∃ t, (t0 ← NewTTLOnly; run t0 [Insert "a" 30; Insert "b" 10; Insert "c" 20; Access "b"]) = Some t ∧
       TTLOnly_Evict t = Some (Some "b").
Proof.
  destruct (TTLOnly_evicts_earliest_recorded_expiry
    [Insert "a" 30; Insert "b" 10; Insert "c" 20; Access "b"] eq_refl) as (t & Ht & _).
  exists t. split; [exact Ht|].
  vm_compute in Ht. injection Ht as <-. vm_compute. reflexivity.
Defined.

End TTLOnly.
