(* ===== verification/RandomPolicy.v ===== *)
(** The Random eviction policy, [src/internal/eviction/random.go]: a slice of
    the current keys, sampled by a pseudo-random index. *)
From S2P Require Import Prelude Policy.

Module Random.

(** A [*rand.Rand]: the raw draws of its source, of which the generator has
    consumed [drawn]. The source is arbitrary, so whatever holds of [Intn]
    below holds of any seed. *)
Record Rand := mk_Rand { source : nat → Z; drawn : nat }.

(** [Intn n]: an index in [0, n), and a panic unless [0 < n]. *)
Definition Intn (n : nat) (r : Rand) : option (nat * Rand) :=
  if decide (n = 0) then None
  else Some (Z.to_nat (source r (drawn r) `mod` Z.of_nat n), mk_Rand (source r) (S (drawn r))).

Record Random := mk_Random { keys : list string; rng : Rand }.

Definition NewRandom (seed : nat → Z) : Random := mk_Random [] (mk_Rand seed 0).

Definition Random_OnAccess (_ : string) (r : Random) : option Random := Some r.

Definition Random_OnInsert (k : string) (r : Random) : option Random :=
  Some (mk_Random (keys r ++ [k]) (rng r)).

(** The loop [for i, k := range r.keys], from index [i]: on the first match,
    overwrite it with the last key and truncate. *)
Fixpoint OnEvict_loop (key : string) (i : nat) (rest ks : list string) : option (list string) :=
  match rest with
  | [] => Some ks
  | k :: rest =>
      if decide (k = key) then
        lastk ← ks !! (length ks - 1);
        Some (take (length ks - 1) (<[i := lastk]> ks))
      else OnEvict_loop key (S i) rest ks
  end.

Definition Random_OnEvict (key : string) (r : Random) : option Random :=
  ks ← OnEvict_loop key 0 (keys r) (keys r);
  Some (mk_Random ks (rng r)).

Definition Random_Evict (r : Random) : option (option string * Random) :=
  if decide (length (keys r) = 0) then Some (None, r)
  else '(i, g) ← Intn (length (keys r)) (rng r);
       k ← keys r !! i;
       Some (Some k, mk_Random (keys r) g).

Definition Random_Name (_ : Random) : string := "random".

#[global] Instance Random_policy : EvictionPolicy Random := {
  OnAccess _ k r := Random_OnAccess k r;
  OnInsert _ k _ r := Random_OnInsert k r;
  OnEvict := Random_OnEvict;
  Evict := Random_Evict;
  Name := Random_Name
}.

(** ** Removal by swap and truncate *)

Lemma swap_truncate (ks : list string) i k x :
  ks !! i = Some k → ks !! (length ks - 1) = Some x →
  ks ≡ₚ k :: take (length ks - 1) (<[i := x]> ks).
Proof.
  intros Hi Hx. destruct ks as [|y ks _] using rev_ind; [done|].
  rewrite length_app in *; simpl in *.
  replace (length ks + 1 - 1) with (length ks) in * by lia.
  rewrite list_lookup_middle in Hx by done. simplify_eq.
  destruct (decide (i = length ks)) as [->|Hne].
  - rewrite list_lookup_middle in Hi by done. simplify_eq.
    rewrite insert_app_r_alt, Nat.sub_diag by lia. simpl.
    rewrite take_app_length. by rewrite (comm (++)).
  - assert (i < length ks) as Hlt by (apply lookup_lt_Some in Hi; rewrite length_app in Hi; simpl in Hi; lia).
    rewrite lookup_app_l in Hi by done. rewrite insert_app_l by done.
    rewrite take_app_length' by (by rewrite length_insert).
    rewrite insert_take_drop by done.
    rewrite <-(take_drop_middle ks i k Hi) at 1.
    rewrite <-!Permutation_middle, app_nil_r. apply perm_swap.
Qed.

Lemma OnEvict_loop_spec key done_ rest ks :
  ks = done_ ++ rest → key ∉ done_ →
  ∃ ks', OnEvict_loop key (length done_) rest ks = Some ks' ∧
    if decide (key ∈ ks) then ks ≡ₚ key :: ks' else ks' = ks.
Proof.
  revert done_. induction rest as [|k rest IH]; intros done_ Hks Hd; simpl.
  - exists ks. split; [done|]. rewrite app_nil_r in Hks. subst.
    by rewrite decide_False.
  - destruct (decide (k = key)) as [->|Hk].
    + assert (∃ x, ks !! (length ks - 1) = Some x) as [x Hx].
      { apply lookup_lt_is_Some_2. rewrite Hks, length_app. simpl. lia. }
      rewrite Hx; simpl. eexists. split; [done|].
      rewrite decide_True by (rewrite Hks; set_solver).
      apply swap_truncate; [|done]. by rewrite Hks, list_lookup_middle.
    + destruct (IH (done_ ++ [k])) as (ks' & Hloop & Hspec).
      { by rewrite Hks, <-(assoc_L (++)). }
      { set_solver. }
      exists ks'. split; [|done]. rewrite <-Hloop, length_app. simpl. f_equal. lia.
Qed.

Lemma Random_OnEvict_refines r key :
  NoDup (keys r) →
  ∃ r', Random_OnEvict key r = Some r' ∧ NoDup (keys r') ∧
    (list_to_set (keys r') : gset string) = list_to_set (keys r) ∖ {[key]}.
Proof.
  intros Hnd. unfold Random_OnEvict.
  destruct (OnEvict_loop_spec key [] (keys r) (keys r)) as (ks' & Hloop & Hspec); [done|set_solver|].
  simpl in Hloop. rewrite Hloop. simpl. eexists. split; [done|]. simpl. case_decide as Hk.
  - rewrite Hspec in Hnd. apply NoDup_cons in Hnd as [Hnk Hnd]. split; [done|].
    rewrite Hspec. simpl. set_solver.
  - subst ks'. split; [done|]. set_solver.
Qed.

Lemma Evict_index r : length (keys r) ≠ 0 → ∃ i g k,
  Intn (length (keys r)) (rng r) = Some (i, g) ∧ keys r !! i = Some k.
Proof.
  intros Hne. unfold Intn. rewrite decide_False by done.
  set (i := Z.to_nat _). assert (i < length (keys r)) as Hi.
  { unfold i. pose proof (Z.mod_pos_bound (source (rng r) (drawn (rng r)))
      (Z.of_nat (length (keys r))) ltac:(lia)). lia. }
  destruct (lookup_lt_is_Some_2 _ _ Hi) as [k Hk]. eauto.
Qed.

#[global] Program Instance Random_spec : EvictionPolicySpec Random := {
  policy_wf r := NoDup (keys r);
  tracked r := list_to_set (keys r)
}.
Next Obligation. intros now k r Hr. exists r. done. Qed.
Next Obligation.
  intros now k e r Hr Hk. eexists. split; [done|]. simpl. split.
  - apply NoDup_app. split; [done|]. split; [set_solver|]. apply NoDup_singleton.
  - set_solver.
Qed.
Next Obligation. intros k r Hr. by apply Random_OnEvict_refines. Qed.
Next Obligation.
  intros r Hr. simpl. unfold Random_Evict. case_decide as Hl.
  - exists None, r. split; [done|]. split; [done|]. split; [done|].
    by apply length_zero_iff_nil in Hl as ->.
  - destruct (Evict_index r Hl) as (i & g & k & -> & Hk). simpl. rewrite Hk. simpl.
    eexists _, _. split; [done|]. split; [done|]. split; [done|].
    apply elem_of_list_to_set. by eapply list_elem_of_lookup_2.
Qed.

End Random.
