(* ===== verification/Cache.v ===== *)
(** The in-memory cache, [src/internal/cache/cache.go] and [.../entry.go]: a
    map from keys to entry pointers, bounded by a capacity, with lazy expiry
    and a pluggable eviction policy. Everything here is proved against the
    policy contract of [Policy], so it holds of every policy that meets it. *)
From S2P Require Import Prelude Policy.

Module Cache.

(** [CacheEntry]. *)
Record CacheEntry := mk_CacheEntry {
  Key : string;
  Value : bytes;
  ExpiresAt : Time;
  CreatedAt : Time;
  AccessedAt : Time;
  AccessCount : Z
}.

(** The test of [IsExpired] on an expiry time. *)
Definition past (expires now : Time) : bool := negb (IsZero expires) && After now expires.

Definition IsExpired (e : CacheEntry) (now : Time) : bool := past (ExpiresAt e) now.

(** [InMemoryCache]; [mem] is the part of the Go heap that holds its entries.
    An entry that leaves [entries] stays in [mem]: a concurrent [Get] may still
    hold its pointer. *)
Record InMemoryCache (P : Type) := mk_cache {
  mem : gmap loc CacheEntry;
  entries : gmap string loc;
  capacity : Z;
  policy : P
}.
Arguments mk_cache {P} _ _ _ _.
Arguments mem {P} _.
Arguments entries {P} _.
Arguments capacity {P} _.
Arguments policy {P} _.

(** The errors [Set] returns. *)
Inductive set_error :=
| ErrNegativeTTL (ttl : Duration)
| ErrTTLTooLong (ttl : Duration).

Definition maxTTL : Duration := (86400 * Second)%Z.

Section Ops.
Context {P : Type} `{!EvictionPolicy P}.
Local Abbreviation cache := (InMemoryCache P).

Definition New (cap : Z) (pol : P) : cache := mk_cache ∅ ∅ cap pol.

Definition with_mem (c : cache) m : cache := mk_cache m (entries c) (capacity c) (policy c).
Definition with_entries (c : cache) es : cache := mk_cache (mem c) es (capacity c) (policy c).
Definition with_policy (c : cache) pol : cache := mk_cache (mem c) (entries c) (capacity c) pol.

Definition Len (c : cache) : Z := Z.of_nat (size (entries c)).

(** [delete(c.entries, k); c.policy.OnEvict(k)]. *)
Definition drop_key (k : string) (c : cache) : option cache :=
  pol ← OnEvict k (policy c);
  Some (with_policy (with_entries c (delete k (entries c))) pol).

(** *** Get, one definition per critical section *)

(** Under the read lock: [entry, exists := c.entries[key]]. *)
Definition Get_lookup (key : string) (c : cache) : option loc := entries c !! key.

(** Under the write lock, after the first expiry check: check again, then
    delete. *)
Definition Get_expire (now : Time) (key : string) (c : cache) : option cache :=
  match entries c !! key with
  | None => Some c
  | Some p =>
      e ← mem c !! p;
      if IsExpired e now then drop_key key c else Some c
  end.

(** Under the write lock, on a hit: update the metadata of the entry that was
    looked up and notify the policy. *)
Definition Get_hit (now now_policy : Time) (key : string) (p : loc) (c : cache) : option cache :=
  e ← mem c !! p;
  let e' := mk_CacheEntry (Key e) (Value e) (ExpiresAt e) (CreatedAt e) now
              (AccessCount e +₆₄ 1)%go in
  pol ← OnAccess now_policy key (policy c);
  Some (with_policy (with_mem c (<[p := e']> (mem c))) pol).

(** The whole of [Get] when no other goroutine runs in between; the result is
    the value of a hit, [None] on a miss. *)
Definition Get (now : Clock) (key : string) (c : cache) : option (cache * option bytes) :=
  match Get_lookup key c with
  | None => Some (c, None)
  | Some p =>
      e ← mem c !! p;
      if IsExpired e (now 0) then
        c' ← Get_expire (now 1) key c;
        Some (c', None)
      else
        c' ← Get_hit (now 1) (now 2) key p c;
        e' ← mem c' !! p;
        Some (c', Some (Value e'))
  end.

(** *** Set *)

(** The capacity check on the insertion of a new key. *)
Definition make_room (c : cache) : option cache :=
  if (capacity c <=? Len c)%Z then
    '(victim, pol) ← Evict (policy c);
    match victim with
    | Some k => drop_key k (with_policy c pol)
    | None => Some (with_policy c pol)
    end
  else Some c.

(** The body of [Set] under the write lock. *)
Definition Set_locked (now now_policy : Time) (key : string) (value : bytes)
    (expiresAt : Time) (c : cache) : option cache :=
  match entries c !! key with
  | Some p =>
      e ← mem c !! p;
      let e' := mk_CacheEntry (Key e) value expiresAt (CreatedAt e) now
                  (AccessCount e +₆₄ 1)%go in
      pol ← OnAccess now_policy key (policy c);
      Some (with_policy (with_mem c (<[p := e']> (mem c))) pol)
  | None =>
      c1 ← make_room c;
      let p := fresh (dom (mem c1)) in
      let e := mk_CacheEntry key value expiresAt now now 1 in
      pol ← OnInsert now_policy key expiresAt (policy c1);
      Some (with_policy (with_entries (with_mem c1 (<[p := e]> (mem c1)))
              (<[key := p]> (entries c1))) pol)
  end.

Definition expiry (now : Time) (ttl : Duration) : Time :=
  if (ttl =? 0)%Z then now else Add now ttl.

Definition Set_ (now : Clock) (key : string) (value : bytes) (ttl : Duration) (c : cache)
    : option (cache * option set_error) :=
  if (ttl <? 0)%Z then Some (c, Some (ErrNegativeTTL ttl))
  else if (maxTTL <? ttl)%Z then Some (c, Some (ErrTTLTooLong ttl))
  else
    c' ← Set_locked (now 0) (now 1) key value (expiry (now 0) ttl) c;
    Some (c', None).

Definition Delete (key : string) (c : cache) : option cache :=
  match entries c !! key with
  | Some _ => drop_key key c
  | None => Some c
  end.

(** The loop of [LiveLen] over the entries of the map. *)
Fixpoint LiveLen_loop (now : Time) (m : gmap loc CacheEntry) (ps : list loc) : option Z :=
  match ps with
  | [] => Some 0%Z
  | p :: ps =>
      e ← m !! p;
      n ← LiveLen_loop now m ps;
      Some (if IsExpired e now then n else (1 + n)%Z)
  end.

Definition LiveLen (now : Time) (c : cache) : option Z :=
  LiveLen_loop now (mem c) ((map_to_list (entries c)).*2).
End Ops.

(** ** Invariant and abstract view *)

Section Inv.
Context {P : Type} `{!EvictionPolicy P, !EvictionPolicySpec P}.
Local Abbreviation cache := (InMemoryCache P).
Implicit Types (c : cache) (k key : string) (p : loc).

(** The policy tracks exactly the cached keys, and every cached pointer
    refers to an entry of its key. *)
Record cache_inv c : Prop := {
  inv_policy : policy_wf (policy c);
  inv_tracked : tracked (policy c) = dom (entries c);
  inv_entries k p : entries c !! k = Some p → ∃ e, mem c !! p = Some e ∧ Key e = k
}.

Definition bounded c : Prop := (Len c ≤ capacity c)%Z.

(** What the cache stores for each key: its value and its expiry. *)
Definition abs c : gmap string (bytes * Time) :=
  omap (λ p, e ← mem c !! p; Some (Value e, ExpiresAt e)) (entries c).

Lemma abs_lookup c k :
  abs c !! k = (p ← entries c !! k; e ← mem c !! p; Some (Value e, ExpiresAt e)).
Proof. unfold abs. by rewrite lookup_omap. Qed.

Lemma abs_dom c : cache_inv c → dom (abs c) = dom (entries c).
Proof.
  intros Hinv. apply set_eq. intros k. rewrite !elem_of_dom, abs_lookup.
  destruct (entries c !! k) as [p|] eqn:E; [|split; by intros [? ?]]. simpl.
  destruct (inv_entries c Hinv k p E) as (e & -> & _). simpl. split; eauto.
Qed.

Lemma abs_ext c c' : mem c' = mem c → entries c' = entries c → abs c' = abs c.
Proof. unfold abs. by intros -> ->. Qed.

(** Two keys never share an entry. *)
Lemma inv_inj c k k' p :
  cache_inv c → entries c !! k = Some p → entries c !! k' = Some p → k = k'.
Proof.
  intros Hinv (e & He & <-)%(inv_entries c Hinv) (e' & He' & <-)%(inv_entries c Hinv).
  congruence.
Qed.

(** Overwriting the entry at [p] with one of the same key. *)
Lemma inv_put c p e e' :
  cache_inv c → mem c !! p = Some e → Key e' = Key e →
  cache_inv (with_mem c (<[p := e']> (mem c))).
Proof.
  intros Hinv He Hk. split; simpl; [apply Hinv..|].
  intros k q Hq. destruct (inv_entries c Hinv k q Hq) as (e0 & He0 & <-).
  destruct (decide (q = p)) as [->|].
  - rewrite lookup_insert_eq. exists e'. split; [done|]. congruence.
  - rewrite lookup_insert_ne by done. eauto.
Qed.

Lemma abs_put c k p e' :
  cache_inv c → entries c !! k = Some p →
  abs (with_mem c (<[p := e']> (mem c))) = <[k := (Value e', ExpiresAt e')]> (abs c).
Proof.
  intros Hinv Hp. apply map_eq. intros k'. rewrite abs_lookup; simpl.
  destruct (decide (k' = k)) as [->|Hne].
  - rewrite Hp; simpl. by rewrite !lookup_insert_eq.
  - rewrite lookup_insert_ne, abs_lookup by done.
    destruct (entries c !! k') as [q|] eqn:Hq; [|done]. simpl.
    rewrite lookup_insert_ne; [done|]. intros ->. by apply Hne, (inv_inj c k' k q).
Qed.

(** Overwriting an entry that is not cached, or without changing value and
    expiry, is invisible. *)
Lemma abs_put_same c p e e' :
  mem c !! p = Some e → Value e' = Value e → ExpiresAt e' = ExpiresAt e →
  abs (with_mem c (<[p := e']> (mem c))) = abs c.
Proof.
  intros He Hv Hx. apply map_eq. intros k. rewrite !abs_lookup; simpl.
  destruct (entries c !! k) as [q|]; [|done]. simpl.
  destruct (decide (q = p)) as [->|].
  - rewrite lookup_insert_eq, He; simpl. by rewrite Hv, Hx.
  - by rewrite lookup_insert_ne.
Qed.

Lemma inv_with_policy c pol :
  cache_inv c → policy_wf pol → tracked pol = tracked (policy c) →
  cache_inv (with_policy c pol).
Proof. intros [] Hwf Ht. split; simpl; [done|congruence|done]. Qed.

Lemma drop_key_spec k c :
  cache_inv c →
  ∃ c', drop_key k c = Some c' ∧ cache_inv c' ∧ mem c' = mem c ∧
        entries c' = delete k (entries c) ∧ capacity c' = capacity c ∧
        abs c' = delete k (abs c) ∧ OnEvict k (policy c) = Some (policy c').
Proof.
  intros [Hwf Ht He]. unfold drop_key.
  destruct (OnEvict_spec k _ Hwf) as (pol & -> & Hwf' & Ht'). simpl.
  eexists. split; [done|]. split; [|split; [done|split; [done|split; [done|split; [|done]]]]].
  - split; simpl; [done|by rewrite Ht', Ht, dom_delete_L|].
    intros k' p [_ Hp]%lookup_delete_Some. by apply He.
  - simpl. apply map_eq. intros k'. rewrite abs_lookup. simpl.
    destruct (decide (k' = k)) as [->|]; [by rewrite !lookup_delete_eq|].
    by rewrite !lookup_delete_ne, abs_lookup by done.
Qed.

Lemma Get_hit_spec now now_p key p e c :
  cache_inv c → mem c !! p = Some e →
  ∃ c' e', Get_hit now now_p key p c = Some c' ∧ cache_inv c' ∧
        entries c' = entries c ∧ capacity c' = capacity c ∧ abs c' = abs c ∧
        mem c' = <[p := e']> (mem c) ∧ Key e' = Key e ∧ Value e' = Value e ∧
        OnAccess now_p key (policy c) = Some (policy c').
Proof.
  intros Hinv He. unfold Get_hit. rewrite He; simpl.
  destruct (OnAccess_spec now_p key _ (inv_policy c Hinv)) as (pol & -> & Hwf & Ht). simpl.
  eexists _, _. split; [done|]. split; [|repeat split].
  - apply inv_with_policy; [|done|done]. by eapply inv_put.
  - by eapply (abs_put_same c).
Qed.

Lemma Get_expire_spec now key c :
  cache_inv c →
  ∃ c', Get_expire now key c = Some c' ∧ cache_inv c' ∧ mem c' = mem c ∧
        capacity c' = capacity c ∧
        (entries c' = entries c ∨ entries c' = delete key (entries c)) ∧
        match abs c !! key with
        | Some (_, x) =>
            if past x now then
              abs c' = delete key (abs c) ∧ OnEvict key (policy c) = Some (policy c')
            else c' = c
        | None => c' = c
        end.
Proof.
  intros Hinv. unfold Get_expire. rewrite abs_lookup.
  destruct (entries c !! key) as [p|] eqn:Hp; simpl; [|eauto 10].
  destruct (inv_entries c Hinv key p Hp) as (e & -> & _). simpl.
  unfold IsExpired. destruct (past (ExpiresAt e) now); [|eauto 10].
  destruct (drop_key_spec key c Hinv) as (c' & -> & ? & ? & ? & ? & ? & ?). eauto 10.
Qed.

(** *** Get *)

Lemma Get_spec (now : Clock) key c :
  cache_inv c →
  ∃ c' r, Get now key c = Some (c', r) ∧ cache_inv c' ∧ capacity c' = capacity c ∧
    (entries c' = entries c ∨ entries c' = delete key (entries c)) ∧
    match abs c !! key with
    | None => r = None ∧ c' = c
    | Some (v, x) =>
        if past x (now 0) then
          r = None ∧
          if past x (now 1) then
            abs c' = delete key (abs c) ∧ OnEvict key (policy c) = Some (policy c')
          else c' = c
        else r = Some v ∧ abs c' = abs c ∧
             OnAccess (now 2) key (policy c) = Some (policy c')
    end.
Proof.
  intros Hinv. unfold Get, Get_lookup. rewrite abs_lookup.
  destruct (entries c !! key) as [p|] eqn:Hp; simpl; [|eauto 10].
  destruct (inv_entries c Hinv key p Hp) as (e & He & _). rewrite He; simpl.
  unfold IsExpired. destruct (past (ExpiresAt e) (now 0)).
  - destruct (Get_expire_spec (now 1) key c Hinv) as (c' & -> & ? & ? & ? & ? & Habs). simpl.
    rewrite abs_lookup, Hp in Habs; simpl in Habs. rewrite He in Habs; simpl in Habs.
    eauto 10.
  - destruct (Get_hit_spec (now 1) (now 2) key p e c Hinv He)
      as (c' & e' & -> & ? & ? & ? & ? & Hmem & _ & Hv & ?). simpl.
    rewrite Hmem, lookup_insert_eq. simpl. rewrite Hv. eauto 10.
Qed.

(** *** Set *)

Lemma Len_insert c c' k p :
  entries c' = <[k := p]> (entries c) → entries c !! k = None → Len c' = (Len c + 1)%Z.
Proof. intros He Hk. unfold Len. rewrite He, map_size_insert_None by done. lia. Qed.

Lemma Len_delete c c' k :
  entries c' = delete k (entries c) → is_Some (entries c !! k) → Len c' = (Len c - 1)%Z.
Proof.
  intros He [p Hp]. unfold Len. rewrite He, map_size_delete_Some by eauto.
  assert (size (entries c) ≠ 0); [|lia].
  intros Hz%map_size_empty_inv. by rewrite Hz, lookup_empty in Hp.
Qed.

(** The key [Set] evicts to insert a new one, if any. *)
Definition victim c : option string :=
  if (capacity c <=? Len c)%Z then
    match Evict (policy c) with Some (r, _) => r | None => None end
  else None.

Lemma make_room_spec c :
  cache_inv c →
  ∃ c', make_room c = Some c' ∧ cache_inv c' ∧ mem c' = mem c ∧
        capacity c' = capacity c ∧
        match victim c with
        | Some k => k ∈ dom (entries c) ∧ entries c' = delete k (entries c) ∧
                    abs c' = delete k (abs c) ∧ (capacity c ≤ Len c)%Z ∧
                    ∃ pol, Evict (policy c) = Some (Some k, pol) ∧
                           OnEvict k pol = Some (policy c')
        | None => entries c' = entries c ∧ abs c' = abs c ∧
                  if (capacity c <=? Len c)%Z then
                    entries c = ∅ ∧ Evict (policy c) = Some (None, policy c')
                  else c' = c
        end.
Proof.
  intros Hinv. unfold make_room, victim. destruct (Z.leb_spec (capacity c) (Len c)).
  2:{ exists c. eauto 10. }
  destruct (Evict_spec _ (inv_policy c Hinv)) as (r & pol & -> & Hwf & Ht & Hr). simpl.
  assert (cache_inv (with_policy c pol)) as Hinv' by by apply inv_with_policy.
  destruct r as [k|].
  - destruct (drop_key_spec k _ Hinv') as (c' & -> & ? & ? & ? & ? & ? & ?).
    exists c'. rewrite (inv_tracked c Hinv) in Hr. eauto 15.
  - eexists. split; [done|]. split; [done|]. repeat split.
    rewrite (inv_tracked c Hinv) in Hr. by apply dom_empty_inv_L in Hr.
Qed.

Lemma make_room_abs c c' :
  cache_inv c → make_room c = Some c' →
  abs c' = match victim c with Some k => delete k (abs c) | None => abs c end.
Proof.
  intros Hinv Hroom. destruct (make_room_spec c Hinv) as (c'' & Heq & _ & _ & _ & Hv).
  assert (c'' = c') as -> by congruence. destruct (victim c); apply Hv.
Qed.

Lemma make_room_bound c c' :
  cache_inv c → make_room c = Some c' → (1 ≤ capacity c)%Z → bounded c →
  (Len c' + 1 ≤ capacity c)%Z.
Proof.
  intros Hinv Hroom Hcap Hb. unfold bounded in Hb.
  destruct (make_room_spec c Hinv) as (c'' & Heq & _ & _ & _ & Hv).
  assert (c'' = c') as -> by congruence. destruct (victim c) as [k|].
  - destruct Hv as (Hk%elem_of_dom & He & _). rewrite (Len_delete c c' k He Hk). lia.
  - destruct Hv as (He & _ & Hfull). unfold Len in *. rewrite He.
    destruct (Z.leb_spec (capacity c) (Z.of_nat (size (entries c)))) as [Hle|]; [|lia].
    destruct Hfull as [-> _]. rewrite map_size_empty. lia.
Qed.

(** Storing a new entry for an uncached key. *)
Lemma insert_new c key e pol :
  cache_inv c → entries c !! key = None → Key e = key →
  policy_wf pol → tracked pol = {[key]} ∪ tracked (policy c) →
  let p := fresh (dom (mem c)) in
  let c' := with_policy (with_entries (with_mem c (<[p := e]> (mem c)))
              (<[key := p]> (entries c))) pol in
  cache_inv c' ∧ abs c' = <[key := (Value e, ExpiresAt e)]> (abs c).
Proof.
  intros Hinv Hk Hke Hwf Ht p c'.
  assert (mem c !! p = None) as Hfresh by (apply not_elem_of_dom, is_fresh).
  assert (∀ k q, entries c !! k = Some q → q ≠ p) as Hq.
  { intros k q (e0 & ? & _)%(inv_entries c Hinv) ->. congruence. }
  split.
  - split; simpl; [done|by rewrite Ht, (inv_tracked c Hinv), dom_insert_L|].
    intros k q. destruct (decide (k = key)) as [->|].
    + rewrite lookup_insert_eq. intros [= <-]. rewrite lookup_insert_eq. eauto.
    + rewrite lookup_insert_ne by done. intros Hkq.
      rewrite lookup_insert_ne by (apply not_eq_sym; by eapply Hq). by apply (inv_entries c Hinv).
  - apply map_eq. intros k. rewrite abs_lookup; simpl. destruct (decide (k = key)) as [->|].
    + rewrite !lookup_insert_eq; simpl. by rewrite lookup_insert_eq.
    + rewrite !lookup_insert_ne, abs_lookup by done.
      destruct (entries c !! k) as [q|] eqn:Hkq; [|done]. simpl.
      by rewrite lookup_insert_ne by (apply not_eq_sym; by eapply Hq).
Qed.

Lemma Set_locked_spec now now_p key v x c :
  cache_inv c →
  ∃ c', Set_locked now now_p key v x c = Some c' ∧ cache_inv c' ∧
        capacity c' = capacity c ∧
        ((1 ≤ capacity c)%Z → bounded c → bounded c') ∧
        abs c' = <[key := (v, x)]>
          (if decide (key ∈ dom (entries c)) then abs c
           else match victim c with Some k => delete k (abs c) | None => abs c end) ∧
        if decide (key ∈ dom (entries c)) then
          OnAccess now_p key (policy c) = Some (policy c')
        else ∃ c1, make_room c = Some c1 ∧
                   OnInsert now_p key x (policy c1) = Some (policy c').
Proof.
  intros Hinv. unfold Set_locked.
  destruct (entries c !! key) as [p|] eqn:Hp.
  - destruct (inv_entries c Hinv key p Hp) as (e & He & Hk). rewrite He; simpl.
    destruct (OnAccess_spec now_p key _ (inv_policy c Hinv)) as (pol & -> & Hwf & Ht). simpl.
    eexists. split; [done|]. rewrite !decide_True by (by eapply elem_of_dom_2).
    split; [|split; [done|split; [done|split; [|done]]]].
    + apply inv_with_policy; [|done|done]. by eapply inv_put.
    + by apply (abs_put c key p (mk_CacheEntry (Key e) v x (CreatedAt e) now
        (AccessCount e +₆₄ 1)%go)).
  - destruct (decide (key ∈ dom (entries c))) as [[??]%elem_of_dom|_]; [congruence|].
    destruct (make_room_spec c Hinv) as (c1 & Hroom & Hinv1 & Hmem & Hcap & Hv).
    rewrite Hroom; simpl.
    assert (entries c1 !! key = None) as Hp1.
    { destruct (victim c) as [k|]; destruct Hv as (Hv1 & Hv2 & _).
      - rewrite Hv2. by apply lookup_delete_None; right.
      - by rewrite Hv1. }
    destruct (OnInsert_spec now_p key x _ (inv_policy c1 Hinv1)) as (pol & Hins & Hwf & Ht).
    { rewrite (inv_tracked c1 Hinv1). by apply not_elem_of_dom. }
    destruct (insert_new c1 key (mk_CacheEntry key v x now now 1) pol) as [Hinv' Habs']; try done.
    rewrite Hins; simpl. eexists. split; [done|]. split; [done|]. split; [done|].
    split; [|split; [|by eexists]].
    + intros Hc Hb. unfold bounded. simpl. rewrite Hcap.
      pose proof (make_room_bound c c1 Hinv Hroom Hc Hb).
      erewrite (Len_insert c1); [|done|done]. lia.
    + rewrite Habs'. simpl. f_equal. destruct (victim c); [apply Hv|]. by destruct Hv as (_ & -> & _).
Qed.

(** The one entry [Set] writes: the cached one of its key, or a new one. *)
Lemma Set_locked_mem now now_p key v x c c' :
  cache_inv c → Set_locked now now_p key v x c = Some c' →
  ∃ p e', mem c' = <[p := e']> (mem c) ∧ entries c' !! key = Some p ∧
          Key e' = key ∧ Value e' = v ∧ ExpiresAt e' = x ∧
          (entries c !! key = Some p ∨ mem c !! p = None).
Proof.
  intros Hinv. unfold Set_locked. destruct (entries c !! key) as [p|] eqn:Hp.
  - destruct (inv_entries c Hinv key p Hp) as (e & He & Hk). rewrite He; simpl.
    destruct (OnAccess now_p key (policy c)) as [pol|]; [|done]. intros [= <-].
    eexists p, _. simpl. repeat split; [done..|by left].
  - destruct (make_room_spec c Hinv) as (c1 & -> & _ & Hmem & _). simpl.
    destruct (OnInsert _ _ _ _) as [pol|]; [|done]. intros [= <-].
    eexists _, _. simpl. rewrite lookup_insert_eq, Hmem. repeat split.
    right. apply not_elem_of_dom, is_fresh.
Qed.

Lemma Delete_spec key c :
  cache_inv c →
  ∃ c', Delete key c = Some c' ∧ cache_inv c' ∧ capacity c' = capacity c ∧
        mem c' = mem c ∧
        entries c' = delete key (entries c) ∧ abs c' = delete key (abs c) ∧
        if decide (key ∈ dom (entries c)) then OnEvict key (policy c) = Some (policy c')
        else c' = c.
Proof.
  intros Hinv. unfold Delete. destruct (entries c !! key) eqn:E.
  - destruct (decide (key ∈ dom (entries c))) as [_|Hn%not_elem_of_dom]; [|congruence].
    destruct (drop_key_spec key c Hinv) as (c' & -> & ? & ? & ? & ? & ? & ?). eauto 10.
  - destruct (decide (key ∈ dom (entries c))) as [[??]%elem_of_dom|_]; [congruence|].
    exists c. do 4 (split; [done|]). split; [by rewrite delete_id|].
    rewrite delete_id; [done|]. by rewrite abs_lookup, E.
Qed.

Lemma bounded_entries c c' k :
  capacity c' = capacity c → entries c' = entries c ∨ entries c' = delete k (entries c) →
  bounded c → bounded c'.
Proof.
  unfold bounded, Len. intros -> He Hb.
  assert (size (entries c') ≤ size (entries c)); [|lia].
  destruct He as [-> | ->]; [done|].
  destruct (entries c !! k) eqn:E.
  - rewrite map_size_delete_Some by eauto. lia.
  - by rewrite delete_id.
Qed.
(** *** LiveLen *)

(** [key] is cached and not expired at [now]. *)
Definition readable c (now : Time) key : bool :=
  match abs c !! key with Some (_, x) => negb (past x now) | None => false end.

Lemma LiveLen_loop_spec now c (es : list (string * loc)) :
  cache_inv c → (∀ k p, (k, p) ∈ es → entries c !! k = Some p) →
  LiveLen_loop now (mem c) es.*2 =
    Some (Z.of_nat (length (filter (λ k, readable c now k = true) es.*1))).
Proof.
  intros Hinv. induction es as [|[k p] es IH]; intros Hes; [done|].
  cbn [fmap list_fmap LiveLen_loop]. rewrite IH by set_solver.
  assert (entries c !! k = Some p) as Hk by (apply Hes; set_solver).
  destruct (inv_entries c Hinv k p Hk) as (e & He & _). simpl. rewrite He. simpl.
  assert (readable c now k = negb (IsExpired e now)) as Hr.
  { unfold readable. rewrite abs_lookup, Hk; simpl. by rewrite He. }
  rewrite filter_cons. destruct (IsExpired e now); simpl in Hr.
  - rewrite decide_False by congruence. done.
  - rewrite decide_True by done. simpl. f_equal. lia.
Qed.

Lemma LiveLen_spec now c :
  cache_inv c →
  LiveLen now c =
    Some (Z.of_nat (size (filter (λ k, readable c now k = true) (dom (entries c))))).
Proof.
  intros Hinv. unfold LiveLen.
  rewrite LiveLen_loop_spec; [|done|intros k p; by rewrite elem_of_map_to_list].
  f_equal. f_equal.
  rewrite <-(size_list_to_set (C := gset string)
    (filter (λ k, readable c now k = true) (map_to_list (entries c)).*1)).
  - f_equal. apply set_eq. intros k.
    rewrite elem_of_list_to_set, list_elem_of_filter, elem_of_filter.
    by rewrite dom_alt, elem_of_list_to_set.
  - apply NoDup_filter, NoDup_fst_map_to_list.
Qed.
End Inv.

(** ** The sequential contract of the cache *)

(** Calls and their results; a [Clock] gives the readings of one call. *)
Inductive op :=
| OpGet (now : Clock) (key : string)
| OpSet (now : Clock) (key : string) (value : bytes) (ttl : Duration)
| OpDelete (key : string).

Inductive result :=
| RGet (r : option bytes)
| RSet (err : option set_error)
| RDelete.

Section Contract.
Context {P : Type} `{!EvictionPolicy P}.

Definition step (c : InMemoryCache P) (o : op) : option (InMemoryCache P * result) :=
  match o with
  | OpGet now key => '(c', r) ← Get now key c; Some (c', RGet r)
  | OpSet now key v ttl => '(c', r) ← Set_ now key v ttl c; Some (c', RSet r)
  | OpDelete key => c' ← Delete key c; Some (c', RDelete)
  end.

Fixpoint run (c : InMemoryCache P) (os : list op) : option (InMemoryCache P * list result) :=
  match os with
  | [] => Some (c, [])
  | o :: os =>
      '(c1, r) ← step c o;
      '(c2, rs) ← run c1 os;
      Some (c2, r :: rs)
  end.
End Contract.

(** The specification: a map from keys to values and expiries holding at most
    [cap] keys. A key leaves it when it is deleted, when it is read after its
    expiry, or when a new key is stored in a full map, and for no other
    reason. *)
Inductive spec_step (cap : Z) (m : gmap string (bytes * Time)) :
    op → gmap string (bytes * Time) → result → Prop :=
| spec_miss now key :
    m !! key = None →
    spec_step cap m (OpGet now key) m (RGet None)
| spec_hit now key v x :
    m !! key = Some (v, x) → past x (now 0) = false →
    spec_step cap m (OpGet now key) m (RGet (Some v))
| spec_expired now key v x :
    m !! key = Some (v, x) → past x (now 0) = true →
    spec_step cap m (OpGet now key)
      (if past x (now 1) then delete key m else m) (RGet None)
| spec_negative now key v ttl :
    (ttl < 0)%Z →
    spec_step cap m (OpSet now key v ttl) m (RSet (Some (ErrNegativeTTL ttl)))
| spec_too_long now key v ttl :
    (maxTTL < ttl)%Z →
    spec_step cap m (OpSet now key v ttl) m (RSet (Some (ErrTTLTooLong ttl)))
| spec_update now key v ttl :
    (0 ≤ ttl ≤ maxTTL)%Z → key ∈ dom m →
    spec_step cap m (OpSet now key v ttl)
      (<[key := (v, expiry (now 0) ttl)]> m) (RSet None)
| spec_insert now key v ttl :
    (0 ≤ ttl ≤ maxTTL)%Z → key ∉ dom m → (Z.of_nat (size m) < cap)%Z →
    spec_step cap m (OpSet now key v ttl)
      (<[key := (v, expiry (now 0) ttl)]> m) (RSet None)
| spec_evict now key v ttl k :
    (0 ≤ ttl ≤ maxTTL)%Z → key ∉ dom m → (cap ≤ Z.of_nat (size m))%Z → k ∈ dom m →
    spec_step cap m (OpSet now key v ttl)
      (<[key := (v, expiry (now 0) ttl)]> (delete k m)) (RSet None)
| spec_delete key :
    spec_step cap m (OpDelete key) (delete key m) RDelete.

Inductive spec_run (cap : Z) : gmap string (bytes * Time) → list op →
    gmap string (bytes * Time) → list result → Prop :=
| spec_run_nil m : spec_run cap m [] m []
| spec_run_cons m o m1 r os m2 rs :
    spec_step cap m o m1 r → spec_run cap m1 os m2 rs →
    spec_run cap m (o :: os) m2 (r :: rs).

Section Refinement.
Context {P : Type} `{!EvictionPolicy P, !EvictionPolicySpec P}.
Implicit Types c : InMemoryCache P.

Lemma abs_size c : cache_inv c → size (abs c) = size (entries c).
Proof. intros Hinv. by rewrite <-!size_dom, abs_dom. Qed.

Lemma Get_refines now key c cap :
  cache_inv c → capacity c = cap →
  ∃ c' r, Get now key c = Some (c', r) ∧ cache_inv c' ∧ capacity c' = cap ∧
          (bounded c → bounded c') ∧
          spec_step cap (abs c) (OpGet now key) (abs c') (RGet r).
Proof.
  intros Hinv <-. destruct (Get_spec now key c Hinv) as (c' & r & -> & Hinv' & Hcap & He & Hr).
  exists c', r. split; [done|]. split; [done|]. split; [done|].
  split; [by apply (bounded_entries c c' key)|].
  destruct (abs c !! key) as [[v x]|] eqn:E.
  - destruct (past x (now 0)) eqn:Ex; destruct Hr as [-> Hr].
    + destruct (past x (now 1)) eqn:Ex1; [destruct Hr as [-> _]|subst c'];
        pose proof (spec_expired (capacity c) (abs c) now key v x E Ex) as Hs;
        by rewrite Ex1 in Hs.
    + destruct Hr as [-> _]. by econstructor.
  - destruct Hr as [-> ->]. by constructor.
Qed.

Lemma Set_refines now key v ttl c cap :
  cache_inv c → capacity c = cap → (1 ≤ cap)%Z →
  ∃ c' r, Set_ now key v ttl c = Some (c', r) ∧ cache_inv c' ∧ capacity c' = cap ∧
          (bounded c → bounded c') ∧
          spec_step cap (abs c) (OpSet now key v ttl) (abs c') (RSet r).
Proof.
  intros Hinv <- Hc. unfold Set_.
  destruct (Z.ltb_spec ttl 0).
  { eexists c, _. do 4 (split; [done|]). by constructor. }
  destruct (Z.ltb_spec maxTTL ttl).
  { eexists c, _. do 4 (split; [done|]). by constructor. }
  destruct (Set_locked_spec (now 0) (now 1) key v (expiry (now 0) ttl) c Hinv)
    as (c' & -> & Hinv' & Hcap & Hb & Habs & _). simpl.
  eexists c', _. split; [done|]. split; [done|]. split; [done|]. split; [auto|].
  rewrite Habs, <-(abs_dom c Hinv).
  destruct (decide (key ∈ dom (abs c))) as [Hk|Hk]; [by constructor|].
  destruct (make_room_spec c Hinv) as (c1 & _ & _ & _ & _ & Hv). unfold victim in *.
  destruct (Z.leb_spec (capacity c) (Len c)) as [Hle|Hlt].
  - destruct (match Evict (policy c) with Some (r, _) => r | None => None end) as [k|].
    + destruct Hv as (Hk1 & _). apply spec_evict; try done.
      * by rewrite abs_size.
      * by rewrite abs_dom.
    + destruct Hv as (_ & _ & He & _). apply spec_insert; try done.
      rewrite abs_size, He, map_size_empty by done. lia.
  - apply spec_insert; try done. by rewrite abs_size.
Qed.

Lemma cache_step_refines o c cap :
  cache_inv c → capacity c = cap → (1 ≤ cap)%Z →
  ∃ c' r, step c o = Some (c', r) ∧ cache_inv c' ∧ capacity c' = cap ∧
          (bounded c → bounded c') ∧ spec_step cap (abs c) o (abs c') r.
Proof.
  intros Hinv Hcap Hc. destruct o as [now key|now key v ttl|key]; simpl.
  - destruct (Get_refines now key c cap Hinv Hcap) as (c' & r & -> & ? & ? & ? & ?).
    simpl. eauto 10.
  - destruct (Set_refines now key v ttl c cap Hinv Hcap Hc) as (c' & r & -> & ? & ? & ? & ?).
    simpl. eauto 10.
  - destruct (Delete_spec key c Hinv) as (c' & -> & ? & ? & _ & He & Habs & _). simpl.
    eexists c', _. split; [done|]. split; [done|]. split; [congruence|].
    split; [apply (bounded_entries c c' key); auto|]. rewrite Habs. constructor.
Qed.

Lemma cache_run_refines os c cap :
  cache_inv c → capacity c = cap → (1 ≤ cap)%Z → bounded c →
  ∃ c' rs, run c os = Some (c', rs) ∧ cache_inv c' ∧ capacity c' = cap ∧
           bounded c' ∧ spec_run cap (abs c) os (abs c') rs.
Proof.
  revert c. induction os as [|o os IH]; intros c Hinv Hcap Hc Hb; simpl.
  - eexists c, _. do 4 (split; [done|]). constructor.
  - destruct (cache_step_refines o c cap Hinv Hcap Hc) as (c1 & r & -> & ? & ? & Hb1 & ?). simpl.
    destruct (IH c1) as (c' & rs & -> & ? & ? & ? & ?); auto. simpl.
    eexists c', _. do 4 (split; [done|]). by econstructor.
Qed.

Lemma inv_new cap (pol : P) :
  policy_wf pol → tracked pol = ∅ → (1 ≤ cap)%Z →
  cache_inv (New cap pol) ∧ bounded (New cap pol) ∧ abs (New cap pol) = ∅.
Proof.
  intros Hwf Ht Hc. split; [|split].
  - split; simpl; [done|by rewrite Ht, dom_empty_L|]. intros k p. by rewrite lookup_empty.
  - unfold bounded, Len. simpl. rewrite map_size_empty. lia.
  - apply map_eq. intros k. by rewrite abs_lookup; simpl; rewrite !lookup_empty.
Qed.
End Refinement.

End Cache.
