(* ===== verification/CacheTheorems.v ===== *)
(** Theorems on the in-memory cache with its policies plugged in: the
    sequential contract for every policy that meets the interface, the
    equivalence of the LRU-backed cache with a list reference implementation,
    the round trips of single calls, and the two places where the code departs
    from its comments. *)
From S2P Require Import Prelude Policy Lru Lfu TtlPolicy RandomPolicy Cache.

Module CacheTheorems.
Import Cache.

Definition clock_at (t : Time) : Clock := λ _, t.

(** ** The LRU-backed cache as a list *)

(** The reference implementation: the cached keys with their values and
    expiries, most recently used first. *)
Abbreviation lru_list := (list (string * (bytes * Time))) (only parsing).

Definition ref_remove (k : string) (l : lru_list) : lru_list :=
  filter (λ kv, kv.1 ≠ k) l.

Fixpoint ref_find (k : string) (l : lru_list) : option (bytes * Time) :=
  match l with
  | [] => None
  | (k', vx) :: l => if decide (k = k') then Some vx else ref_find k l
  end.

Definition ref_step (cap : Z) (l : lru_list) (o : op) : lru_list * result :=
  match o with
  | OpGet now k =>
      match ref_find k l with
      | None => (l, RGet None)
      | Some (v, x) =>
          if past x (now 0) then
            (if past x (now 1) then ref_remove k l else l, RGet None)
          else ((k, (v, x)) :: ref_remove k l, RGet (Some v))
      end
  | OpSet now k v ttl =>
      if (ttl <? 0)%Z then (l, RSet (Some (ErrNegativeTTL ttl)))
      else if (maxTTL <? ttl)%Z then (l, RSet (Some (ErrTTLTooLong ttl)))
      else
        let kvx := (k, (v, expiry (now 0) ttl)) in
        match ref_find k l with
        | Some _ => (kvx :: ref_remove k l, RSet None)
        | None =>
            (kvx :: if (cap <=? Z.of_nat (length l))%Z then take (length l - 1) l else l,
             RSet None)
        end
  | OpDelete k => (ref_remove k l, RDelete)
  end.

Fixpoint ref_run (cap : Z) (l : lru_list) (os : list op) : lru_list * list result :=
  match os with
  | [] => (l, [])
  | o :: os =>
      let '(l1, r) := ref_step cap l o in
      let '(l2, rs) := ref_run cap l1 os in
      (l2, r :: rs)
  end.

(** The cache represents the list [l]. *)
Record lru_rep (c : InMemoryCache LRU.LRU) (l : lru_list) : Prop := {
  rep_inv : cache_inv c;
  rep_order : LRU.recency (policy c) l.*1;
  rep_abs : abs c = list_to_map l
}.

Lemma ref_find_spec k l : ref_find k l = (list_to_map l : gmap string (bytes * Time)) !! k.
Proof.
  induction l as [|[k' vx] l IH]; simpl; [by rewrite lookup_empty|].
  destruct (decide (k = k')) as [->|]; [by rewrite lookup_insert_eq|].
  by rewrite lookup_insert_ne.
Qed.

Lemma ref_remove_keys k l : (ref_remove k l).*1 = LRU.forget k l.*1.
Proof.
  unfold ref_remove, LRU.forget. induction l as [|[k' vx] l IH]; [done|].
  rewrite filter_cons. cbn [fmap list_fmap fst]. rewrite filter_cons.
  cbn [fst]. destruct (decide (k' ≠ k)); [|done]. cbn [fmap list_fmap fst]. by f_equal.
Qed.

Lemma ref_remove_map k l :
  (list_to_map (ref_remove k l) : gmap string (bytes * Time)) = delete k (list_to_map l).
Proof.
  unfold ref_remove. induction l as [|[k' vx] l IH]; [by simpl; rewrite delete_empty|].
  rewrite filter_cons. destruct (decide _) as [Hk|Hk]; simpl in *.
  - by rewrite IH, delete_insert_ne.
  - apply dec_stable in Hk as ->. by rewrite IH, delete_insert_eq.
Qed.

Lemma rep_len c l : lru_rep c l → Len c = Z.of_nat (length l).
Proof.
  intros [Hinv Hr Ha]. unfold Len. rewrite <-(abs_size c Hinv), Ha, <-size_dom.
  rewrite dom_list_to_map_L, size_list_to_set, length_fmap; [done|].
  by eapply LRU.recency_NoDup.
Qed.

Lemma rep_keys c l k : lru_rep c l → k ∈ dom (entries c) ↔ k ∈ l.*1.
Proof.
  intros [Hinv Hr Ha]. rewrite <-(abs_dom c Hinv), Ha, dom_list_to_map_L.
  apply elem_of_list_to_set.
Qed.

(** Notifying the policy of an access or a removal, from the policy equation
    that the specifications of [Get], [Set] and [Delete] give. *)
Lemma order_access c (c' : InMemoryCache LRU.LRU) l now k :
  lru_rep c l → k ∈ l.*1 → OnAccess now k (policy c) = Some (policy c') →
  LRU.recency (policy c') (k :: (ref_remove k l).*1).
Proof.
  intros [_ Hr _] Hk Hon.
  destruct (LRU.LRU_OnAccess_refines _ _ k Hr) as (p & Hp & Hr').
  change (OnAccess now k (policy c)) with (LRU.LRU_OnAccess k (policy c)) in Hon.
  rewrite ref_remove_keys. unfold LRU.touch in Hr'. rewrite decide_True in Hr' by done.
  congruence.
Qed.

Lemma order_evict (pol pol' : LRU.LRU) ks k :
  LRU.recency pol ks → OnEvict k pol = Some pol' → LRU.recency pol' (LRU.forget k ks).
Proof.
  intros Hr Hon. destruct (LRU.LRU_OnEvict_refines _ _ k Hr) as (p & Hp & Hr').
  change (OnEvict k pol) with (LRU.LRU_OnEvict k pol) in Hon. congruence.
Qed.

Lemma order_insert (pol pol' : LRU.LRU) ks now k x :
  LRU.recency pol ks → k ∉ ks → OnInsert now k x pol = Some pol' → LRU.recency pol' (k :: ks).
Proof.
  intros Hr Hk Hon. destruct (LRU.LRU_OnInsert_refines _ _ k Hr Hk) as (p & Hp & Hr').
  change (OnInsert now k x pol) with (LRU.LRU_OnInsert k pol) in Hon. congruence.
Qed.

(** Removing the last key of the list. *)
Lemma forget_last (l : lru_list) kv :
  NoDup (l ++ [kv]).*1 → ref_remove kv.1 (l ++ [kv]) = l.
Proof.
  intros Hnd. unfold ref_remove. rewrite filter_app, filter_cons_False, filter_nil, app_nil_r.
  2:{ intros H; by apply H. }
  rewrite fmap_app in Hnd. apply NoDup_app in Hnd as (_ & Hd & _).
  apply filter_all. intros kv' Hin Heq. apply (Hd kv'.1); [by apply list_elem_of_fmap_2|].
  rewrite Heq. simpl. set_solver.
Qed.

Lemma lru_get c l now k cap :
  lru_rep c l → capacity c = cap →
  ∃ c', step c (OpGet now k) = Some (c', (ref_step cap l (OpGet now k)).2) ∧
        capacity c' = cap ∧ lru_rep c' (ref_step cap l (OpGet now k)).1.
Proof.
  intros Hrep Hcap. pose proof Hrep as [Hinv Hr Ha].
  destruct (Get_spec now k c Hinv) as (c' & r & Hget & Hinv' & Hcap' & _ & Hs).
  simpl. rewrite Hget. simpl. rewrite ref_find_spec, <-Ha.
  destruct (abs c !! k) as [[v x]|] eqn:E.
  2:{ destruct Hs as [-> ->]. eauto. }
  assert (k ∈ l.*1) as Hk.
  { apply (rep_keys c l k Hrep). rewrite <-(abs_dom c Hinv). by eapply elem_of_dom_2. }
  assert (capacity c' = cap) by congruence.
  destruct (past x (now 0)); [destruct (past x (now 1))|]; simpl.
  - destruct Hs as (-> & Hd & Hon). exists c'. split; [done|]. split; [done|].
    split; [done| |by rewrite ref_remove_map, Hd, Ha].
    rewrite ref_remove_keys. by eapply order_evict.
  - destruct Hs as [-> ->]. eauto.
  - destruct Hs as (-> & Hd & Hon). exists c'. split; [done|]. split; [done|].
    split; [done|by eapply (order_access c)|]. simpl.
    rewrite ref_remove_map, <-Ha, Hd, insert_delete_eq, insert_id; done.
Qed.

Lemma lru_make_room c c1 l cap :
  lru_rep c l → capacity c = cap → (1 ≤ cap)%Z → make_room c = Some c1 →
  let l1 := if (cap <=? Z.of_nat (length l))%Z then take (length l - 1) l else l in
  LRU.recency (policy c1) l1.*1 ∧ abs c1 = list_to_map l1.
Proof.
  intros Hrep <- Hc Hroom. pose proof Hrep as [Hinv Hr Ha].
  destruct (make_room_spec c Hinv) as (c' & Heq & _ & _ & _ & Hv).
  assert (c' = c1) as -> by congruence. unfold victim in Hv. simpl.
  rewrite (rep_len c l Hrep) in Hv.
  destruct (Z.leb_spec (capacity c) (Z.of_nat (length l))).
  2:{ by destruct Hv as (_ & _ & ->). }
  assert (Evict (policy c) = Some (last l.*1, policy c)) as Hev.
  { change (Evict (policy c)) with (r ← LRU.LRU_Evict (policy c); Some (r, policy c)).
    by rewrite (LRU.LRU_Evict_refines _ _ Hr). }
  rewrite Hev in Hv. destruct l as [|kv l _] using rev_ind; [simpl in *; lia|].
  rewrite length_app, Nat.add_sub, take_app_length. rewrite fmap_app in Hv.
  change (fst <$> [kv]) with [kv.1] in Hv. rewrite last_snoc in Hv.
  destruct Hv as (_ & _ & Habs & _ & pol & [= <-] & Hon).
  pose proof (LRU.recency_NoDup _ _ Hr) as Hnd.
  split.
  - rewrite <-(forget_last l kv Hnd) at 1. rewrite ref_remove_keys. by eapply order_evict.
  - by rewrite <-(forget_last l kv Hnd), ref_remove_map, Habs, Ha.
Qed.

Lemma lru_set c l now k v ttl cap :
  lru_rep c l → capacity c = cap → (1 ≤ cap)%Z →
  ∃ c', step c (OpSet now k v ttl) = Some (c', (ref_step cap l (OpSet now k v ttl)).2) ∧
        capacity c' = cap ∧ lru_rep c' (ref_step cap l (OpSet now k v ttl)).1.
Proof.
  intros Hrep Hcap Hc. pose proof Hrep as [Hinv Hr Ha]. cbn [step ref_step]. unfold Set_.
  destruct (ttl <? 0)%Z; [eauto|]. destruct (maxTTL <? ttl)%Z; [eauto|].
  destruct (Set_locked_spec (now 0) (now 1) k v (expiry (now 0) ttl) c Hinv)
    as (c' & -> & Hinv' & Hcap' & _ & Habs & Hpol).
  bind. rewrite ref_find_spec, <-Ha.
  assert (capacity c' = cap) by congruence. exists c'.
  destruct (decide (k ∈ dom (entries c))) as [Hk|Hk].
  - assert (k ∈ l.*1) as Hkl by by apply (rep_keys c l k Hrep).
    rewrite <-(abs_dom c Hinv) in Hk. apply elem_of_dom in Hk as [vx ->]. simpl.
    split; [done|]. split; [done|]. split; [done|by eapply (order_access c)|].
    simpl. by rewrite ref_remove_map, insert_delete_eq, Habs, Ha.
  - assert (abs c !! k = None) as ->
      by (apply not_elem_of_dom; by rewrite (abs_dom c Hinv)).
    destruct Hpol as (c1 & Hroom & Hins).
    destruct (lru_make_room c c1 l cap Hrep Hcap Hc Hroom) as [Hr1 Ha1].
    pose proof (make_room_abs c c1 Hinv Hroom) as Hm. rewrite <-Hm, Ha1 in Habs.
    assert (k ∉ l.*1) as Hkl by (by rewrite <-(rep_keys c l k Hrep)).
    split; [done|]. split; [done|]. split; [done| |done].
    eapply (order_insert (policy c1)); [done| |done].
    destruct (_ <=? _)%Z; [|done].
    intros (kv & Hkv & Hin)%list_elem_of_fmap_1. apply Hkl. cbn [fst] in Hkv. rewrite Hkv.
    apply list_elem_of_fmap_2. apply elem_of_take in Hin as (i & Hi & _).
    by eapply list_elem_of_lookup_2.
Qed.

Lemma lru_delete c l k cap :
  lru_rep c l → capacity c = cap →
  ∃ c', step c (OpDelete k) = Some (c', RDelete) ∧
        capacity c' = cap ∧ lru_rep c' (ref_remove k l).
Proof.
  intros Hrep Hcap. pose proof Hrep as [Hinv Hr Ha]. simpl.
  destruct (Delete_spec k c Hinv) as (c' & -> & Hinv' & Hcap' & _ & _ & Habs & Hpol). simpl.
  exists c'. split; [done|]. split; [congruence|].
  split; [done| |by rewrite ref_remove_map, Habs, Ha]. rewrite ref_remove_keys.
  destruct (decide (k ∈ dom (entries c))) as [Hk|Hk]; [by eapply order_evict|].
  subst c'. rewrite LRU.forget_notin; [done|]. by rewrite <-(rep_keys c l k Hrep).
Qed.

Lemma lru_run os c l cap :
  lru_rep c l → capacity c = cap → (1 ≤ cap)%Z →
  ∃ c', run c os = Some (c', (ref_run cap l os).2) ∧ lru_rep c' (ref_run cap l os).1.
Proof.
  revert c l. induction os as [|o os IH]; intros c l Hrep Hcap Hc; [simpl; eauto|].
  assert (∃ c', step c o = Some (c', (ref_step cap l o).2) ∧
    capacity c' = cap ∧ lru_rep c' (ref_step cap l o).1) as (c1 & Hs & Hcap1 & Hrep1).
  { destruct o; [by apply lru_get|by apply lru_set|by apply lru_delete]. }
  cbn [run ref_run]. rewrite Hs. bind.
  destruct (ref_step cap l o) as [l1 r]. simpl in *.
  destruct (IH c1 l1 Hrep1 Hcap1 Hc) as (c2 & -> & Hrep2).
  destruct (ref_run cap l1 os) as [l2 rs]. simpl in *. eauto.
Qed.

(** ** Histories and the last write of a key *)

Definition write_of (k : string) (o : op) (prev : option (bytes * Time)) : option (bytes * Time) :=
  match o with
  | OpGet _ _ => prev
  | OpSet now k' v ttl =>
      if decide (k = k') then
        if (ttl <? 0)%Z || (maxTTL <? ttl)%Z then prev else Some (v, expiry (now 0) ttl)
      else prev
  | OpDelete k' => if decide (k = k') then None else prev
  end.

(** The value and expiry the last effective write of [k] gave it. *)
Definition last_write (k : string) (os : list op) : option (bytes * Time) :=
  foldl (λ prev o, write_of k o prev) None os.

(** Every key some call stores. *)
Definition set_keys (os : list op) : gset string :=
  list_to_set (omap (λ o, match o with OpSet _ k _ _ => Some k | _ => None end) os).

(** [t] is not before any clock reading of a read in [os]. *)
Definition read_before (os : list op) (t : Time) : Prop :=
  ∀ now k i, OpGet now k ∈ os → (now i ≤ t)%Z.

Lemma past_mono x t t' : past x t = true → (t ≤ t')%Z → past x t' = true.
Proof.
  unfold past, After. intros [-> ?%Z.ltb_lt]%andb_prop ?. simpl. apply Z.ltb_lt. lia.
Qed.

(** A stored value is the last write. *)
Lemma spec_step_sound cap m o m' r k (w : option (bytes * Time)) :
  spec_step cap m o m' r →
  (∀ vx, m !! k = Some vx → w = Some vx) →
  ∀ vx, m' !! k = Some vx → write_of k o w = Some vx.
Proof.
  intros Hstep Hm vx.
  assert (∀ k' : string, delete k' m !! k = Some vx → k ≠ k' ∧ w = Some vx) as Hdel.
  { intros k' [? ?]%lookup_delete_Some. eauto. }
  destruct Hstep; simpl; try (by apply Hm).
  - destruct (past x (now 1)); [intros ?%Hdel; tauto|by apply Hm].
  - destruct (decide _); [|by apply Hm]. replace (ttl <? 0)%Z with true by lia. by apply Hm.
  - destruct (decide _); [|by apply Hm].
    replace (maxTTL <? ttl)%Z with true by lia. rewrite orb_true_r. by apply Hm.
  - replace ((ttl <? 0) || (maxTTL <? ttl))%Z with false by lia.
    rewrite lookup_insert. destruct (decide (key = k)), (decide (k = key)); by auto.
  - replace ((ttl <? 0) || (maxTTL <? ttl))%Z with false by lia.
    rewrite lookup_insert. destruct (decide (key = k)), (decide (k = key)); by auto.
  - replace ((ttl <? 0) || (maxTTL <? ttl))%Z with false by lia.
    rewrite lookup_insert. destruct (decide (key = k)), (decide (k = key)); try by auto.
    intros ?%Hdel. tauto.
  - intros [? ?]%Hdel. by rewrite decide_False.
Qed.

Lemma spec_run_sound cap m os m' rs k (w : option (bytes * Time)) :
  spec_run cap m os m' rs →
  (∀ vx, m !! k = Some vx → w = Some vx) →
  ∀ vx, m' !! k = Some vx → foldl (λ prev o, write_of k o prev) w os = Some vx.
Proof.
  intros Hrun. revert w. induction Hrun as [|m o m1 r os m2 rs Hs _ IH]; intros w Hm; [done|].
  simpl. apply IH. by eapply spec_step_sound.
Qed.

(** Below capacity the last write is only lost by expiring. *)
Lemma spec_step_complete cap m o m' r k (w : option (bytes * Time)) (ks : gset string) t :
  spec_step cap m o m' r →
  dom m ⊆ ks → set_keys [o] ⊆ ks → (Z.of_nat (size ks) ≤ cap)%Z → read_before [o] t →
  (∀ vx, w = Some vx → m !! k = Some vx ∨ past vx.2 t = true) →
  dom m' ⊆ ks ∧
  ∀ vx, write_of k o w = Some vx → m' !! k = Some vx ∨ past vx.2 t = true.
Proof.
  intros Hstep Hdom Hks Hsize Ht Hw. destruct Hstep; simpl in *; try (by split).
  - assert (past x t = true) as Hx.
    { apply (past_mono x (now 0)); [done|]. apply (Ht now key 0). set_solver. }
    destruct (past x (now 1)); [|by split]. split; [set_solver|].
    intros vx [Hm|]%Hw; [|by right].
    destruct (decide (k = key)) as [->|]; [|left; by rewrite lookup_delete_ne].
    right. by simplify_eq.
  - split; [done|]. replace (ttl <? 0)%Z with true by lia. by destruct (decide _).
  - split; [done|]. replace (maxTTL <? ttl)%Z with true by lia. rewrite orb_true_r.
    by destruct (decide _).
  - split; [set_solver|]. replace ((ttl <? 0) || (maxTTL <? ttl))%Z with false by lia.
    intros vx. rewrite lookup_insert. destruct (decide (k = key)), (decide (key = k)); by auto.
  - split; [set_solver|]. replace ((ttl <? 0) || (maxTTL <? ttl))%Z with false by lia.
    intros vx. rewrite lookup_insert. destruct (decide (k = key)), (decide (key = k)); by auto.
  - exfalso. assert (size ({[key]} ∪ dom m) ≤ size ks) as Hle
      by (apply subseteq_size; set_solver).
    rewrite size_union, size_singleton, size_dom in Hle by set_solver. lia.
  - split; [set_solver|]. intros vx. destruct (decide (k = key)); [done|].
    intros [|]%Hw; [left; by rewrite lookup_delete_ne|by right].
Qed.

Lemma spec_run_complete cap m os m' rs k (w : option (bytes * Time)) (ks : gset string) t :
  spec_run cap m os m' rs →
  dom m ⊆ ks → set_keys os ⊆ ks → (Z.of_nat (size ks) ≤ cap)%Z → read_before os t →
  (∀ vx, w = Some vx → m !! k = Some vx ∨ past vx.2 t = true) →
  ∀ vx, foldl (λ prev o, write_of k o prev) w os = Some vx →
        m' !! k = Some vx ∨ past vx.2 t = true.
Proof.
  intros Hrun. revert w. induction Hrun as [|m o m1 r os m2 rs Hs _ IH];
    intros w Hdom Hks Hsize Ht Hw; [done|].
  assert (set_keys (o :: os) = set_keys [o] ∪ set_keys os) as Hcons.
  { unfold set_keys. destruct o; simpl; set_solver. }
  destruct (spec_step_complete cap m o m1 r k w ks t) as [Hdom1 Hw1]; try done.
  - set_solver.
  - intros now k' i Hin. apply (Ht now k'). set_solver.
  - simpl. apply IH; try done; [set_solver|].
    intros now k' i Hin. apply (Ht now k'). set_solver.
Qed.

Lemma run_snoc {P} `{!EvictionPolicy P} (c : InMemoryCache P) os o :
  run c (os ++ [o]) =
    '(c1, rs) ← run c os; '(c2, r) ← step c1 o; Some (c2, rs ++ [r]).
Proof.
  revert c. induction os as [|o' os IH]; intros c; simpl.
  - destruct (step c o) as [[c1 r]|]; done.
  - destruct (step c o') as [[c1 r]|]; [|done]. simpl. rewrite IH.
    destruct (run c1 os) as [[c2 rs]|]; [|done]. simpl.
    destruct (step c2 o) as [[c3 r']|]; done.
Qed.

(** ** Theorems *)

Section Generic.
Context {P : Type} `{!EvictionPolicy P, !EvictionPolicySpec P}.

(** C2: the sequential contract. With any policy that meets the policy
    interface, any sequence of calls on a new cache runs without a panic, its
    results and contents are those of a bounded map with expiries that loses a
    key only by a delete, by a read after its expiry or by an insertion at
    capacity; the cache never holds more keys than its capacity and the policy
    always tracks exactly the cached keys. *)
Theorem cache_meets_contract (cap : Z) (pol : P) (os : list op)
    (Hwf : policy_wf pol) (Hempty : tracked pol = ∅) (Hcap : (1 ≤ cap)%Z) :
  ∃ c rs, run (New cap pol) os = Some (c, rs) ∧
          spec_run cap ∅ os (abs c) rs ∧
          (Len c ≤ cap)%Z ∧
          tracked (policy c) = dom (entries c).
Proof.
  destruct (inv_new cap pol Hwf Hempty Hcap) as (Hinv & Hb & Habs).
  destruct (cache_run_refines os (New cap pol) cap Hinv eq_refl Hcap Hb)
    as (c & rs & Hrun & Hinv' & Hcap' & Hb' & Hspec).
  rewrite Habs in Hspec. unfold bounded in Hb'. rewrite Hcap' in Hb'.
  exists c, rs. eauto using inv_tracked.
Qed.

(** C31: reads are sound over whole histories. Whatever calls came before and
    whatever the policy evicted, a hit returns the value of the last effective
    write of its key, and that write has not expired. *)
Theorem hit_returns_last_write (cap : Z) (pol : P) (os : list op) now k v c rs
    (Hwf : policy_wf pol) (Hempty : tracked pol = ∅) (Hcap : (1 ≤ cap)%Z)
    (Hrun : run (New cap pol) (os ++ [OpGet now k]) = Some (c, rs ++ [RGet (Some v)])) :
  ∃ x, last_write k os = Some (v, x) ∧ past x (now 0) = false.
Proof.
  destruct (inv_new cap pol Hwf Hempty Hcap) as (Hinv & Hb & Habs).
  destruct (cache_run_refines os (New cap pol) cap Hinv eq_refl Hcap Hb)
    as (c1 & rs1 & Hrun1 & Hinv1 & _ & _ & Hspec).
  rewrite run_snoc, Hrun1 in Hrun. simpl in Hrun.
  destruct (Get_spec now k c1 Hinv1) as (c2 & r & Hget & _ & _ & _ & Hr).
  rewrite Hget in Hrun. simpl in Hrun.
  injection Hrun as -> [_ [= ->]]%app_inj_tail.
  destruct (abs c1 !! k) as [[v' x]|] eqn:E; [|by destruct Hr].
  destruct (past x (now 0)) eqn:Ex; [by destruct Hr|].
  destruct Hr as ([= <-] & _). exists x. split; [|done].
  eapply spec_run_sound; [done| |done]. rewrite Habs. intros vx. by rewrite lookup_empty.
Qed.

(** Below capacity nothing is lost. If the calls store no more distinct
    keys than the capacity and the clock has not run backwards, a read returns
    exactly the last effective write of its key, as long as it has not expired,
    and a miss otherwise. *)
Theorem below_capacity_reads_exact (cap : Z) (pol : P) (os : list op) now k
    (Hwf : policy_wf pol) (Hempty : tracked pol = ∅) (Hcap : (1 ≤ cap)%Z)
    (Hkeys : (Z.of_nat (size (set_keys os)) ≤ cap)%Z) (Hclock : read_before os (now 0)) :
  ∃ c rs, run (New cap pol) (os ++ [OpGet now k]) = Some (c, rs ++
    [RGet match last_write k os with
          | Some (v, x) => if past x (now 0) then None else Some v
          | None => None
          end]).
Proof.
  destruct (inv_new cap pol Hwf Hempty Hcap) as (Hinv & Hb & Habs).
  destruct (cache_run_refines os (New cap pol) cap Hinv eq_refl Hcap Hb)
    as (c1 & rs1 & Hrun1 & Hinv1 & _ & _ & Hspec). rewrite Habs in Hspec.
  rewrite run_snoc, Hrun1. simpl.
  destruct (Get_spec now k c1 Hinv1) as (c2 & r & -> & _ & _ & _ & Hr). simpl.
  exists c2, rs1. do 4 f_equal.
  pose proof (spec_run_sound cap ∅ os (abs c1) rs1 k None Hspec) as Hsound.
  assert (∀ vx, last_write k os = Some vx → abs c1 !! k = Some vx ∨ past vx.2 (now 0) = true) as Hc
    by (eapply (spec_run_complete cap ∅ os (abs c1) rs1 k None (set_keys os)); done || set_solver).
  destruct (abs c1 !! k) as [vx|] eqn:E.
  - assert (last_write k os = Some vx) as -> by (apply Hsound; [by intros vx'; rewrite lookup_empty|done]).
    destruct vx as [v x]. by destruct (past x (now 0)), Hr as [-> _].
  - destruct Hr as [-> _]. destruct (last_write k os) as [[v x]|]; [|done].
    destruct (Hc (v, x) eq_refl) as [|Hp]; [done|]. simpl in Hp. by rewrite Hp.
Qed.

(** A [Set] with a legal TTL succeeds even on a full cache, and the key is
    then readable up to and including its expiry instant; the first read after
    it misses and takes the key out of the map and out of the policy. *)
Theorem set_then_get (c : InMemoryCache P) (now now' : Clock) key v ttl
    (Hinv : cache_inv c) (Httl : (0 ≤ ttl ≤ maxTTL)%Z) (Hepoch : (0 < now 0%nat)%Z) :
  ∃ c1 c2 r, Set_ now key v ttl c = Some (c1, None) ∧
             Get now' key c1 = Some (c2, r) ∧
             ((now' 0%nat ≤ now 0%nat + ttl)%Z → r = Some v ∧ abs c2 = abs c1) ∧
             ((now 0%nat + ttl < now' 0%nat)%Z → (now' 0%nat ≤ now' 1%nat)%Z →
              r = None ∧ (key ∉ dom (entries c2)) ∧ (key ∉ tracked (policy c2))).
Proof.
  unfold Set_. replace (ttl <? 0)%Z with false by lia. replace (maxTTL <? ttl)%Z with false by lia.
  destruct (Set_locked_spec (now 0) (now 1) key v (expiry (now 0) ttl) c Hinv)
    as (c1 & -> & Hinv1 & _ & _ & Habs & _). simpl.
  destruct (Get_spec now' key c1 Hinv1) as (c2 & r & Hget & Hinv2 & _ & _ & Hr).
  exists c1, c2, r. split; [done|]. split; [done|].
  rewrite Habs, lookup_insert_eq in Hr.
  assert (expiry (now 0%nat) ttl = now 0%nat + ttl)%Z as Hx
    by (unfold expiry, Add; destruct (Z.eqb_spec ttl 0); lia).
  rewrite Hx in Hr.
  assert (∀ t, past (now 0%nat + ttl)%Z t = (now 0%nat + ttl <? t)%Z) as Hp.
  { intros t. unfold past, IsZero, time_zero, After.
    by replace (now 0%nat + ttl =? 0)%Z with false by lia. }
  rewrite !Hp in Hr. split.
  - intros Hle. replace (now 0%nat + ttl <? now' 0%nat)%Z with false in Hr by lia.
    destruct Hr as (-> & Hr & _). by rewrite Hr, Habs, Hx.
  - intros Hlt Hmono. replace (now 0%nat + ttl <? now' 0%nat)%Z with true in Hr by lia.
    replace (now 0%nat + ttl <? now' 1%nat)%Z with true in Hr by lia.
    destruct Hr as (-> & Habs2 & _).
    rewrite (inv_tracked c2 Hinv2), <-(abs_dom c2 Hinv2), Habs2. set_solver.
Qed.

(** [LiveLen] counts exactly the keys whose read at the same instant would
    hit, and never more than [Len]. *)
Theorem livelen_counts_hits (c : InMemoryCache P) (t : Time) (Hinv : cache_inv c) :
  ∃ ks : gset string,
    LiveLen t c = Some (Z.of_nat (size ks)) ∧ (Z.of_nat (size ks) ≤ Len c)%Z ∧
    ∀ k, k ∈ ks ↔ ∃ c' v, Get (clock_at t) k c = Some (c', Some v).
Proof.
  exists (filter (λ k, readable c t k = true) (dom (entries c))).
  split; [by apply LiveLen_spec|]. split.
  { unfold Len. rewrite <-size_dom. apply Nat2Z.inj_le, subseteq_size. set_solver. }
  intros k. rewrite elem_of_filter, <-(abs_dom c Hinv). unfold readable.
  destruct (Get_spec (clock_at t) k c Hinv) as (c' & r & -> & _ & _ & _ & Hr).
  unfold clock_at in Hr. rewrite elem_of_dom. destruct (abs c !! k) as [[v x]|].
  - destruct (past x t); destruct Hr as [-> _]; simpl; naive_solver.
  - destruct Hr as [-> _]. split; [by intros [? _]|by intros (? & ? & ?)].
Qed.

End Generic.

(** C3: the LRU-backed cache (hash map, linked list, lazy expiry) is equivalent
    to the list reference implementation: on every sequence of calls the
    results agree, and the contents are the list's, kept in recency order, so
    that at capacity it is the least recently used key that makes room. *)
Theorem lru_cache_equiv_recency_list (cap : Z) (os : list op) (Hcap : (1 ≤ cap)%Z) :
  ∃ c, run (New cap LRU.NewLRU) os = Some (c, (ref_run cap [] os).2) ∧
       abs c = list_to_map (ref_run cap [] os).1 ∧
       LRU.recency (policy c) ((ref_run cap [] os).1).*1.
Proof.
  destruct (inv_new cap LRU.NewLRU) as (Hinv & _ & Habs); [|done|done|].
  { exists []. apply LRU.recency_new. }
  destruct (lru_run os (New cap LRU.NewLRU) [] cap) as (c & Hrun & [_ Hr Ha]); try done.
  - split; [done|apply LRU.recency_new|done].
  - eauto.
Qed.

Definition byte_a : bytes := [Byte.x61].
Definition byte_b : bytes := [Byte.x62].

(** Calls of the examples: a read, and a store with a TTL in seconds. *)
Definition get_at (t : Time) (k : string) : op := OpGet (clock_at t) k.
Definition set_at (t : Time) (k : string) (v : bytes) (secs : Z) : op :=
  OpSet (clock_at t) k v (secs * Second)%Z.

(** With the TTL-only policy an update that extends the TTL of a key does
    not reach the policy ([OnAccess] is a no-op), so the next eviction takes
    that key although another cached key expires sooner. *)
Theorem ttl_policy_keeps_stale_expiry :
  ∃ pol c rs, TTLOnly.NewTTLOnly = Some pol ∧
    run (New 2 pol) [set_at 1 "a" byte_a 10; set_at 1 "b" byte_b 20;
                     set_at 2 "a" byte_a 1000; set_at 3 "c" byte_b 30;
                     get_at 4 "a"; get_at 4 "b"] = Some (c, rs ++ [RGet None; RGet (Some byte_b)]) ∧
    snd <$> abs c !! "b" = Some (1 + 20 * Second)%Z.
Proof.
  assert (∃ pol, TTLOnly.NewTTLOnly = Some pol) as [pol Hpol] by (vm_compute; eauto).
  pose proof Hpol as Heq. vm_compute in Heq. injection Heq as <-.
  eexists _, _, [_; _; _; _]. split; [exact Hpol|]. vm_compute. done.
Qed.

Lemma cache_meets_contract_witness :
  ∃ c rs, run (New 1 LRU.NewLRU) [set_at 1 "a" byte_a 10; set_at 1 "b" byte_b 10] = Some (c, rs) ∧
          (Len c ≤ 1)%Z.
Proof.
  destruct (cache_meets_contract 1 LRU.NewLRU [set_at 1 "a" byte_a 10; set_at 1 "b" byte_b 10])
    as (c & rs & Hrun & _ & Hlen & _).
  - exists []. apply LRU.recency_new.
  - reflexivity.
  - lia.
  - exists c, rs. split; [exact Hrun|exact Hlen].
Defined.

Lemma hit_returns_last_write_witness :
  ∃ x, last_write "a" [set_at 1 "a" byte_a 10; set_at 2 "a" byte_b 10] = Some (byte_b, x).
Proof.
  destruct (run (New 1 LRU.NewLRU) ([set_at 1 "a" byte_a 10; set_at 2 "a" byte_b 10] ++
    [get_at 3 "a"])) as [[c rs]|] eqn:Hrun.
  - destruct (hit_returns_last_write 1 LRU.NewLRU
      [set_at 1 "a" byte_a 10; set_at 2 "a" byte_b 10] (clock_at 3) "a" byte_b c
      [RSet None; RSet None]) as (x & Hx & _).
    + exists []. apply LRU.recency_new.
    + reflexivity.
    + lia.
    + unfold get_at in Hrun. rewrite Hrun. vm_compute in Hrun. injection Hrun as <- <-. reflexivity.
    + exists x. exact Hx.
  - vm_compute in Hrun. discriminate Hrun.
Defined.

Lemma below_capacity_reads_exact_witness :
  ∃ c rs, run (New 2 LRU.NewLRU)
    ([set_at 1 "a" byte_a 10; set_at 1 "b" byte_b 10; set_at 2 "a" byte_b 10] ++ [get_at 3 "a"])
    = Some (c, rs ++ [RGet (Some byte_b)]).
Proof.
  apply (below_capacity_reads_exact 2 LRU.NewLRU
    [set_at 1 "a" byte_a 10; set_at 1 "b" byte_b 10; set_at 2 "a" byte_b 10] (clock_at 3) "a").
  - exists []. apply LRU.recency_new.
  - reflexivity.
  - lia.
  - vm_compute. discriminate.
  - intros now k i Hin. repeat (apply elem_of_cons in Hin as [Hin|Hin]; [discriminate Hin|]).
    by apply not_elem_of_nil in Hin.
Defined.

Lemma set_then_get_witness :
  ∃ c1 c2, Set_ (clock_at 5) "a" byte_a 0 (New 1 LRU.NewLRU) = Some (c1, None) ∧
           Get (clock_at 5) "a" c1 = Some (c2, Some byte_a).
Proof.
  destruct (set_then_get (New 1 LRU.NewLRU) (clock_at 5) (clock_at 5) "a" byte_a 0)
    as (c1 & c2 & r & Hset & Hget & Hlive & _).
  - apply (inv_new 1 LRU.NewLRU); [exists []; apply LRU.recency_new|reflexivity|lia].
  - unfold maxTTL, Second. lia.
  - unfold clock_at. lia.
  - destruct Hlive as [-> _]; [unfold clock_at; lia|]. eauto.
Defined.

Lemma livelen_counts_hits_witness :
  ∃ ks : gset string, LiveLen 3 (New 1 LRU.NewLRU) = Some (Z.of_nat (size ks)).
Proof.
  destruct (livelen_counts_hits (New 1 LRU.NewLRU) 3) as (ks & Hlen & _).
  - apply (inv_new 1 LRU.NewLRU); [exists []; apply LRU.recency_new|reflexivity|lia].
  - exists ks. exact Hlen.
Defined.

Lemma lru_cache_equiv_recency_list_witness :
  ∃ c, run (New 2 LRU.NewLRU) [set_at 1 "a" byte_a 10; set_at 1 "b" byte_b 10; get_at 2 "a";
                               set_at 3 "c" byte_b 10; get_at 4 "b"] =
       Some (c, [RSet None; RSet None; RGet (Some byte_a); RSet None; RGet None]).
Proof.
  destruct (lru_cache_equiv_recency_list 2
    [set_at 1 "a" byte_a 10; set_at 1 "b" byte_b 10; get_at 2 "a";
     set_at 3 "c" byte_b 10; get_at 4 "b"]) as (c & Hrun & _); [lia|].
  exists c. rewrite Hrun. reflexivity.
Defined.
End CacheTheorems.
