(* ===== verification/CacheInterface.v ===== *)
(** The interface [shared.Cache] of [src/internal/shared/cache.go]: its four
    methods as a class, what its comments promise as a class of laws, the
    in-memory cache as the instance, and what a client can rely on. *)
From S2P Require Import Prelude Policy Lru Cache.

Module CacheInterface.

(** The methods; [None] is a panic. [Get] gives the value of a hit; the error it
    could also return is nil in every case. *)
Class SharedCache (C : Type) := {
  get : Clock → string → C → option (C * option bytes);
  set : Clock → string → bytes → Duration → C → option (C * option Cache.set_error);
  del : string → C → option C;
  len : C → Z
}.

(** The promises: [stored] is what the implementation holds, a value and its
    expiry for each key. A hit is a stored value that has not expired; a miss,
    or an expired entry, is not an error. [set] refuses a TTL below zero or
    above a day, and otherwise replaces the value and its expiry; it may drop
    other keys. [del] removes the key, and a key that is not there is no error. *)
Class SharedCacheSpec (C : Type) `{!SharedCache C} := {
  usable : C → Prop;
  stored : C → gmap string (bytes * Time);
  get_law now key c : usable c →
    ∃ c' r, get now key c = Some (c', r) ∧ usable c' ∧
      r = match stored c !! key with
          | Some (v, x) => if Cache.past x (now 0) then None else Some v
          | None => None
          end ∧
      (∀ k, k ≠ key → stored c' !! k = stored c !! k) ∧
      (r ≠ None → stored c' = stored c);
  set_law now key v ttl c : usable c →
    ∃ c' e, set now key v ttl c = Some (c', e) ∧ usable c' ∧
      (e = None ↔ (0 ≤ ttl ≤ Cache.maxTTL)%Z) ∧ (e ≠ None → c' = c) ∧
      (e = None → stored c' !! key = Some (v, Cache.expiry (now 0) ttl) ∧
                  ∀ k, k ≠ key → stored c' !! k = stored c !! k ∨ stored c' !! k = None);
  del_law key c : usable c →
    ∃ c', del key c = Some c' ∧ usable c' ∧ stored c' = delete key (stored c);
  len_law c : usable c → len c = Z.of_nat (size (stored c))
}.

(** ** The in-memory cache implements it *)

Section InMemory.
Context {P : Type} `{!EvictionPolicy P, !EvictionPolicySpec P}.

#[global] Instance InMemoryCache_shared : SharedCache (Cache.InMemoryCache P) := {|
  get := Cache.Get; set := Cache.Set_; del := Cache.Delete; len := Cache.Len
|}.

#[global] Program Instance InMemoryCache_spec : SharedCacheSpec (Cache.InMemoryCache P) := {|
  usable := Cache.cache_inv; stored := Cache.abs
|}.
Next Obligation.
  intros now key c Hinv. destruct (Cache.Get_spec now key c Hinv) as (c' & r & Hg & Hinv' & _ & _ & Hr).
  exists c', r. split; [done|]. split; [done|].
  destruct (Cache.abs c !! key) as [[v x]|]; [destruct (Cache.past x (now 0))|].
  - destruct Hr as [-> Hr]. split; [done|]. split; [|done]. intros k Hk.
    destruct (Cache.past x (now 1)); [destruct Hr as [-> _]; by rewrite lookup_delete_ne|by subst c'].
  - destruct Hr as (-> & -> & _). done.
  - destruct Hr as [-> ->]. done.
Qed.
Next Obligation.
  intros now key v ttl c Hinv. cbn [set InMemoryCache_shared]. unfold Cache.Set_.
  destruct (Z.ltb_spec ttl 0); [eexists _, _; split_and!; try done; split; [done|lia]|].
  destruct (Z.ltb_spec Cache.maxTTL ttl); [eexists _, _; split_and!; try done; split; [done|lia]|].
  destruct (Cache.Set_locked_spec (now 0) (now 1) key v (Cache.expiry (now 0) ttl) c Hinv)
    as (c' & -> & Hinv' & _ & _ & Habs & _). bind. eexists _, _. split_and!; [done|done|done|done|].
  intros _. rewrite Habs. split; [by rewrite lookup_insert_eq|]. intros k Hk.
  rewrite lookup_insert_ne by done. destruct (decide _); [by left|].
  destruct (Cache.victim c) as [w|]; [|by left]. destruct (decide (w = k)) as [->|].
  - right. apply lookup_delete_eq.
  - left. by rewrite lookup_delete_ne.
Qed.
Next Obligation.
  intros key c Hinv. destruct (Cache.Delete_spec key c Hinv) as (c' & H & ? & _ & _ & _ & ? & _).
  by exists c'.
Qed.
Next Obligation.
  intros c Hinv. cbn. by rewrite Cache.abs_size.
Qed.
End InMemory.

(** ** What a client can rely on *)

Section Client.
Context {C : Type} `{!SharedCache C, !SharedCacheSpec C}.

(** The life of a key behind the interface, for every implementation that
    keeps its promises. A value set with an admissible TTL is what a read
    returns until its expiry has passed, whatever was stored before, and is
    gone afterwards; a read does not disturb it; setting it again replaces value
    and expiry; deleting it makes every read miss, and deleting once more
    changes nothing. *)
Theorem interface_key_life (c : C) (key : string) (v w : bytes) (ttl ttl' : Duration)
    (now now' : Clock)
    (Hc : usable c) (Httl : (0 ≤ ttl ≤ Cache.maxTTL)%Z) (Httl' : (0 ≤ ttl' ≤ Cache.maxTTL)%Z) :
  ∃ c1, set now key v ttl c = Some (c1, None) ∧ usable c1 ∧
    (∀ t, ∃ c2, get t key c1 =
       Some (c2, if Cache.past (Cache.expiry (now 0) ttl) (t 0) then None else Some v) ∧ usable c2 ∧
       (Cache.past (Cache.expiry (now 0) ttl) (t 0) = false → stored c2 = stored c1)) ∧
    (∃ c2, set now' key w ttl' c1 = Some (c2, None) ∧
       stored c2 !! key = Some (w, Cache.expiry (now' 0) ttl')) ∧
    ∃ c2, del key c1 = Some c2 ∧ (∀ t, ∃ c3, get t key c2 = Some (c3, None)) ∧
      ∃ c3, del key c2 = Some c3 ∧ stored c3 = stored c2.
Proof.
  destruct (set_law now key v ttl c Hc) as (c1 & e & Hs & Hu & He & _ & Hk).
  apply He in Httl as ->. destruct (Hk eq_refl) as [Hkey _]. exists c1. split; [done|].
  split; [done|]. split_and!.
  - intros t. destruct (get_law t key c1 Hu) as (c2 & r & Hg & Hu2 & Hr & _ & Hst).
    rewrite Hkey in Hr. exists c2. rewrite <-Hr. split; [done|]. split; [done|].
    intros Hp. rewrite Hp in Hr. apply Hst. by rewrite Hr.
  - destruct (set_law now' key w ttl' c1 Hu) as (c2 & e & Hs2 & _ & He2 & _ & Hk2).
    apply He2 in Httl' as ->. exists c2. split; [done|]. by apply Hk2.
  - destruct (del_law key c1 Hu) as (c2 & Hd & Hu2 & Hs2). exists c2. split; [done|]. split.
    + intros t. destruct (get_law t key c2 Hu2) as (c3 & r & Hg & _ & Hr & _).
      rewrite Hs2, lookup_delete_eq in Hr. exists c3. by rewrite Hg, Hr.
    + destruct (del_law key c2 Hu2) as (c3 & Hd3 & _ & Hs3). exists c3. split; [done|].
      by rewrite Hs3, Hs2, delete_delete_eq.
Qed.
End Client.

(** *** Witnesses *)

Lemma interface_key_life_witness :
  ∃ c1, set (λ _, 1%Z) "k" [] Second (Cache.New 1 LRU.NewLRU) = Some (c1, None) ∧
        ∃ c2, get (λ _, 2%Z) "k" c1 = Some (c2, Some []).
Proof.
  destruct (interface_key_life (Cache.New 1 LRU.NewLRU) "k" [] [] Second Second (λ _, 1%Z) (λ _, 1%Z))
    as (c1 & Hs & _ & Hg & _).
  - apply Cache.inv_new; [exists []; apply LRU.recency_new|done|done].
  - vm_compute. split; discriminate.
  - vm_compute. split; discriminate.
  - exists c1. split; [exact Hs|]. destruct (Hg (λ _, 2%Z)) as (c2 & H2 & _). exists c2. exact H2.
Defined.
End CacheInterface.
