(* ===== verification/CacheConc.v ===== *)
(** The in-memory cache under concurrent callers. [Get] takes and releases the
    mutex several times and reads the entry it found outside of it, so a call
    is a program counter that moves from one critical section (or unlocked
    read) to the next, and the calls in flight interleave in any order. The
    clock readings of every step are arbitrary. The expiry and the value of an
    entry are several words each, and [Set] overwrites them under the lock while a
    [Get] may be reading them without it, a data race: a read that a [Set] of the
    entry overlaps gives anything at all. *)
From S2P Require Import Prelude Policy Lru Cache.

Module CacheConc.
Import Cache.

(** Where a call stands. *)
Inductive pc :=
| GetStart (key : string)                     (* about to look the key up under RLock *)
| GetFound (key : string) (p : loc) (raced : bool)   (* holds the entry, reading its expiry *)
| GetStale (key : string)                     (* saw it expired, about to lock *)
| GetLive (key : string) (p : loc)            (* saw it live, about to lock *)
| GetRead (key : string) (p : loc) (raced : bool)    (* unlocked, reading the value *)
| GetRet (r : option bytes) (raced : bool)    (* returned; [raced] if the value was read in a race *)
| SetStart (key : string) (v : bytes) (ttl : Duration)
| SetReady (key : string) (v : bytes) (now : Time) (expiresAt : Time)  (* about to lock *)
| SetRet (err : option set_error)
| DelStart (key : string)
| DelRet.

Definition finished (k : pc) : bool :=
  match k with GetRet _ _ | SetRet _ | DelRet => true | _ => false end.

(** The call a program counter starts. *)
Definition start (o : op) : pc :=
  match o with
  | OpGet _ key => GetStart key
  | OpSet _ key v ttl => SetStart key v ttl
  | OpDelete key => DelStart key
  end.

Section Threads.
Context {P : Type} `{!EvictionPolicy P}.

(** What a racing read gives: whether the entry seems expired, and its value. *)
Definition glimpse : Type := bool * bytes.

(** One step of a call between two points where others can interfere; [None] is a
    panic. [g] is what it reads if the read is a race. *)
Definition pc_step (now : Clock) (g : glimpse) (c : InMemoryCache P) (k : pc) : option (InMemoryCache P * pc) :=
  match k with
  | GetStart key =>
      Some (c, match Get_lookup key c with
               | None => GetRet None false
               | Some p => GetFound key p false
               end)
  | GetFound key p raced =>
      e ← mem c !! p;
      Some (c, if (if raced : bool then g.1 else IsExpired e (now 0)) then GetStale key else GetLive key p)
  | GetStale key => c' ← Get_expire (now 0) key c; Some (c', GetRet None false)
  | GetLive key p => c' ← Get_hit (now 0) (now 1) key p c; Some (c', GetRead key p false)
  | GetRead key p raced =>
      e ← mem c !! p; Some (c, GetRet (Some (if raced : bool then g.2 else Value e)) raced)
  | SetStart key v ttl =>
      Some (c, if (ttl <? 0)%Z then SetRet (Some (ErrNegativeTTL ttl))
               else if (maxTTL <? ttl)%Z then SetRet (Some (ErrTTLTooLong ttl))
               else SetReady key v (now 0) (expiry (now 0) ttl))
  | SetReady key v t x => c' ← Set_locked t (now 0) key v x c; Some (c', SetRet None)
  | DelStart key => c' ← Delete key c; Some (c', DelRet)
  | GetRet _ _ | SetRet _ | DelRet => Some (c, k)
  end.

(** The entry whose value and expiry the step of a call overwrites. *)
Definition overwrites (c : InMemoryCache P) (k : pc) : option loc :=
  match k with SetReady key _ _ _ => entries c !! key | _ => None end.

(** What this does to a call that is reading the entry. *)
Definition disturb (w : option loc) (k : pc) : pc :=
  match k with
  | GetFound key p raced => GetFound key p (raced || bool_decide (w = Some p))
  | GetRead key p raced => GetRead key p (raced || bool_decide (w = Some p))
  | _ => k
  end.

(** The cache and the calls in flight or returned, by call identifier. *)
Record state := mk_state { shared : InMemoryCache P; calls : gmap nat pc }.

(** Call [i] at [k] goes on to [k'] and leaves the cache [c']. *)
Definition moved (s : state) (i : nat) (k : pc) (c' : InMemoryCache P) (k' : pc) : state :=
  mk_state c' (<[i := k']> (disturb (overwrites (shared s) k) <$> calls s)).

Inductive conc_step : state → state → Prop :=
| step_spawn s i o :
    calls s !! i = None →
    conc_step s (mk_state (shared s) (<[i := start o]> (calls s)))
| step_run s i k now g c' k' :
    calls s !! i = Some k → pc_step now g (shared s) k = Some (c', k') →
    conc_step s (moved s i k c' k').

Definition initial (cap : Z) (pol : P) : state := mk_state (New cap pol) ∅.

Definition reachable (cap : Z) (pol : P) (s : state) : Prop :=
  rtc conc_step (initial cap pol) s.

(** A call on its own: [fuel] steps from [k], with the clock read in order. *)
Fixpoint solo (fuel : nat) (now : nat → Clock) (c : InMemoryCache P) (k : pc)
    : option (InMemoryCache P * pc) :=
  match fuel with
  | 0 => Some (c, k)
  | S fuel => '(c', k') ← pc_step (now 0) (false, []) c k; solo fuel (λ i, now (S i)) c' k'
  end.

(** Schedules, to run concrete interleavings. *)
Inductive choice := Spawn (i : nat) (o : op) | Run (i : nat) (now : Clock) | Race (i : nat) (now : Clock) (g : glimpse).

Fixpoint exec (s : state) (l : list choice) : option state :=
  match l with
  | [] => Some s
  | Spawn i o :: l =>
      match calls s !! i with
      | Some _ => None
      | None => exec (mk_state (shared s) (<[i := start o]> (calls s))) l
      end
  | Run i now :: l =>
      k ← calls s !! i;
      '(c', k') ← pc_step now (false, []) (shared s) k;
      exec (moved s i k c' k') l
  | Race i now g :: l =>
      k ← calls s !! i;
      '(c', k') ← pc_step now g (shared s) k;
      exec (moved s i k c' k') l
  end.

Lemma exec_steps s l s' : exec s l = Some s' → rtc conc_step s s'.
Proof.
  revert s. induction l as [|[i o|i now|i now g] l IH]; intros s; simpl.
  - intros [= <-]. apply rtc_refl.
  - destruct (calls s !! i) eqn:E; [done|]. intros Hx%IH. eapply rtc_l; [|done]. by constructor.
  - destruct (calls s !! i) as [k|] eqn:E; [|done]. simpl.
    destruct (pc_step now (false, []) (shared s) k) as [[c' k']|] eqn:Ep; [|done]. simpl.
    intros Hx%IH. eapply rtc_l; [|done]. by econstructor.
  - destruct (calls s !! i) as [k|] eqn:E; [|done]. simpl.
    destruct (pc_step now g (shared s) k) as [[c' k']|] eqn:Ep; [|done]. simpl.
    intros Hx%IH. eapply rtc_l; [|done]. by econstructor.
Qed.
End Threads.
Arguments state : clear implicits.

Section Safety.
Context {P : Type} `{!EvictionPolicy P, !EvictionPolicySpec P}.
Implicit Types (c : InMemoryCache P) (s : state P).

(** The pointer a [Get] holds, if any, with its key. *)
Definition held (k : pc) : option (string * loc) :=
  match k with
  | GetFound key p _ | GetLive key p | GetRead key p _ => Some (key, p)
  | _ => None
  end.

(** Every pointer held by a call refers to an entry of its key, cached or not. *)
Definition held_ok c (k : pc) : Prop :=
  ∀ key p, held k = Some (key, p) → ∃ e, mem c !! p = Some e ∧ Key e = key.

(** What a step may do to the allocated entries: each keeps its key, and its
    value changes only to the one then cached under that key. *)
Definition evolves c c' : Prop :=
  ∀ p e, mem c !! p = Some e →
    ∃ e', mem c' !! p = Some e' ∧ Key e' = Key e ∧
          (Value e' = Value e ∨ ∃ x, abs c' !! Key e = Some (Value e', x)).

Lemma evolves_same c c' : mem c' = mem c → evolves c c'.
Proof. intros Hm p e He. rewrite Hm. eauto. Qed.

Lemma evolves_put c c' p e' :
  mem c' = <[p := e']> (mem c) →
  (∀ e, mem c !! p = Some e → Key e' = Key e ∧
        (Value e' = Value e ∨ ∃ x, abs c' !! Key e = Some (Value e', x))) →
  evolves c c'.
Proof.
  intros Hm He q f Hq. rewrite Hm. destruct (decide (q = p)) as [->|].
  - rewrite lookup_insert_eq. eauto.
  - rewrite lookup_insert_ne by done. eauto.
Qed.

Lemma held_ok_evolves c c' k : held_ok c k → evolves c c' → held_ok c' k.
Proof.
  intros Hk Hev key p (e & He & <-)%Hk. destruct (Hev p e He) as (e' & ? & ? & _). eauto.
Qed.

Lemma held_disturb w k : held (disturb w k) = held k.
Proof. by destruct k. Qed.

Definition good_step c c' (k' : pc) : Prop :=
  cache_inv c' ∧ capacity c' = capacity c ∧
  ((1 ≤ capacity c)%Z → bounded c → bounded c') ∧ held_ok c' k' ∧ evolves c c'.

Lemma good_same c k' : cache_inv c → held_ok c k' → good_step c c k'.
Proof. intros. do 4 (split; [done|]). by apply evolves_same. Qed.

Lemma set_good now now_p key v x c :
  cache_inv c →
  ∃ c', Set_locked now now_p key v x c = Some c' ∧ good_step c c' (SetRet None).
Proof.
  intros Hinv. destruct (Set_locked_spec now now_p key v x c Hinv)
    as (c' & Hset & Hinv' & Hcap & Hb & Habs & _).
  exists c'. do 5 (split; [done|]).
  destruct (Set_locked_mem _ _ _ _ _ _ _ Hinv Hset) as (p & e' & Hm & Hp & Hk & Hv & Hx & Hor).
  apply (evolves_put c c' p e' Hm). intros e He. destruct Hor as [Hin|]; [|congruence].
  destruct (inv_entries c Hinv key p Hin) as (e0 & ? & Hk0).
  assert (e0 = e) as -> by congruence. split; [congruence|]. right. exists x.
  by rewrite Habs, Hk0, Hv, lookup_insert_eq.
Qed.

Lemma get_hit_good now now_p key p c :
  cache_inv c → held_ok c (GetLive key p) →
  ∃ c', Get_hit now now_p key p c = Some c' ∧ good_step c c' (GetRead key p false).
Proof.
  intros Hinv Hh. destruct (Hh key p eq_refl) as (e & He & Hk).
  destruct (Get_hit_spec now now_p key p e c Hinv He)
    as (c' & e' & -> & Hinv' & Hent & Hcap & Habs & Hm & Hk' & Hv & _).
  exists c'. split; [done|]. split; [done|]. split; [done|].
  split; [by intros _; apply (bounded_entries c c' key); auto|].
  assert (evolves c c') as Hev.
  { apply (evolves_put c c' p e' Hm). intros e0 He0.
    assert (e0 = e) as -> by congruence. auto. }
  split; [|done]. by apply (held_ok_evolves c).
Qed.

(** No step of a call panics, and every step keeps the invariant. *)
Lemma pc_step_good now g c k :
  cache_inv c → held_ok c k → ∃ c' k', pc_step now g c k = Some (c', k') ∧ good_step c c' k'.
Proof.
  intros Hinv Hh.
  destruct k as [key|key p raced|key|key p|key p raced|r raced|key v ttl|key v t x|err|key|]; simpl.
  - eexists _, _. split; [done|]. apply good_same; [done|]. unfold Get_lookup.
    destruct (entries c !! key) as [p|] eqn:E; [|done].
    intros k' p' [= <- <-]. by apply (inv_entries c Hinv).
  - destruct (Hh key p eq_refl) as (e & -> & Hk). simpl.
    eexists _, _. split; [done|]. apply good_same; [done|].
    by destruct (if raced then g.1 else IsExpired e (now 0)).
  - destruct (Get_expire_spec (now 0) key c Hinv) as (c' & -> & ? & ? & ? & Hent & _). simpl.
    eexists _, _. do 3 (split; [done|]).
    split; [by intros _; apply (bounded_entries c c' key)|]. split; [done|].
    by apply evolves_same.
  - destruct (get_hit_good (now 0) (now 1) key p c Hinv Hh) as (c' & -> & Hg). simpl. eauto.
  - destruct (Hh key p eq_refl) as (e & -> & Hk). simpl.
    eexists _, _. split; [done|]. by apply good_same.
  - eexists _, _. split; [done|]. by apply good_same.
  - eexists _, _. split; [done|]. apply good_same; [done|].
    by destruct (ttl <? 0)%Z, (maxTTL <? ttl)%Z.
  - destruct (set_good t (now 0) key v x c Hinv) as (c' & -> & Hg). simpl. eauto.
  - eexists _, _. split; [done|]. by apply good_same.
  - destruct (Delete_spec key c Hinv) as (c' & -> & ? & ? & ? & ? & _). simpl.
    eexists _, _. do 3 (split; [done|]).
    split; [intros _; apply (bounded_entries c c' key); auto|]. split; [done|].
    by apply evolves_same.
  - eexists _, _. split; [done|]. by apply good_same.
Qed.

(** ** Reachable states *)

Record state_inv (cap : Z) s : Prop := {
  st_inv : cache_inv (shared s);
  st_cap : capacity (shared s) = cap;
  st_bound : bounded (shared s);
  st_held i k : calls s !! i = Some k → held_ok (shared s) k
}.

Lemma state_inv_step cap s s' :
  (1 ≤ cap)%Z → state_inv cap s → conc_step s s' →
  state_inv cap s' ∧ evolves (shared s) (shared s').
Proof.
  intros Hc [Hinv Hcap Hb Hh] Hstep. destruct Hstep as [s i o Hi|s i k now g c' k' Hi Hs].
  - split; [|by apply evolves_same]. split; simpl; [done..|].
    intros j k. rewrite lookup_insert. destruct (decide (i = j)); [|by apply Hh].
    intros [= <-]. by destruct o.
  - destruct (pc_step_good now g (shared s) k Hinv (Hh i k Hi)) as (c1 & k1 & Heq & Hg).
    rewrite Hs in Heq. injection Heq as <- <-. destruct Hg as (Hinv' & Hcap' & Hb' & Hk' & Hev).
    split; [|done]. split; simpl; [done|congruence|apply Hb'; [congruence|done]|].
    intros j k0. rewrite lookup_insert. destruct (decide (i = j)); [by intros [= <-]|].
    rewrite lookup_fmap_Some. intros (k1 & <- & Hj). unfold held_ok. rewrite held_disturb.
    eapply held_ok_evolves; [|done]. by apply (Hh j).
Qed.

Lemma state_inv_reachable cap pol s :
  policy_wf pol → tracked pol = ∅ → (1 ≤ cap)%Z → reachable cap pol s → state_inv cap s.
Proof.
  intros Hwf Ht Hc Hr.
  assert (state_inv cap (initial cap pol)) as H0.
  { destruct (inv_new cap pol Hwf Ht Hc) as (? & ? & _). split; simpl; [done..|].
    intros i k. by rewrite lookup_empty. }
  unfold reachable in Hr. induction Hr as [|s1 s2 s3 Hs _ IH]; [done|].
  apply IH. by apply (state_inv_step cap s1).
Qed.

(** ** Bounded calls *)

(** An upper bound on the steps a call still has to take. *)
Definition remaining (k : pc) : nat :=
  match k with
  | GetStart _ => 4
  | GetFound _ _ _ => 3
  | GetLive _ _ | SetStart _ _ _ => 2
  | GetStale _ | GetRead _ _ _ | SetReady _ _ _ _ | DelStart _ => 1
  | GetRet _ _ | SetRet _ | DelRet => 0
  end.

Lemma pc_step_decreases now g c k c' k' :
  pc_step now g c k = Some (c', k') → finished k = false → remaining k' < remaining k.
Proof.
  unfold pc_step, mbind, option_bind. intros Hs Hf.
  destruct k; simpl in *; try done; repeat case_match; simplify_eq; simpl; lia.
Qed.

(** ** The window of a read *)

(** [v] was cached under [key] at some state between [s0] and [s]. *)
Definition cached_between (s0 s : state P) (key : string) (v : bytes) : Prop :=
  ∃ s1, rtc conc_step s0 s1 ∧ rtc conc_step s1 s ∧ ∃ x, abs (shared s1) !! key = Some (v, x).

(** Some [Set key] has stored its value between [s0] and [s]. *)
Definition set_between (s0 s : state P) (key : string) : Prop :=
  ∃ s1 s2 j v t x, rtc conc_step s0 s1 ∧ conc_step s1 s2 ∧ rtc conc_step s2 s ∧
    calls s1 !! j = Some (SetReady key v t x) ∧ calls s2 !! j = Some (SetRet None).

(** What is known of the [Get key] call [i] at [s], a state reached from [s0],
    in which it had not started: the entry it holds, or the value it returned
    without a race, was cached under [key] at some state in between; a race is
    with a [Set] of the key in between. *)
Definition window (s0 s : state P) (key : string) (k : pc) : Prop :=
  let holds p := ∃ e, mem (shared s) !! p = Some e ∧ Key e = key ∧ cached_between s0 s key (Value e) in
  match k with
  | GetStart key' => key' = key
  | GetLive key' p => key' = key ∧ holds p
  | GetFound key' p raced | GetRead key' p raced =>
      key' = key ∧ holds p ∧ (raced = true → set_between s0 s key)
  | GetStale _ | GetRet None _ => True
  | GetRet (Some v) raced => if raced : bool then set_between s0 s key else cached_between s0 s key v
  | _ => False
  end.

Lemma cached_between_now s0 s key v x :
  rtc conc_step s0 s → abs (shared s) !! key = Some (v, x) → cached_between s0 s key v.
Proof. intros. exists s. eauto using rtc_refl. Qed.

Lemma cached_between_step s0 s s' key v :
  cached_between s0 s key v → conc_step s s' → cached_between s0 s' key v.
Proof. intros (s1 & ? & ? & ?) ?. exists s1. eauto using rtc_r. Qed.

Lemma set_between_step s0 s s' key : set_between s0 s key → conc_step s s' → set_between s0 s' key.
Proof. intros (s1 & s2 & j & v & t & x & ? & ? & ? & ?) ?. exists s1, s2, j, v, t, x. eauto using rtc_r. Qed.

(** A step of any call keeps what is known of a call that does not move. *)
Lemma window_other s0 s s' key k :
  rtc conc_step s0 s → conc_step s s' → evolves (shared s) (shared s') →
  window s0 s key k → window s0 s' key k.
Proof.
  intros Hr Hs Hev. pose proof (rtc_r _ _ _ Hr Hs) as Hr'.
  assert (∀ p, (∃ e, mem (shared s) !! p = Some e ∧ Key e = key ∧ cached_between s0 s key (Value e)) →
    ∃ e, mem (shared s') !! p = Some e ∧ Key e = key ∧ cached_between s0 s' key (Value e)) as Hp.
  { intros p (e & He & <- & Hc). destruct (Hev p e He) as (e' & He' & Hk & Hv).
    exists e'. split; [done|]. split; [done|]. destruct Hv as [-> | [x Hx]].
    - by eapply cached_between_step.
    - by eapply cached_between_now. }
  pose proof (λ H, set_between_step s0 s s' key H Hs) as Hset.
  destruct k as [| | | | |[v|] raced| | | | |]; simpl; try done; [naive_solver..|].
  destruct raced; [done|]. intros Hc. by eapply cached_between_step.
Qed.

(** A write to the entry it reads is that of a [Set] of its key. *)
Lemma window_disturb s0 s s' j kj c' kj' key k now g :
  rtc conc_step s0 s → cache_inv (shared s) → held_ok (shared s) k →
  calls s !! j = Some kj → pc_step now g (shared s) kj = Some (c', kj') → s' = moved s j kj c' kj' →
  window s0 s' key k → window s0 s' key (disturb (overwrites (shared s) kj) k).
Proof.
  intros Hr Hinv Hh Hj Hpc -> Hw.
  assert (∀ p, held k = Some (key, p) → overwrites (shared s) kj = Some p →
    set_between s0 (moved s j kj c' kj') key) as Hset.
  { intros p Hk Hover. destruct (Hh key p Hk) as (e & He & Hkey). destruct kj; try done. simpl in Hover.
    destruct (inv_entries _ Hinv _ _ Hover) as (e' & He' & <-). assert (e' = e) as -> by congruence.
    simpl in Hpc. destruct (Set_locked _ _ _ _ _ _) as [c1|] eqn:El; [|done]. injection Hpc as -> <-.
    rewrite Hkey in *. eexists s, _, j, _, _, _. split; [done|]. split; [|split; [apply rtc_refl|split; [done|]]].
    - eapply (step_run s j _ now g); [done|]. simpl. by rewrite El.
    - simpl. by rewrite lookup_insert_eq. }
  destruct k as [|key' p raced| | |key' p raced| | | | | |]; simpl in *; try done;
    destruct Hw as (-> & Hp & Hraced); (split; [done|]); (split; [done|]);
    intros [?|Ho%bool_decide_eq_true]%orb_prop; eauto.
Qed.

(** Its own step. *)
Lemma window_own s0 s i key k now g c' k' s' :
  rtc conc_step s0 s → cache_inv (shared s) → conc_step s s' → shared s' = c' →
  calls s !! i = Some k → pc_step now g (shared s) k = Some (c', k') →
  evolves (shared s) c' → window s0 s key k → window s0 s' key k'.
Proof.
  intros Hr Hinv Hs Hsh Hi Hpc Hev Hw.
  assert (window s0 s' key k) as Hw'
    by (eapply (window_other s0 s s'); try done; by rewrite Hsh).
  destruct k as [key'|key' p raced|key'|key' p|key' p raced|r raced| | | | |]; simpl in *; try done.
  - injection Hpc as Heq <-. unfold Get_lookup. subst key'.
    destruct (entries (shared s) !! key) as [p|] eqn:E; [|done].
    destruct (inv_entries _ Hinv key p E) as (e & He & Hk). simpl. split; [done|]. split; [|done].
    exists e. rewrite Hsh, <-Heq. split; [done|]. split; [done|].
    eapply cached_between_now; [by eapply rtc_r|].
    rewrite Hsh, <-Heq, abs_lookup, E; simpl. by rewrite He.
  - destruct (mem (shared s) !! p) as [e|]; [|done]. simpl in Hpc. injection Hpc as Heq <-.
    destruct Hw' as (? & ? & _). by destruct (if raced then g.1 else IsExpired e (now 0)).
  - destruct (Get_expire _ _ _); [|done]. by injection Hpc as _ <-.
  - destruct (Get_hit _ _ _ _ _); [|done]. injection Hpc as _ <-. destruct Hw'. by split.
  - destruct Hw as (_ & (e & He & _ & Hc) & _). rewrite He in Hpc. injection Hpc as _ <-. simpl.
    destruct raced; [by apply Hw'|]. by eapply cached_between_step.
  - by injection Hpc as _ <-.
Qed.

Lemma window_reachable cap s0 i key s :
  (1 ≤ cap)%Z → state_inv cap s0 → calls s0 !! i = Some (GetStart key) →
  rtc conc_step s0 s → state_inv cap s ∧ ∃ k, calls s !! i = Some k ∧ window s0 s key k.
Proof.
  intros Hc H0 Hi Hrun. revert s Hrun. apply rtc_ind_r.
  { split; [done|]. by exists (GetStart key). }
  intros s s' Hr Hs (Hinv & k & Hk & Hw).
  destruct (state_inv_step cap s s' Hc Hinv Hs) as [Hinv' Hev]. split; [done|].
  inversion Hs as [s1 j o Hj|s1 j k1 now g c' k1' Hj Hpc]; subst.
  - exists k. split; [simpl; rewrite lookup_insert_ne; congruence|].
    by eapply window_other.
  - simpl. destruct (decide (j = i)) as [->|Hne].
    + rewrite lookup_insert_eq. exists k1'. split; [done|].
      assert (k1 = k) as -> by congruence.
      by eapply window_own; try done; apply Hinv.
    + rewrite lookup_insert_ne, lookup_fmap, Hk by done. eexists. split; [reflexivity|].
      eapply (window_disturb s0 s _ j k1 c' k1'); try done; [apply Hinv|by apply (st_held cap s Hinv i)|].
      by eapply window_other.
Qed.

(** C4: whatever the interleaving, no call panics: in every reachable state
    every call in flight can take its next step, whatever the reads outside the
    lock may see of a racing [Set], and the step brings it nearer to its return
    (a call takes at most four; a critical section is one step, so that waiting
    for the lock is not part of the model). The cache never exceeds its
    capacity, and the policy tracks exactly the cached keys. *)
Theorem concurrent_calls_safe (cap : Z) (pol : P) (s : state P)
    (Hwf : policy_wf pol) (Hempty : tracked pol = ∅) (Hcap : (1 ≤ cap)%Z)
    (Hreach : reachable cap pol s) :
  (Len (shared s) ≤ cap)%Z ∧ tracked (policy (shared s)) = dom (entries (shared s)) ∧
  ∀ i k now g, calls s !! i = Some k →
    ∃ c' k', pc_step now g (shared s) k = Some (c', k') ∧
             (finished k = false → remaining k' < remaining k ≤ 4).
Proof.
  destruct (state_inv_reachable cap pol s Hwf Hempty Hcap Hreach) as [Hinv Hc Hb Hh].
  split; [unfold bounded in Hb; lia|]. split; [by apply inv_tracked|].
  intros i k now g Hi. destruct (pc_step_good now g (shared s) k Hinv (Hh i k Hi)) as (c' & k' & Hs & _).
  exists c', k'. split; [done|]. intros Hf. split; [by eapply pc_step_decreases|].
  destruct k; simpl; lia.
Qed.

(** C8: a concurrent hit is current, unless a [Set] races with it. The value a
    [Get] returns was cached under its key at some moment between the start of the
    call and its return, even though the entry is read outside the lock and may be
    evicted or deleted by other calls meanwhile; the only exception is a [Get] that
    reads the value while a [Set] of the same key overwrites it, which may return
    anything, and then such a [Set] has stored its value during the call. *)
Theorem concurrent_hit_current (cap : Z) (pol : P) (s0 s : state P) (i : nat) key v raced
    (Hwf : policy_wf pol) (Hempty : tracked pol = ∅) (Hcap : (1 ≤ cap)%Z)
    (Hreach : reachable cap pol s0) (Hstart : calls s0 !! i = Some (GetStart key))
    (Hrun : rtc conc_step s0 s) (Hret : calls s !! i = Some (GetRet (Some v) raced)) :
  if raced : bool then
    ∃ s1 s2 j w t x, rtc conc_step s0 s1 ∧ conc_step s1 s2 ∧ rtc conc_step s2 s ∧
      calls s1 !! j = Some (SetReady key w t x) ∧ calls s2 !! j = Some (SetRet None)
  else
    ∃ s1, rtc conc_step s0 s1 ∧ rtc conc_step s1 s ∧ ∃ x, abs (shared s1) !! key = Some (v, x).
Proof.
  pose proof (state_inv_reachable cap pol s0 Hwf Hempty Hcap Hreach) as H0.
  destruct (window_reachable cap s0 i key s Hcap H0 Hstart Hrun) as (_ & k & Hk & Hw).
  rewrite Hret in Hk. injection Hk as <-. exact Hw.
Qed.

(** The readings of the clock that [Get] takes, step by step. *)
Definition get_clocks (now : Clock) (i : nat) : Clock :=
  match i with 0 | 1 => now | _ => λ j, now (S j) end.

Definition set_clocks (now : Clock) (i : nat) : Clock :=
  match i with 0 => now | _ => λ j, now (S j) end.

(** The sequential operations are the concurrent ones run without
    interference: [Get], [Set] and [Delete] give the cache and the result that
    their own steps give, taken one after the other. *)
Theorem sequential_calls_are_solo_runs (c : InMemoryCache P) (now : Clock) key v ttl :
  solo 4 (get_clocks now) c (GetStart key) =
    ('(c', r) ← Get now key c; Some (c', GetRet r false)) ∧
  solo 2 (set_clocks now) c (SetStart key v ttl) =
    ('(c', r) ← Set_ now key v ttl c; Some (c', SetRet r)) ∧
  solo 1 (λ _, now) c (DelStart key) = (c' ← Delete key c; Some (c', DelRet)).
Proof.
  split; [|split].
  - unfold Get. simpl. destruct (Get_lookup key c) as [p|]; [|done]. simpl.
    destruct (mem c !! p) as [e|]; [|done]. simpl.
    destruct (IsExpired e (now 0)); simpl.
    + by destruct (Get_expire (now 1) key c).
    + destruct (Get_hit (now 1) (now 2) key p c) as [c'|]; [|done]. simpl.
      by destruct (mem c' !! p).
  - unfold Set_. simpl. destruct (ttl <? 0)%Z; [done|]. destruct (maxTTL <? ttl)%Z; [done|]. simpl.
    by destruct (Set_locked _ _ _ _ _ _).
  - simpl. by destruct (Delete key c).
Qed.
End Safety.

(** ** Examples *)

Definition at_ (t : Time) : Clock := λ _, t.
Definition value_1 : bytes := [Byte.x31].
Definition value_2 : bytes := [Byte.x32].

(** A [Get] that has looked its key up and is overtaken by a deletion, and by a
    second [Set] while it is reading the value. *)
Definition race_before : list choice :=
  [Spawn 0 (OpSet (at_ 1) "k" value_1 Second); Run 0 (at_ 1); Run 0 (at_ 1);
   Spawn 1 (OpGet (at_ 2) "k")].
Definition deleted_after : list choice :=
  [Run 1 (at_ 2); Run 1 (at_ 2); Spawn 2 (OpDelete "k"); Run 2 (at_ 3); Run 1 (at_ 4); Run 1 (at_ 4)].
Definition race_after : list choice :=
  [Run 1 (at_ 2); Run 1 (at_ 2); Run 1 (at_ 2); Spawn 2 (OpSet (at_ 3) "k" value_2 Second);
   Run 2 (at_ 3); Run 2 (at_ 3); Race 1 (at_ 4) (false, [Byte.x00])].

(** In the race the [Get] returns what was never stored. *)
Theorem racing_get_returns_garbage :
  (s ← exec (initial 1 LRU.NewLRU) (race_before ++ race_after); calls s !! 1) =
  Some (GetRet (Some [Byte.x00]) true).
Proof. vm_compute. reflexivity. Qed.

Lemma concurrent_calls_safe_witness :
  ∃ s, exec (initial 1 LRU.NewLRU) race_before = Some s ∧ (Len (shared s) ≤ 1)%Z ∧
       calls s !! 1 = Some (GetStart "k").
Proof.
  destruct (exec (initial 1 LRU.NewLRU) race_before) as [s|] eqn:Hs.
  - exists s. split; [reflexivity|]. split.
    + apply (concurrent_calls_safe 1 LRU.NewLRU s).
      * exists []. apply LRU.recency_new.
      * reflexivity.
      * lia.
      * exact (exec_steps _ _ _ Hs).
    + vm_compute in Hs. injection Hs as <-. reflexivity.
  - vm_compute in Hs. discriminate Hs.
Defined.

Lemma concurrent_hit_current_witness :
  ∃ s0 s s1, rtc conc_step s0 s1 ∧ rtc conc_step s1 s ∧
    exec (initial 1 LRU.NewLRU) race_before = Some s0 ∧ exec s0 deleted_after = Some s ∧
    entries (shared s) = ∅ ∧ ∃ x, abs (shared s1) !! "k" = Some (value_1, x).
Proof.
  destruct (exec (initial 1 LRU.NewLRU) race_before) as [s0|] eqn:H0;
    [|vm_compute in H0; discriminate H0].
  destruct (exec s0 deleted_after) as [s|] eqn:Hs.
  - destruct (concurrent_hit_current 1 LRU.NewLRU s0 s 1 "k" value_1 false) as (s1 & H1 & H2 & Hx).
    + exists []. apply LRU.recency_new.
    + reflexivity.
    + lia.
    + exact (exec_steps _ _ _ H0).
    + vm_compute in H0. injection H0 as <-. reflexivity.
    + exact (exec_steps _ _ _ Hs).
    + vm_compute in H0. injection H0 as <-. vm_compute in Hs. injection Hs as <-. reflexivity.
    + exists s0, s, s1. split; [exact H1|]. split; [exact H2|]. split; [reflexivity|]. split; [exact Hs|]. split; [|exact Hx].
      vm_compute in H0. injection H0 as <-. vm_compute in Hs. injection Hs as <-. reflexivity.
  - vm_compute in H0. injection H0 as <-. vm_compute in Hs. discriminate Hs.
Defined.
End CacheConc.
