(* ===== verification/Ring.v ===== *)
(** The consistent-hashing ring of [src/internal/cluster/ring.go]: virtual
    tokens on the circle of 32-bit positions, hashed with FNV-1a, a sorted
    token slice searched by bisection, and the map from tokens to nodes. *)
From S2P Require Import Prelude.

(** ** Standard library code the ring uses *)

(** [hash/fnv]: the 32-bit FNV-1a hash of a string's bytes. *)
Definition fnv_offset32 : Z := 2166136261.
Definition fnv_prime32 : Z := 16777619.

Definition fnv_byte (h : Z) (a : Ascii.ascii) : Z :=
  wrap32u (Z.lxor h (Z.of_N (Ascii.N_of_ascii a)) * fnv_prime32).

Fixpoint fnv_write (h : Z) (s : string) : Z :=
  match s with
  | EmptyString => h
  | String a s => fnv_write (fnv_byte h a) s
  end.

(** [sort.Search]: the bisection loop on [i, j), with the predicate's panic as
    [None]. The interval shrinks at each iteration, so [j - i] iterations are
    enough; [search_loop_spec] shows that the fuel never runs out. *)
Fixpoint search_loop (fuel : nat) (f : nat → option bool) (i j : nat) : option nat :=
  if decide (i < j) then
    match fuel with
    | 0 => None
    | S fuel =>
        let h := (i + j) `div` 2 in
        b ← f h;
        if b : bool then search_loop fuel f i h else search_loop fuel f (h + 1) j
    end
  else Some i.

Definition Search (n : nat) (f : nat → option bool) : option nat := search_loop n f 0 n.

Module Ring.

Definition defaultVirtualNodes : nat := 150.

Definition hashKey (key : string) : Z := fnv_write fnv_offset32 key.

Record Ring := mk_Ring {
  tokens : gmap Z string;
  sortedTokens : list Z;
  nodeAddrs : gmap string string;
  virtualNodes : nat
}.

Definition NewRing : Ring := mk_Ring ∅ [] ∅ defaultVirtualNodes.

(** [fmt.Sprintf("%s-%d", nodeID, i)], hashed. *)
Definition token (nodeID : string) (i : nat) : Z :=
  hashKey (nodeID +:+ "-" +:+ pretty i).

(** The loop of [Add], from index [i] for [n] more iterations. *)
Fixpoint Add_loop (nodeID : string) (i n : nat) (ts : gmap Z string) (sorted : list Z)
    : gmap Z string * list Z :=
  match n with
  | 0 => (ts, sorted)
  | S n =>
      let t := token nodeID i in
      Add_loop nodeID (S i) n (<[t := nodeID]> ts) (sorted ++ [t])
  end.

(** [sort.Slice] leaves the sorted permutation of the slice: equal tokens are
    indistinguishable, so it is the same whatever the sorting algorithm. *)
Definition Add (nodeID addr : string) (r : Ring) : Ring :=
  let '(ts, sorted) := Add_loop nodeID 0 (virtualNodes r) (tokens r) (sortedTokens r) in
  mk_Ring ts (merge_sort Z.le sorted) (<[nodeID := addr]> (nodeAddrs r)) (virtualNodes r).

(** The loop of [Remove]. [newSorted] is the prefix of length [w] of the slice
    that is being ranged over: the appends overwrite its backing array, from
    which the later iterations read. A missing token reads as the empty
    string. *)
Fixpoint Remove_loop (nodeID : string) (n i w : nat) (arr : list Z) (ts : gmap Z string)
    : option (list Z * gmap Z string) :=
  match n with
  | 0 => Some (take w arr, ts)
  | S n =>
      t ← arr !! i;
      if decide (default "" (ts !! t) = nodeID)
      then Remove_loop nodeID n (S i) w arr (delete t ts)
      else Remove_loop nodeID n (S i) (S w) (<[w := t]> arr) ts
  end.

Definition Remove (nodeID : string) (r : Ring) : option Ring :=
  '(sorted, ts) ← Remove_loop nodeID (length (sortedTokens r)) 0 0 (sortedTokens r) (tokens r);
  Some (mk_Ring ts sorted (delete nodeID (nodeAddrs r)) (virtualNodes r)).

(** The node and address for a key, or [None] for [ok = false]. *)
Definition Get (key : string) (r : Ring) : option (option (string * string)) :=
  if decide (length (sortedTokens r) = 0) then Some None
  else
    let position := hashKey key in
    idx ← Search (length (sortedTokens r)) (λ i, t ← sortedTokens r !! i; Some (position <=? t)%Z);
    let idx := if decide (idx = length (sortedTokens r)) then 0 else idx in
    t ← sortedTokens r !! idx;
    let nodeID := default "" (tokens r !! t) in
    Some (Some (nodeID, default "" (nodeAddrs r !! nodeID))).

(** The order of [Nodes] is that of a Go map iteration; it is used as a set. *)
Definition Nodes (r : Ring) : list string := (map_to_list (nodeAddrs r)).*1.

Definition NodeAddr (nodeID : string) (r : Ring) : option string := nodeAddrs r !! nodeID.

(** ** The bisection *)

Lemma search_loop_spec fuel (f : nat → option bool) (g : nat → bool) n i j :
  (∀ h, h < n → f h = Some (g h)) →
  (∀ h h', h ≤ h' → h' < n → g h = true → g h' = true) →
  j ≤ n → j - i ≤ fuel → i ≤ j →
  (∀ h, h < i → g h = false) → (∀ h, j ≤ h → h < n → g h = true) →
  ∃ k, search_loop fuel f i j = Some k ∧ k ≤ n ∧
       (∀ h, h < k → g h = false) ∧ (∀ h, k ≤ h → h < n → g h = true).
Proof.
  intros Hf Hg. revert i j. induction fuel as [|fuel IH]; intros i j Hj Hfuel Hij Hlo Hhi.
  - exists i. simpl. destruct (decide (i < j)); [lia|]. assert (i = j) as -> by lia. eauto.
  - cbn [search_loop]. destruct (decide (i < j)).
    2:{ exists i. assert (i = j) as -> by lia. eauto. }
    set (h := (i + j) `div` 2).
    assert (i ≤ h < j) as Hh.
    { unfold h. split; [apply Nat.div_le_lower_bound|apply Nat.Div0.div_lt_upper_bound]; lia. }
    rewrite Hf by lia. bind. destruct (g h) eqn:E.
    + apply IH; try lia; [done|]. intros h' Hh' Hn. by eapply Hg; [..|exact E].
    + apply IH; try lia; [|done]. intros h' Hh'.
      destruct (g h') eqn:E'; [|done]. assert (g h = true); [|congruence].
      apply (Hg h' h); [lia|lia|done].
Qed.

Lemma Search_spec n (f : nat → option bool) (g : nat → bool) :
  (∀ h, h < n → f h = Some (g h)) →
  (∀ h h', h ≤ h' → h' < n → g h = true → g h' = true) →
  ∃ k, Search n f = Some k ∧ k ≤ n ∧
       (∀ h, h < k → g h = false) ∧ (∀ h, k ≤ h → h < n → g h = true).
Proof.
  intros Hf Hg. apply (search_loop_spec n f g n 0 n); try done; try lia.
Qed.

(** ** The circle *)

(** The clockwise distance from a position to a token. *)
Definition clockwise (pos t : Z) : Z := ((t - pos) `mod` 2 ^ 32)%Z.

(** [t] is the first token of [l] met clockwise from [pos]. *)
Definition nearest (l : list Z) (pos t : Z) : Prop :=
  t ∈ l ∧ ∀ t', t' ∈ l → (clockwise pos t ≤ clockwise pos t')%Z.

Definition position (z : Z) : Prop := (0 ≤ z < 2 ^ 32)%Z.

Lemma clockwise_cases pos t :
  position pos → position t →
  clockwise pos t = if (pos <=? t)%Z then (t - pos)%Z else (t - pos + 2 ^ 32)%Z.
Proof.
  unfold position, clockwise. intros Hp Ht. destruct (Z.leb_spec pos t).
  - apply Z.mod_small. lia.
  - symmetry. apply Z.mod_unique_pos with (-1)%Z; lia.
Qed.

Lemma clockwise_inj pos t t' :
  position pos → position t → position t' → clockwise pos t = clockwise pos t' → t = t'.
Proof.
  intros Hp Ht Ht'. rewrite !clockwise_cases by done. unfold position in *.
  destruct (Z.leb_spec pos t), (Z.leb_spec pos t'); lia.
Qed.

Lemma nearest_unique l pos t t' :
  position pos → Forall position l → nearest l pos t → nearest l pos t' → t = t'.
Proof.
  rewrite Forall_forall. intros Hp Hl [Hin Hmin] [Hin' Hmin'].
  apply (clockwise_inj pos); auto. pose proof (Hmin _ Hin'). pose proof (Hmin' _ Hin). lia.
Qed.

Lemma nearest_exists l pos : l ≠ [] → ∃ t, nearest l pos t.
Proof.
  induction l as [|x l IH]; [done|]. intros _. destruct (decide (l = [])) as [->|Hne].
  - exists x. split; [set_solver|]. intros t' ?. assert (t' = x) as -> by set_solver. done.
  - destruct (IH Hne) as (t & Ht & Hmin).
    destruct (Z.le_ge_cases (clockwise pos x) (clockwise pos t)).
    + exists x. split; [set_solver|]. intros t' [->|Ht']%elem_of_cons; [done|].
      specialize (Hmin t' Ht'). lia.
    + exists t. split; [set_solver|]. intros t' [->|Ht']%elem_of_cons; [lia|]. auto.
Qed.

(** The nearest token among more tokens is one of the added ones or was the
    nearest already. *)
Lemma nearest_mono l l' pos t :
  nearest l' pos t → t ∈ l → (∀ x, x ∈ l → x ∈ l') → nearest l pos t.
Proof. intros [_ Hmin] Hin Hsub. split; [done|]. eauto. Qed.

Lemma hashKey_position key : position (hashKey key).
Proof.
  unfold hashKey. assert (position fnv_offset32) as H by done. revert H.
  generalize fnv_offset32. induction key as [|a s IH]; intros h Hh; simpl; [done|].
  apply IH. apply wrap32u_range.
Qed.

Lemma sorted_lookup_le (l : list Z) i j x y :
  StronglySorted Z.le l → l !! i = Some x → l !! j = Some y → i ≤ j → (x ≤ y)%Z.
Proof.
  intros Hs. revert i j. induction Hs as [|a l Hs IH Ha]; intros i j; [done|].
  rewrite Forall_forall in Ha. destruct i as [|i], j as [|j]; simpl; try lia.
  - intros [= <-] [= <-]. lia.
  - intros [= <-] Hy%list_elem_of_lookup_2 _. auto.
  - intros Hx Hy Hij. apply (IH i j); [done..|lia].
Qed.

(** The slot the bisection of [Get] ends on holds the nearest token. *)
Lemma Search_nearest (l : list Z) pos :
  StronglySorted Z.le l → Forall position l → position pos → l ≠ [] →
  ∃ idx t, Search (length l) (λ i, t ← l !! i; Some (pos <=? t)%Z) = Some idx ∧
           l !! (if decide (idx = length l) then 0 else idx) = Some t ∧ nearest l pos t.
Proof.
  intros Hs Hl Hpos Hne.
  destruct (Search_spec (length l) (λ i, t ← l !! i; Some (pos <=? t)%Z)
    (λ i, (pos <=? l !!! i)%Z)) as (idx & HS & Hidx & Hlo & Hhi).
  { intros h Hh. destruct (lookup_lt_is_Some_2 l h Hh) as [t Ht].
    rewrite Ht; simpl. by rewrite (list_lookup_total_correct l h t Ht). }
  { intros h h' Hle Hh' Hb. apply Z.leb_le in Hb. apply Z.leb_le.
    etrans; [exact Hb|]. destruct (lookup_lt_is_Some_2 l h' Hh') as [t' Ht'].
    destruct (lookup_lt_is_Some_2 l h) as [t Ht]; [lia|].
    rewrite (list_lookup_total_correct _ _ _ Ht), (list_lookup_total_correct _ _ _ Ht').
    by eapply (sorted_lookup_le l h h'). }
  assert (∃ t, l !! (if decide (idx = length l) then 0 else idx) = Some t) as [t Ht].
  { apply lookup_lt_is_Some_2. destruct l; [done|]. case_decide; simpl in *; lia. }
  exists idx, t. split; [done|]. split; [done|].
  split; [by eapply list_elem_of_lookup_2|]. rewrite Forall_forall in Hl.
  intros t' [j Hj]%list_elem_of_lookup. pose proof (lookup_lt_Some _ _ _ Hj) as Hjl.
  assert (position t) by (eapply Hl, list_elem_of_lookup_2; done).
  assert (position t') by (eapply Hl, list_elem_of_lookup_2; done).
  rewrite !clockwise_cases by done. unfold position in *.
  assert (j < idx → (pos <=? t')%Z = false) as Hjlo.
  { intros ?%Hlo. by rewrite <-(list_lookup_total_correct _ _ _ Hj). }
  assert (idx ≤ j → (pos <=? t')%Z = true) as Hjhi.
  { intros ?. rewrite <-(list_lookup_total_correct _ _ _ Hj). by apply Hhi. }
  destruct (decide (idx = length l)) as [->|Hlt].
  - rewrite (Hjlo Hjl). assert ((t ≤ t')%Z) by (by eapply (sorted_lookup_le l 0 j); [..|lia]).
    apply Z.leb_gt in Hjlo; [|done]. destruct (Z.leb_spec pos t); lia.
  - assert ((pos <=? t)%Z = true) as Hpt.
    { rewrite <-(list_lookup_total_correct _ _ _ Ht). apply Hhi; lia. }
    rewrite Hpt. apply Z.leb_le in Hpt. destruct (decide (j < idx)) as [Hji|Hji].
    + rewrite (Hjlo Hji). lia.
    + rewrite Hjhi by lia. assert ((t ≤ t')%Z) by (by eapply (sorted_lookup_le l idx j); [..|lia]). lia.
Qed.

(** ** Adding a node *)

Definition node_tokens (nodeID : string) (n : nat) : list Z := token nodeID <$> seq 0 n.

Lemma Add_loop_spec nodeID i n ts l :
  ∃ ts', Add_loop nodeID i n ts l = (ts', l ++ (token nodeID <$> seq i n)) ∧
    ∀ t, ts' !! t = if decide (t ∈ token nodeID <$> seq i n) then Some nodeID else ts !! t.
Proof.
  revert i ts l. induction n as [|n IH]; intros i ts l; simpl.
  - exists ts. by rewrite app_nil_r.
  - destruct (IH (S i) (<[token nodeID i := nodeID]> ts) (l ++ [token nodeID i])) as (ts' & -> & Hts).
    exists ts'. split; [by rewrite <-(assoc_L (++))|]. intros t. rewrite Hts.
    destruct (decide (t ∈ token nodeID <$> seq (S i) n)) as [Hin|Hin].
    + rewrite decide_True; [done|]. by constructor.
    + destruct (decide (t = token nodeID i)) as [->|Hne].
      * rewrite lookup_insert_eq, decide_True; [done|]. by left.
      * rewrite lookup_insert_ne by done. rewrite decide_False; [done|].
        by intros [?|?]%elem_of_cons.
Qed.

Lemma Add_spec nodeID addr r :
  let ts := node_tokens nodeID (virtualNodes r) in
  let r' := Add nodeID addr r in
  nodeAddrs r' = <[nodeID := addr]> (nodeAddrs r) ∧ virtualNodes r' = virtualNodes r ∧
  StronglySorted Z.le (sortedTokens r') ∧ sortedTokens r' ≡ₚ sortedTokens r ++ ts ∧
  ∀ t, tokens r' !! t = if decide (t ∈ ts) then Some nodeID else tokens r !! t.
Proof.
  unfold Add, node_tokens.
  destruct (Add_loop_spec nodeID 0 (virtualNodes r) (tokens r) (sortedTokens r)) as (ts & -> & Hts).
  simpl. do 2 (split; [done|]). split; [|split; [|done]].
  - apply (StronglySorted_merge_sort Z.le).
  - apply merge_sort_Permutation.
Qed.

Lemma node_tokens_position nodeID n : Forall position (node_tokens nodeID n).
Proof. apply Forall_fmap, Forall_forall. intros i _. apply hashKey_position. Qed.

(** ** Removing a node *)

(** What [Remove]'s loop computes, without the shared backing array. *)
Fixpoint remove_ref (nodeID : string) (l : list Z) (ts : gmap Z string) : list Z * gmap Z string :=
  match l with
  | [] => ([], ts)
  | t :: l =>
      if decide (default "" (ts !! t) = nodeID) then remove_ref nodeID l (delete t ts)
      else let '(kept, ts') := remove_ref nodeID l ts in (t :: kept, ts')
  end.

(** Filtering in place is safe: the write index never overtakes the read
    index, so every token is read before its slot is overwritten. *)
Lemma Remove_loop_spec nodeID rest i w arr ts :
  w ≤ i → drop i arr = rest →
  Remove_loop nodeID (length rest) i w arr ts =
    Some (take w arr ++ (remove_ref nodeID rest ts).1, (remove_ref nodeID rest ts).2).
Proof.
  revert i w arr ts. induction rest as [|t rest IH]; intros i w arr ts Hw Hd; simpl.
  - by rewrite app_nil_r.
  - assert (arr !! i = Some t) as Hi
      by (rewrite <-(Nat.add_0_r i), <-lookup_drop; by rewrite Hd).
    assert (drop (S i) arr = rest) as Hd'
      by (by rewrite <-Nat.add_1_r, <-drop_drop, Hd).
    pose proof (lookup_lt_Some _ _ _ Hi). rewrite Hi. simpl.
    destruct (decide (default "" (ts !! t) = nodeID)).
    + apply IH; [lia|done].
    + rewrite IH; [|lia|by rewrite drop_insert_lt by lia].
      destruct (remove_ref nodeID rest ts) as [kept ts']. simpl.
      assert (take (S w) (<[w:=t]> arr) = take w arr ++ [t]) as ->.
      { rewrite (take_S_r _ w t) by (apply list_lookup_insert_eq; lia).
        by rewrite take_insert_ge by lia. }
      by rewrite <-(assoc_L (++)).
Qed.

Lemma remove_ref_spec nodeID l ts :
  NoDup l → (∀ t, t ∈ l → is_Some (ts !! t)) →
  (remove_ref nodeID l ts).1 = filter (λ t, ts !! t ≠ Some nodeID) l ∧
  ∀ t, (remove_ref nodeID l ts).2 !! t =
    if decide (t ∈ l ∧ ts !! t = Some nodeID) then None else ts !! t.
Proof.
  intros Hnd. revert ts. induction Hnd as [|t l Hni Hnd IH]; intros ts Hts; cbn [remove_ref].
  - split; [done|]. intros t. rewrite decide_False; [done|]. set_solver.
  - destruct (Hts t) as [n Hn]; [set_solver|]. rewrite Hn. change (default "" (Some n)) with n.
    destruct (decide (n = nodeID)) as [->|Hne].
    + destruct (IH (delete t ts)) as [H1 H2].
      { intros t' Ht'. rewrite lookup_delete_ne by set_solver. apply Hts. set_solver. }
      rewrite filter_cons_False by (rewrite Hn; tauto). split.
      * rewrite H1. apply filter_ext. intros t' Ht'.
        by rewrite lookup_delete_ne by set_solver.
      * intros t'. rewrite H2. destruct (decide (t' = t)) as [->|Hne'].
        { rewrite lookup_delete_eq. rewrite decide_False by (by intros [_ ?]).
          rewrite decide_True; [done|]. split; [set_solver|done]. }
        rewrite lookup_delete_ne by done. apply decide_ext. set_solver.
    + destruct (IH ts) as [H1 H2]; [intros; apply Hts; set_solver|].
      destruct (remove_ref nodeID l ts) as [kept ts']. cbn [fst snd] in *.
      rewrite filter_cons_True by congruence. split; [by f_equal|].
      intros t'. rewrite H2. apply decide_ext.
      split; [set_solver|]. intros [[->|?]%elem_of_cons ?]; [congruence|done].
Qed.

(** ** Well-formed rings and lookups *)

(** What [Get] relies on. Tokens of different nodes may collide. *)
Record ring_wf (r : Ring) : Prop := {
  wf_sorted : StronglySorted Z.le (sortedTokens r);
  wf_position : Forall position (sortedTokens r);
  wf_owner t : t ∈ sortedTokens r → ∃ n, tokens r !! t = Some n ∧ n ∈ dom (nodeAddrs r)
}.

Lemma Get_empty key r : sortedTokens r = [] → Get key r = Some None.
Proof. intros Hl. unfold Get. by rewrite Hl. Qed.

(** [Get] returns the owner of the nearest token, with its address. *)
Lemma Get_nearest key r :
  ring_wf r → sortedTokens r ≠ [] →
  ∃ t n a, Get key r = Some (Some (n, a)) ∧ nearest (sortedTokens r) (hashKey key) t ∧
           tokens r !! t = Some n ∧ nodeAddrs r !! n = Some a.
Proof.
  intros [Hs Hp Ho] Hne. unfold Get.
  rewrite decide_False by (by intros ?%length_zero_iff_nil).
  destruct (Search_nearest (sortedTokens r) (hashKey key) Hs Hp (hashKey_position key) Hne)
    as (idx & t & -> & Ht & Hnear). bind. rewrite Ht. bind.
  destruct (Ho t) as (n & Hn & [a Ha]%elem_of_dom); [apply Hnear|].
  exists t, n, a. rewrite Hn. simpl. by rewrite Ha.
Qed.

Lemma Get_owner key r t n a :
  ring_wf r → nearest (sortedTokens r) (hashKey key) t → tokens r !! t = Some n →
  nodeAddrs r !! n = Some a → Get key r = Some (Some (n, a)).
Proof.
  intros Hwf Ht Hn Ha.
  destruct (Get_nearest key r Hwf) as (t' & n' & a' & -> & Ht' & Hn' & Ha').
  { intros Heq. destruct Ht as [Hin _]. rewrite Heq in Hin. by apply elem_of_nil in Hin. }
  assert (t' = t) as ->; [|congruence].
  eapply nearest_unique; [apply hashKey_position|apply (wf_position r Hwf)|done|done].
Qed.

Lemma wf_new : ring_wf NewRing.
Proof. split; simpl; [constructor|constructor|]. intros t. set_solver. Qed.

Lemma wf_add nodeID addr r : ring_wf r → ring_wf (Add nodeID addr r).
Proof.
  intros [Hs Hp Ho]. destruct (Add_spec nodeID addr r) as (Ha & _ & Hs' & Hperm & Ht).
  split; [done|rewrite Hperm; apply Forall_app; split; [done|apply node_tokens_position]|].
  intros t. rewrite Hperm, elem_of_app, Ht, Ha, dom_insert_L. intros Hin.
  destruct (decide (t ∈ node_tokens nodeID (virtualNodes r))).
  - exists nodeID. set_solver.
  - destruct Hin as [(m & ? & ?)%Ho|]; [|done]. exists m. set_solver.
Qed.

(** ** Collision-free clusters *)

(** All tokens of the nodes [U] are distinct. *)
Definition collision_free (U : list string) : Prop :=
  NoDup (U ≫= λ n, node_tokens n defaultVirtualNodes).

Lemma collision_free_inj U n n' t :
  collision_free U → n ∈ U → n' ∈ U →
  t ∈ node_tokens n defaultVirtualNodes → t ∈ node_tokens n' defaultVirtualNodes → n = n'.
Proof.
  unfold collision_free. induction U as [|m U IH]; [set_solver|].
  rewrite bind_cons, NoDup_app. intros (_ & Hd & Hnd) Hn Hn' Ht Ht'.
  assert (∀ k, k ∈ U → t ∈ node_tokens k defaultVirtualNodes →
    t ∈ (U ≫= λ n, node_tokens n defaultVirtualNodes)) as Hbind.
  { intros k Hk Htk. apply list_elem_of_bind. eauto. }
  apply elem_of_cons in Hn as [->|Hn], Hn' as [->|Hn']; [done|..].
  - destruct (Hd t Ht). eauto.
  - destruct (Hd t Ht'). eauto.
  - by apply IH.
Qed.

Lemma collision_free_node U n :
  collision_free U → n ∈ U → NoDup (node_tokens n defaultVirtualNodes).
Proof.
  unfold collision_free. induction U as [|m U IH]; [set_solver|].
  rewrite bind_cons, NoDup_app. intros (Hm & _ & Hnd) [->|Hn]%elem_of_cons; auto.
Qed.

(** The ring holds exactly the tokens of its registered nodes, once each. *)
Record ring_rep (U : list string) (r : Ring) : Prop := {
  rep_virtual : virtualNodes r = defaultVirtualNodes;
  rep_known n : n ∈ dom (nodeAddrs r) → n ∈ U;
  rep_tokens t n :
    tokens r !! t = Some n ↔ n ∈ dom (nodeAddrs r) ∧ t ∈ node_tokens n defaultVirtualNodes;
  rep_elem t : t ∈ sortedTokens r ↔ is_Some (tokens r !! t);
  rep_sorted : StronglySorted Z.le (sortedTokens r);
  rep_nodup : NoDup (sortedTokens r)
}.

Lemma ring_rep_wf U r : ring_rep U r → ring_wf r.
Proof.
  intros [_ _ Ht He Hs _]. split; [done| |].
  - apply Forall_forall. intros t [n [_ Hn]%Ht]%He.
    pose proof (node_tokens_position n defaultVirtualNodes) as Hp.
    rewrite Forall_forall in Hp. auto.
  - intros t [n Hn]%He. exists n. split; [done|]. by apply Ht in Hn as [? _].
Qed.

Lemma ring_rep_new U : ring_rep U NewRing.
Proof.
  split; cbn [NewRing tokens sortedTokens nodeAddrs virtualNodes].
  - done.
  - intros n. set_solver.
  - intros t n. rewrite lookup_empty. set_solver.
  - intros t. rewrite lookup_empty. split; [set_solver|by intros [? ?]].
  - constructor.
  - constructor.
Qed.

Lemma ring_rep_add U r nodeID addr :
  collision_free U → ring_rep U r → nodeID ∈ U → nodeID ∉ dom (nodeAddrs r) →
  ring_rep U (Add nodeID addr r).
Proof.
  intros Hcf Hrep HU Hnew. pose proof Hrep as [Hv Hk Ht He Hs Hnd].
  destruct (Add_spec nodeID addr r) as (Ha & Hv' & Hs' & Hperm & Ht'). rewrite Hv in *.
  assert (∀ t, t ∈ sortedTokens r → t ∉ node_tokens nodeID defaultVirtualNodes) as Hdisj.
  { intros t [n [Hn Htn]%Ht]%He Htn'. apply Hnew.
    by rewrite (collision_free_inj U nodeID n t) by auto. }
  split; [done| | | |done|].
  - intros n. rewrite Ha, dom_insert_L. set_solver.
  - intros t n. rewrite Ht', Ha, dom_insert_L. destruct (decide _) as [Hin|Hin].
    + split; [intros [= <-]; set_solver|]. intros [Hn Htn]. f_equal.
      eapply (collision_free_inj U nodeID n t); try done. set_solver.
    + rewrite Ht. set_solver.
  - intros t. rewrite Hperm, elem_of_app, Ht'. destruct (decide _); [|by rewrite He; naive_solver].
    split; [eauto|auto].
  - rewrite Hperm. apply NoDup_app. split; [done|]. split; [done|].
    by eapply collision_free_node.
Qed.

Lemma ring_Remove_spec U r nodeID :
  ring_rep U r →
  ∃ r', Remove nodeID r = Some r' ∧ nodeAddrs r' = delete nodeID (nodeAddrs r) ∧
        virtualNodes r' = virtualNodes r ∧
        sortedTokens r' = filter (λ t, tokens r !! t ≠ Some nodeID) (sortedTokens r) ∧
        ∀ t, tokens r' !! t = if decide (tokens r !! t = Some nodeID) then None else tokens r !! t.
Proof.
  intros [_ _ _ He _ Hnd]. unfold Remove.
  rewrite (Remove_loop_spec nodeID (sortedTokens r)) by done. bind.
  destruct (remove_ref_spec nodeID (sortedTokens r) (tokens r) Hnd) as [H1 H2]; [by apply He|].
  eexists. split; [done|]. split; [done|]. split; [done|]. split; [done|].
  intros t. simpl. rewrite H2. apply decide_ext. split; [tauto|]. intros Ht.
  split; [|done]. apply He. eauto.
Qed.

Lemma ring_rep_remove U r nodeID :
  ring_rep U r → ∃ r', Remove nodeID r = Some r' ∧ ring_rep U r' ∧
                       nodeAddrs r' = delete nodeID (nodeAddrs r).
Proof.
  intros Hrep. pose proof Hrep as [Hv Hk Ht He Hs Hnd].
  destruct (ring_Remove_spec U r nodeID Hrep) as (r' & -> & Ha & Hv' & Hl & Ht').
  exists r'. split; [done|]. split; [|done]. split; [congruence| | | | |].
  - intros n. rewrite Ha, dom_delete_L. set_solver.
  - intros t n. rewrite Ht', Ha, dom_delete_L. case_decide as Hd.
    + split; [done|]. intros [Hn Htn].
      assert (tokens r !! t = Some n) by (apply Ht; set_solver). set_solver.
    + rewrite Ht. assert (n = nodeID → ¬ (n ∈ dom (nodeAddrs r) ∧
        t ∈ node_tokens n defaultVirtualNodes)) by (rewrite <-Ht; congruence). set_solver.
  - intros t. rewrite Hl, list_elem_of_filter, He, Ht'. case_decide; [|tauto].
    split; [tauto|by intros [? ?]].
  - rewrite Hl. by apply StronglySorted_filter.
  - rewrite Hl. by apply NoDup_filter.
Qed.

(** A ring is determined by the nodes registered on it. *)
Lemma ring_rep_unique U r r' :
  ring_rep U r → ring_rep U r' → nodeAddrs r = nodeAddrs r' → r = r'.
Proof.
  intros [Hv Hk Ht He Hs Hnd] [Hv' Hk' Ht' He' Hs' Hnd'] Ha.
  assert (tokens r = tokens r') as Htok.
  { apply map_eq. intros t. apply option_eq. intros n. by rewrite Ht, Ht', Ha. }
  assert (sortedTokens r = sortedTokens r') as Hl.
  { apply (StronglySorted_unique Z.le); [done|done|].
    apply NoDup_Permutation; [done|done|]. intros t. by rewrite He, He', Htok. }
  destruct r, r'. simpl in *. congruence.
Qed.

(** ** Histories of registrations *)

Inductive change := Register (nodeID addr : string) | Deregister (nodeID : string).

Definition apply_change (r : Ring) (c : change) : option Ring :=
  match c with
  | Register nodeID addr => Some (Add nodeID addr r)
  | Deregister nodeID => Remove nodeID r
  end.

Fixpoint build (r : Ring) (cs : list change) : option Ring :=
  match cs with
  | [] => Some r
  | c :: cs => r' ← apply_change r c; build r' cs
  end.

(** The registered nodes after a history. *)
Definition registered (m : gmap string string) (c : change) : gmap string string :=
  match c with
  | Register nodeID addr => <[nodeID := addr]> m
  | Deregister nodeID => delete nodeID m
  end.

(** Every node registered is one of [U] and not registered at that time. *)
Fixpoint legal (U : list string) (m : gmap string string) (cs : list change) : bool :=
  match cs with
  | [] => true
  | c :: cs =>
      match c with
      | Register nodeID _ => bool_decide (nodeID ∈ U) && bool_decide (m !! nodeID = None)
      | Deregister _ => true
      end && legal U (registered m c) cs
  end.

Lemma build_rep U r cs :
  collision_free U → ring_rep U r → legal U (nodeAddrs r) cs = true →
  ∃ r', build r cs = Some r' ∧ ring_rep U r' ∧ nodeAddrs r' = foldl registered (nodeAddrs r) cs.
Proof.
  intros Hcf. revert r. induction cs as [|c cs IH]; intros r Hrep Hl; simpl in *; [eauto|].
  apply andb_prop in Hl as [Hc Hl].
  assert (∃ r1, apply_change r c = Some r1 ∧ ring_rep U r1 ∧
    nodeAddrs r1 = registered (nodeAddrs r) c) as (r1 & -> & Hrep1 & Ha1).
  { destruct c as [nodeID addr|nodeID]; simpl; [|by apply ring_rep_remove].
    apply andb_prop in Hc as [HU%bool_decide_eq_true Hn%bool_decide_eq_true].
    exists (Add nodeID addr r). split; [done|].
    split; [apply ring_rep_add; try done; by apply not_elem_of_dom|apply Add_spec]. }
  rewrite <-Ha1 in *. by apply IH.
Qed.

(** ** Theorems *)

(** C7: routing is consistent hashing. On the ring of any history over a cluster
    whose tokens do not collide, in which no node is registered while it already is
    (removals are free), [Get] never panics; it fails exactly when no node is registered, and
    otherwise returns a registered node with its address, one of whose virtual
    tokens is the first met clockwise from the key's hash among all tokens of
    all registered nodes. *)
Theorem ring_routes_clockwise (U : list string) (cs : list change) (key : string)
    (Hcf : collision_free U) (Hlegal : legal U ∅ cs = true) :
  let m := foldl registered ∅ cs in
  ∃ r, build NewRing cs = Some r ∧ nodeAddrs r = m ∧
    (m = ∅ → Get key r = Some None) ∧
    (m ≠ ∅ → ∃ n a i, Get key r = Some (Some (n, a)) ∧ m !! n = Some a ∧
       i < defaultVirtualNodes ∧
       ∀ n' i', n' ∈ dom m → i' < defaultVirtualNodes →
         (clockwise (hashKey key) (token n i) ≤ clockwise (hashKey key) (token n' i'))%Z).
Proof.
  destruct (build_rep U NewRing cs Hcf (ring_rep_new U) Hlegal) as (r & Hb & Hrep & Ha).
  simpl in Ha. cbv zeta. rewrite <-Ha. exists r. split; [done|]. split; [done|].
  pose proof Hrep as [_ _ Ht He _ _].
  assert (∀ n i, n ∈ dom (nodeAddrs r) → i < defaultVirtualNodes → token n i ∈ sortedTokens r) as Hin.
  { intros n i Hn Hi. apply He. exists n. apply Ht. split; [done|].
    apply list_elem_of_fmap_2, elem_of_seq. lia. }
  split.
  - intros Hm. apply Get_empty. destruct (sortedTokens r) as [|t l] eqn:E; [done|].
    destruct (proj1 (He t)) as [n [Hn _]%Ht]; [set_solver|]. rewrite Hm in Hn. set_solver.
  - intros [n0 [a0 Hn0]]%map_choose.
    destruct (Get_nearest key r (ring_rep_wf U r Hrep)) as (t & n & a & Hget & [Hmem Hnear] & Hn & Han).
    { intros Hl. specialize (Hin n0 0). rewrite Hl in Hin.
      eapply not_elem_of_nil, Hin; [by eapply elem_of_dom_2|]. unfold defaultVirtualNodes. lia. }
    apply Ht in Hn as [_ (i & -> & Hi%elem_of_seq)%list_elem_of_fmap_1].
    exists n, a, i. split; [done|]. split; [done|]. split; [lia|]. eauto.
Qed.

(** C13: every member of the cluster routes alike. Over a cluster whose tokens do
    not collide, two rings built by histories that never register a node that
    already is registered, and that have the same nodes registered at the same
    addresses in the end, in whatever order and with whatever departures in
    between, are equal, so they send every key to the same node. *)
Theorem ring_agreement (U : list string) (cs cs' : list change)
    (Hcf : collision_free U) (Hlegal : legal U ∅ cs = true) (Hlegal' : legal U ∅ cs' = true)
    (Hsame : foldl registered ∅ cs = foldl registered ∅ cs') :
  ∃ r, build NewRing cs = Some r ∧ build NewRing cs' = Some r.
Proof.
  destruct (build_rep U NewRing cs Hcf (ring_rep_new U) Hlegal) as (r & Hb & Hrep & Ha).
  destruct (build_rep U NewRing cs' Hcf (ring_rep_new U) Hlegal') as (r' & Hb' & Hrep' & Ha').
  assert (r = r') as <-; [|eauto]. apply (ring_rep_unique U); try done. rewrite Ha, Ha'. exact Hsame.
Qed.

(** C14: adding a node moves keys only to that node. On any well-formed ring
    (sorted tokens, each of them with a registered node, as [NewRing] is and [Add]
    keeps it), even if tokens collide and even if the node was registered already, a key
    is routed after [Add] to the node added or to the node it was routed to
    before. *)
Theorem add_moves_keys_only_to_new_node (r : Ring) (nodeID addr key : string)
    (Hwf : ring_wf r) :
  Get key (Add nodeID addr r) = Some (Some (nodeID, addr)) ∨
  Get key (Add nodeID addr r) = Get key r.
Proof.
  pose proof (wf_add nodeID addr r Hwf) as Hwf'.
  destruct (Add_spec nodeID addr r) as (Ha & _ & _ & Hperm & Ht).
  destruct (decide (sortedTokens (Add nodeID addr r) = [])) as [Hl|Hl].
  { right. rewrite !Get_empty; [done| |done].
    rewrite Hl in Hperm. apply Permutation_nil_l in Hperm. symmetry in Hperm.
    by apply app_nil in Hperm as [? _]. }
  destruct (Get_nearest key _ Hwf' Hl) as (t & n & a & Hget & Hnear & Hn & Han).
  rewrite Hget. destruct (decide (n = nodeID)) as [->|Hne].
  - left. rewrite Ha, lookup_insert_eq in Han. congruence.
  - right. symmetry. rewrite Ht in Hn. destruct (decide _) as [|Hin]; [congruence|].
    apply (Get_owner key r t); try done.
    + eapply nearest_mono; [exact Hnear| |intros x Hx; rewrite Hperm, elem_of_app; by left].
      destruct Hnear as [Hmem _]. rewrite Hperm, elem_of_app in Hmem. tauto.
    + by rewrite Ha, lookup_insert_ne in Han.
Qed.

(** C26: removing a node moves only its own keys. On the ring of any history over
    a cluster whose tokens do not collide, in which no node is registered while it
    already is, a key that another node owns keeps its node
    after [Remove], and no key is routed to the removed node any more. *)
Theorem remove_moves_only_removed_keys (U : list string) (cs : list change) (nodeID key : string)
    (Hcf : collision_free U) (Hlegal : legal U ∅ cs = true) :
  ∃ r r', build NewRing cs = Some r ∧ Remove nodeID r = Some r' ∧
    (∀ n a, Get key r = Some (Some (n, a)) → n ≠ nodeID → Get key r' = Some (Some (n, a))) ∧
    (∀ n a, Get key r' = Some (Some (n, a)) → n ≠ nodeID).
Proof.
  destruct (build_rep U NewRing cs Hcf (ring_rep_new U) Hlegal) as (r & Hb & Hrep & _).
  destruct (ring_Remove_spec U r nodeID Hrep) as (r' & Hrm & Ha & _ & Hl & Ht).
  destruct (ring_rep_remove U r nodeID Hrep) as (r'' & Heq & Hrep' & _).
  assert (r'' = r') as -> by congruence. clear Heq.
  exists r, r'. split; [done|]. split; [done|].
  pose proof (ring_rep_wf U r Hrep) as Hwf. pose proof (ring_rep_wf U r' Hrep') as Hwf'.
  split.
  - intros n a Hget Hne.
    destruct (decide (sortedTokens r = [])) as [He|He]; [by rewrite Get_empty in Hget|].
    destruct (Get_nearest key r Hwf He) as (t & n' & a' & Hget' & Hnear & Hn & Han).
    rewrite Hget in Hget'. injection Hget' as <- <-.
    apply (Get_owner key r' t); try done.
    + eapply nearest_mono; [exact Hnear| |].
      * rewrite Hl, list_elem_of_filter. split; [congruence|apply Hnear].
      * intros x. rewrite Hl, list_elem_of_filter. tauto.
    + rewrite Ht, decide_False by congruence. done.
    + by rewrite Ha, lookup_delete_ne.
  - intros n a Hget ->.
    destruct (decide (sortedTokens r' = [])) as [He|He]; [by rewrite Get_empty in Hget|].
    destruct (Get_nearest key r' Hwf' He) as (t & n' & a' & Hget' & _ & _ & Han).
    rewrite Hget in Hget'. injection Hget' as <- <-. by rewrite Ha, lookup_delete_eq in Han.
Qed.

(** Registering a node twice breaks its removal. [Add] appends the node's
    tokens again, [Remove] deletes each token from the map at its first copy
    and then keeps the second copy, so the ring that has lost its only node
    still answers, with an empty node and address. *)
Theorem duplicate_add_leaves_orphan_tokens :
  ∃ r, build NewRing [Register "node1" "node1:9001"; Register "node1" "node1:9001";
                      Deregister "node1"] = Some r ∧
       nodeAddrs r = ∅ ∧ length (sortedTokens r) = defaultVirtualNodes ∧
       Get "user:1" r = Some (Some ("", "")).
Proof. eexists. split; [vm_compute; reflexivity|]. vm_compute. done. Qed.

(** *** Witnesses: the three-node cluster of the deployment *)

Definition cluster3 : list string := ["node1"; "node2"; "node3"].

(** As [node1] and [node2] build it: each registers itself first. *)
Definition ring_of_node1 : list change :=
  [Register "node1" "node1:9001"; Register "node2" "node2:9002"; Register "node3" "node3:9003"].
Definition ring_of_node2 : list change :=
  [Register "node2" "node2:9002"; Register "node1" "node1:9001"; Register "node3" "node3:9003"].

Lemma cluster3_collision_free : collision_free cluster3.
Proof.
  unfold collision_free. apply (bool_decide_eq_true_1 (NoDup _)). vm_compute. reflexivity.
Qed.

Lemma ring_routes_clockwise_witness :
  ∃ r n a, build NewRing ring_of_node1 = Some r ∧ Get "user:1" r = Some (Some (n, a)).
Proof.
  destruct (ring_routes_clockwise cluster3 ring_of_node1 "user:1" cluster3_collision_free)
    as (r & Hr & _ & _ & Hget); [reflexivity|].
  destruct Hget as (n & a & i & Hn & _); [vm_compute; discriminate|]. eauto.
Defined.

Lemma ring_agreement_witness :
  ∃ r, build NewRing ring_of_node1 = Some r ∧ build NewRing ring_of_node2 = Some r.
Proof.
  apply (ring_agreement cluster3 ring_of_node1 ring_of_node2 cluster3_collision_free);
    vm_compute; reflexivity.
Defined.

(** Two nodes, the second of which takes over some keys of the first. *)
Definition one_node : Ring := Add "node1" "node1:9001" NewRing.

Lemma add_moves_keys_only_to_new_node_witness :
  (Get "user:1" (Add "node2" "node2:9002" one_node) = Some (Some ("node2", "node2:9002")) ∨
   Get "user:1" (Add "node2" "node2:9002" one_node) = Get "user:1" one_node) ∧
  Get "user:1" one_node = Some (Some ("node1", "node1:9001")).
Proof.
  split; [|vm_compute; reflexivity].
  apply (add_moves_keys_only_to_new_node one_node). apply wf_add. exact wf_new.
Defined.

Lemma remove_moves_only_removed_keys_witness :
  ∃ r r', build NewRing ring_of_node1 = Some r ∧ Remove "node3" r = Some r' ∧
    (∀ n a, Get "user:1" r' = Some (Some (n, a)) → n ≠ "node3").
Proof.
  destruct (remove_moves_only_removed_keys cluster3 ring_of_node1 "node3" "user:1"
    cluster3_collision_free) as (r & r' & Hr & Hr' & _ & Hno); [reflexivity|]. eauto.
Defined.
End Ring.
