(* ===== verification/Raft.v ===== *)
(** One Raft node, [src/internal/raft]: its state and persistent state
    ([state.go]), the handlers of the two RPCs ([rpc.go]), and the pieces of the
    event loop ([timer.go]) that run under the node's mutex. A leader election
    without log replication. *)
From S2P Require Import Prelude.

Module Raft.

(** ** State *)

Inductive NodeState := Follower | Candidate | Leader.
#[global] Instance NodeState_eq_dec : EqDecision NodeState.
Proof. solve_decision. Defined.

Definition NodeState_String (s : NodeState) : string :=
  match s with
  | Follower => "follower"
  | Candidate => "candidate"
  | Leader => "leader"
  end.

Record PeerConfig := mk_Peer { ID : string; Addr : string }.
#[global] Instance PeerConfig_eq_dec : EqDecision PeerConfig.
Proof. solve_decision. Defined.

Record persistentState := mk_ps { CurrentTerm : Z; VotedFor : string }.

(** What the state file reads as: a file that decodes to a persistent state, a
    missing file, a read error, or a file that is not valid JSON. *)
Inductive stateFile :=
| Stored (ps : persistentState)
| NotExist
| ReadError
| Malformed.

(** [RaftNode]; [disk] is the node's state file and [leaderCh] the contents of
    the channel, which has room for one identifier. *)
Record RaftNode := mk_node {
  id : string;
  peers : list PeerConfig;
  state : NodeState;
  leaderID : string;
  ps : persistentState;
  leaderCh : list string;
  lastHeartbeat : Time;
  disk : stateFile
}.

Definition with_state (n : RaftNode) s : RaftNode :=
  mk_node (id n) (peers n) s (leaderID n) (ps n) (leaderCh n) (lastHeartbeat n) (disk n).
Definition with_leaderID (n : RaftNode) l : RaftNode :=
  mk_node (id n) (peers n) (state n) l (ps n) (leaderCh n) (lastHeartbeat n) (disk n).
Definition with_ps (n : RaftNode) p : RaftNode :=
  mk_node (id n) (peers n) (state n) (leaderID n) p (leaderCh n) (lastHeartbeat n) (disk n).
Definition with_leaderCh (n : RaftNode) c : RaftNode :=
  mk_node (id n) (peers n) (state n) (leaderID n) (ps n) c (lastHeartbeat n) (disk n).
Definition with_lastHeartbeat (n : RaftNode) t : RaftNode :=
  mk_node (id n) (peers n) (state n) (leaderID n) (ps n) (leaderCh n) t (disk n).
Definition with_disk (n : RaftNode) d : RaftNode :=
  mk_node (id n) (peers n) (state n) (leaderID n) (ps n) (leaderCh n) (lastHeartbeat n) d.

(** ** Persistent state *)

(** [saveState]: the file is written to a temporary name and renamed, so it
    holds the new state if both succeed ([ok]) and is unchanged otherwise.
    Every caller discards the error. *)
Definition saveState (ok : bool) (n : RaftNode) : RaftNode :=
  if ok then with_disk n (Stored (ps n)) else n.

(** [loadState]; the error is [None]. *)
Definition loadState (n : RaftNode) : option RaftNode :=
  match disk n with
  | NotExist => Some (with_ps n (mk_ps 0 ""))
  | Stored p => Some (with_ps n p)
  | ReadError | Malformed => None
  end.

Definition NewRaftNode (id : string) (peers : list PeerConfig) (file : stateFile)
    : option RaftNode :=
  loadState (mk_node id peers Follower "" (mk_ps 0 "") [] time_zero file).

(** ** State transitions *)

(** The calls of one handler to [saveState], in order, succeed as [io] says. *)
Definition becomeFollower (io : bool) (term : Z) (n : RaftNode) : RaftNode :=
  let n := with_state n Follower in
  if (CurrentTerm (ps n) <? term)%Z then saveState io (with_ps n (mk_ps term "")) else n.

Definition becomeCandidate (io : bool) (n : RaftNode) : RaftNode :=
  let n := with_state n Candidate in
  saveState io (with_ps n (mk_ps (wrap64 (CurrentTerm (ps n) + 1)) (id n))).

(** The send on [leaderCh] is dropped when the channel is full. *)
Definition becomeLeader (n : RaftNode) : RaftNode :=
  let n := with_leaderID (with_state n Leader) (id n) in
  match leaderCh n with
  | [] => with_leaderCh n [id n]
  | _ => n
  end.

(** ** RPC handlers *)

Record RequestVoteRequest := mk_RequestVote { rv_Term : Z; rv_CandidateID : string }.
Record RequestVoteResponse := mk_VoteResponse { vr_Term : Z; vr_VoteGranted : bool }.
Record AppendEntriesRequest := mk_AppendEntries { ae_Term : Z; ae_LeaderID : string }.
Record AppendEntriesResponse := mk_AppendResponse { ar_Term : Z; ar_Success : bool }.

Definition HandleRequestVote (io : nat → bool) (req : RequestVoteRequest) (n : RaftNode)
    : RaftNode * RequestVoteResponse :=
  if (rv_Term req <? CurrentTerm (ps n))%Z then
    (n, mk_VoteResponse (CurrentTerm (ps n)) false)
  else
    let n := if (CurrentTerm (ps n) <? rv_Term req)%Z
             then becomeFollower (io 0) (rv_Term req) n else n in
    let alreadyVoted :=
      bool_decide (VotedFor (ps n) ≠ "") && bool_decide (VotedFor (ps n) ≠ rv_CandidateID req) in
    if alreadyVoted then (n, mk_VoteResponse (CurrentTerm (ps n)) false)
    else
      let n := saveState (io 1)
        (with_ps n (mk_ps (CurrentTerm (ps n)) (rv_CandidateID req))) in
      (n, mk_VoteResponse (CurrentTerm (ps n)) true).

Definition HandleAppendEntries (io : bool) (now : Time) (req : AppendEntriesRequest) (n : RaftNode)
    : RaftNode * AppendEntriesResponse :=
  if (ae_Term req <? CurrentTerm (ps n))%Z then
    (n, mk_AppendResponse (CurrentTerm (ps n)) false)
  else
    let n := if (CurrentTerm (ps n) <? ae_Term req)%Z
             then becomeFollower io (ae_Term req) n else n in
    let n := if decide (state n = Candidate) then with_state n Follower else n in
    let n := with_lastHeartbeat (with_leaderID n (ae_LeaderID req)) now in
    (n, mk_AppendResponse (CurrentTerm (ps n)) true).

(** ** Timers and elections *)

Definition electionTimeoutMin : Duration := (150 * Millisecond)%Z.
Definition electionTimeoutMax : Duration := (300 * Millisecond)%Z.
Definition heartbeatInterval : Duration := (50 * Millisecond)%Z.

(** [rand.Int63n] gives a draw in [0, delta). *)
Definition randomElectionTimeout (draw : Z) : Duration :=
  (electionTimeoutMin + draw `mod` (electionTimeoutMax - electionTimeoutMin))%Z.

(** The election-timer case of [runLoop]: does it start an election? *)
Definition election_due (now : Time) (n : RaftNode) : bool :=
  negb (bool_decide (state n = Leader)) && (electionTimeoutMin <=? now - lastHeartbeat n)%Z.

(** What a vote goroutine sends back: an RPC error is a refusal of term 0. *)
Record voteResult := mk_voteResult { granted : bool; res_term : Z }.

Definition result_of (resp : option RequestVoteResponse) : voteResult :=
  match resp with
  | None => mk_voteResult false 0
  | Some r => mk_voteResult (vr_VoteGranted r) (vr_Term r)
  end.

Definition majority (npeers : nat) : Z := (Z.of_nat npeers + 1) / 2 + 1.

(** How one iteration of the collecting loop ends. *)
Inductive collected :=
| SteppedDown           (* a higher term: [startElection] returns *)
| Won                   (* [becomeLeader], then heartbeats, then return *)
| Counting (votes : Z). (* on to the next result *)

(** One iteration of the collecting loop, under the mutex. *)
Definition collect_vote (io : bool) (result : voteResult) (votes : Z) (n : RaftNode)
    : RaftNode * collected :=
  if (CurrentTerm (ps n) <? res_term result)%Z then
    (becomeFollower io (res_term result) n, SteppedDown)
  else if granted result then
    let votes := (votes + 1)%Z in
    if (majority (length (peers n)) <=? votes)%Z && bool_decide (state n = Candidate)
    then (becomeLeader n, Won)
    else (n, Counting votes)
  else (n, Counting votes).

(** The reply to a heartbeat. *)
Definition heartbeat_reply (io : bool) (resp : AppendEntriesResponse) (n : RaftNode) : RaftNode :=
  if (CurrentTerm (ps n) <? ar_Term resp)%Z then becomeFollower io (ar_Term resp) n else n.

(** ** How a node evolves *)

(** The state file holds the state in memory, as after a successful save. *)
Definition disk_synced (n : RaftNode) : Prop :=
  match disk n with
  | Stored p => p = ps n
  | NotExist => ps n = mk_ps 0 ""
  | _ => False
  end.

(** A change that is not a candidacy or an election won: the term never goes
    down, a vote cast stands for its term, and leadership and candidacy only
    survive within the term. *)
Record advances (n n' : RaftNode) : Prop := {
  adv_id : id n' = id n;
  adv_peers : peers n' = peers n;
  adv_term : (CurrentTerm (ps n) ≤ CurrentTerm (ps n'))%Z;
  adv_vote : CurrentTerm (ps n') = CurrentTerm (ps n) → VotedFor (ps n) ≠ "" →
             VotedFor (ps n') = VotedFor (ps n);
  adv_active : state n' ≠ Follower → state n' = state n ∧ CurrentTerm (ps n') = CurrentTerm (ps n);
  adv_disk : disk_synced n → disk_synced n'
}.

Lemma advances_refl n : advances n n.
Proof. by split. Qed.

Lemma advances_trans n1 n2 n3 : advances n1 n2 → advances n2 n3 → advances n1 n3.
Proof.
  intros [Hi1 Hp1 Ht1 Hv1 Ha1 Hd1] [Hi2 Hp2 Ht2 Hv2 Ha2 Hd2]. split; [congruence..|lia| | |auto].
  - intros Heq Hne. assert (CurrentTerm (ps n2) = CurrentTerm (ps n1)) as He by lia.
    rewrite Hv2 by (rewrite ?Hv1; done || lia). by apply Hv1.
  - intros Hs. destruct (Ha2 Hs) as [E2 T2]. rewrite E2 in Hs.
    destruct (Ha1 Hs) as [E1 T1]. split; congruence.
Qed.

Lemma becomeFollower_advances term n : advances n (becomeFollower true term n).
Proof.
  unfold becomeFollower. simpl. destruct (Z.ltb_spec (CurrentTerm (ps n)) term).
  - split; simpl; try done; lia.
  - split; simpl; try done.
Qed.

Lemma becomeFollower_term term n :
  (CurrentTerm (ps n) ≤ term)%Z →
  CurrentTerm (ps (becomeFollower true term n)) = term.
Proof.
  intros Hle. unfold becomeFollower. simpl.
  destruct (Z.ltb_spec (CurrentTerm (ps n)) term); simpl; lia.
Qed.

Lemma vote_advances n c :
  VotedFor (ps n) = "" ∨ VotedFor (ps n) = c →
  advances n (saveState true (with_ps n (mk_ps (CurrentTerm (ps n)) c))).
Proof. intros Hv. split; simpl; try done. intros _ ?. naive_solver. Qed.

(** The effect of a vote request: the node advances; if the vote is granted
    the node is then in the request's term and has voted for the candidate. *)
Lemma HandleRequestVote_advances io req n :
  io 0 = true → io 1 = true →
  let '(n', resp) := HandleRequestVote io req n in
  advances n n' ∧ (vr_VoteGranted resp = true →
    CurrentTerm (ps n') = rv_Term req ∧ VotedFor (ps n') = rv_CandidateID req).
Proof.
  intros H0 H1. unfold HandleRequestVote. rewrite H0, H1.
  destruct (Z.ltb_spec (rv_Term req) (CurrentTerm (ps n))); [by split; [apply advances_refl|]|].
  set (n1 := if (CurrentTerm (ps n) <? rv_Term req)%Z then _ else n).
  assert (advances n n1 ∧ CurrentTerm (ps n1) = rv_Term req) as [Hadv Hterm].
  { unfold n1. destruct (Z.ltb_spec (CurrentTerm (ps n)) (rv_Term req)).
    - split; [apply becomeFollower_advances|]. apply becomeFollower_term. lia.
    - split; [apply advances_refl|lia]. }
  clearbody n1. simpl.
  destruct (decide (VotedFor (ps n1) = "")) as [E|E].
  { rewrite bool_decide_eq_false_2 by (by intros []). simpl. split; [|done].
    eapply advances_trans; [exact Hadv|]. apply vote_advances. by left. }
  rewrite bool_decide_eq_true_2 by done. simpl.
  destruct (decide (VotedFor (ps n1) = rv_CandidateID req)) as [E'|E'].
  - rewrite bool_decide_eq_false_2 by (by intros []). simpl. split; [|done].
    eapply advances_trans; [exact Hadv|]. apply vote_advances. by right.
  - rewrite bool_decide_eq_true_2 by done. by split.
Qed.

Lemma HandleAppendEntries_advances now req n :
  advances n (HandleAppendEntries true now req n).1.
Proof.
  unfold HandleAppendEntries.
  destruct (ae_Term req <? CurrentTerm (ps n))%Z; [apply advances_refl|]. cbn [fst].
  set (n1 := if (CurrentTerm (ps n) <? ae_Term req)%Z then _ else n).
  assert (advances n n1) as Hadv.
  { unfold n1. destruct (_ <? _)%Z; [apply becomeFollower_advances|apply advances_refl]. }
  eapply advances_trans; [exact Hadv|]. clearbody n1.
  destruct (decide (state n1 = Candidate)); by split.
Qed.

Lemma heartbeat_reply_advances resp n : advances n (heartbeat_reply true resp n).
Proof.
  unfold heartbeat_reply.
  destruct (_ <? _)%Z; [apply becomeFollower_advances|apply advances_refl].
Qed.

(** A restart reloads the same persistent state, as a follower. *)
Lemma NewRaftNode_advances n n' :
  disk_synced n → NewRaftNode (id n) (peers n) (disk n) = Some n' → advances n n'.
Proof.
  unfold disk_synced, NewRaftNode, loadState. simpl. intros Hd.
  destruct (disk n) as [p| | |] eqn:E; try done; intros [= <-]; split; simpl; try done;
    rewrite ?E; subst; rewrite ?Hd; done || lia.
Qed.

Lemma becomeLeader_same n :
  id (becomeLeader n) = id n ∧ peers (becomeLeader n) = peers n ∧ ps (becomeLeader n) = ps n ∧
  disk (becomeLeader n) = disk n ∧ state (becomeLeader n) = Leader.
Proof. unfold becomeLeader. simpl. by destruct (leaderCh n). Qed.

(** ** The RPC handlers *)

(** The vote rule. A vote is granted exactly when the candidate's term is
    newer, or is the current one and the node has not voted for anybody else in
    it; a grant leaves the node in the candidate's term with that vote (in
    memory whatever the disk does), a refusal leaves the node unchanged, and the
    response carries the node's resulting term. *)
Theorem HandleRequestVote_grants (io : nat → bool) (req : RequestVoteRequest) (n : RaftNode) :
  let '(n', resp) := HandleRequestVote io req n in
  (vr_VoteGranted resp = true ↔
     (CurrentTerm (ps n) < rv_Term req)%Z ∨
     CurrentTerm (ps n) = rv_Term req ∧
       (VotedFor (ps n) = "" ∨ VotedFor (ps n) = rv_CandidateID req)) ∧
  (vr_VoteGranted resp = true → ps n' = mk_ps (rv_Term req) (rv_CandidateID req)) ∧
  (vr_VoteGranted resp = false → n' = n) ∧
  vr_Term resp = CurrentTerm (ps n').
Proof.
  unfold HandleRequestVote, becomeFollower, saveState.
  destruct (Z.ltb_spec (rv_Term req) (CurrentTerm (ps n))); simpl.
  { repeat split; try done. lia. }
  destruct (Z.ltb_spec (CurrentTerm (ps n)) (rv_Term req)) as [Hlt|Hle].
  - destruct (io 0), (io 1); simpl; repeat split; try done; tauto.
  - assert (CurrentTerm (ps n) = rv_Term req) as Heq by lia.
    destruct (decide (VotedFor (ps n) = "")) as [E|E].
    { rewrite bool_decide_eq_false_2 by (by intros []). simpl.
      destruct (io 1); simpl; rewrite Heq; repeat split; try done; tauto. }
    rewrite bool_decide_eq_true_2 by done. simpl.
    destruct (decide (VotedFor (ps n) = rv_CandidateID req)) as [E'|E'].
    + rewrite bool_decide_eq_false_2 by (by intros []). simpl.
      destruct (io 1); simpl; rewrite Heq; repeat split; try done; tauto.
    + rewrite bool_decide_eq_true_2 by done. simpl. repeat split; try done.
      intros [?|[_ [?|?]]]; [lia|done|done].
Qed.

(** The heartbeat rule. A heartbeat is accepted exactly when its term is not
    older than the node's; the node then is in that term, is no candidate, has
    recorded the leader and the time, and keeps a vote cast in that term; a
    refused heartbeat changes nothing. *)
Theorem HandleAppendEntries_accepts (io : bool) (now : Time) (req : AppendEntriesRequest) (n : RaftNode) :
  let '(n', resp) := HandleAppendEntries io now req n in
  ar_Success resp = (CurrentTerm (ps n) <=? ae_Term req)%Z ∧
  ar_Term resp = CurrentTerm (ps n') ∧
  if ar_Success resp then
    CurrentTerm (ps n') = ae_Term req ∧ state n' ≠ Candidate ∧
    leaderID n' = ae_LeaderID req ∧ lastHeartbeat n' = now ∧
    (CurrentTerm (ps n) = ae_Term req → ps n' = ps n)
  else n' = n.
Proof.
  unfold HandleAppendEntries, becomeFollower, saveState.
  destruct (Z.ltb_spec (ae_Term req) (CurrentTerm (ps n))); simpl.
  { split; [symmetry; apply Z.leb_gt; lia|done]. }
  replace (CurrentTerm (ps n) <=? ae_Term req)%Z with true by lia.
  destruct (Z.ltb_spec (CurrentTerm (ps n)) (ae_Term req)) as [Hlt|Hle].
  - destruct io; simpl; repeat split; try done; lia.
  - destruct (decide (state n = Candidate)); simpl; repeat split; try done; lia.
Qed.

(** A vote survives a crash. After a node has granted its vote and the write
    of its state file has succeeded, a restarted node still refuses every other
    candidate of that term. *)
Theorem vote_survives_restart (io io' : nat → bool) (t : Z) (c c' : string) (n n1 n2 : RaftNode) resp
    (Hc : c ≠ "") (Hne : c' ≠ c) (Hio : io 1 = true)
    (Hvote : HandleRequestVote io (mk_RequestVote t c) n = (n1, resp))
    (Hgrant : vr_VoteGranted resp = true)
    (Hrestart : NewRaftNode (id n1) (peers n1) (disk n1) = Some n2) :
  ps n2 = mk_ps t c ∧
  HandleRequestVote io' (mk_RequestVote t c') n2 = (n2, mk_VoteResponse t false).
Proof.
  assert (ps n1 = mk_ps t c ∧ disk n1 = Stored (ps n1)) as [Hps Hd].
  { revert Hvote. unfold HandleRequestVote. rewrite Hio. simpl.
    destruct (Z.ltb_spec t (CurrentTerm (ps n))); [by intros [= <- <-]|].
    set (m := if (CurrentTerm (ps n) <? t)%Z then _ else n).
    assert (CurrentTerm (ps m) = t) as Hm.
    { unfold m, becomeFollower. destruct (Z.ltb_spec (CurrentTerm (ps n)) t); [|lia].
      simpl. replace (CurrentTerm (ps n) <? t)%Z with true by lia. by destruct (io 0). }
    clearbody m. destruct (_ && _); intros [= <- <-]; [done|]. by simpl; rewrite Hm. }
  revert Hrestart. unfold NewRaftNode, loadState. simpl. rewrite Hd. intros [= <-]. simpl.
  rewrite Hps. split; [done|]. unfold HandleRequestVote. simpl. rewrite Z.ltb_irrefl. simpl.
  rewrite bool_decide_eq_true_2 by done. rewrite bool_decide_eq_true_2 by done. done.
Qed.

Lemma vote_survives_restart_witness :
  ∃ n1 n2 resp,
    HandleRequestVote (λ _, true) (mk_RequestVote 1 "node1")
      (mk_node "node3" [] Follower "" (mk_ps 0 "") [] 0 NotExist) = (n1, resp) ∧
    HandleRequestVote (λ _, true) (mk_RequestVote 1 "node2") n2 = (n2, mk_VoteResponse 1 false).
Proof.
  destruct (HandleRequestVote (λ _, true) (mk_RequestVote 1 "node1")
    (mk_node "node3" [] Follower "" (mk_ps 0 "") [] 0 NotExist)) as [n1 resp] eqn:Hv.
  destruct (NewRaftNode (id n1) (peers n1) (disk n1)) as [n2|] eqn:Hr.
  - exists n1, n2, resp. split; [reflexivity|].
    apply (vote_survives_restart (λ _, true) (λ _, true) 1 "node1" "node2"
      (mk_node "node3" [] Follower "" (mk_ps 0 "") [] 0 NotExist) n1 n2 resp).
    + discriminate.
    + discriminate.
    + reflexivity.
    + exact Hv.
    + vm_compute in Hv. injection Hv as <- <-. reflexivity.
    + exact Hr.
  - vm_compute in Hv. injection Hv as <- <-. vm_compute in Hr. discriminate Hr.
Defined.

(** The election timeout lies in [150ms, 300ms), whatever the draw, and is
    at least three heartbeat intervals, so one or two lost heartbeats do not
    start an election. *)
Theorem election_timeout_range (draw : Z) :
  (electionTimeoutMin ≤ randomElectionTimeout draw < electionTimeoutMax)%Z ∧
  (3 * heartbeatInterval ≤ randomElectionTimeout draw)%Z.
Proof.
  unfold randomElectionTimeout, electionTimeoutMin, electionTimeoutMax, heartbeatInterval, Millisecond.
  pose proof (Z.mod_pos_bound draw (300 * 1000000 - 150 * 1000000) ltac:(lia)). lia.
Qed.

End Raft.
