(* ===== verification/RaftCluster.v ===== *)
(** A cluster of Raft nodes exchanging messages: the event loops of
    [src/internal/raft/timer.go] with every interleaving of timers, RPC
    deliveries, lost and repeated messages, crashes and restarts, and the
    goroutine of [src/cmd/cachenode/main.go] that tells the coordinator of a
    leader change. *)
From S2P Require Import Prelude Raft.

Module RaftCluster.
Import Raft.

#[global] Instance persistentState_eq_dec : EqDecision persistentState.
Proof. solve_decision. Defined.
#[global] Instance RequestVoteRequest_eq_dec : EqDecision RequestVoteRequest.
Proof. solve_decision. Defined.
#[global] Instance RequestVoteResponse_eq_dec : EqDecision RequestVoteResponse.
Proof. solve_decision. Defined.
#[global] Instance AppendEntriesRequest_eq_dec : EqDecision AppendEntriesRequest.
Proof. solve_decision. Defined.
#[global] Instance AppendEntriesResponse_eq_dec : EqDecision AppendEntriesResponse.
Proof. solve_decision. Defined.

(** Where the single [runLoop] goroutine of a node stands. *)
Inductive loop :=
| Idle                          (* in the [select] *)
| Electing                      (* decided to call [startElection], not yet locked *)
| Collecting (term votes : Z) (pending : list string)
                                (* waiting for the results of [pending] *)
| Beating.                      (* about to call [sendHeartbeats] *)

(** The cluster. Nodes are keyed by the address the transport dials. Messages
    stay in the network once sent, so a delivery may be lost, delayed or
    repeated. [won] and [ballots] record the elections won, with the term and
    the winner's address, and the votes cast, with the voter's address, the
    term and the candidate; no code reads them. *)
Record sys := mk_sys {
  nodes : gmap string RaftNode;
  loops : gmap string loop;
  vote_reqs : list (string * RequestVoteRequest);
  vote_resps : list (string * RequestVoteRequest * RequestVoteResponse);
  append_reqs : list (string * string * AppendEntriesRequest);
  append_resps : list (string * AppendEntriesResponse);
  coordinator : gmap string bool;
  won : list (Z * string);
  ballots : list (string * Z * string)
}.

Definition set_node (a : string) (n : RaftNode) (s : sys) : sys :=
  mk_sys (<[a := n]> (nodes s)) (loops s) (vote_reqs s) (vote_resps s)
    (append_reqs s) (append_resps s) (coordinator s) (won s) (ballots s).
Definition set_loop (a : string) (l : loop) (s : sys) : sys :=
  mk_sys (nodes s) (<[a := l]> (loops s)) (vote_reqs s) (vote_resps s)
    (append_reqs s) (append_resps s) (coordinator s) (won s) (ballots s).
Definition add_vote_reqs (l : list (string * RequestVoteRequest)) (s : sys) : sys :=
  mk_sys (nodes s) (loops s) (l ++ vote_reqs s) (vote_resps s)
    (append_reqs s) (append_resps s) (coordinator s) (won s) (ballots s).
Definition add_vote_resp r (s : sys) : sys :=
  mk_sys (nodes s) (loops s) (vote_reqs s) (r :: vote_resps s)
    (append_reqs s) (append_resps s) (coordinator s) (won s) (ballots s).
Definition add_append_reqs l (s : sys) : sys :=
  mk_sys (nodes s) (loops s) (vote_reqs s) (vote_resps s)
    (l ++ append_reqs s) (append_resps s) (coordinator s) (won s) (ballots s).
Definition add_append_resp r (s : sys) : sys :=
  mk_sys (nodes s) (loops s) (vote_reqs s) (vote_resps s)
    (append_reqs s) (r :: append_resps s) (coordinator s) (won s) (ballots s).
Definition set_coordinator (a : string) (b : bool) (s : sys) : sys :=
  mk_sys (nodes s) (loops s) (vote_reqs s) (vote_resps s)
    (append_reqs s) (append_resps s) (<[a := b]> (coordinator s)) (won s) (ballots s).
Definition record_won (w : Z * string) (s : sys) : sys :=
  mk_sys (nodes s) (loops s) (vote_reqs s) (vote_resps s)
    (append_reqs s) (append_resps s) (coordinator s) (w :: won s) (ballots s).
Definition record_ballot (b : string * Z * string) (s : sys) : sys :=
  mk_sys (nodes s) (loops s) (vote_reqs s) (vote_resps s)
    (append_reqs s) (append_resps s) (coordinator s) (won s) (b :: ballots s).

(** ** Steps *)

(** What the scheduler and the environment choose: which node or message moves,
    the clock readings, and whether writing the state file succeeds. *)
Inductive choice :=
| Timer (a : string) (now : Time)
| Tick (a : string)
| Elect (a : string) (io : bool)
| Collect (a p : string) (resp : option RequestVoteResponse) (io : bool)
| Beat (a : string)
| RecvVote (a : string) (req : RequestVoteRequest) (io0 io1 : bool)
| RecvAppend (from a : string) (req : AppendEntriesRequest) (now : Time) (io : bool)
| RecvReply (a : string) (resp : AppendEntriesResponse) (io : bool)
| Restart (a : string)
| Notify (a : string).

(** [case <-electionTimer.C]. *)
Definition do_timer (a : string) (now : Time) (s : sys) : option sys :=
  n ← nodes s !! a;
  match loops s !! a with
  | Some Idle => Some (set_loop a (if election_due now n then Electing else Idle) s)
  | _ => None
  end.

(** [case <-heartbeatTicker.C]. *)
Definition do_tick (a : string) (s : sys) : option sys :=
  n ← nodes s !! a;
  match loops s !! a with
  | Some Idle => Some (set_loop a (if decide (state n = Leader) then Beating else Idle) s)
  | _ => None
  end.

(** [startElection] up to the collecting loop: with no peers that loop does not
    run at all. *)
Definition do_elect (a : string) (io : bool) (s : sys) : option sys :=
  n ← nodes s !! a;
  match loops s !! a with
  | Some Electing =>
      let n' := becomeCandidate io n in
      let term := CurrentTerm (ps n') in
      let addrs := Addr <$> peers n' in
      Some (record_ballot (a, term, id n')
             (add_vote_reqs ((λ p, (p, mk_RequestVote term (id n'))) <$> addrs)
               (set_loop a (match addrs with [] => Idle | _ => Collecting term 1 addrs end)
                 (set_node a n' s))))
  | _ => None
  end.

Fixpoint remove_first (p : string) (l : list string) : list string :=
  match l with
  | [] => []
  | x :: l => if decide (x = p) then l else x :: remove_first p l
  end.

(** What the vote goroutine of peer [p] may send back: an error, or a response
    of [p] to this election's request. *)
Definition possible_result (p : string) (req : RequestVoteRequest)
    (resp : option RequestVoteResponse) (s : sys) : bool :=
  match resp with
  | None => true
  | Some r => bool_decide ((p, req, r) ∈ vote_resps s)
  end.

(** The result of the goroutine of peer [p] reaches the collecting loop. *)
Definition do_collect (a p : string) (resp : option RequestVoteResponse) (io : bool) (s : sys)
    : option sys :=
  n ← nodes s !! a;
  match loops s !! a with
  | Some (Collecting term votes pending) =>
      if bool_decide (p ∈ pending) && possible_result p (mk_RequestVote term (id n)) resp s then
        let '(n', out) := collect_vote io (result_of resp) votes n in
        let pending' := remove_first p pending in
        Some match out with
             | SteppedDown => set_loop a Idle (set_node a n' s)
             | Won => record_won (CurrentTerm (ps n'), a) (set_loop a Beating (set_node a n' s))
             | Counting votes' =>
                 set_loop a (match pending' with
                             | [] => Idle
                             | _ => Collecting term votes' pending'
                             end) (set_node a n' s)
             end
      else None
  | _ => None
  end.

(** [sendHeartbeats]: it reads the term when it runs, not when it was decided. *)
Definition do_beat (a : string) (s : sys) : option sys :=
  n ← nodes s !! a;
  match loops s !! a with
  | Some Beating =>
      Some (set_loop a Idle
             (add_append_reqs
               ((λ p, (a, p, mk_AppendEntries (CurrentTerm (ps n)) (id n))) <$> (Addr <$> peers n)) s))
  | _ => None
  end.

Definition do_recv_vote (a : string) (req : RequestVoteRequest) (io0 io1 : bool) (s : sys)
    : option sys :=
  n ← nodes s !! a;
  if decide ((a, req) ∈ vote_reqs s) then
    let '(n', r) := HandleRequestVote (λ i, match i with 0 => io0 | _ => io1 end) req n in
    let s := add_vote_resp (a, req, r) (set_node a n' s) in
    Some (if vr_VoteGranted r then record_ballot (a, rv_Term req, rv_CandidateID req) s else s)
  else None.

Definition do_recv_append (from a : string) (req : AppendEntriesRequest) (now : Time) (io : bool)
    (s : sys) : option sys :=
  n ← nodes s !! a;
  if decide ((from, a, req) ∈ append_reqs s) then
    let '(n', r) := HandleAppendEntries io now req n in
    Some (add_append_resp (from, r) (set_node a n' s))
  else None.

Definition do_recv_reply (a : string) (resp : AppendEntriesResponse) (io : bool) (s : sys)
    : option sys :=
  n ← nodes s !! a;
  if decide ((a, resp) ∈ append_resps s) then Some (set_node a (heartbeat_reply io resp n) s)
  else None.

(** A crash followed by a restart of the process. *)
Definition do_restart (a : string) (s : sys) : option sys :=
  n ← nodes s !! a;
  n' ← NewRaftNode (id n) (peers n) (disk n);
  Some (set_coordinator a false (set_loop a Idle (set_node a n' s))).

(** [for leaderID := range raftNode.LeaderCh()]. *)
Definition do_notify (a : string) (s : sys) : option sys :=
  n ← nodes s !! a;
  match leaderCh n with
  | [] => None
  | leader :: ch =>
      Some (set_coordinator a (bool_decide (leader = id n)) (set_node a (with_leaderCh n ch) s))
  end.

Definition sys_step (c : choice) (s : sys) : option sys :=
  match c with
  | Timer a now => do_timer a now s
  | Tick a => do_tick a s
  | Elect a io => do_elect a io s
  | Collect a p resp io => do_collect a p resp io s
  | Beat a => do_beat a s
  | RecvVote a req io0 io1 => do_recv_vote a req io0 io1 s
  | RecvAppend from a req now io => do_recv_append from a req now io s
  | RecvReply a resp io => do_recv_reply a resp io s
  | Restart a => do_restart a s
  | Notify a => do_notify a s
  end.

Fixpoint sys_run (s : sys) (cs : list choice) : option sys :=
  match cs with
  | [] => Some s
  | c :: cs => s' ← sys_step c s; sys_run s' cs
  end.

(** Every member starts without a state file and has all others as peers. *)
Definition init_node (members : list PeerConfig) (p : PeerConfig) : RaftNode :=
  mk_node (ID p) (filter (λ q, Addr q ≠ Addr p) members) Follower "" (mk_ps 0 "") [] time_zero NotExist.

Definition init (members : list PeerConfig) : sys :=
  mk_sys (list_to_map ((λ p, (Addr p, init_node members p)) <$> members))
    (list_to_map ((λ p, (Addr p, Idle)) <$> members)) [] [] [] []
    (list_to_map ((λ p, (Addr p, false)) <$> members)) [] [].

Ltac open_step H :=
  unfold do_timer, do_tick, do_elect, do_collect, do_beat, do_recv_vote, do_recv_append,
    do_recv_reply, do_restart, do_notify in H.

(** ** Election safety *)

(** A choice under which every write of the state file succeeds. *)
Definition reliable (c : choice) : bool :=
  match c with
  | Elect _ io | Collect _ _ _ io | RecvAppend _ _ _ _ io | RecvReply _ _ io => io
  | RecvVote _ _ io0 io1 => io0 && io1
  | _ => true
  end.

(** No node has reached the largest term an [int64] holds. *)
Definition terms_fit (s : sys) : Prop :=
  ∀ a n, nodes s !! a = Some n → (CurrentTerm (ps n) < int64_max)%Z.

Definition safe_step (s s' : sys) : Prop :=
  terms_fit s ∧ ∃ c, reliable c = true ∧ sys_step c s = Some s'.

(** The members have distinct identifiers and addresses; no identifier is
    empty (an empty [VotedFor] means no vote). *)
Record members_ok (members : list PeerConfig) : Prop := {
  ids_distinct : NoDup (ID <$> members);
  addrs_distinct : NoDup (Addr <$> members);
  ids_nonempty : "" ∉ (ID <$> members)
}.

Section Safety.
Context (members : list PeerConfig) (Hmem : members_ok members).
Implicit Types (s : sys) (a v c : string) (t : Z) (n : RaftNode).

(** [who] are distinct members that voted for [c] in term [t]. *)
Definition voters s t c (who : list string) : Prop :=
  NoDup who ∧ ∀ v, v ∈ who → v ∈ (Addr <$> members) ∧ (v, t, c) ∈ ballots s.

Definition loop_ok s a n (l : loop) : Prop :=
  match l with
  | Collecting t votes pending =>
      (CurrentTerm (ps n) = t ∨ (t < CurrentTerm (ps n))%Z ∧ state n ≠ Candidate) ∧
      NoDup pending ∧ (∀ p, p ∈ pending → p ∈ (Addr <$> peers n)) ∧
      ∃ who, voters s t (id n) who ∧ Z.of_nat (length who) = votes ∧
             (∀ v, v ∈ who → v ∉ pending)
  | _ => True
  end.

Record node_ok s a n : Prop := {
  ok_member : mk_Peer (id n) a ∈ members;
  ok_peers : peers n = filter (λ q, Addr q ≠ a) members;
  ok_disk : disk_synced n;
  ok_term : (0 ≤ CurrentTerm (ps n))%Z;
  ok_leader : state n = Leader → (CurrentTerm (ps n), a) ∈ won s;
  ok_loop l : loops s !! a = Some l → loop_ok s a n l
}.

Record inv s : Prop := {
  inv_node a n : nodes s !! a = Some n → node_ok s a n;
  inv_reqs a req : (a, req) ∈ vote_reqs s → rv_CandidateID req ≠ "";
  inv_resps a req r : (a, req, r) ∈ vote_resps s → vr_VoteGranted r = true →
    (a, rv_Term req, rv_CandidateID req) ∈ ballots s;
  inv_ballot v t c : (v, t, c) ∈ ballots s →
    c ≠ "" ∧ ∃ n, nodes s !! v = Some n ∧ (t ≤ CurrentTerm (ps n))%Z ∧
                  (t = CurrentTerm (ps n) → VotedFor (ps n) = c);
  inv_once v t c c' : (v, t, c) ∈ ballots s → (v, t, c') ∈ ballots s → c = c';
  inv_won t a : (t, a) ∈ won s → ∃ c who, mk_Peer c a ∈ members ∧ voters s t c who ∧
    (length members < 2 * length who)
}.

(** *** Two majorities share a member *)

Lemma majorities_meet (l1 l2 l : list string) :
  NoDup l1 → NoDup l2 → (∀ x, x ∈ l1 → x ∈ l) → (∀ x, x ∈ l2 → x ∈ l) →
  length l < length l1 + length l2 → ∃ x, x ∈ l1 ∧ x ∈ l2.
Proof.
  intros Hn1 Hn2 H1 H2 Hlen.
  destruct (decide (Exists (λ x, x ∈ l2) l1)) as [[x [? ?]]%Exists_exists|Hno]; [eauto|].
  exfalso. assert (NoDup (l1 ++ l2)) as Hnd.
  { apply NoDup_app. split; [done|]. split; [|done]. intros x Hx1 Hx2. apply Hno.
    apply Exists_exists. eauto. }
  assert (length (l1 ++ l2) ≤ length l); [|rewrite length_app in *; lia].
  apply submseteq_length, NoDup_submseteq; [done|]. intros x. rewrite elem_of_app. naive_solver.
Qed.

Lemma one_winner s t a a' : inv s → (t, a) ∈ won s → (t, a') ∈ won s → a = a'.
Proof.
  intros Hinv (c & who & Hc & [Hnd Hwho] & Hlen)%(inv_won s Hinv)
    (c' & who' & Hc' & [Hnd' Hwho'] & Hlen')%(inv_won s Hinv).
  destruct (majorities_meet who who' (Addr <$> members)) as (v & Hv & Hv'); try done.
  { intros v Hv. by apply Hwho. }
  { intros v Hv. by apply Hwho'. }
  { rewrite length_fmap. lia. }
  assert (c = c') as <- by (eapply (inv_once s Hinv v t); naive_solver).
  destruct Hmem as [Hids _ _]. apply list_elem_of_lookup in Hc as [i Hi], Hc' as [j Hj].
  assert (i = j) as <-; [|congruence].
  eapply (NoDup_lookup (ID <$> members)); [done|..]; rewrite list_lookup_fmap.
  - by rewrite Hi.
  - by rewrite Hj.
Qed.

(** *** The invariant under each kind of update *)

Lemma voters_mono s s' t c who :
  (∀ b, b ∈ ballots s → b ∈ ballots s') → voters s t c who → voters s' t c who.
Proof. intros Hb [Hnd Hwho]. split; [done|]. intros v [? ?]%Hwho. auto. Qed.

Lemma loop_ok_mono s s' a n l :
  (∀ b, b ∈ ballots s → b ∈ ballots s') → loop_ok s a n l → loop_ok s' a n l.
Proof.
  intros Hb. destruct l as [| |t votes pending|]; try done. simpl.
  intros (? & ? & ? & who & ? & ?). do 3 (split; [done|]). exists who.
  split; [by eapply voters_mono|done].
Qed.

Lemma node_ok_mono s s' a n :
  (∀ b, b ∈ ballots s → b ∈ ballots s') → (∀ w, w ∈ won s → w ∈ won s') →
  loops s' !! a = loops s !! a → node_ok s a n → node_ok s' a n.
Proof.
  intros Hb Hw Hl [? ? ? ? Hlead Hloop]. split; try done; [by auto|].
  intros l. rewrite Hl. intros ?. eapply loop_ok_mono; [exact Hb|auto].
Qed.

(** Replacing the node at [a]. *)
Lemma inv_set_node s a n n' :
  inv s → nodes s !! a = Some n → node_ok s a n' →
  (CurrentTerm (ps n) ≤ CurrentTerm (ps n'))%Z →
  (CurrentTerm (ps n') = CurrentTerm (ps n) → VotedFor (ps n) ≠ "" →
   VotedFor (ps n') = VotedFor (ps n)) →
  inv (set_node a n' s).
Proof.
  intros [Hn Hreq Hresp Hb Ho Hw] Ha Hok Ht Hv. split; simpl; try done.
  - intros b m. rewrite lookup_insert. destruct (decide (a = b)) as [->|].
    + intros [= <-]. by eapply (node_ok_mono s).
    + intros Hm. by eapply (node_ok_mono s); [..|apply Hn].
  - intros v t c Hc. destruct (Hb v t c Hc) as (Hne & m & Hm & Hle & Heq). split; [done|].
    rewrite lookup_insert. destruct (decide (a = v)) as [->|]; [|eauto].
    assert (m = n) as -> by congruence. exists n'. split; [done|]. split; [lia|].
    intros ->. assert (CurrentTerm (ps n') = CurrentTerm (ps n)) as E by lia.
    rewrite Hv by (rewrite ?Heq; done || lia). by apply Heq.
Qed.

Lemma node_ok_advances s a n n' : node_ok s a n → advances n n' → node_ok s a n'.
Proof.
  intros [Hm Hp Hd Ht Hlead Hloop] [Hid Hpe Hte Hvo Hact Hdi].
  split; [by rewrite Hid|congruence|auto|lia| |].
  - intros Hs. destruct Hact as [Hs' Ht']; [congruence|]. rewrite Ht'. apply Hlead. congruence.
  - intros l Hl. specialize (Hloop l Hl). destruct l as [| |t votes pending|]; try done.
    simpl in *. rewrite Hid, Hpe. destruct Hloop as (Hterm & Hrest). split; [|done].
    destruct (decide (state n' = Candidate)) as [Hc|Hc].
    + destruct Hact as [Hs' Ht']; [congruence|]. left.
      destruct Hterm as [|[_ Hno]]; [congruence|]. congruence.
    + destruct (decide (CurrentTerm (ps n') = t)); [by left|]. right. split; [|done].
      destruct Hterm as [|[? _]]; lia.
Qed.

Lemma inv_advances s a n n' :
  inv s → nodes s !! a = Some n → advances n n' → inv (set_node a n' s).
Proof.
  intros Hinv Ha Hadv. pose proof Hadv as [_ _ Ht Hv _ _].
  apply (inv_set_node s a n n'); try done.
  eapply node_ok_advances; [by apply (inv_node s Hinv)|done].
Qed.

Lemma inv_set_loop s a n l :
  inv s → nodes s !! a = Some n → loop_ok s a n l → inv (set_loop a l s).
Proof.
  intros [Hn Hreq Hresp Hb Ho Hw] Ha Hl. split; simpl; try done.
  intros b m Hm. destruct (decide (a = b)) as [->|Hne].
  - assert (m = n) as -> by congruence. destruct (Hn b n Hm) as [? ? ? ? ? _].
    split; try done. simpl. rewrite lookup_insert_eq. by intros l' [= <-].
  - eapply (node_ok_mono s); [done|done|simpl; by rewrite lookup_insert_ne|by apply Hn].
Qed.

Lemma inv_add_vote_reqs s reqs :
  inv s → (∀ p req, (p, req) ∈ reqs → rv_CandidateID req ≠ "") → inv (add_vote_reqs reqs s).
Proof.
  intros [Hn Hreq Hresp Hb Ho Hw] Hne. split; simpl; try done.
  - intros b m Hm. by eapply (node_ok_mono s); [..|apply Hn].
  - intros p req [?|?]%elem_of_app; eauto.
Qed.

Lemma inv_add_vote_resp s a req r :
  inv s → (vr_VoteGranted r = true → (a, rv_Term req, rv_CandidateID req) ∈ ballots s) →
  inv (add_vote_resp (a, req, r) s).
Proof.
  intros [Hn Hreq Hresp Hb Ho Hw] Hr. split; simpl; try done.
  - intros b m Hm. by eapply (node_ok_mono s); [..|apply Hn].
  - intros b req' r' [[= -> -> ->]|?]%elem_of_cons; [done|]. eauto.
Qed.

Lemma inv_unread s s' :
  nodes s' = nodes s → loops s' = loops s → vote_reqs s' = vote_reqs s →
  vote_resps s' = vote_resps s → won s' = won s → ballots s' = ballots s → inv s → inv s'.
Proof.
  intros E1 E2 E3 E4 E5 E6 [Hn Hreq Hresp Hb Ho Hw].
  split; rewrite ?E1, ?E3, ?E4, ?E5, ?E6; try done.
  - intros b m Hm. eapply (node_ok_mono s); [|by rewrite E5|by rewrite E2|by apply Hn].
    by rewrite E6.
  - intros t b Hwon. destruct (Hw t b Hwon) as (c & who & ? & ? & ?). exists c, who.
    split; [done|]. split; [|done]. eapply voters_mono; [|done]. by rewrite E6.
Qed.

Lemma inv_record_ballot s v t c n :
  inv s → c ≠ "" → nodes s !! v = Some n → CurrentTerm (ps n) = t → VotedFor (ps n) = c →
  (∀ c', (v, t, c') ∈ ballots s → c' = c) → inv (record_ballot (v, t, c) s).
Proof.
  intros [Hn Hreq Hresp Hb Ho Hw] Hc Hv Ht Hvote Huniq. split; simpl; try done.
  - intros b m Hm. eapply (node_ok_mono s); [|done|done|by apply Hn]. simpl. set_solver.
  - intros p req r Hin Hg. right. by eapply Hresp.
  - intros v' t' c' [[= -> -> ->]|Hin]%elem_of_cons; [|by apply Hb].
    split; [done|]. exists n. split; [done|]. split; [lia|]. done.
  - intros v' t' c1 c2 [E1|H1]%elem_of_cons [E2|H2]%elem_of_cons; simplify_eq; try done.
    + by rewrite (Huniq c2).
    + by apply Huniq.
    + by eapply Ho.
  - intros t' a Hwon. destruct (Hw t' a Hwon) as (c' & who & ? & ? & ?). exists c', who.
    split; [done|]. split; [|done]. eapply voters_mono; [|done]. simpl. set_solver.
Qed.

Lemma inv_record_won s t a c who :
  inv s → mk_Peer c a ∈ members → voters s t c who → length members < 2 * length who →
  inv (record_won (t, a) s).
Proof.
  intros [Hn Hreq Hresp Hb Ho Hw] Hc Hwho Hlen. split; simpl; try done.
  - intros b m Hm. eapply (node_ok_mono s); [done| |done|by apply Hn]. simpl. set_solver.
  - intros t' a' [[= -> ->]|Hin]%elem_of_cons; [|by apply Hw]. eauto.
Qed.

(** *** The invariant under each step *)

Lemma NoDup_fmap_filter {A} (f : A → string) (P : A → Prop) `{!∀ x, Decision (P x)} (l : list A) :
  NoDup (f <$> l) → NoDup (f <$> filter P l).
Proof.
  induction l as [|x l IH]; [done|]. rewrite fmap_cons, NoDup_cons, filter_cons.
  intros [Hx Hl]. destruct (decide (P x)); [|auto]. rewrite fmap_cons. apply NoDup_cons.
  split; [|auto]. intros (y & Hy & [_ Hin]%list_elem_of_filter)%list_elem_of_fmap_1.
  apply Hx. rewrite Hy. by apply list_elem_of_fmap_2.
Qed.

(** Dropping one member by address. *)
Lemma length_others (l : list PeerConfig) q :
  NoDup (Addr <$> l) → q ∈ l → length l = S (length (filter (λ p, Addr p ≠ Addr q) l)).
Proof.
  induction l as [|x l IH]; [set_solver|]. rewrite fmap_cons, NoDup_cons, filter_cons.
  intros [Hx Hl] [->|Hq]%elem_of_cons.
  - rewrite decide_False by tauto. rewrite filter_all; [done|].
    intros y Hy Heq. apply Hx. rewrite <-Heq. by apply list_elem_of_fmap_2.
  - rewrite decide_True; [simpl; by rewrite <-IH|].
    intros Heq. apply Hx. rewrite Heq. by apply list_elem_of_fmap_2.
Qed.

Lemma peers_spec s a n :
  node_ok s a n →
  NoDup (Addr <$> peers n) ∧ length members = S (length (peers n)) ∧ id n ≠ "" ∧
  a ∈ (Addr <$> members) ∧
  ∀ p, p ∈ (Addr <$> peers n) → p ≠ a ∧ p ∈ (Addr <$> members).
Proof.
  intros [Hm Hp _ _ _ _]. destruct Hmem as [_ Haddr Hne]. rewrite Hp. repeat split.
  - by apply NoDup_fmap_filter.
  - by rewrite (length_others members _ Haddr Hm).
  - intros E. apply Hne. rewrite <-E. by apply (list_elem_of_fmap_2 ID _ _ Hm).
  - by apply (list_elem_of_fmap_2 Addr _ _ Hm).
  - apply list_elem_of_fmap_1 in H as (q & -> & [? _]%list_elem_of_filter). done.
  - apply list_elem_of_fmap_1 in H as (q & -> & [_ ?]%list_elem_of_filter).
    by apply list_elem_of_fmap_2.
Qed.

Lemma majority_quorum (k votes : nat) :
  (majority k ≤ Z.of_nat votes)%Z → S k < 2 * votes.
Proof.
  unfold majority. intros H. pose proof (Z.div_mod (Z.of_nat k + 1) 2 ltac:(lia)).
  pose proof (Z.mod_pos_bound (Z.of_nat k + 1) 2 ltac:(lia)). lia.
Qed.

Lemma inv_elect s a n s' :
  inv s → nodes s !! a = Some n → (CurrentTerm (ps n) < int64_max)%Z →
  do_elect a true s = Some s' → inv s'.
Proof.
  intros Hinv Ha Hfit. unfold do_elect. rewrite Ha. bind.
  destruct (loops s !! a) as [[| | |]|] eqn:El; try done. intros [= <-].
  pose proof (inv_node s Hinv a n Ha) as Hok. pose proof Hok as [Hm Hp _ H0 _ _].
  destruct (peers_spec s a n Hok) as (Hnd & _ & Hid & Hin & Hpeers).
  set (n' := becomeCandidate true n).
  assert (CurrentTerm (ps n') = CurrentTerm (ps n) + 1)%Z as Ht.
  { unfold n', becomeCandidate. simpl. apply wrap64_id. unfold int64_min, int64_max in *. lia. }
  change (id n') with (id n). change (peers n') with (peers n).
  assert (inv (record_ballot (a, CurrentTerm (ps n'), id n) (set_node a n' s))) as Hinv1.
  { apply (inv_record_ballot _ a _ _ n'); try done.
    - apply (inv_set_node s a n n'); try done; [|lia|lia].
      split; try done; [simpl in *; lia|]. intros l. rewrite El. by intros [= <-].
    - simpl. by rewrite lookup_insert_eq.
    - intros c' Hb. destruct (inv_ballot s Hinv _ _ _ Hb) as (_ & m & Hma & Hle & _).
      assert (m = n) as -> by congruence. lia. }
  apply (inv_add_vote_reqs (set_loop a _ (record_ballot _ (set_node a n' s)))).
  2:{ intros p req (q & [= -> ->] & _)%list_elem_of_fmap_1. done. }
  apply (inv_set_loop _ a n' _ Hinv1); [simpl; by rewrite lookup_insert_eq|].
  destruct (Addr <$> peers n) as [|p0 l0] eqn:Ep; [done|]. rewrite <-Ep in *.
  split; [by left|]. split; [done|]. split; [done|].
  exists [a]. split; [|split; [done|]].
  - split; [apply NoDup_singleton|]. intros v ->%list_elem_of_singleton. split; [done|].
    simpl. by left.
  - intros v ->%list_elem_of_singleton Hpe. by destruct (Hpeers a Hpe).
Qed.

Lemma remove_first_spec p l :
  NoDup l → NoDup (remove_first p l) ∧ ∀ x, x ∈ remove_first p l ↔ x ∈ l ∧ x ≠ p.
Proof.
  induction 1 as [|y l Hy Hl IH]; simpl; [set_solver by constructor|].
  destruct IH as [IHn IHe]. destruct (decide (y = p)) as [->|Hne].
  - split; [done|]. intros x. rewrite elem_of_cons. naive_solver.
  - split; [apply NoDup_cons; split; [rewrite IHe; tauto|done]|].
    intros x. rewrite !elem_of_cons, IHe. naive_solver.
Qed.

(** A granted result adds its peer to the voters. *)
Lemma tally_add s a n t p pending who votes :
  inv s → loop_ok s a n (Collecting t votes pending) → p ∈ pending → node_ok s a n →
  voters s t (id n) who → (∀ v, v ∈ who → v ∉ pending) → (p, t, id n) ∈ ballots s →
  voters s t (id n) (p :: who).
Proof.
  intros Hinv (_ & _ & Hpe & _) Hp Hok [Hnd Hwho] Hdis Hb.
  destruct (peers_spec s a n Hok) as (_ & _ & _ & _ & Hpeers).
  split; [apply NoDup_cons; split; [|done]; intros Hin; by apply (Hdis p)|].
  intros v [->|Hv]%elem_of_cons; [|by apply Hwho]. split; [|done].
  by apply Hpeers, Hpe.
Qed.

(** The loop goes on collecting, with [p]'s result counted or not. *)
Lemma collecting_ok s a n t votes pending p who :
  loop_ok s a n (Collecting t votes pending) → voters s t (id n) who →
  (∀ v, v ∈ who → v = p ∨ v ∉ pending) →
  loop_ok s a n (match remove_first p pending with
                 | [] => Idle
                 | _ => Collecting t (Z.of_nat (length who)) (remove_first p pending)
                 end).
Proof.
  intros (Ht & Hnd & Hpe & _) Hwho Hdis.
  destruct (remove_first_spec p pending Hnd) as [Hnd' Hin].
  assert (loop_ok s a n (Collecting t (Z.of_nat (length who)) (remove_first p pending))) as Hgo.
  { split; [done|]. split; [done|]. split; [intros q ?%Hin; apply Hpe; tauto|].
    exists who. split; [done|]. split; [done|]. intros v Hv [? ?]%Hin. naive_solver. }
  by destruct (remove_first p pending).
Qed.

Lemma inv_win s a n t who :
  inv s → nodes s !! a = Some n → CurrentTerm (ps n) = t → voters s t (id n) who →
  length members < 2 * length who →
  inv (record_won (t, a) (set_loop a Beating (set_node a (becomeLeader n) s))).
Proof.
  intros Hinv Ha Ht Hwho Hlen. pose proof (inv_node s Hinv a n Ha) as Hok.
  pose proof Hok as [Hm Hp Hd H0 Hlead Hloop].
  destruct (becomeLeader_same n) as (Eid & Epe & Eps & Edi & Est).
  assert (inv (record_won (t, a) (set_loop a Idle s))) as Hw.
  { eapply inv_record_won; [|exact Hm| |exact Hlen].
    - by apply (inv_set_loop s a n).
    - eapply voters_mono; [|done]. done. }
  assert (inv (set_node a (becomeLeader n) (record_won (t, a) (set_loop a Idle s)))) as Hn.
  { apply (inv_set_node _ a n); try done; rewrite ?Eps; try done.
    split; rewrite ?Eid, ?Epe, ?Eps; try done.
    - unfold disk_synced. by rewrite Edi, Eps.
    - intros _. simpl. rewrite Ht. by left.
    - simpl. rewrite lookup_insert_eq. by intros l [= <-]. }
  pose proof (inv_set_loop _ a (becomeLeader n) Beating Hn) as Hfin.
  simpl in Hfin. rewrite lookup_insert_eq in Hfin. specialize (Hfin eq_refl I).
  unfold set_loop, set_node, record_won in *. simpl in *. by rewrite insert_insert_eq in Hfin.
Qed.

Lemma inv_collect s a p resp n s' :
  inv s → nodes s !! a = Some n → do_collect a p resp true s = Some s' → inv s'.
Proof.
  intros Hinv Ha. unfold do_collect. rewrite Ha. bind.
  destruct (loops s !! a) as [[| |t votes pending|]|] eqn:El; try done.
  destruct (bool_decide (p ∈ pending)) eqn:Hp; [|done]. apply bool_decide_eq_true in Hp.
  destruct (possible_result p (mk_RequestVote t (id n)) resp s) eqn:Hres; [|done]. simpl.
  pose proof (inv_node s Hinv a n Ha) as Hok. pose proof (ok_loop s a n Hok _ El) as Hl.
  pose proof Hl as (Hterm & _ & _ & who & Hwho & Hlen & Hdis).
  unfold collect_vote.
  destruct (CurrentTerm (ps n) <? res_term (result_of resp))%Z.
  { intros [= <-]. eapply inv_set_loop; [|simpl; by rewrite lookup_insert_eq|done].
    eapply inv_advances; [done|done|apply becomeFollower_advances]. }
  assert (∀ l, loop_ok s a n l → inv (set_loop a l (set_node a n s))) as Hgo.
  { intros l Hl'. eapply inv_set_loop; [|simpl; by rewrite lookup_insert_eq|].
    - eapply inv_advances; [done|done|apply advances_refl].
    - eapply loop_ok_mono; [|exact Hl']. done. }
  destruct (granted (result_of resp)) eqn:Hg.
  2:{ intros [= <-]. apply Hgo. rewrite <-Hlen. eapply collecting_ok; eauto. }
  assert ((p, t, id n) ∈ ballots s) as Hb.
  { destruct resp as [r|]; [|done]. apply bool_decide_eq_true in Hres.
    by apply (inv_resps s Hinv _ _ _ Hres). }
  pose proof (tally_add s a n t p pending who votes Hinv Hl Hp Hok Hwho Hdis Hb) as Hwho'.
  assert (votes + 1 = Z.of_nat (length (p :: who)))%Z as Hv by (simpl; lia).
  assert (∀ v, v ∈ p :: who → v = p ∨ v ∉ pending) as Hdis'.
  { intros v [->|?]%elem_of_cons; [by left|]. right. by apply Hdis. }
  pose proof (collecting_ok s a n t votes pending p (p :: who) Hl Hwho' Hdis') as Hcont.
  rewrite <-Hv in Hcont. rewrite Hv at 1.
  destruct (_ <=? _)%Z eqn:Hmaj; [|by intros [= <-]; apply Hgo].
  destruct (bool_decide (state n = Candidate)) eqn:Hc; [|by intros [= <-]; apply Hgo].
  apply bool_decide_eq_true in Hc. apply Z.leb_le, majority_quorum in Hmaj.
  destruct (peers_spec s a n Hok) as (_ & Hlenm & _).
  intros [= <-]. destruct (becomeLeader_same n) as (_ & _ & -> & _).
  assert (CurrentTerm (ps n) = t) as Ht by (destruct Hterm as [|[_ ?]]; done).
  rewrite Ht. apply (inv_win s a n t (p :: who)); try done. lia.
Qed.

Lemma inv_recv_vote s a req n s' :
  inv s → nodes s !! a = Some n → do_recv_vote a req true true s = Some s' → inv s'.
Proof.
  intros Hinv Ha. unfold do_recv_vote. rewrite Ha. bind.
  destruct (decide ((a, req) ∈ vote_reqs s)) as [Hreq|]; [|done].
  pose proof (HandleRequestVote_advances (λ i, match i with 0 => true | _ => true end) req n
    eq_refl eq_refl) as Hh.
  destruct (HandleRequestVote _ req n) as [n' r]. destruct Hh as [Hadv Hgrant].
  pose proof (inv_advances s a n n' Hinv Ha Hadv) as Hinv1.
  intros [= <-]. destruct (vr_VoteGranted r) eqn:Hg.
  2:{ apply inv_add_vote_resp; [done|]. by rewrite Hg. }
  destruct (Hgrant eq_refl) as [Ht Hv].
  apply (inv_add_vote_resp (record_ballot _ (set_node a n' s))); [|simpl; by left].
  apply (inv_record_ballot _ a _ _ n'); try done.
  - by eapply (inv_reqs s Hinv).
  - simpl. by rewrite lookup_insert_eq.
  - intros c' Hb. destruct (inv_ballot _ Hinv1 a _ c' Hb) as (_ & m & Hma & _ & Heq).
    simpl in Hma. rewrite lookup_insert_eq in Hma. injection Hma as <-.
    rewrite <-Heq by done. done.
Qed.

Lemma inv_step s s' : inv s → safe_step s s' → inv s'.
Proof.
  intros Hinv (Hfit & c & Hrel & Hstep).
  destruct c as [a now|a|a io|a p resp io|a|a req io0 io1|from a req now io|a resp io|a|a];
    simpl in *; subst;
    (destruct (nodes s !! a) as [n|] eqn:Ha;
      [|unfold do_timer, do_tick, do_elect, do_collect, do_beat, do_recv_vote, do_recv_append,
          do_recv_reply, do_restart, do_notify in Hstep; by rewrite Ha in Hstep]).
  - unfold do_timer in Hstep. rewrite Ha in Hstep. simpl in Hstep.
    destruct (loops s !! a) as [[| | |]|]; try done. injection Hstep as <-.
    apply (inv_set_loop s a n); [done..|]. by destruct (election_due now n).
  - unfold do_tick in Hstep. rewrite Ha in Hstep. simpl in Hstep.
    destruct (loops s !! a) as [[| | |]|]; try done. injection Hstep as <-.
    apply (inv_set_loop s a n); [done..|]. by destruct (decide _).
  - by apply (inv_elect s a n); eauto.
  - by apply (inv_collect s a p resp n).
  - unfold do_beat in Hstep. rewrite Ha in Hstep. simpl in Hstep.
    destruct (loops s !! a) as [[| | |]|]; try done. injection Hstep as <-.
    eapply (inv_unread (set_loop a Idle s)); try done. by apply (inv_set_loop s a n).
  - apply andb_prop in Hrel as [-> ->]. by apply (inv_recv_vote s a req n).
  - unfold do_recv_append in Hstep. rewrite Ha in Hstep. simpl in Hstep.
    destruct (decide _); [|done]. pose proof (HandleAppendEntries_advances now req n) as Hadv.
    destruct (HandleAppendEntries true now req n) as [n' r]. injection Hstep as <-.
    eapply (inv_unread (set_node a n' s)); try done. by eapply inv_advances.
  - unfold do_recv_reply in Hstep. rewrite Ha in Hstep. simpl in Hstep.
    destruct (decide _); [|done]. injection Hstep as <-.
    eapply inv_advances; [done|done|apply heartbeat_reply_advances].
  - unfold do_restart in Hstep. rewrite Ha in Hstep. simpl in Hstep.
    destruct (NewRaftNode _ _ _) as [n'|] eqn:En; [|done]. injection Hstep as <-.
    pose proof (inv_node s Hinv a n Ha) as [_ _ Hd _ _ _].
    eapply (inv_unread (set_loop a Idle (set_node a n' s))); try done.
    eapply inv_set_loop; [|simpl; by rewrite lookup_insert_eq|done].
    eapply inv_advances; [done|done|]. by apply NewRaftNode_advances.
  - unfold do_notify in Hstep. rewrite Ha in Hstep. simpl in Hstep.
    destruct (leaderCh n) as [|l ch]; [done|]. injection Hstep as <-.
    eapply (inv_unread (set_node a (with_leaderCh n ch) s)); try done.
    eapply inv_advances; [done|done|]. by split.
Qed.

Lemma inv_init : inv (init members).
Proof.
  split; simpl; try (intros; by match goal with H : _ ∈ [] |- _ => apply elem_of_nil in H end).
  intros a n Hn. apply elem_of_list_to_map_2, list_elem_of_fmap_1 in Hn as (q & [= -> ->] & Hq).
  split; try done; [by destruct q|].
  intros l Hl. apply elem_of_list_to_map_2, list_elem_of_fmap_1 in Hl as (q' & [= _ ->] & _). done.
Qed.

Lemma inv_reachable s : rtc safe_step (init members) s → inv s.
Proof.
  intros Hr. pose proof inv_init as H0. induction Hr as [|s1 s2 s3 Hs _ IH]; [done|].
  apply IH. by eapply inv_step.
Qed.
End Safety.

(** C1: election safety. In a cluster of distinct members whose state files are
    written successfully and whose terms stay below the largest [int64],
    whatever the timers, the delays, losses and repetitions of messages, the
    crashes and the restarts, no two nodes ever win an election in the same
    term; in particular no two nodes are leaders of the same term at once. *)
Theorem election_safety (members : list PeerConfig) (s : sys)
    (Hmem : members_ok members) (Hreach : rtc safe_step (init members) s) :
  (∀ t a a', (t, a) ∈ won s → (t, a') ∈ won s → a = a') ∧
  (∀ a a' n n', nodes s !! a = Some n → nodes s !! a' = Some n' →
     state n = Leader → state n' = Leader →
     CurrentTerm (ps n) = CurrentTerm (ps n') → a = a').
Proof.
  pose proof (inv_reachable members Hmem s Hreach) as Hinv. split.
  - intros t a a'. by apply (one_winner members Hmem s).
  - intros a a' n n' Ha Ha' Hl Hl' Ht. apply (one_winner members Hmem s (CurrentTerm (ps n))); [done|..].
    + by apply (ok_leader members s a n); [apply Hinv|].
    + rewrite Ht. by apply (ok_leader members s a' n'); [apply Hinv|].
Qed.

(** C9: one vote per term. In a cluster of distinct members, over executions in
    which every write of a state file succeeds and no term has reached the largest
    [int64], no node ever votes for two candidates in one term, its own candidacy
    and votes cast before a crash included. Without the first condition it can:
    see [failed_save_elects_two_leaders]. *)
Theorem one_vote_per_term (members : list PeerConfig) (s : sys)
    (Hmem : members_ok members) (Hreach : rtc safe_step (init members) s) v t c c'
    (Hc : (v, t, c) ∈ ballots s) (Hc' : (v, t, c') ∈ ballots s) :
  c = c'.
Proof. by eapply (inv_once members s (inv_reachable members Hmem s Hreach)). Qed.

(** C27: nodes stay well formed. Under the conditions of election safety
    (distinct members, every write succeeds, terms below the largest [int64])
    every node keeps its identity and has all other members as its peers, its
    term is not negative, and a crash at any moment is harmless to it: the
    restarted process comes up as a follower with exactly the term and vote the
    node had. A leader was voted for in its term by more than half of the
    members. *)
Theorem nodes_well_formed (members : list PeerConfig) (s : sys)
    (Hmem : members_ok members) (Hreach : rtc safe_step (init members) s) a n
    (Ha : nodes s !! a = Some n) :
  mk_Peer (id n) a ∈ members ∧ peers n = filter (λ q, Addr q ≠ a) members ∧
  (0 ≤ CurrentTerm (ps n))%Z ∧
  (∃ s' n', sys_step (Restart a) s = Some s' ∧ nodes s' !! a = Some n' ∧
            ps n' = ps n ∧ id n' = id n ∧ peers n' = peers n ∧ state n' = Follower) ∧
  (state n = Leader → ∃ c who, mk_Peer c a ∈ members ∧ NoDup who ∧ length members < 2 * length who ∧
     ∀ v, v ∈ who → v ∈ (Addr <$> members) ∧ (v, CurrentTerm (ps n), c) ∈ ballots s).
Proof.
  pose proof (inv_reachable members Hmem s Hreach) as Hinv.
  destruct (inv_node members s Hinv a n Ha) as [Hm Hp Hd Ht Hl _]. split_and!; try done.
  - cbn [sys_step]. unfold do_restart, NewRaftNode, loadState. rewrite Ha. bind. cbn [disk].
    unfold disk_synced in Hd.
    destruct (disk n) as [p| | |]; try done; bind; eexists _, _; (split; [reflexivity|]);
      cbn [nodes set_coordinator set_loop set_node]; rewrite lookup_insert_eq;
      (split; [reflexivity|]); by rewrite ?Hd.
  - intros (c & who & Hc & [Hnd Hv] & Hlen)%Hl%(inv_won members s Hinv). by exists c, who.
Qed.

(** ** Executions *)

(** Runs a schedule as long as every step is safe. *)
Fixpoint safe_run (s : sys) (cs : list choice) : option sys :=
  match cs with
  | [] => Some s
  | c :: cs =>
      if reliable c && bool_decide (map_Forall (λ _ n, (CurrentTerm (ps n) < int64_max)%Z) (nodes s))
      then s' ← sys_step c s; safe_run s' cs
      else None
  end.

Lemma safe_run_steps s cs s' : safe_run s cs = Some s' → rtc safe_step s s'.
Proof.
  revert s. induction cs as [|c cs IH]; intros s; simpl; [intros [= <-]; apply rtc_refl|].
  destruct (reliable c) eqn:Hr; [|done]. simpl.
  destruct (bool_decide _) eqn:Hf; [|done]. apply bool_decide_eq_true in Hf.
  destruct (sys_step c s) as [s1|] eqn:Hs; [|done]. simpl. intros Hrun.
  eapply rtc_l; [|by apply IH]. split; [|by exists c]. intros a n Ha. by apply (Hf a n).
Qed.

(** The three members of the deployment. *)
Definition members3 : list PeerConfig :=
  [mk_Peer "node1" "node1:9001"; mk_Peer "node2" "node2:9002"; mk_Peer "node3" "node3:9003"].

Lemma members3_ok : members_ok members3.
Proof.
  split.
  - apply (bool_decide_eq_true_1 (NoDup _)). reflexivity.
  - apply (bool_decide_eq_true_1 (NoDup _)). reflexivity.
  - intros H. repeat (apply elem_of_cons in H as [H|H]; [discriminate H|]).
    by apply elem_of_nil in H.
Qed.

(** The candidate at [a], with identifier [c], wins term [t] with the vote of
    the member at [p]; [io] says whether [p]'s state file is written. *)
Definition win (a c : string) (t : Z) (p : string) (io : bool) : list choice :=
  [Timer a Second; Elect a true; RecvVote p (mk_RequestVote t c) io io;
   Collect a p (Some (mk_VoteResponse t true)) true].

(** [node1] wins term 1 and sends its heartbeats, [node3] takes note. *)
Definition first_election : list choice :=
  win "node1:9001" "node1" 1 "node3:9003" true ++
  [Beat "node1:9001"; Notify "node1:9001";
   RecvAppend "node1:9001" "node3:9003" (mk_AppendEntries 1 "node1") Second true].

Lemma election_safety_witness :
  ∃ s, safe_run (init members3) first_election = Some s ∧
       won s = [(1%Z, "node1:9001")] ∧
       (∀ t a a', (t, a) ∈ won s → (t, a') ∈ won s → a = a').
Proof.
  destruct (safe_run (init members3) first_election) as [s|] eqn:Hs.
  - exists s. split; [reflexivity|]. split.
    + vm_compute in Hs. injection Hs as <-. reflexivity.
    + apply (election_safety members3 s members3_ok (safe_run_steps _ _ _ Hs)).
  - vm_compute in Hs. discriminate Hs.
Defined.

Lemma nodes_well_formed_witness :
  ∃ s n, safe_run (init members3) first_election = Some s ∧ nodes s !! "node1:9001" = Some n ∧
       state n = Leader ∧
       ∃ s' n', sys_step (Restart "node1:9001") s = Some s' ∧ nodes s' !! "node1:9001" = Some n' ∧
                ps n' = ps n.
Proof.
  assert ((s ← safe_run (init members3) first_election; n ← nodes s !! "node1:9001"; Some (state n)) = Some Leader)
    as Hf by (vm_compute; reflexivity).
  destruct (safe_run (init members3) first_election) as [s|] eqn:Hs; [|discriminate Hf].
  cbn [mbind option_bind] in Hf.
  destruct (nodes s !! "node1:9001") as [n|] eqn:Hn; [|discriminate Hf]. injection Hf as Hl.
  exists s, n. split_and!; [done..|].
  destruct (nodes_well_formed members3 s members3_ok (safe_run_steps _ _ _ Hs) _ n Hn)
    as (_ & _ & _ & (s' & n' & H1 & H2 & H3 & _) & _).
  exists s', n'. exact (conj H1 (conj H2 H3)).
Defined.

Lemma one_vote_per_term_witness :
  ∃ s, safe_run (init members3) first_election = Some s ∧
       ∀ c, ("node3:9003", 1%Z, c) ∈ ballots s → c = "node1".
Proof.
  destruct (safe_run (init members3) first_election) as [s|] eqn:Hs.
  - exists s. split; [reflexivity|]. intros c Hc.
    apply (one_vote_per_term members3 s members3_ok (safe_run_steps _ _ _ Hs) "node3:9003" 1).
    + exact Hc.
    + vm_compute in Hs. injection Hs as <-. apply elem_of_cons. left. reflexivity.
  - vm_compute in Hs. discriminate Hs.
Defined.

(** A failed save breaks election safety. [saveState]'s error is discarded,
    so a node that votes while its disk fails and then restarts votes again: two
    nodes end up leaders of the same term. *)
Theorem failed_save_elects_two_leaders :
  ∃ s n1 n2,
    sys_run (init members3)
      (win "node1:9001" "node1" 1 "node3:9003" false ++
       [Restart "node3:9003"] ++
       win "node2:9002" "node2" 1 "node3:9003" true) = Some s ∧
    nodes s !! "node1:9001" = Some n1 ∧ nodes s !! "node2:9002" = Some n2 ∧
    state n1 = Leader ∧ state n2 = Leader ∧
    CurrentTerm (ps n1) = 1%Z ∧ CurrentTerm (ps n2) = 1%Z.
Proof. eexists _, _, _. split; [vm_compute; reflexivity|]. vm_compute. eauto 10. Qed.

(** [node2] fails once, then stands in term 2 and gets the vote of [node1],
    which is between deciding to send heartbeats and sending them. *)
Definition stale_leader : list choice :=
  win "node1:9001" "node1" 1 "node3:9003" true ++
  [Timer "node2:9002" Second; Elect "node2:9002" true;
   Collect "node2:9002" "node1:9001" None true; Collect "node2:9002" "node3:9003" None true;
   Timer "node2:9002" Second; Elect "node2:9002" true;
   RecvVote "node1:9001" (mk_RequestVote 2 "node2") true true;
   Beat "node1:9001";
   RecvAppend "node1:9001" "node2:9002" (mk_AppendEntries 2 "node1") Second true].

(** [sendHeartbeats] reads the term after the check that the node is the
    leader, so a leader deposed in between sends heartbeats for a term it did
    not win: the candidate of that term, with a majority of votes cast for it,
    steps down and takes the deposed node for its leader. All saves succeed. *)
Theorem deposed_leader_heartbeats_new_term :
  ∃ s n1 n2,
    safe_run (init members3) stale_leader = Some s ∧
    won s = [(1%Z, "node1:9001")] ∧
    nodes s !! "node1:9001" = Some n1 ∧ state n1 = Follower ∧ ps n1 = mk_ps 2 "node2" ∧
    nodes s !! "node2:9002" = Some n2 ∧ state n2 = Follower ∧ ps n2 = mk_ps 2 "node2" ∧
    leaderID n2 = "node1".
Proof. eexists _, _, _. split; [vm_compute; reflexivity|]. vm_compute. eauto 20. Qed.

(** [node2] wins term 2 with the vote of [node1], after [node1]'s term 1. *)
Definition second_election : list choice :=
  first_election ++
  [Timer "node2:9002" Second; Elect "node2:9002" true;
   Collect "node2:9002" "node1:9001" None true; Collect "node2:9002" "node3:9003" None true] ++
  win "node2:9002" "node2" 2 "node1:9001" true ++ [Notify "node2:9002"].

(** The coordinator is never told that leadership is lost. The leader
    channel only ever carries the node's own identifier, so after a second
    election two nodes consider themselves coordinators, one of them a
    follower. All saves succeed. *)
Theorem two_coordinators_after_reelection :
  ∃ s n1, safe_run (init members3) second_election = Some s ∧
    coordinator s !! "node1:9001" = Some true ∧ coordinator s !! "node2:9002" = Some true ∧
    nodes s !! "node1:9001" = Some n1 ∧ state n1 = Follower ∧ CurrentTerm (ps n1) = 2%Z.
Proof. eexists _, _. split; [vm_compute; reflexivity|]. vm_compute. eauto 10. Qed.

(** ** A cluster of one *)

(** The nodes have no peers, lead nothing and collect nothing. *)
Record lone (s : sys) : Prop := {
  lone_node a n : nodes s !! a = Some n → peers n = [] ∧ state n ≠ Leader;
  lone_loop a t votes pending : loops s !! a ≠ Some (Collecting t votes pending)
}.

Lemma lone_set_node s a n n' :
  lone s → nodes s !! a = Some n → peers n' = peers n → (state n' = Leader → state n = Leader) →
  lone (set_node a n' s).
Proof.
  intros [Hn Hl] Ha Hp Hs. split; [|done]. intros b m. simpl. rewrite lookup_insert.
  destruct (decide (a = b)) as [->|]; [|by apply Hn]. intros [= <-].
  destruct (Hn b n Ha) as [? ?]. split; [congruence|auto].
Qed.

Lemma lone_set_loop s a l :
  lone s → (∀ t votes pending, l ≠ Collecting t votes pending) → lone (set_loop a l s).
Proof.
  intros [Hn Hl] Hnc. split; [done|]. intros b t votes pending. simpl. rewrite lookup_insert.
  destruct (decide (a = b)); [|by apply Hl]. intros [= ->]. by eapply Hnc.
Qed.

Lemma lone_unread s s' : nodes s' = nodes s → loops s' = loops s → lone s → lone s'.
Proof. intros E1 E2 [Hn Hl]. split; rewrite ?E1, ?E2; done. Qed.

Lemma becomeFollower_peers io t n :
  peers (becomeFollower io t n) = peers n ∧ state (becomeFollower io t n) = Follower.
Proof. unfold becomeFollower, saveState. simpl. by destruct (_ <? _)%Z, io. Qed.

Lemma HandleRequestVote_lone io req n :
  peers (HandleRequestVote io req n).1 = peers n ∧
  (state (HandleRequestVote io req n).1 = Leader → state n = Leader).
Proof.
  unfold HandleRequestVote. destruct (_ <? _)%Z; [done|].
  set (m := if (_ <? _)%Z then _ else n).
  assert (peers m = peers n ∧ (state m = Leader → state n = Leader)) as [Hp Hs].
  { unfold m. destruct (_ <? _)%Z; [|done].
    destruct (becomeFollower_peers (io 0) (rv_Term req) n) as [-> ->]. done. }
  clearbody m. destruct (_ && _); [done|]. unfold saveState. by destruct (io 1).
Qed.

Lemma HandleAppendEntries_lone io now req n :
  peers (HandleAppendEntries io now req n).1 = peers n ∧
  (state (HandleAppendEntries io now req n).1 = Leader → state n = Leader).
Proof.
  unfold HandleAppendEntries. destruct (_ <? _)%Z; [done|].
  set (m := if (_ <? _)%Z then _ else n).
  assert (peers m = peers n ∧ (state m = Leader → state n = Leader)) as [Hp Hs].
  { unfold m. destruct (_ <? _)%Z; [|done].
    destruct (becomeFollower_peers io (ae_Term req) n) as [-> ->]. done. }
  clearbody m. by destruct (decide (state m = Candidate)).
Qed.

Lemma lone_step c s s' : lone s → sys_step c s = Some s' → lone s'.
Proof.
  intros Hlone Hstep.
  destruct c as [a now|a|a io|a p resp io|a|a req io0 io1|from a req now io|a resp io|a|a];
    simpl in Hstep; open_step Hstep;
    (destruct (nodes s !! a) as [n|] eqn:Ha; [|done]); cbn [mbind option_bind] in Hstep;
    destruct (lone_node s Hlone a n Ha) as [Hpeers Hlead].
  - destruct (loops s !! a) as [[| | |]|]; try done. injection Hstep as <-.
    apply lone_set_loop; [done|]. by destruct (election_due now n).
  - destruct (loops s !! a) as [[| | |]|]; try done. injection Hstep as <-.
    apply lone_set_loop; [done|]. by destruct (decide _).
  - destruct (loops s !! a) as [[| | |]|]; try done. injection Hstep as <-.
    assert (peers (becomeCandidate io n) = [] ∧ state (becomeCandidate io n) = Candidate) as [E1 E2]
      by (unfold becomeCandidate, saveState; by destruct io).
    rewrite E1. apply (lone_unread (set_loop a Idle (set_node a (becomeCandidate io n) s))); [done..|].
    apply lone_set_loop; [|done].
    apply (lone_set_node s a n); [done|done|congruence|congruence].
  - destruct (loops s !! a) as [[| |t votes pending|]|] eqn:El; try done.
    by destruct (lone_loop s Hlone a t votes pending).
  - destruct (loops s !! a) as [[| | |]|]; try done. injection Hstep as <-.
    eapply (lone_unread (set_loop a Idle s)); [done|done|]. by apply lone_set_loop.
  - destruct (decide _); [|done].
    pose proof (HandleRequestVote_lone (λ i, match i with 0 => io0 | _ => io1 end) req n) as [Hp Hs].
    destruct (HandleRequestVote _ req n) as [n' r]. injection Hstep as <-.
    apply (lone_unread (set_node a n' s)); [by destruct (vr_VoteGranted r)..|].
    by apply (lone_set_node s a n).
  - destruct (decide _); [|done]. pose proof (HandleAppendEntries_lone io now req n) as [Hp Hs].
    destruct (HandleAppendEntries io now req n) as [n' r]. injection Hstep as <-.
    apply (lone_unread (set_node a n' s)); [done..|]. by apply (lone_set_node s a n).
  - destruct (decide _); [|done]. injection Hstep as <-.
    apply (lone_set_node s a n); [done|done|..]; unfold heartbeat_reply; destruct (_ <? _)%Z; try done.
    + apply becomeFollower_peers.
    + destruct (becomeFollower_peers io (ar_Term resp) n) as [_ ->]. done.
  - destruct (NewRaftNode _ _ _) as [n'|] eqn:En; [|done]. injection Hstep as <-.
    apply (lone_unread (set_loop a Idle (set_node a n' s))); [done..|].
    apply lone_set_loop; [|done]. apply (lone_set_node s a n); [done|done|..];
      revert En; unfold NewRaftNode, loadState; simpl; by destruct (disk n); intros [= <-].
  - destruct (leaderCh n) as [|l ch]; [done|]. injection Hstep as <-.
    apply (lone_unread (set_node a (with_leaderCh n ch) s)); [done..|].
    by apply (lone_set_node s a n).
Qed.

(** A node without peers never becomes leader. The majority of one is its
    own vote, but the vote count is only tested when a peer's result arrives,
    so in no execution at all does a single-node cluster elect a leader. *)
Theorem single_node_never_leads (p : PeerConfig) (cs : list choice) (s : sys) a n
    (Hrun : sys_run (init [p]) cs = Some s) (Hn : nodes s !! a = Some n) :
  state n ≠ Leader ∧ majority (length (peers n)) = 1%Z.
Proof.
  assert (lone (init [p])) as H0.
  { split; simpl.
    - intros b m. rewrite lookup_insert. destruct (decide _); [|by rewrite lookup_empty].
      intros [= <-]. unfold init_node. cbn [peers state]. split; [|done].
      by rewrite filter_cons_False by (by intros []).
    - intros b t votes pending. rewrite lookup_insert. destruct (decide _); [done|].
      by rewrite lookup_empty. }
  revert H0 Hrun. generalize (init [p]). induction cs as [|c cs IH]; intros s0 H0; simpl.
  - intros [= ->]. destruct (lone_node s H0 a n Hn) as [-> ?]. done.
  - destruct (sys_step c s0) as [s1|] eqn:E; [|done]. simpl. apply IH. by eapply lone_step.
Qed.

Definition lone_candidacy : option sys :=
  sys_run (init [mk_Peer "node1" "node1:9001"]) [Timer "node1:9001" Second; Elect "node1:9001" true].

Lemma single_node_never_leads_witness :
  ∃ s n, lone_candidacy = Some s ∧ nodes s !! "node1:9001" = Some n ∧ state n = Candidate ∧
         state n ≠ Leader.
Proof.
  destruct lone_candidacy as [s|] eqn:Hs; [|vm_compute in Hs; discriminate Hs].
  destruct (nodes s !! "node1:9001") as [n|] eqn:Hn.
  - exists s, n. split; [reflexivity|]. split; [exact Hn|]. split.
    + vm_compute in Hs. injection Hs as <-. vm_compute in Hn. injection Hn as <-. reflexivity.
    + apply (single_node_never_leads (mk_Peer "node1" "node1:9001")
        [Timer "node1:9001" Second; Elect "node1:9001" true] s "node1:9001" n Hs Hn).
  - vm_compute in Hs. injection Hs as <-. vm_compute in Hn. discriminate Hn.
Defined.
End RaftCluster.
