(* ===== verification/RaftLiveness.v ===== *)
(** Whether elections end and are won. The collecting loop of [startElection] in
    [src/internal/raft/timer.go] ends, whatever the peers, the network and the
    disks do. Whatever has happened to a cluster of several nodes, a leader can still
    be elected within a few steps; with the transport the cache nodes run on,
    [src/internal/cluster/transport.go], no election is ever won. *)
From S2P Require Import Prelude Raft RaftCluster.

Module RaftLiveness.
Import Raft RaftCluster.

(** The steps that are those of the [runLoop] goroutine of [a] inside
    [startElection] and [sendHeartbeats]. *)
Definition own (a : string) (c : choice) : bool :=
  match c with
  | Elect b _ | Collect b _ _ _ | Beat b => bool_decide (b = a)
  | _ => false
  end.

(** The steps the goroutine of a node with [k] peers still takes before it is
    back in its [select]. *)
Definition loop_rank (k : nat) (l : loop) : nat :=
  match l with
  | Idle => 0
  | Beating => 1
  | Collecting _ _ pending => S (length pending)
  | Electing => S (S k)
  end.

Definition rank (a : string) (s : sys) : nat :=
  match nodes s !! a, loops s !! a with
  | Some n, Some l => loop_rank (length (peers n)) l
  | _, _ => 0
  end.

Definition busy (a : string) (s : sys) : bool := (0 <? rank a s)%nat.

(** A schedule during which [a] is busy before every step. *)
Fixpoint busy_run (a : string) (s : sys) (cs : list choice) : option sys :=
  match cs with
  | [] => Some s
  | c :: cs => if busy a s then s' ← sys_step c s; busy_run a s' cs else None
  end.

(** The peers are fixed when the node is made. *)
Lemma collect_vote_peers io r v n : peers (collect_vote io r v n).1 = peers n.
Proof.
  unfold collect_vote. destruct (_ <? _)%Z; [apply becomeFollower_peers|].
  destruct (granted r); [|done]. destruct (_ && _); [|done]. apply becomeLeader_same.
Qed.

Lemma NewRaftNode_peers i ps f n : NewRaftNode i ps f = Some n → peers n = ps.
Proof. unfold NewRaftNode, loadState. simpl. by destruct f; intros [= <-]. Qed.

Lemma length_remove_first p l : p ∈ l → S (length (remove_first p l)) = length l.
Proof.
  induction l as [|x l IH]; [by intros ?%elem_of_nil|]. simpl. intros [->|Hp]%elem_of_cons.
  - by destruct (decide (x = x)).
  - destruct (decide (x = p)); [done|]. simpl. by rewrite IH.
Qed.

Section Rank.
Context (a : string).
Implicit Types s : sys.

(** [s'] leaves the loop of [a] and its peers alone. *)
Definition undisturbed s s' : Prop :=
  loops s' !! a = loops s !! a ∧ (peers <$> nodes s' !! a) = (peers <$> nodes s !! a).

Lemma undisturbed_rank s s' : undisturbed s s' → rank a s' = rank a s.
Proof.
  intros [Hl Hn]. unfold rank. rewrite Hl.
  destruct (nodes s !! a), (nodes s' !! a); simplify_eq/=; [|done..]. by destruct (loops s !! a); rewrite ?Hn.
Qed.

Lemma undisturbed_set_node s b n n' :
  nodes s !! b = Some n → peers n' = peers n → undisturbed s (set_node b n' s).
Proof.
  intros Hb Hp. split; [done|]. simpl. rewrite lookup_insert.
  destruct (decide (b = a)) as [->|]; [|done]. rewrite Hb. simpl. by rewrite Hp.
Qed.

Lemma rank_set s b n n' l (s' : sys) :
  nodes s !! b = Some n → peers n' = peers n →
  nodes s' = nodes (set_node b n' s) → loops s' = loops (set_loop b l s) →
  rank a s' = if decide (b = a) then loop_rank (length (peers n)) l else rank a s.
Proof.
  intros Hb Hp Hn Hl. destruct (decide (b = a)) as [->|Hne]; unfold rank; rewrite Hn, Hl; simpl.
  - by rewrite !lookup_insert_eq, Hp.
  - by rewrite !lookup_insert_ne.
Qed.

(** The collecting loop waits only for results still to come. *)
Definition waits s : bool :=
  match loops s !! a with Some (Collecting _ _ []) => false | _ => true end.

(** An own step lowers the rank and no other raises it, and the loop does not
    come to wait for nothing. *)
Definition sinks (c : choice) s s' : Prop :=
  (if own a c then (rank a s' < rank a s)%nat else (rank a s' ≤ rank a s)%nat) ∧
  (waits s = true → waits s' = true).

Lemma sinks_undisturbed c s s' : own a c = false → undisturbed s s' → sinks c s s'.
Proof.
  intros Ho Hu. unfold sinks, waits. rewrite Ho, (undisturbed_rank s s' Hu).
  destruct Hu as [-> _]. split; [lia|done].
Qed.

Definition settled (l : loop) : bool := match l with Collecting _ _ [] => false | _ => true end.

(** The loop of [b] moves from [l0] to [l]. *)
Lemma sinks_set c s b n n' l0 l (s' : sys) :
  nodes s !! b = Some n → loops s !! b = Some l0 → own a c = bool_decide (b = a) →
  peers n' = peers n → nodes s' = nodes (set_node b n' s) → loops s' = loops (set_loop b l s) →
  settled l = true →
  (loop_rank (length (peers n)) l < loop_rank (length (peers n)) l0)%nat → sinks c s s'.
Proof.
  intros Hb Hl0 Ho Hp Hn Hl Hw Hlt. unfold sinks, waits.
  rewrite Ho, (rank_set s b n n' l s' Hb Hp Hn Hl), Hl. simpl. rewrite lookup_insert.
  destruct (decide (b = a)) as [->|Hne].
  - rewrite bool_decide_true by done. unfold rank. rewrite Hb, Hl0. by destruct l as [| |? ? []|].
  - by rewrite bool_decide_false by done.
Qed.

Lemma sinks_elect b io s s' : do_elect b io s = Some s' → sinks (Elect b io) s s'.
Proof.
  unfold do_elect. destruct (nodes s !! b) as [n|] eqn:Hb; [|done]. bind.
  destruct (loops s !! b) as [[| | |]|] eqn:El; try done. intros [= <-].
  assert (peers (becomeCandidate io n) = peers n) as Hp by by destruct io.
  eapply (sinks_set (Elect b io) s b n (becomeCandidate io n) _ _ _ Hb El eq_refl Hp); [done|done|..];
    rewrite Hp; destruct (peers n); simpl; rewrite ?length_fmap; done || lia.
Qed.

Lemma sinks_collect b p resp io s s' :
  do_collect b p resp io s = Some s' → sinks (Collect b p resp io) s s'.
Proof.
  unfold do_collect. destruct (nodes s !! b) as [n|] eqn:Hb; [|done]. bind.
  destruct (loops s !! b) as [[| |t votes pending|]|] eqn:El; try done.
  destruct (bool_decide (p ∈ pending)) eqn:Hp; [|done]. apply bool_decide_eq_true in Hp.
  destruct (possible_result _ _ _ _); [|done]. simpl.
  pose proof (collect_vote_peers io (result_of resp) votes n) as Hpeers.
  pose proof (length_remove_first p pending Hp) as Hlen.
  destruct (collect_vote _ _ _ _) as [n' [| |votes']]; simpl in Hpeers; intros [= <-];
    (eapply (sinks_set (Collect b p resp io) s b n n' _ _ _ Hb El eq_refl Hpeers); [done|done|..]);
    destruct (remove_first p pending); simpl in *; done || lia.
Qed.

Lemma sinks_beat b s s' : do_beat b s = Some s' → sinks (Beat b) s s'.
Proof.
  unfold do_beat. destruct (nodes s !! b) as [n|] eqn:Hb; [|done]. bind.
  destruct (loops s !! b) as [[| | |]|] eqn:El; try done. intros [= <-].
  apply (sinks_set _ s b n n _ Idle _ Hb El); try done; [|simpl; lia].
  simpl. by rewrite insert_id.
Qed.

(** A timer of [b] fires only when its loop is idle. *)
Lemma sinks_idle b l s c :
  loops s !! b = Some Idle → busy a s = true → own a c = false → sinks c s (set_loop b l s).
Proof.
  intros Hl Hbusy Ho. apply sinks_undisturbed; [done|]. split; [|done]. simpl.
  rewrite lookup_insert_ne; [done|]. intros ->. unfold busy, rank in Hbusy. rewrite Hl in Hbusy.
  by destruct (nodes s !! a).
Qed.

Lemma sinks_set_node c s b n n' (s' : sys) :
  own a c = false → nodes s !! b = Some n → peers n' = peers n →
  nodes s' = nodes (set_node b n' s) → loops s' = loops s → sinks c s s'.
Proof.
  intros Ho Hb Hp Hn Hl. apply sinks_undisturbed; [done|].
  destruct (undisturbed_set_node s b n n' Hb Hp) as [_ Hpeers].
  split; [by rewrite Hl|]. by rewrite Hn.
Qed.

Lemma sinks_restart b s s' : do_restart b s = Some s' → sinks (Restart b) s s'.
Proof.
  unfold do_restart. destruct (nodes s !! b) as [n|] eqn:Hb; [|done]. bind.
  destruct (NewRaftNode _ _ _) as [n'|] eqn:En; [|done]. intros [= <-].
  apply NewRaftNode_peers in En. unfold sinks, waits.
  erewrite (rank_set s b n n' Idle) by done. simpl. rewrite lookup_insert.
  destruct (decide (b = a)); split; done || lia.
Qed.

Lemma step_sinks c s s' : busy a s = true → sys_step c s = Some s' → sinks c s s'.
Proof.
  intros Hbusy Hstep.
  destruct c as [b now|b|b io|b p resp io|b|b req io0 io1|from b req now io|b resp io|b|b];
    simpl in Hstep;
    [|..|by apply sinks_elect|by apply sinks_collect|by apply sinks_beat| | | |by apply sinks_restart|];
    open_step Hstep;
    (destruct (nodes s !! b) as [n|] eqn:Hb; [|done]); cbn [mbind option_bind] in Hstep.
  - destruct (loops s !! b) as [[| | |]|] eqn:El; try done. injection Hstep as <-. by apply sinks_idle.
  - destruct (loops s !! b) as [[| | |]|] eqn:El; try done. injection Hstep as <-. by apply sinks_idle.
  - destruct (decide _); [|done].
    pose proof (HandleRequestVote_lone (λ i, match i with 0 => io0 | _ => io1 end) req n) as [Hp _].
    destruct (HandleRequestVote _ req n) as [n' r]. injection Hstep as <-.
    apply (sinks_set_node _ s b n n'); try done; by destruct (vr_VoteGranted r).
  - destruct (decide _); [|done]. pose proof (HandleAppendEntries_lone io now req n) as [Hp _].
    destruct (HandleAppendEntries io now req n) as [n' r]. injection Hstep as <-.
    by apply (sinks_set_node _ s b n n').
  - destruct (decide _); [|done]. injection Hstep as <-.
    apply (sinks_set_node _ s b n (heartbeat_reply io resp n)); try done.
    unfold heartbeat_reply. destruct (_ <? _)%Z; [apply becomeFollower_peers|done].
  - destruct (leaderCh n) as [|l ch]; [done|]. injection Hstep as <-.
    by apply (sinks_set_node _ s b n (with_leaderCh n ch)).
Qed.

Lemma busy_run_sinks cs s s' :
  busy_run a s cs = Some s' → waits s = true →
  (length (filter (λ c, own a c = true) cs) + rank a s' ≤ rank a s)%nat ∧ waits s' = true.
Proof.
  revert s. induction cs as [|c cs IH]; intros s; simpl; [intros [= <-]; split; [lia|done]|].
  destruct (busy a s) eqn:Hb; [|done]. destruct (sys_step c s) as [s1|] eqn:Hstep; [|done]. simpl.
  intros Hrun Hw. destruct (step_sinks c s s1 Hb Hstep) as [Hrank Hw1].
  destruct (IH s1 Hrun (Hw1 Hw)) as [IHr IHw]. split; [|done]. rewrite filter_cons.
  destruct (own a c); [rewrite decide_True by done; simpl|rewrite decide_False by done]; lia.
Qed.

(** A busy loop can take its next step on its own. *)
Lemma busy_enabled s :
  busy a s = true → waits s = true → ∃ c, own a c = true ∧ is_Some (sys_step c s).
Proof.
  unfold busy, rank, waits. destruct (nodes s !! a) as [n|] eqn:Hn; [|done].
  destruct (loops s !! a) as [l|] eqn:Hl; [|done]. intros Hb Hw.
  assert (∀ c, bool_decide (a = a) = c → c = true) as Ho by (intros ? <-; by apply bool_decide_eq_true).
  destruct l as [| |t v [|p pending]|]; [done|..|done| |].
  - exists (Elect a true). split; [by eapply Ho|]. simpl. unfold do_elect. rewrite Hn, Hl. simpl. eauto.
  - exists (Collect a p None true). split; [by eapply Ho|]. simpl. unfold do_collect. rewrite Hn, Hl.
    bind. rewrite bool_decide_true by set_solver. simpl.
    destruct (collect_vote _ _ _ _). eauto.
  - exists (Beat a). split; [by eapply Ho|]. simpl. unfold do_beat. rewrite Hn, Hl. simpl. eauto.
Qed.
End Rank.

(** C10: elections end. Once the election timer of node [a] has fired, its
    [runLoop] goroutine takes at most one step per peer and two more (becoming a
    candidate and the heartbeats of a win) before it is back in its [select],
    however the steps of the other nodes, messages, restarts and failing disks
    interleave; and as long as it is not back it can take its next step without
    waiting for another node, since an unreachable peer answers with an error. *)
Theorem election_terminates (s s' : sys) (a : string) (n : RaftNode) (cs : list choice)
    (Hn : nodes s !! a = Some n) (Hl : loops s !! a = Some Electing)
    (Hrun : busy_run a s cs = Some s') :
  (length (filter (λ c, own a c = true) cs) + rank a s' ≤ length (peers n) + 2)%nat ∧
  (busy a s' = true → ∃ c, own a c = true ∧ is_Some (sys_step c s')).
Proof.
  destruct (busy_run_sinks a cs s s' Hrun) as [Hr Hw]; [unfold waits; by rewrite Hl|].
  split; [|intros Hb; by apply busy_enabled].
  unfold rank at 2 in Hr. rewrite Hn, Hl in Hr. simpl in Hr. lia.
Qed.

(** The timer of [node1] has fired. *)
Definition timed_out : option sys := sys_run (init members3) [Timer "node1:9001" Second].

(** One peer is unreachable, the other votes: the election takes four steps. *)
Definition split_vote : list choice :=
  [Elect "node1:9001" true; RecvVote "node3:9003" (mk_RequestVote 1 "node1") true true;
   Collect "node1:9001" "node2:9002" None true;
   Collect "node1:9001" "node3:9003" (Some (mk_VoteResponse 1 true)) true;
   Notify "node1:9001"; Beat "node1:9001"].

Lemma election_terminates_witness :
  ∃ s s' n,
    timed_out = Some s ∧ nodes s !! "node1:9001" = Some n ∧
    busy_run "node1:9001" s split_vote = Some s' ∧
    (4 + rank "node1:9001" s' ≤ length (peers n) + 2)%nat.
Proof.
  assert ((s ← timed_out; n ← nodes s !! "node1:9001";
           s' ← busy_run "node1:9001" s split_vote; Some (loops s !! "node1:9001"))
          = Some (Some Electing)) as H by (vm_compute; reflexivity).
  destruct timed_out as [s|]; [|discriminate H]. cbn [mbind option_bind] in H.
  destruct (nodes s !! "node1:9001") as [n|] eqn:Hn; [|discriminate H]. cbn [mbind option_bind] in H.
  destruct (busy_run "node1:9001" s split_vote) as [s'|] eqn:Hrun; [|discriminate H].
  cbn [mbind option_bind] in H. apply (inj Some) in H.
  exists s, s', n. split; [reflexivity|]. split; [exact Hn|]. split; [exact Hrun|].
  exact (proj1 (election_terminates s s' "node1:9001" n split_vote Hn H Hrun)).
Defined.

(** ** Elections are won *)

Lemma sys_run_app cs cs' : ∀ s, sys_run s (cs ++ cs') = s' ← sys_run s cs; sys_run s' cs'.
Proof. induction cs as [|c cs IH]; intros s; simpl; [done|]. by destruct (sys_step c s); bind. Qed.

(** The votes besides its own that make a majority. *)
Definition needed (k : nat) : nat := Z.to_nat (majority k - 1).

Lemma needed_spec k : 1 ≤ k → 1 ≤ needed k ≤ k ∧ Z.of_nat (needed k) = (majority k - 1)%Z.
Proof.
  unfold needed, majority. intros Hk.
  pose proof (Z.div_mod (Z.of_nat k + 1) 2 ltac:(lia)). pose proof (Z.mod_pos_bound (Z.of_nat k + 1) 2 ltac:(lia)).
  lia.
Qed.

(** A node votes for a candidate of a later term. *)
Lemma later_term_gets_vote t c m :
  (CurrentTerm (ps m) < t)%Z →
  ∃ m', HandleRequestVote (λ i, match i with 0 => true | _ => true end) (mk_RequestVote t c) m =
          (m', mk_VoteResponse t true) ∧ CurrentTerm (ps m') = t.
Proof.
  intros Hlt. unfold HandleRequestVote. cbn [rv_Term rv_CandidateID].
  rewrite (proj2 (Z.ltb_ge t (CurrentTerm (ps m)))) by lia. rewrite (proj2 (Z.ltb_lt (CurrentTerm (ps m)) t) Hlt).
  unfold becomeFollower. cbn [ps with_state]. rewrite (proj2 (Z.ltb_lt (CurrentTerm (ps m)) t) Hlt). simpl. eauto.
Qed.

(** The outcomes of a step of node [b]. *)
Ltac step_cases H b :=
  simpl in H; open_step H;
  (match type of H with context [nodes ?s !! b] => destruct (nodes s !! b) as [?|] end; [|done]);
  cbn [mbind option_bind] in H;
  try (destruct (NewRaftNode _ _ _); [|done]; cbn [mbind option_bind] in H);
  repeat case_match.

Section Win.
Context (members : list PeerConfig) (Hmem : members_ok members).

Definition others (a : string) : list PeerConfig := filter (λ q, Addr q ≠ a) members.

(** The vote of the peer at [q] and its way back to the candidate at [a]. *)
Definition vote_of (t : Z) (a c q : string) : list choice :=
  [RecvVote q (mk_RequestVote t c) true true; Collect a q (Some (mk_VoteResponse t true)) true].

(** The candidacy of [p] in term [t] once its election timer has fired: [k] votes
    come back. *)
Definition campaign (p : PeerConfig) (t : Z) (k : nat) : list choice :=
  Elect (Addr p) true :: concat (map (vote_of t (Addr p) (ID p)) (take k (Addr <$> others (Addr p)))).

(** No node has a later term than [t]. *)
Definition terms_upto (t : Z) (s : sys) : Prop :=
  ∀ b m, nodes s !! b = Some m → (CurrentTerm (ps m) ≤ t)%Z.

Definition leads (a : string) (t : Z) (s : sys) : Prop :=
  ∃ n, nodes s !! a = Some n ∧ state n = Leader ∧ CurrentTerm (ps n) = t.

(** After [i] votes in term [t]: the candidate, and the peers still to be heard,
    which are in earlier terms. *)
Record counting (p : PeerConfig) (t : Z) (rest : list string) (i : Z) (s : sys) : Prop := {
  co_node : ∃ n, nodes s !! Addr p = Some n ∧ state n = Candidate ∧ CurrentTerm (ps n) = t ∧ id n = ID p ∧
                 peers n = others (Addr p);
  co_loop : loops s !! Addr p = Some (Collecting t i rest);
  co_behind q : q ∈ rest → q ≠ Addr p ∧ (q, mk_RequestVote t (ID p)) ∈ vote_reqs s ∧
                           ∃ m, nodes s !! q = Some m ∧ (CurrentTerm (ps m) < t)%Z;
  co_nodup : NoDup rest;
  co_upto : terms_upto t s
}.

Lemma terms_upto_insert t s b m (s' : sys) :
  terms_upto t s → (CurrentTerm (ps m) ≤ t)%Z → nodes s' = <[b := m]> (nodes s) → terms_upto t s'.
Proof.
  intros Hs Hm E b' m'. rewrite E, lookup_insert. destruct (decide (b = b')); [by intros [= <-]|apply Hs].
Qed.

Lemma counting_vote p t q rest i s :
  counting p t (q :: rest) i s →
  ∃ s', sys_run s (vote_of t (Addr p) (ID p) q) = Some s' ∧
    if (majority (length (others (Addr p))) <=? i + 1)%Z
    then leads (Addr p) t s' ∧ terms_upto t s'
    else rest ≠ [] → counting p t rest (i + 1) s'.
Proof.
  intros [(n & Hn & Hst & Hterm & Hid & Hpe) Hl Hbeh Hnd Hup].
  destruct (Hbeh q) as (Hqa & Hreq & m & Hq & Hlt); [by left|].
  destruct (later_term_gets_vote t (ID p) m Hlt) as (m' & Hvote & Hm').
  unfold vote_of. cbn [sys_run sys_step]. unfold do_recv_vote. rewrite Hq. bind.
  rewrite decide_True by done. rewrite Hvote. bind. cbn [vr_VoteGranted].
  unfold do_collect. cbn [nodes loops record_ballot add_vote_resp set_node vote_resps].
  rewrite lookup_insert_ne, Hn, Hl by done. bind.
  rewrite bool_decide_true by (by left). cbn [andb possible_result vote_resps].
  rewrite Hid, bool_decide_true by (by left). cbn [andb].
  unfold collect_vote. cbn [result_of res_term granted vr_Term vr_VoteGranted]. rewrite Hterm, Hpe, Hst.
  rewrite Z.ltb_irrefl. cbn match.
  assert (∀ n', CurrentTerm (ps n') = t → ∀ s', nodes s' = <[Addr p := n']> (<[q := m']> (nodes s)) → terms_upto t s') as Hup'.
  { intros n' Hn' s' E. eapply (terms_upto_insert t (set_node q m' s)); [|by apply Z.eq_le_incl|exact E].
    eapply (terms_upto_insert t s); [done| |done]. lia. }
  destruct (majority _ <=? i + 1)%Z eqn:Hmaj; cbn [andb bool_decide]; rewrite ?bool_decide_true by done; bind.
  - eexists. split; [reflexivity|]. destruct (becomeLeader_same n) as (_ & _ & Eps & _ & Est).
    split; [|by apply (Hup' (becomeLeader n)); [rewrite Eps|]].
    exists (becomeLeader n). simpl. by rewrite lookup_insert_eq, Eps.
  - eexists. split; [reflexivity|]. intros Hne. apply NoDup_cons in Hnd as [Hqr Hnd].
    cbn [remove_first]. rewrite decide_True by done. split; simpl.
    + exists n. by rewrite lookup_insert_eq.
    + rewrite lookup_insert_eq. by destruct rest.
    + intros q' Hq'. destruct (Hbeh q') as (? & ? & m2 & ? & ?); [by right|].
      split; [done|]. split; [done|]. exists m2.
      rewrite !lookup_insert_ne; [done|by intros ->|done].
    + done.
    + by apply (Hup' n).
Qed.

Lemma counting_votes p t k : ∀ rest i s,
  counting p t rest i s → k ≤ length rest → 1 ≤ k →
  (i + Z.of_nat k)%Z = majority (length (others (Addr p))) →
  ∃ s', sys_run s (concat (map (vote_of t (Addr p) (ID p)) (take k rest))) = Some s' ∧
    leads (Addr p) t s' ∧ terms_upto t s'.
Proof.
  induction k as [|k IH]; intros [|q rest] i s Hc Hk H1 Hmaj; simpl in Hk; try lia.
  destruct (counting_vote p t q rest i s Hc) as (s1 & Hrun & Hout).
  cbn [take map concat]. rewrite sys_run_app, Hrun. bind.
  destruct (_ <=? _)%Z eqn:E in Hout.
  - destruct k as [|k]; [|lia]. by exists s1.
  - destruct rest; [simpl in *; lia|]. apply (IH _ (i + 1)%Z); [by apply Hout|lia..].
Qed.

(** The election timer of [p] has fired and no node is ahead of it. *)
Record timed_out_at (p : PeerConfig) (n : RaftNode) (s : sys) : Prop := {
  to_node : nodes s !! Addr p = Some n;
  to_id : id n = ID p;
  to_peers : peers n = others (Addr p);
  to_loop : loops s !! Addr p = Some Electing;
  to_term : (0 ≤ CurrentTerm (ps n) < int64_max)%Z;
  to_all q : q ∈ members → is_Some (nodes s !! Addr q);
  to_upto : terms_upto (CurrentTerm (ps n)) s
}.

Lemma campaign_starts p n s : timed_out_at p n s → others (Addr p) ≠ [] →
  ∃ s', sys_step (Elect (Addr p) true) s = Some s' ∧
    counting p (CurrentTerm (ps n) + 1) (Addr <$> others (Addr p)) 1 s'.
Proof.
  intros [Hn Hid Hpe Hl Ht Hall Hup] Hne. simpl. unfold do_elect. rewrite Hn, Hl. bind.
  eexists. split; [reflexivity|]. set (t := (CurrentTerm (ps n) + 1)%Z).
  assert (CurrentTerm (ps (becomeCandidate true n)) = t) as Et by (simpl; apply wrap64_id; unfold t, int64_min, int64_max in *; lia).
  split; cbn [nodes loops vote_reqs record_ballot add_vote_reqs set_loop set_node].
  - eexists. rewrite lookup_insert_eq. split; [done|]. by split_and!; try rewrite Et.
  - rewrite lookup_insert_eq, Et. simpl. rewrite Hpe. by destruct (others (Addr p)).
  - intros q Hq. pose proof Hq as (m & -> & [Hm Hin]%list_elem_of_filter)%list_elem_of_fmap.
    split; [done|]. split.
    + apply elem_of_app. left. apply list_elem_of_fmap. exists (Addr m). rewrite Et. simpl. by rewrite Hid, Hpe.
    + rewrite lookup_insert_ne by done. destruct (Hall m Hin) as [m' Hm']. exists m'. split; [done|].
      specialize (Hup _ _ Hm'). unfold t. lia.
  - apply (NoDup_fmap_filter Addr), (addrs_distinct _ Hmem).
  - eapply (terms_upto_insert t s); [|by apply Z.eq_le_incl, Et|done].
    intros b m Hb. specialize (Hup b m Hb). unfold t. lia.
Qed.

Lemma campaign_wins p n s : timed_out_at p n s → others (Addr p) ≠ [] →
  ∃ s', sys_run s (campaign p (CurrentTerm (ps n) + 1) (needed (length (others (Addr p))))) = Some s' ∧
    leads (Addr p) (CurrentTerm (ps n) + 1) s' ∧ terms_upto (CurrentTerm (ps n) + 1) s'.
Proof.
  intros Hto Hne. destruct (campaign_starts p n s Hto Hne) as (s1 & Hstep & Hc).
  destruct (needed_spec (length (others (Addr p)))) as [Hk Hz]; [by destruct (others _); simpl; [|lia]|].
  unfold campaign. cbn [sys_run]. rewrite Hstep. bind.
  eapply counting_votes; [exact Hc|rewrite length_fmap; lia|lia|lia].
Qed.

(** *** From any reachable state *)

(** Every member has a node and a loop, whatever happens. *)
Definition complete (s : sys) : Prop :=
  ∀ p, p ∈ members → is_Some (nodes s !! Addr p) ∧ is_Some (loops s !! Addr p).

Lemma complete_init : complete (init members).
Proof.
  intros p Hp. simpl. split; [exists (init_node members p)|exists Idle]; apply elem_of_list_to_map_1.
  all: try (rewrite <- list_fmap_compose; exact (addrs_distinct _ Hmem)).
  all: apply list_elem_of_fmap; by exists p.
Qed.

Lemma complete_insert (s s' : sys) :
  (∀ a, is_Some (nodes s !! a) → is_Some (nodes s' !! a)) →
  (∀ a, is_Some (loops s !! a) → is_Some (loops s' !! a)) → complete s → complete s'.
Proof. intros Hn Hl Hs p Hp. destruct (Hs p Hp). auto. Qed.

Lemma insert_is_Some {A} (m : gmap string A) b x a : is_Some (m !! a) → is_Some (<[b := x]> m !! a).
Proof. rewrite lookup_insert. destruct (decide _); eauto. Qed.

Lemma complete_step c s s' : sys_step c s = Some s' → complete s → complete s'.
Proof.
  intros Hstep. apply complete_insert; intros a Ha; destruct c as [b| b| b| b| b|b req| ? b req| b| b| b];
    step_cases Hstep b; simplify_eq/=; eauto using insert_is_Some.
Qed.

Definition settled_all (s : sys) : Prop := ∀ a l, loops s !! a = Some l → settled l = true.

Lemma settled_insert s (s' : sys) b l :
  settled_all s → settled l = true → loops s' = <[b := l]> (loops s) → settled_all s'.
Proof.
  intros Hs Hl E a l'. rewrite E, lookup_insert. destruct (decide (b = a)); [by intros [= <-]|apply Hs].
Qed.

Lemma settled_step c s s' : sys_step c s = Some s' → settled_all s → settled_all s'.
Proof.
  intros Hstep Hs. destruct c as [b| b| b| b| b|b req| ? b req| b| b| b];
    step_cases Hstep b; simplify_eq; try done;
    (eapply settled_insert; [exact Hs| |reflexivity]); repeat case_match; simplify_eq/=; done.
Qed.

Lemma settled_init : settled_all (init members).
Proof. intros a l Hl. by apply elem_of_list_to_map_2, list_elem_of_fmap_1 in Hl as (q & [= _ ->] & _). Qed.

(** Any step of the cluster, whether its writes of the state file succeed or not,
    before some node has reached the largest term. *)
Definition fitting_step (s s' : sys) : Prop := terms_fit s ∧ ∃ c, sys_step c s = Some s'.

(** No negative term, in memory or on disk. *)
Definition grounded (n : RaftNode) : Prop :=
  (0 ≤ CurrentTerm (ps n))%Z ∧ match disk n with Stored p => (0 ≤ CurrentTerm p)%Z | _ => True end.

(** What the code of a node keeps of it, whatever its disk does. *)
Definition stays (n n' : RaftNode) : Prop :=
  id n' = id n ∧ peers n' = peers n ∧ (grounded n → grounded n').

Lemma stays_refl n : stays n n.
Proof. done. Qed.

Lemma saveState_stays io n : stays n (saveState io n).
Proof. unfold saveState. destruct io; [|done]. split; [done|]. split; [done|]. by intros [H _]. Qed.

Lemma with_ps_stays n p : (CurrentTerm (ps n) ≤ CurrentTerm p)%Z → stays n (with_ps n p).
Proof. intros Hle. split; [done|]. split; [done|]. intros [H Hd]. split; simpl; [lia|done]. Qed.

Lemma stays_trans n1 n2 n3 : stays n1 n2 → stays n2 n3 → stays n1 n3.
Proof. intros (H1 & H2 & H3) (H4 & H5 & H6). split; [congruence|]. split; [congruence|]. auto. Qed.

Lemma becomeFollower_stays io t n : stays n (becomeFollower io t n).
Proof.
  unfold becomeFollower. cbn [ps with_state]. destruct (Z.ltb_spec (CurrentTerm (ps n)) t); [|done].
  eapply stays_trans; [|apply saveState_stays].
  eapply (stays_trans n (with_state n Follower)); [done|]. apply with_ps_stays. simpl. lia.
Qed.

Lemma HandleRequestVote_stays io req n : stays n (HandleRequestVote io req n).1.
Proof.
  unfold HandleRequestVote. destruct (rv_Term req <? CurrentTerm (ps n))%Z; [done|].
  set (n1 := if (CurrentTerm (ps n) <? rv_Term req)%Z then _ else n).
  assert (stays n n1) as H1 by (unfold n1; destruct (_ <? _)%Z; [apply becomeFollower_stays|done]).
  destruct (_ && _); [done|]. cbn [fst]. eapply stays_trans; [exact H1|].
  eapply stays_trans; [|apply saveState_stays]. by apply with_ps_stays.
Qed.

Lemma HandleAppendEntries_stays io now req n : stays n (HandleAppendEntries io now req n).1.
Proof.
  unfold HandleAppendEntries. destruct (ae_Term req <? CurrentTerm (ps n))%Z; [done|]. cbn [fst].
  set (n1 := if (CurrentTerm (ps n) <? ae_Term req)%Z then _ else n).
  assert (stays n n1) as H1 by (unfold n1; destruct (_ <? _)%Z; [apply becomeFollower_stays|done]).
  eapply stays_trans; [exact H1|]. by destruct (decide _).
Qed.

Lemma collect_vote_stays io r v n : stays n (collect_vote io r v n).1.
Proof.
  unfold collect_vote. destruct (_ <? _)%Z; [apply becomeFollower_stays|].
  destruct (granted r); [|done]. destruct (_ && _); [|done]. cbn [fst].
  destruct (becomeLeader_same n) as (E1 & E2 & E3 & E4 & _). split; [done|]. split; [done|].
  unfold grounded. by rewrite E3, E4.
Qed.

Lemma becomeCandidate_stays io n :
  (CurrentTerm (ps n) < int64_max)%Z → (0 ≤ CurrentTerm (ps n))%Z → stays n (becomeCandidate io n).
Proof.
  intros Hlt Hle. unfold becomeCandidate. eapply stays_trans; [|apply saveState_stays].
  eapply (stays_trans n (with_state n Candidate)); [done|]. apply with_ps_stays. simpl.
  rewrite wrap64_id by (unfold int64_min, int64_max in *; lia). lia.
Qed.

Lemma NewRaftNode_stays n n' : NewRaftNode (id n) (peers n) (disk n) = Some n' → stays n n'.
Proof.
  unfold NewRaftNode, loadState, stays, grounded. cbn [disk].
  destruct (disk n) as [p| | |]; intros [= <-]; simpl; (split; [done|]); (split; [done|]); intros [? ?]; split; done || lia.
Qed.

(** The members keep their place, and no loop waits for more results than there
    are peers. *)
Record shaped (s : sys) : Prop := {
  sh_node a n : nodes s !! a = Some n → mk_Peer (id n) a ∈ members ∧ peers n = others a ∧ grounded n;
  sh_loop a t v pending : loops s !! a = Some (Collecting t v pending) → length pending ≤ length (others a)
}.

Lemma shaped_set s b n n' l (s' : sys) :
  shaped s → nodes s !! b = Some n → stays n n' →
  (∀ t v pending, l = Collecting t v pending → length pending ≤ length (others b)) →
  nodes s' = <[b := n']> (nodes s) → loops s' = <[b := l]> (loops s) → shaped s'.
Proof.
  intros [Hn Hl] Hb (Hi & Hp & Hg) Hpend En El. destruct (Hn b n Hb) as (H1 & H2 & H3). split.
  - intros a m. rewrite En, lookup_insert. destruct (decide (b = a)) as [<-|]; [|apply Hn].
    intros [= <-]. rewrite Hi, Hp. auto.
  - intros a t v pending. rewrite El, lookup_insert. destruct (decide (b = a)) as [<-|]; [|apply Hl].
    intros [= ->]. by eapply Hpend.
Qed.

Lemma shaped_node s b n n' (s' : sys) :
  shaped s → nodes s !! b = Some n → stays n n' →
  nodes s' = <[b := n']> (nodes s) → loops s' = loops s → shaped s'.
Proof.
  intros [Hn Hl] Hb (Hi & Hp & Hg) En El. destruct (Hn b n Hb) as (H1 & H2 & H3).
  split; [|by rewrite El]. intros a m. rewrite En, lookup_insert.
  destruct (decide (b = a)) as [<-|]; [|apply Hn]. intros [= <-]. rewrite Hi, Hp. auto.
Qed.

Lemma shaped_collect b p resp io s s' : shaped s → do_collect b p resp io s = Some s' → shaped s'.
Proof.
  intros Hs Hstep. unfold do_collect in Hstep. destruct (nodes s !! b) as [n|] eqn:Hb; [|done].
  cbn [mbind option_bind] in Hstep. destruct (loops s !! b) as [[| |t v pending|]|] eqn:El; try done.
  destruct (bool_decide (p ∈ pending)) eqn:Hp; [|done]. apply bool_decide_eq_true in Hp. cbn [andb] in Hstep.
  destruct (possible_result _ _ _ _); [|done].
  pose proof (collect_vote_stays io (result_of resp) v n) as Hst.
  pose proof (length_remove_first p pending Hp) as Hlen. pose proof (sh_loop s Hs b t v pending El) as Hmax.
  destruct (collect_vote _ _ _ _) as [n' [| |v']]; injection Hstep as <-; cbn [fst] in Hst.
  - by eapply (shaped_set s b n n' Idle).
  - by eapply (shaped_set s b n n' Beating).
  - eapply (shaped_set s b n n'); [done|done|done| |reflexivity|reflexivity].
    intros t' v'' pending'. destruct (remove_first p pending) eqn:E; [done|]. intros [= <- <- <-]. lia.
Qed.

Lemma shaped_step s s' : fitting_step s s' → shaped s → shaped s'.
Proof.
  intros (Hfit & c & Hstep) Hs. destruct c as [b now|b|b io|b p resp io|b|b req io0 io1|from b req now io|b resp io|b|b];
    [..|by eapply shaped_collect| | | | | |]; simpl in Hstep; open_step Hstep;
    (destruct (nodes s !! b) as [n|] eqn:Hb; [|done]); cbn [mbind option_bind] in Hstep.
  - destruct (loops s !! b) as [[| | |]|]; try done. injection Hstep as <-.
    eapply (shaped_set s b n n); [done|done|done| |simpl; by rewrite insert_id|reflexivity].
    by destruct (election_due now n).
  - destruct (loops s !! b) as [[| | |]|]; try done. injection Hstep as <-.
    eapply (shaped_set s b n n); [done|done|done| |simpl; by rewrite insert_id|reflexivity].
    by destruct (decide _).
  - destruct (loops s !! b) as [[| | |]|]; try done. injection Hstep as <-.
    destruct (sh_node s Hs b n Hb) as (_ & Hp & [H0 _]).
    pose proof (becomeCandidate_stays io n (Hfit b n Hb) H0) as Hst.
    eapply (shaped_set s b n (becomeCandidate io n)); [done|done|exact Hst| |reflexivity|reflexivity].
    destruct Hst as (_ & -> & _). rewrite Hp. intros t v pending Hl.
    assert (pending = Addr <$> others b) as ->; [|by rewrite length_fmap].
    by destruct (Addr <$> others b); [discriminate Hl|injection Hl].
  - destruct (loops s !! b) as [[| | |]|]; try done. injection Hstep as <-.
    eapply (shaped_set s b n n Idle _ Hs Hb (stays_refl n)); [done|simpl; by rewrite insert_id|reflexivity].
  - destruct (decide _); [|done].
    pose proof (HandleRequestVote_stays (λ i, match i with 0 => io0 | _ => io1 end) req n) as Hst.
    destruct (HandleRequestVote _ req n) as [n' r]. injection Hstep as <-.
    eapply (shaped_node s b n n' _ Hs Hb Hst); by destruct (vr_VoteGranted r).
  - destruct (decide _); [|done]. pose proof (HandleAppendEntries_stays io now req n) as Hst.
    destruct (HandleAppendEntries io now req n) as [n' r]. injection Hstep as <-.
    by eapply (shaped_node s b n n' _ Hs Hb Hst).
  - destruct (decide _); [|done]. injection Hstep as <-.
    eapply (shaped_node s b n (heartbeat_reply io resp n) _ Hs Hb); try done.
    unfold heartbeat_reply. destruct (_ <? _)%Z; [apply becomeFollower_stays|done].
  - destruct (NewRaftNode _ _ _) as [n'|] eqn:En; [|done]. injection Hstep as <-.
    eapply (shaped_set s b n n' Idle _ Hs Hb (NewRaftNode_stays n n' En)); done.
  - destruct (leaderCh n) as [|l ch]; [done|]. injection Hstep as <-.
    by eapply (shaped_node s b n (with_leaderCh n ch) _ Hs Hb).
Qed.

Lemma shaped_init : shaped (init members).
Proof.
  split.
  - intros a n Hn. apply elem_of_list_to_map_2, list_elem_of_fmap_1 in Hn as (q & [= -> ->] & Hq).
    split; [by destruct q|]. split; [done|]. by split; simpl.
  - intros a t v pending Hl. by apply elem_of_list_to_map_2, list_elem_of_fmap_1 in Hl as (q & [= _ ?] & _).
Qed.

Lemma reachable_complete s :
  rtc fitting_step (init members) s → complete s ∧ settled_all s ∧ shaped s.
Proof.
  intros Hr. pose proof complete_init as Hc. pose proof settled_init as Hs. pose proof shaped_init as Hsh.
  induction Hr as [|s1 s2 s3 Hfs _ IH]; [done|]. pose proof Hfs as (_ & c & Hstep).
  apply IH; [by eapply complete_step|by eapply settled_step|by eapply shaped_step].
Qed.

(** A member's peers are all others. *)
Lemma length_others_members s a n : shaped s → nodes s !! a = Some n → length members = S (length (others a)).
Proof.
  intros Hs Hn. destruct (sh_node s Hs a n Hn) as (Hm & _ & _).
  exact (length_others members Hmem members _ (addrs_distinct _ Hmem) Hm).
Qed.

(** Some node has the latest term. *)
Lemma latest_term (m : gmap string RaftNode) : m ≠ ∅ →
  ∃ a n, m !! a = Some n ∧ ∀ b x, m !! b = Some x → (CurrentTerm (ps x) ≤ CurrentTerm (ps n))%Z.
Proof.
  induction m as [|i x m Hi IH] using map_ind; [done|]. intros _.
  destruct (decide (m = ∅)) as [->|Hne].
  - exists i, x. rewrite lookup_insert_eq. split; [done|]. intros b y.
    rewrite lookup_insert. destruct (decide (i = b)); [intros [= <-]; lia|done].
  - destruct (IH Hne) as (a & n & Ha & Hmax).
    destruct (Z.le_gt_cases (CurrentTerm (ps x)) (CurrentTerm (ps n))) as [Hle|Hgt].
    + exists a, n. split; [rewrite lookup_insert_ne; [done|congruence]|]. intros b y.
      rewrite lookup_insert. destruct (decide (i = b)); [by intros [= <-]|apply Hmax].
    + exists i, x. rewrite lookup_insert_eq. split; [done|]. intros b y.
      rewrite lookup_insert. destruct (decide (i = b)); [intros [= <-]; lia|].
      intros Hb. specialize (Hmax b y Hb). lia.
Qed.

(** A step that neither fails to write the state file nor restarts a process. *)
Definition orderly (c : choice) : bool :=
  reliable c && match c with Restart _ => false | _ => true end.

(** The outstanding calls of [a] fail, and its loop is back in the [select]. *)
Lemma collecting_drains a n t : ∀ pending v s,
  nodes s !! a = Some n → (0 ≤ CurrentTerm (ps n))%Z →
  loops s !! a = Some (Collecting t v pending) → pending ≠ [] →
  ∃ s', sys_run s ((λ p, Collect a p None true) <$> pending) = Some s' ∧
    nodes s' = nodes s ∧ loops s' !! a = Some Idle.
Proof.
  induction pending as [|p pending IH]; intros v s Hn Ht Hl Hne; [done|].
  cbn [fmap list_fmap sys_run sys_step]. unfold do_collect. rewrite Hn, Hl. bind.
  rewrite bool_decide_true by (by left). cbn [andb possible_result result_of]. unfold collect_vote.
  cbn [res_term granted]. rewrite (proj2 (Z.ltb_ge (CurrentTerm (ps n)) 0)) by lia. bind.
  cbn [remove_first]. rewrite decide_True by done.
  destruct pending as [|q pending].
  - eexists. split; [reflexivity|]. simpl. by rewrite insert_id, lookup_insert_eq.
  - destruct (IH v (set_loop a (Collecting t v (q :: pending)) (set_node a n s))) as (s' & Hrun & En & El).
    + simpl. by rewrite lookup_insert_eq.
    + done.
    + simpl. by rewrite lookup_insert_eq.
    + done.
    + exists s'. split; [exact Hrun|]. split; [|done]. rewrite En. simpl. by rewrite insert_id.
Qed.

Lemma timer_fires a n s :
  nodes s !! a = Some n → loops s !! a = Some Idle → state n ≠ Leader →
  sys_step (Timer a (lastHeartbeat n + Second)) s = Some (set_loop a Electing s).
Proof.
  intros Hn Hl Hst. simpl. unfold do_timer. rewrite Hn, Hl. bind. unfold election_due.
  rewrite bool_decide_false by done. rewrite Z.add_simpl_l. done.
Qed.

(** A node that does not lead comes to time out. *)
Lemma comes_to_time_out s a n :
  shaped s → settled_all s → nodes s !! a = Some n → is_Some (loops s !! a) → state n ≠ Leader →
  ∃ cs s', sys_run s cs = Some s' ∧ forallb orderly cs = true ∧ length cs ≤ length members + 1 ∧
    nodes s' = nodes s ∧ loops s' !! a = Some Electing.
Proof.
  intros Hsh Hset Hn [l Hl] Hst. destruct (sh_node s Hsh a n Hn) as (_ & Hpe & [Hterm _]).
  pose proof (length_others_members s a n Hsh Hn) as Hlen.
  assert (∀ s1, nodes s1 = nodes s → loops s1 !! a = Some Idle →
    ∃ s', sys_run s1 [Timer a (lastHeartbeat n + Second)] = Some s' ∧ nodes s' = nodes s ∧
      loops s' !! a = Some Electing) as Hfire.
  { intros s1 En El. cbn [sys_run]. rewrite (timer_fires a n s1) by congruence. eexists.
    split; [reflexivity|]. simpl. by rewrite lookup_insert_eq. }
  destruct l as [| |t v pending|].
  - destruct (Hfire s eq_refl Hl) as (s' & ? & ? & ?). eexists _, s'. split; [done|]. simpl. split_and!; [done|lia|done..].
  - exists [], s. simpl. split_and!; [done|done|lia|done..].
  - pose proof (sh_loop s Hsh a t v pending Hl) as Hmax.
    destruct (collecting_drains a n t pending v s Hn Hterm Hl) as (s1 & Hrun & En & El).
    { intros ->. by specialize (Hset _ _ Hl). }
    destruct (Hfire s1 En El) as (s' & Hrun' & ? & ?).
    eexists _, s'. split; [rewrite sys_run_app, Hrun; exact Hrun'|]. split_and!; [..|done|done].
    + rewrite forallb_app. apply andb_true_intro. split; [|done].
      apply forallb_forall. intros c Hc. apply list_elem_of_In, list_elem_of_fmap in Hc as (p & -> & _). done.
    + rewrite length_app, length_fmap. simpl. lia.
  - destruct (Hfire (set_loop a Idle (add_append_reqs
      ((λ p, (a, p, mk_AppendEntries (CurrentTerm (ps n)) (id n))) <$> (Addr <$> peers n)) s))) as (s' & Hrun' & ? & ?).
    + done.
    + simpl. by rewrite lookup_insert_eq.
    + exists [Beat a; Timer a (lastHeartbeat n + Second)], s'. split.
      * cbn [sys_run sys_step]. unfold do_beat. rewrite Hn, Hl. bind. exact Hrun'.
      * simpl. split_and!; [done|lia|done..].
Qed.

Lemma campaign_orderly p t k :
  forallb orderly (campaign p t k) = true ∧ length (campaign p t k) ≤ S (2 * k).
Proof.
  unfold campaign. generalize (Addr <$> others (Addr p)). intros l. revert k.
  induction l as [|q l IH]; intros [|k]; simpl in *; try (split; [done|lia]).
  destruct (IH k). split; [done|lia].
Qed.
End Win.

(** C11: a cluster never gets stuck without a leader. From every state that a
    cluster of at least two distinct members can reach, whatever messages were
    lost, nodes restarted, votes split or state files not written on the way, as
    long as no term has reached the largest [int64], there is a continuation of at
    most three steps per member in which no process restarts and no write fails,
    after which some node is the leader of a term that no other node has passed. *)
Theorem leader_always_reachable (members : list PeerConfig) (s : sys)
    (Hmem : members_ok members) (Hlen : 2 ≤ length members)
    (Hreach : rtc fitting_step (init members) s) (Hfit : terms_fit s) :
  ∃ cs s' p t,
    p ∈ members ∧ forallb orderly cs = true ∧ length cs ≤ 3 * length members ∧
    sys_run s cs = Some s' ∧ leads (Addr p) t s' ∧ terms_upto t s'.
Proof.
  destruct (reachable_complete members Hmem s Hreach) as (Hall & Hset & Hsh).
  destruct (latest_term (nodes s)) as (a & n & Hn & Hmax).
  { destruct members as [|q ?]; [simpl in Hlen; lia|]. destruct (Hall q) as [[x Hx] _]; [by left|].
    intros E. by rewrite E in Hx. }
  destruct (sh_node members s Hsh a n Hn) as (Hp & Hpe & [Hterm _]).
  destruct (decide (state n = Leader)) as [Hlead|Hst].
  { exists [], s, (mk_Peer (id n) a), (CurrentTerm (ps n)). split_and!; try done; [simpl; lia|]. by exists n. }
  destruct (Hall _ Hp) as [_ Hl].
  destruct (comes_to_time_out members Hmem s a n Hsh Hset Hn Hl Hst) as (cs & s1 & Hrun & Hcs & Hlcs & En & El).
  pose proof (length_others_members members Hmem s a n Hsh Hn) as Hlo.
  destruct (campaign_wins members Hmem (mk_Peer (id n) a) n s1) as (s' & Hwin & Hleads & Hup).
  - split; simpl; rewrite ?En; try done; [split; [done|by apply (Hfit a)]| |].
    + intros q Hq. by apply Hall.
    + intros b m. rewrite En. apply Hmax.
  - simpl. intros E. rewrite E in Hlo. simpl in Hlo. lia.
  - destruct (campaign_orderly members (mk_Peer (id n) a) (CurrentTerm (ps n) + 1)
      (needed (length (others members a)))) as [Ho Hlc].
    destruct (needed_spec (length (others members a))) as [Hk _]; [lia|].
    eexists _, s', (mk_Peer (id n) a), _. split; [done|]. split; [|split]; [| |split; [|split; [exact Hleads|exact Hup]]].
    + rewrite forallb_app, Hcs. exact Ho.
    + rewrite length_app. lia.
    + rewrite sys_run_app, Hrun. exact Hwin.
Qed.

(** A schedule before the largest term. *)
Fixpoint fitting_run (s : sys) (cs : list choice) : option sys :=
  match cs with
  | [] => Some s
  | c :: cs =>
      if decide (map_Forall (λ _ n, (CurrentTerm (ps n) < int64_max)%Z) (nodes s))
      then s' ← sys_step c s; fitting_run s' cs
      else None
  end.

Lemma fitting_run_steps cs : ∀ s s', fitting_run s cs = Some s' → rtc fitting_step s s'.
Proof.
  induction cs as [|c cs IH]; intros s s'; simpl; [intros [= <-]; apply rtc_refl|].
  destruct (decide _) as [Hf|]; [|done]. destruct (sys_step c s) as [s1|] eqn:Hs; [|done]. bind.
  intros Hrun. eapply rtc_l; [|by apply IH]. split; [|by exists c]. intros a n Ha. by apply (Hf a n).
Qed.

(** All three nodes stand in term 1 and vote for themselves, the second without
    writing its state file; then it restarts, without a vote and in term 0, one
    call has failed and the other one of the first node is outstanding. *)
Definition three_candidates : list choice :=
  concat (map (λ x, [Timer x.1 Second; Elect x.1 x.2])
    [("node1:9001", true); ("node2:9002", false); ("node3:9003", true)]) ++
  [Restart "node2:9002"; Collect "node1:9001" "node2:9002" None true].

Lemma leader_always_reachable_witness :
  ∃ s, fitting_run (init members3) three_candidates = Some s ∧ won s = [] ∧
    ∃ cs s' p t, p ∈ members3 ∧ forallb orderly cs = true ∧ length cs ≤ 9 ∧
      sys_run s cs = Some s' ∧ leads (Addr p) t s' ∧ terms_upto t s'.
Proof.
  assert ((s ← fitting_run (init members3) three_candidates;
    Some (bool_decide (map_Forall (λ _ n, (CurrentTerm (ps n) < int64_max)%Z) (nodes s)), won s)) = Some (true, []))
    as H by (vm_compute; reflexivity).
  destruct (fitting_run (init members3) three_candidates) as [s|] eqn:Hs; [|discriminate H].
  cbn [mbind option_bind] in H. injection H as Hfit%bool_decide_eq_true Hw.
  exists s. split; [reflexivity|]. split; [exact Hw|].
  apply (leader_always_reachable members3 s members3_ok).
  - simpl. lia.
  - exact (fitting_run_steps _ _ _ Hs).
  - exact Hfit.
Defined.

(** In a cluster just started any member may win: the node whose election timer
    fires first becomes the leader of term 1 with the votes it needs. *)
Theorem healthy_cluster_elects (members : list PeerConfig) (p q : PeerConfig)
    (Hmem : members_ok members) (Hp : p ∈ members) (Hq : q ∈ members) (Hpq : Addr q ≠ Addr p) :
  ∃ s,
    sys_run (init members)
      (Timer (Addr p) Second :: campaign members p 1 (needed (length (others members (Addr p))))) = Some s ∧
    leads (Addr p) 1 s ∧ terms_upto 1 s.
Proof.
  destruct (complete_init members Hmem p Hp) as [_ [l Hl]].
  assert (nodes (init members) !! Addr p = Some (init_node members p)) as Hn.
  { apply elem_of_list_to_map_1; [rewrite <- list_fmap_compose; exact (addrs_distinct _ Hmem)|].
    apply list_elem_of_fmap. by exists p. }
  assert (l = Idle) as -> by by apply elem_of_list_to_map_2, list_elem_of_fmap_1 in Hl as (? & [= _ ->] & _).
  cbn [sys_run]. change Second with (lastHeartbeat (init_node members p) + Second)%Z.
  rewrite (timer_fires (Addr p) (init_node members p)) by done. bind.
  apply (campaign_wins members Hmem p (init_node members p)).
  - split; simpl; try done; [by rewrite lookup_insert_eq| |].
    + intros r Hr. by apply (complete_init members Hmem).
    + intros b m Hb. by apply elem_of_list_to_map_2, list_elem_of_fmap_1 in Hb as (? & [= _ ->] & _).
  - intros E. assert (q ∈ others members (Addr p)) as Hin by by apply list_elem_of_filter.
    rewrite E in Hin. by apply elem_of_nil in Hin.
Qed.

(** ** The transport of the deployment *)

(** [grpcTransport]: the connection to the peer is dialled, and then no call is
    made on it; [dial] is the error of dialling. *)
Definition proto_gen_required : string := "transport: proto-gen required — run make proto-gen".

Definition grpc_RequestVote (dial : option string) (peerAddr : string) (req : RequestVoteRequest)
    : RequestVoteResponse + string :=
  match dial with
  | Some err => inr ("transport: dial " +:+ peerAddr +:+ ": " +:+ err)
  | None => inr proto_gen_required
  end.

Definition grpc_AppendEntries (dial : option string) (peerAddr : string) (req : AppendEntriesRequest)
    : AppendEntriesResponse + string :=
  match dial with
  | Some err => inr ("transport: dial " +:+ peerAddr +:+ ": " +:+ err)
  | None => inr proto_gen_required
  end.

Definition ok_of {A B} (r : A + B) : option A := match r with inl a => Some a | inr _ => None end.

(** A step over this transport: a request for a vote comes back with what
    [grpc_RequestVote] returns, and no request or reply reaches another node. *)
Definition deployed (s : sys) (c : choice) : Prop :=
  match c with
  | Collect a p resp _ => ∃ dial n t v l, nodes s !! a = Some n ∧ loops s !! a = Some (Collecting t v l) ∧
      resp = ok_of (grpc_RequestVote dial p (mk_RequestVote t (id n)))
  | RecvVote _ _ _ _ | RecvAppend _ _ _ _ _ | RecvReply _ _ _ => False
  | _ => True
  end.

Definition deployed_step (s s' : sys) : Prop := ∃ c, deployed s c ∧ sys_step c s = Some s'.

Definition leaderless (s : sys) : Prop :=
  won s = [] ∧ ∀ a n, nodes s !! a = Some n → state n ≠ Leader.

Lemma leaderless_set (s s' : sys) b n' :
  leaderless s → won s' = won s → nodes s' = <[b := n']> (nodes s) → state n' ≠ Leader → leaderless s'.
Proof.
  intros [Hw Hs] Ew En Hn. split; [congruence|]. intros a n. rewrite En, lookup_insert.
  destruct (decide (b = a)); [by intros [= <-]|apply Hs].
Qed.

Lemma leaderless_step s s' : leaderless s → deployed_step s s' → leaderless s'.
Proof.
  intros Hl (c & Hd & Hstep). pose proof Hl as [Hw Hs].
  destruct c as [b now|b|b io|b p resp io|b|b req io0 io1|from b req now io|b resp io|b|b];
    simpl in Hstep, Hd; try done; open_step Hstep;
    (destruct (nodes s !! b) as [n|] eqn:Hb; [|done]); cbn [mbind option_bind] in Hstep;
    specialize (Hs b n Hb) as Hn.
  - destruct (loops s !! b) as [[| | |]|]; try done. by injection Hstep as <-.
  - destruct (loops s !! b) as [[| | |]|]; try done. by injection Hstep as <-.
  - destruct (loops s !! b) as [[| | |]|]; try done. injection Hstep as <-.
    apply (leaderless_set s _ b (becomeCandidate io n)); try done. by destruct io.
  - destruct Hd as (dial & n0 & t & v & l & _ & Hloop & Hresp). rewrite Hloop in Hstep.
    assert (resp = None) as -> by (rewrite Hresp; by destruct dial).
    destruct (_ && _) in Hstep; [|done]. unfold collect_vote in Hstep. cbn [result_of granted res_term] in Hstep.
    destruct (_ <? _)%Z; injection Hstep as <-.
    + apply (leaderless_set s _ b (becomeFollower io 0 n)); try done.
      destruct (becomeFollower_peers io 0 n) as [_ ->]. done.
    + apply (leaderless_set s _ b n); done.
  - destruct (loops s !! b) as [[| | |]|]; try done. by injection Hstep as <-.
  - destruct (NewRaftNode _ _ _) as [n'|] eqn:En; [|done]. injection Hstep as <-.
    apply (leaderless_set s _ b n'); try done. revert En. unfold NewRaftNode, loadState. simpl.
    by destruct (disk n); intros [= <-].
  - destruct (leaderCh n) as [|l ch]; [done|]. injection Hstep as <-.
    by apply (leaderless_set s _ b (with_leaderCh n ch)).
Qed.

(** C39: the deployed cluster elects no leader. The transport of the cache nodes
    dials a peer and then returns an error without calling it, so whatever the
    number of nodes, the timers, the restarts and the disks, no node ever becomes
    leader or wins an election. *)
Theorem deployed_cluster_never_elects (members : list PeerConfig) (s : sys)
    (Hreach : rtc deployed_step (init members) s) :
  won s = [] ∧ ∀ a n, nodes s !! a = Some n → state n ≠ Leader.
Proof.
  assert (leaderless (init members)) as Hinit.
  { split; [done|]. intros a n Hn.
    apply elem_of_list_to_map_2, list_elem_of_fmap_1 in Hn as (q & [= -> ->] & _). done. }
  assert (∀ s0, rtc deployed_step s0 s → leaderless s0 → leaderless s) as Hpres.
  { induction 1; eauto using leaderless_step. }
  by apply (Hpres (init members)).
Qed.

(** Two rounds of elections of [node1] over this transport. *)
Definition failing_rounds : list choice :=
  let a := "node1:9001" in
  let round := [Timer a Second; Elect a true; Collect a "node2:9002" None true; Collect a "node3:9003" None true] in
  round ++ round.

Fixpoint runs_deployed (s : sys) (cs : list choice) : option sys :=
  match cs with
  | [] => Some s
  | c :: cs =>
      let ok := match c with
                | Collect a _ None _ => match loops s !! a with Some (Collecting _ _ _) => true | _ => false end
                | Collect _ _ _ _ | RecvVote _ _ _ _ | RecvAppend _ _ _ _ _ | RecvReply _ _ _ => false
                | _ => true
                end in
      if ok then s' ← sys_step c s; runs_deployed s' cs else None
  end.

Lemma runs_deployed_steps s cs s' : runs_deployed s cs = Some s' → rtc deployed_step s s'.
Proof.
  revert s. induction cs as [|c cs IH]; intros s; simpl; [intros [= <-]; apply rtc_refl|].
  set (ok := match c with Collect _ _ _ _ => _ | _ => _ end). destruct ok eqn:Hok; [|done].
  destruct (sys_step c s) as [s1|] eqn:Hstep; [|done]. simpl. intros Hrun.
  eapply rtc_l; [|by apply IH]. exists c. split; [|done].
  unfold ok in Hok. destruct c as [| | |a p [r|] io| | | | | |]; simpl in *; try done.
  destruct (loops s !! a) as [[| |t v l|]|] eqn:El; try done.
  unfold do_collect in Hstep. destruct (nodes s !! a) as [n|] eqn:En; [|done].
  by exists None, n, t, v, l.
Qed.

Lemma deployed_cluster_never_elects_witness :
  ∃ s n, runs_deployed (init members3) failing_rounds = Some s ∧ nodes s !! "node1:9001" = Some n ∧
    CurrentTerm (ps n) = 2%Z ∧ state n ≠ Leader.
Proof.
  assert ((s ← runs_deployed (init members3) failing_rounds; n ← nodes s !! "node1:9001";
    Some (CurrentTerm (ps n))) = Some 2%Z) as H by (vm_compute; reflexivity).
  destruct (runs_deployed (init members3) failing_rounds) as [s|] eqn:Hrun; [|discriminate H].
  cbn [mbind option_bind] in H. destruct (nodes s !! "node1:9001") as [n|] eqn:Hn; [|discriminate H].
  cbn [mbind option_bind] in H. apply (inj Some) in H.
  exists s, n. split; [reflexivity|]. split; [exact Hn|]. split; [exact H|].
  exact (proj2 (deployed_cluster_never_elects members3 s (runs_deployed_steps _ _ _ Hrun)) _ _ Hn).
Defined.
End RaftLiveness.
