(* ===== verification/GoStrings.v ===== *)
(** The parts of Go's [strings] and [strconv] packages the repository parses
    its flags, environment variables and headers with. A Go string is a byte
    string; a character here is one byte. *)
From S2P Require Import Prelude.
From Stdlib Require Import Ascii.

Definition byte_of (n : N) : ascii := ascii_of_N n.

(** [strings.Split] with a one-byte separator: the pieces between separators,
    one more than there are separators. *)
Fixpoint Split (s : string) (sep : ascii) : list string :=
  match s with
  | EmptyString => [""]
  | String a s =>
      if decide (a = sep) then "" :: Split s sep
      else match Split s sep with
           | piece :: rest => String a piece :: rest
           | [] => [String a ""]
           end
  end.

(** [strings.Index] of a one-byte string: the first position, if any. *)
Fixpoint Index (s : string) (c : ascii) : option nat :=
  match s with
  | EmptyString => None
  | String a s => if decide (a = c) then Some 0 else S <$> Index s c
  end.

(** The slice [s[:n]]. *)
Fixpoint slice_to (s : string) (n : nat) : string :=
  match n, s with
  | S n, String a s => String a (slice_to s n)
  | _, _ => ""
  end.

(** [unicode.IsSpace]: the UTF-8 encodings of the white-space characters. *)
Definition space_encodings : list (list ascii) :=
  Eval vm_compute in map (map byte_of)
    [[9]; [10]; [11]; [12]; [13]; [32]; [194; 133]; [194; 160]; [225; 154; 128];
     [226; 128; 128]; [226; 128; 129]; [226; 128; 130]; [226; 128; 131]; [226; 128; 132];
     [226; 128; 133]; [226; 128; 134]; [226; 128; 135]; [226; 128; 136]; [226; 128; 137];
     [226; 128; 138]; [226; 128; 168]; [226; 128; 169]; [226; 128; 175]; [226; 129; 159];
     [227; 128; 128]]%N.

Fixpoint strip_prefix (p l : list ascii) : option (list ascii) :=
  match p, l with
  | [], _ => Some l
  | a :: p, b :: l => if decide (a = b) then strip_prefix p l else None
  | _ :: _, [] => None
  end.

(** The rest of [l] after the first of [ps] that is a prefix of it. *)
Fixpoint strip_any (ps : list (list ascii)) (l : list ascii) : option (list ascii) :=
  match ps with
  | [] => None
  | p :: ps => match strip_prefix p l with Some l' => Some l' | None => strip_any ps l end
  end.

(** Strips encodings from the front; each one is at least a byte long, so the
    length of [l] is fuel enough. *)
Fixpoint trim_front (fuel : nat) (ps : list (list ascii)) (l : list ascii) : list ascii :=
  match fuel with
  | 0 => l
  | S fuel => match strip_any ps l with Some l' => trim_front fuel ps l' | None => l end
  end.

(** [strings.TrimSpace]. *)
Definition TrimSpace (s : string) : string :=
  let l := String.list_ascii_of_string s in
  let l := trim_front (length l) space_encodings l in
  let r := trim_front (length l) (map (@rev ascii) space_encodings) (rev l) in
  String.string_of_list_ascii (rev r).

(** [strings.ToLower] on ASCII text; other bytes are left as they are. *)
Definition lower_byte (a : ascii) : ascii :=
  let n := N_of_ascii a in
  if ((65 <=? n) && (n <=? 90))%N then ascii_of_N (n + 32) else a.

Fixpoint ToLower (s : string) : string :=
  match s with
  | EmptyString => ""
  | String a s => String (lower_byte a) (ToLower s)
  end.

(** [strings.TrimPrefix]; [strings.HasPrefix] says whether there is one. *)
Fixpoint after_prefix (p s : string) : option string :=
  match p, s with
  | EmptyString, _ => Some s
  | String a p, String b s => if decide (a = b) then after_prefix p s else None
  | String _ _, EmptyString => None
  end.

Definition HasPrefix (s p : string) : bool := bool_decide (is_Some (after_prefix p s)).
Definition TrimPrefix (s p : string) : string := default s (after_prefix p s).

(** [strings.Contains]. *)
Fixpoint Contains (s sub : string) : bool :=
  HasPrefix s sub || match s with EmptyString => false | String _ s => Contains s sub end.

(** [strings.ReplaceAll] with an empty replacement: non-overlapping occurrences
    of [old], which is not empty, go from left to right; [skip] bytes of the one
    being removed are left. *)
Fixpoint remove_all (old : string) (skip : nat) (s : string) : string :=
  match s with
  | EmptyString => ""
  | String a s' =>
      match skip with
      | S skip => remove_all old skip s'
      | 0 => if HasPrefix s old then remove_all old (pred (String.length old)) s'
             else String a (remove_all old 0 s')
      end
  end.

(** [strings.SplitN] into at most two pieces with a one-byte separator, when
    there are two. *)
Fixpoint cut (s : string) (sep : ascii) : option (string * string) :=
  match s with
  | EmptyString => None
  | String a s =>
      if decide (a = sep) then Some ("", s)
      else '(l, r) ← cut s sep; Some (String a l, r)
  end.

(** [utf8.ValidString]: the ranges of the continuation bytes a first byte asks
    for, and the scan, with the ranges still to be met. *)
Definition utf8_tail (b : N) : option (list (N * N)) :=
  let cont := (128, 191)%N in
  if (b <=? 127)%N then Some []
  else if (b <=? 193)%N then None
  else if (b <=? 223)%N then Some [cont]
  else if (b =? 224)%N then Some [(160, 191)%N; cont]
  else if (b =? 237)%N then Some [(128, 159)%N; cont]
  else if (b <=? 239)%N then Some [cont; cont]
  else if (b =? 240)%N then Some [(144, 191)%N; cont; cont]
  else if (b <=? 243)%N then Some [cont; cont; cont]
  else if (b =? 244)%N then Some [(128, 143)%N; cont; cont]
  else None.

Fixpoint utf8_scan (pending : list (N * N)) (s : string) : bool :=
  match s, pending with
  | EmptyString, [] => true
  | EmptyString, _ => false
  | String a s, [] =>
      match utf8_tail (N_of_ascii a) with Some pending => utf8_scan pending s | None => false end
  | String a s, (lo, hi) :: pending =>
      (lo <=? N_of_ascii a)%N && (N_of_ascii a <=? hi)%N && utf8_scan pending s
  end.

Definition ValidString (s : string) : bool := utf8_scan [] s.

(** [strings.TrimRight] with a one-byte cutset. *)
Fixpoint TrimRight (s : string) (c : ascii) : string :=
  match s with
  | EmptyString => ""
  | String a s =>
      match TrimRight s c with
      | EmptyString => if decide (a = c) then "" else String a ""
      | s' => String a s'
      end
  end.

(** [strconv.Atoi]: an optional sign and decimal digits, within an [int64]. *)
Definition digit_value (a : ascii) : option Z :=
  let n := Z.of_N (N_of_ascii a) in
  if ((48 <=? n) && (n <=? 57))%Z then Some (n - 48)%Z else None.

Fixpoint digits_from (acc : Z) (s : string) : option Z :=
  match s with
  | EmptyString => Some acc
  | String a s => d ← digit_value a; digits_from (acc * 10 + d)%Z s
  end.

Definition digits (s : string) : option Z :=
  match s with EmptyString => None | _ => digits_from 0 s end.

Definition in_int64 (z : Z) : option Z :=
  if ((int64_min <=? z) && (z <=? int64_max))%Z then Some z else None.

Definition Atoi (s : string) : option Z :=
  z ← match s with
      | EmptyString => None
      | String a rest =>
          if decide (a = "-"%char) then Z.opp <$> digits rest
          else if decide (a = "+"%char) then digits rest
          else digits s
      end;
  in_int64 z.

(** ** Trimming does not touch plain text *)

(** A printable, non-space ASCII byte. *)
Definition plain (a : ascii) : bool :=
  let n := N_of_ascii a in ((33 <=? n) && (n <=? 126))%N.

(** The encodings start, and end, with bytes that are not plain. *)
Definition starts_odd (ps : list (list ascii)) : bool :=
  forallb (λ p, match p with b :: _ => negb (plain b) | [] => false end) ps.

Lemma strip_any_plain ps a l :
  starts_odd ps = true → plain a = true → strip_any ps (a :: l) = None.
Proof.
  intros Hps Ha. induction ps as [|[|b p] ps IH]; simpl in *; [done|done|].
  apply andb_prop in Hps as [Hb Hps]. destruct (decide (b = a)) as [->|]; [|auto].
  by rewrite Ha in Hb.
Qed.

Lemma plain_no_space a l : plain a = true →
  strip_any space_encodings (a :: l) = None ∧
  strip_any (map (@rev ascii) space_encodings) (a :: l) = None.
Proof. intros Ha. split; apply strip_any_plain; done || (vm_compute; reflexivity). Qed.

Lemma trim_front_plain fuel ps a l :
  strip_any ps (a :: l) = None → trim_front fuel ps (a :: l) = a :: l.
Proof. destruct fuel; simpl; [done|]. by intros ->. Qed.

Lemma TrimSpace_plain s :
  Forall (λ a, plain a = true) (String.list_ascii_of_string s) → TrimSpace s = s.
Proof.
  intros Hp. unfold TrimSpace.
  assert (∀ l, Forall (λ a, plain a = true) l →
    trim_front (length l) space_encodings l = l ∧
    trim_front (length l) (map (@rev ascii) space_encodings) l = l) as Htrim.
  { intros [|a l]; [done|]. intros [Ha _]%Forall_cons.
    destruct (plain_no_space a l Ha) as [H1 H2].
    split; [exact (trim_front_plain _ _ _ _ H1)|exact (trim_front_plain _ _ _ _ H2)]. }
  cbv zeta. destruct (Htrim (String.list_ascii_of_string s) Hp) as [-> _].
  rewrite <-(length_rev (String.list_ascii_of_string s)).
  destruct (Htrim (rev (String.list_ascii_of_string s))) as [_ ->].
  { apply Forall_forall. intros a Ha. rewrite list_elem_of_In, <-in_rev, <-list_elem_of_In in Ha.
    by eapply Forall_forall in Hp. }
  by rewrite rev_involutive, String.string_of_list_ascii_of_string.
Qed.
