(* ===== verification/Json.v ===== *)
(** The parts of Go's [encoding/json] the repository stores and exchanges its
    small records with: the grammar of values, the unquoting of strings, the
    decoding of objects into structs, and the encoder's strings and integers. *)
From S2P Require Import Prelude GoStrings.
From Stdlib Require Import Ascii.

Module Json.

Definition code (a : ascii) : N := N_of_ascii a.
Definition quote : ascii := ascii_of_N 34.
Definition backslash : ascii := ascii_of_N 92.

(** ** UTF-8 *)

Fixpoint tail_ok (ranges : list (N * N)) (s : string) : bool :=
  match ranges, s with
  | [], _ => true
  | (lo, hi) :: ranges, String a s => (lo <=? code a)%N && (code a <=? hi)%N && tail_ok ranges s
  | _ :: _, EmptyString => false
  end.

(** The number of bytes after [a] of the encoding that starts with [a] and goes
    on in [s]: [utf8.DecodeRune], [None] for a byte that starts no encoding. *)
Definition rune_tail (a : ascii) (s : string) : option nat :=
  ranges ← utf8_tail (code a);
  if tail_ok ranges s then Some (length ranges) else None.

(** [utf8.AppendRune]. *)
Definition encode_rune (r : N) : string :=
  let cont (k : N) := ascii_of_N (128 + N.land (N.shiftr r k) 63) in
  (if r <? 128 then String (ascii_of_N r) ""
  else if r <? 2048 then
    String (ascii_of_N (192 + N.shiftr r 6)) (String (cont 0) "")
  else if r <? 65536 then
    String (ascii_of_N (224 + N.shiftr r 12)) (String (cont 6) (String (cont 0) ""))
  else
    String (ascii_of_N (240 + N.shiftr r 18))
      (String (cont 12) (String (cont 6) (String (cont 0) ""))))%N.

(** The replacement character U+FFFD. *)
Definition RuneError : N := 65533.

(** ** Strings *)

Definition hex_value (a : ascii) : option N :=
  let n := code a in
  if ((48 <=? n) && (n <=? 57))%N then Some (n - 48)%N
  else if ((97 <=? n) && (n <=? 102))%N then Some (n - 87)%N
  else if ((65 <=? n) && (n <=? 70))%N then Some (n - 55)%N
  else None.

(** Four hexadecimal digits at the front. *)
Definition hex4 (s : string) : option N :=
  match s with
  | String a (String b (String c (String d _))) =>
      a ← hex_value a; b ← hex_value b; c ← hex_value c; d ← hex_value d;
      Some (((a * 16 + b) * 16 + c) * 16 + d)%N
  | _ => None
  end.

(** The low surrogate that follows a high one, as [utf16.DecodeRune] combines
    them. *)
Definition low_surrogate (s : string) : option N :=
  match s with
  | String a (String b s) =>
      if bool_decide (a = backslash) && bool_decide (b = "u"%char) then
        lo ← hex4 s; if ((56320 <=? lo) && (lo <=? 57343))%N then Some lo else None
      else None
  | _ => None
  end.

Fixpoint drop_bytes (n : nat) (s : string) : string :=
  match n, s with
  | S n, String _ s => drop_bytes n s
  | _, _ => s
  end.

(** What an escape stands for and how long it is, the backslash not counted. *)
Definition escape (s : string) : option (string * nat) :=
  match s with
  | EmptyString => None
  | String c s =>
      let byte (n : N) := Some (String (ascii_of_N n) "", 1) in
      if bool_decide (c = quote) || bool_decide (c = backslash) || bool_decide (c = "/"%char) then
        Some (String c "", 1)
      else if decide (c = "b"%char) then byte 8%N
      else if decide (c = "f"%char) then byte 12%N
      else if decide (c = "n"%char) then byte 10%N
      else if decide (c = "r"%char) then byte 13%N
      else if decide (c = "t"%char) then byte 9%N
      else if decide (c = "u"%char) then
        hi ← hex4 s;
        if ((55296 <=? hi) && (hi <=? 57343))%N then
          match (if (hi <=? 56319)%N then low_surrogate (drop_bytes 4 s) else None) with
          | Some lo => Some (encode_rune ((hi - 55296) * 1024 + (lo - 56320) + 65536)%N, 11)
          | None => Some (encode_rune RuneError, 5)
          end
        else Some (encode_rune hi, 5)
      else None
  end.

(** The rest of a string literal after its opening quote: what it stands for and
    the text behind it. [copy] bytes are still to be taken as they are and
    [drop] bytes to be passed over. *)
Fixpoint unquote (copy drop : nat) (s : string) : option (string * string) :=
  match s with
  | EmptyString => None
  | String a s =>
      match drop, copy with
      | S drop, _ => unquote copy drop s
      | 0, S copy => '(v, rest) ← unquote copy 0 s; Some (String a v, rest)
      | 0, 0 =>
          if decide (a = quote) then Some ("", s)
          else if decide (a = backslash) then
            '(e, n) ← escape s; '(v, rest) ← unquote 0 n s; Some (e +:+ v, rest)
          else if (code a <? 32)%N then None
          else match rune_tail a s with
               | Some n => '(v, rest) ← unquote n 0 s; Some (String a v, rest)
               | None => '(v, rest) ← unquote 0 0 s; Some (encode_rune RuneError +:+ v, rest)
               end
      end
  end.

(** ** Values *)

#[warnings="-register-all"]
Inductive json :=
| JNull
| JBool (b : bool)
| JNumber (literal : string)
| JString (s : string)
| JArray (l : list json)
| JObject (fields : list (string * json)).

Fixpoint skip_space (s : string) : string :=
  match s with
  | String a s' =>
      if bool_decide (code a ∈ [32; 9; 10; 13]%N) then skip_space s' else s
  | EmptyString => s
  end.

(** A run of digits and what follows. *)
Fixpoint digit_run (s : string) : string * string :=
  match s with
  | String a s' =>
      match digit_value a with
      | Some _ => let '(d, rest) := digit_run s' in (String a d, rest)
      | None => ("", s)
      end
  | EmptyString => ("", s)
  end.

Definition digit_run1 (s : string) : option (string * string) :=
  match digit_run s with
  | (EmptyString, _) => None
  | r => Some r
  end.

(** The text behind the byte [c], if that is what comes next. *)
Definition expect (c : ascii) (s : string) : option string :=
  match s with
  | String a s => if decide (a = c) then Some s else None
  | EmptyString => None
  end.

(** A number: sign, integer part without leading zeros, fraction, exponent. *)
Definition number_int (s : string) : option (string * string) :=
  match expect "0" s with
  | Some rest => Some ("0", rest)
  | None => digit_run1 s
  end.
Definition number_frac (s : string) : option (string * string) :=
  match expect "." s with
  | Some rest => '(d, rest) ← digit_run1 rest; Some (String "." d, rest)
  | None => Some ("", s)
  end.
Definition number_exp (s : string) : option (string * string) :=
  match s with
  | String e rest =>
      if bool_decide (e = "e"%char) || bool_decide (e = "E"%char) then
        let '(sign, rest) :=
          match expect "+" rest, expect "-" rest with
          | Some rest, _ => ("+", rest)
          | None, Some rest => ("-", rest)
          | None, None => ("", rest)
          end in
        '(d, rest) ← digit_run1 rest; Some (String e (sign +:+ d), rest)
      else Some ("", s)
  | EmptyString => Some ("", s)
  end.
Definition number (s : string) : option (string * string) :=
  let '(sign, s) := match expect "-" s with Some s => ("-", s) | None => ("", s) end in
  '(i, s) ← number_int s; '(f, s) ← number_frac s; '(e, s) ← number_exp s;
  Some (sign +:+ i +:+ f +:+ e, s).

(** [true], [false], [null], a string or a number. *)
Definition scalar (s : string) : option (json * string) :=
  match after_prefix "true" s, after_prefix "false" s, after_prefix "null" s, expect quote s with
  | Some rest, _, _, _ => Some (JBool true, rest)
  | None, Some rest, _, _ => Some (JBool false, rest)
  | None, None, Some rest, _ => Some (JNull, rest)
  | None, None, None, Some s => '(v, rest) ← unquote 0 0 s; Some (JString v, rest)
  | None, None, None, None => '(n, rest) ← number s; Some (JNumber n, rest)
  end.

(** The nesting the scanner allows. *)
Definition maxNestingDepth : Z := 10000.

(** A value at the front of [s] and the text behind it; [depth] counts the
    enclosing arrays and objects. *)
Fixpoint value (fuel : nat) (depth : Z) (s : string) {struct fuel} : option (json * string) :=
  match fuel with
  | 0 => None
  | S fuel =>
      let s := skip_space s in
      match expect "{" s, expect "[" s with
      | Some s, _ =>
          if (maxNestingDepth <=? depth)%Z then None
          else match expect "}" (skip_space s) with
               | Some rest => Some (JObject [], rest)
               | None => '(l, rest) ← members fuel (depth + 1) s; Some (JObject l, rest)
               end
      | None, Some s =>
          if (maxNestingDepth <=? depth)%Z then None
          else match expect "]" (skip_space s) with
               | Some rest => Some (JArray [], rest)
               | None => '(l, rest) ← elements fuel (depth + 1) s; Some (JArray l, rest)
               end
      | None, None => scalar s
      end
  end
with elements (fuel : nat) (depth : Z) (s : string) {struct fuel} : option (list json * string) :=
  match fuel with
  | 0 => None
  | S fuel =>
      '(v, rest) ← value fuel depth s;
      match expect "," (skip_space rest) with
      | Some rest => '(l, rest) ← elements fuel depth rest; Some (v :: l, rest)
      | None => rest ← expect "]" (skip_space rest); Some ([v], rest)
      end
  end
with members (fuel : nat) (depth : Z) (s : string) {struct fuel}
    : option (list (string * json) * string) :=
  match fuel with
  | 0 => None
  | S fuel =>
      s ← expect quote (skip_space s);
      '(k, rest) ← unquote 0 0 s;
      rest ← expect ":" (skip_space rest);
      '(v, rest) ← value fuel depth rest;
      match expect "," (skip_space rest) with
      | Some rest => '(l, rest) ← members fuel depth rest; Some ((k, v) :: l, rest)
      | None => rest ← expect "}" (skip_space rest); Some ([(k, v)], rest)
      end
  end.

(** The first value of a text, as a [Decoder] reads it. Two calls pass over a
    byte, so twice the length is fuel enough. *)
Definition first_value (s : string) : option json :=
  fst <$> value (S (2 * String.length s)) 0 s.

(** The whole text as one value, as [Unmarshal] reads it. *)
Definition whole_value (s : string) : option json :=
  '(v, rest) ← value (S (2 * String.length s)) 0 s;
  if decide (skip_space rest = "") then Some v else None.

(** ** Structs *)

(** Field names are compared after folding: letters without their case, the
    long s and the Kelvin sign with [S] and [K]. *)
Fixpoint fold_name (s : string) : string :=
  match s with
  | EmptyString => ""
  | String a s' =>
      match after_prefix (String (ascii_of_N 197) (String (ascii_of_N 191) "")) s,
            after_prefix (String (ascii_of_N 226) (String (ascii_of_N 132) (String (ascii_of_N 170) ""))) s with
      | Some _, _ => match s' with String _ s => String "S" (fold_name s) | _ => "" end
      | _, Some _ => match s' with String _ (String _ s) => String "K" (fold_name s) | _ => "" end
      | None, None =>
          let n := code a in
          String (if ((97 <=? n) && (n <=? 122))%N then ascii_of_N (n - 32) else a) (fold_name s')
      end
  end.

Definition same_name (key field : string) : bool := bool_decide (fold_name key = fold_name field).

(** Decoding into a variable of each type: [None] is a type error, and [null]
    leaves the variable alone. *)
Definition to_bool (v : json) (old : bool) : option bool :=
  match v with JBool b => Some b | JNull => Some old | _ => None end.
Definition to_string (v : json) (old : string) : option string :=
  match v with JString s => Some s | JNull => Some old | _ => None end.
Definition to_int64 (v : json) (old : Z) : option Z :=
  match v with JNumber n => Atoi n | JNull => Some old | _ => None end.

(** Decoding into a struct whose field for a key is set by [set]; a type error
    is returned at the end. *)
Definition to_struct {T} (set : string → json → T → option T) (v : json) (old : T) : option T :=
  match v with
  | JObject l => foldl (λ acc kv, t ← acc; set kv.1 kv.2 t) (Some old) l
  | JNull => Some old
  | _ => None
  end.

(** ** The encoder *)

Definition hex_digit (n : N) : ascii := ascii_of_N (if (n <? 10)%N then 48 + n else 87 + n)%N.

(** [\u00XX]. *)
Definition u00 (n : N) : string :=
  String backslash (String "u" (String "0" (String "0"
    (String (hex_digit (N.shiftr n 4)) (String (hex_digit (N.land n 15)) ""))))).

(** How the encoder writes an ASCII byte inside a string. *)
Definition encode_ascii (a : ascii) : string :=
  let n := code a in
  let esc (c : ascii) := String backslash (String c "") in
  if bool_decide (a = quote) || bool_decide (a = backslash) then esc a
  else if decide (n = 8)%N then esc "b"%char
  else if decide (n = 12)%N then esc "f"%char
  else if decide (n = 10)%N then esc "n"%char
  else if decide (n = 13)%N then esc "r"%char
  else if decide (n = 9)%N then esc "t"%char
  else if (n <? 32)%N || bool_decide (n ∈ [38; 60; 62]%N) then u00 n
  else String a "".

(** U+2028 and U+2029, which are escaped as well. *)
Definition line_separator (a : ascii) (s : string) : option ascii :=
  match s with
  | String b (String c _) =>
      if bool_decide (code a = 226%N) && bool_decide (code b = 128%N) then
        if decide (code c = 168%N) then Some "8"%char
        else if decide (code c = 169%N) then Some "9"%char
        else None
      else None
  | _ => None
  end.

Fixpoint encode_chars (copy drop : nat) (s : string) : string :=
  match s with
  | EmptyString => ""
  | String a s =>
      match drop, copy with
      | S drop, _ => encode_chars copy drop s
      | 0, S copy => String a (encode_chars copy 0 s)
      | 0, 0 =>
          if (code a <? 128)%N then encode_ascii a +:+ encode_chars 0 0 s
          else match line_separator a s, rune_tail a s with
               | Some c, _ =>
                   String backslash ("u202" +:+ String c (encode_chars 0 2 s))
               | None, Some n => String a (encode_chars n 0 s)
               | None, None => String backslash ("ufffd" +:+ encode_chars 0 0 s)
               end
      end
  end.

Definition encode_string (s : string) : string :=
  String quote (encode_chars 0 0 s +:+ String quote "").

(** The fields of a struct, given with their encoded values. *)
Fixpoint encode_fields (l : list (string * string)) : string :=
  match l with
  | [] => ""
  | [(k, v)] => encode_string k +:+ ":" +:+ v
  | (k, v) :: l => encode_string k +:+ ":" +:+ v +:+ "," +:+ encode_fields l
  end.

Definition encode_object (l : list (string * string)) : string :=
  "{" +:+ encode_fields l +:+ "}".

(** A slice, given with its encoded elements. *)
Definition brackets (l : list string) : string := "[" +:+ String.concat "," l +:+ "]".

Definition encode_bool (b : bool) : string := if b then "true" else "false".


(** ** Fuel *)

Lemma skip_space_length s : String.length (skip_space s) ≤ String.length s.
Proof. induction s as [|a s IH]; simpl; [done|]. destruct (bool_decide _); simpl; lia. Qed.

Lemma expect_length c s r : expect c s = Some r → String.length s = S (String.length r).
Proof. destruct s as [|a s]; simpl; [done|]. destruct (decide _); [|done]. by intros [= <-]. Qed.

Lemma after_prefix_length p s r :
  after_prefix p s = Some r → String.length s = String.length p + String.length r.
Proof.
  revert s. induction p as [|a p IH]; intros [|b s]; simpl; try done; try (by intros [= <-]).
  destruct (decide (a = b)); [|done]. intros ->%IH. done.
Qed.

Lemma unquote_length k d s v r : unquote k d s = Some (v, r) → String.length r < String.length s.
Proof.
  revert k d v. induction s as [|a s IH]; intros k d v; simpl; [done|].
  assert (∀ k d (f : string → string),
    ('(v, rest) ← unquote k d s; Some (f v, rest)) = Some (v, r) →
    String.length r < S (String.length s)) as Hgo.
  { intros k' d' f. destruct (unquote k' d' s) as [[v' r']|] eqn:E; [|done].
    intros [= _ ->]. apply IH in E. lia. }
  destruct d as [|d]; [|intros Hu; apply IH in Hu; lia].
  destruct k as [|k]; [|by apply (Hgo k 0 (String a))].
  destruct (decide (a = quote)) as [_|_]; [intros [= _ <-]; lia|].
  destruct (decide (a = backslash)) as [_|_].
  { destruct (escape s) as [[x n]|]; [|done]. apply (Hgo 0 n (String.append x)). }
  destruct (_ <? _)%N; [done|]. destruct (rune_tail a s) as [n|].
  - apply (Hgo n 0 (String a)).
  - apply (Hgo 0 0 (String.append _)).
Qed.

Lemma digit_run_length s d r :
  digit_run s = (d, r) → String.length s = String.length d + String.length r.
Proof.
  revert d. induction s as [|a s IH]; intros d; simpl; [by intros [= <- <-]|].
  destruct (digit_value a); [|by intros [= <- <-]].
  destruct (digit_run s) as [d' r']. intros [= <- ->]. simpl. by rewrite (IH d').
Qed.

Lemma digit_run1_length s d r : digit_run1 s = Some (d, r) → String.length r < String.length s.
Proof.
  unfold digit_run1. destruct (digit_run s) as [[|a d'] r'] eqn:E; [done|].
  intros [= _ <-]. apply digit_run_length in E. simpl in E. lia.
Qed.

Lemma number_length s n r : number s = Some (n, r) → String.length r < String.length s.
Proof.
  unfold number. set (q := match expect "-" s with Some s => ("-", s) | None => ("", s) end).
  assert (String.length q.2 ≤ String.length s) as Hq.
  { unfold q. destruct (expect "-" s) eqn:E; simpl; [|done]. apply expect_length in E. lia. }
  destruct q as [sign s0]. simpl in Hq. clear -Hq.
  destruct (number_int s0) as [[i s1]|] eqn:E1; [|done]. bind.
  assert (String.length s1 < String.length s0) as H1.
  { revert E1. unfold number_int. destruct (expect "0" s0) eqn:E; [|apply digit_run1_length].
    intros [= _ <-]. apply expect_length in E. lia. }
  destruct (number_frac s1) as [[f s2]|] eqn:E2; [|done]. bind.
  assert (String.length s2 ≤ String.length s1) as H2.
  { revert E2. unfold number_frac. destruct (expect "." s1) as [t|] eqn:E; [|by intros [= _ <-]].
    apply expect_length in E. destruct (digit_run1 t) as [[d t']|] eqn:E'; [|done].
    intros [= _ <-]. apply digit_run1_length in E'. lia. }
  destruct (number_exp s2) as [[e s3]|] eqn:E3; [|done]. bind.
  assert (String.length s3 ≤ String.length s2) as H3; [|intros [= _ <-]; lia].
  revert E3. unfold number_exp. destruct s2 as [|c t]; [by intros [= _ <-]|].
  destruct (_ || _); [|by intros [= _ <-]].
  destruct (expect "+" t) as [t1|] eqn:Ep; [|destruct (expect "-" t) as [t1|] eqn:Em];
    repeat match goal with H : expect _ _ = Some _ |- _ => apply expect_length in H end;
    (destruct (digit_run1 _) as [[d t']|] eqn:E'; [|done]);
    intros [= _ <-]; apply digit_run1_length in E'; simpl in *; lia.
Qed.

Lemma scalar_length s v r : scalar s = Some (v, r) → String.length r < String.length s.
Proof.
  unfold scalar.
  destruct (after_prefix "true" s) eqn:E1; [intros [= _ <-]; apply after_prefix_length in E1; simpl in E1; lia|].
  destruct (after_prefix "false" s) eqn:E2; [intros [= _ <-]; apply after_prefix_length in E2; simpl in E2; lia|].
  destruct (after_prefix "null" s) eqn:E3; [intros [= _ <-]; apply after_prefix_length in E3; simpl in E3; lia|].
  destruct (expect quote s) as [t|] eqn:E4.
  - destruct (unquote 0 0 t) as [[u t']|] eqn:E; [|done]. intros [= _ <-].
    apply unquote_length in E. apply expect_length in E4. lia.
  - destruct (number s) as [[n t']|] eqn:E; [|done]. intros [= _ <-]. by apply number_length in E.
Qed.

(** Two parses that agree and leave less than [n] bytes. *)
Definition agree {A} (n : nat) (x y : option (A * string)) : Prop :=
  x = y ∧ ∀ v r, x = Some (v, r) → String.length r < n.

Lemma agree_map {A B} n m (x y : option (A * string)) (f : A → B) :
  n ≤ m → agree n x y →
  agree m ('(a, rest) ← x; Some (f a, rest)) ('(a, rest) ← y; Some (f a, rest)).
Proof.
  intros Hle [<- Hr]. split; [done|]. intros v r. destruct x as [[a r']|]; [|done].
  intros [= _ ->]. specialize (Hr _ _ eq_refl). lia.
Qed.

(** A parse followed by one that depends on what is left. *)
Lemma agree_bind {A B} n m (x y : option (A * string)) (f g : A → string → option (B * string)) :
  agree n x y → (∀ a r, String.length r < n → agree m (f a r) (g a r)) →
  agree m ('(a, rest) ← x; f a rest) ('(a, rest) ← y; g a rest).
Proof.
  intros [<- Hr] Hfg. destruct x as [[a r]|]; [|split; done]. apply Hfg. by eapply Hr.
Qed.

Lemma agree_refl {A} n (x : option (A * string)) :
  (∀ v r, x = Some (v, r) → String.length r < n) → agree n x x.
Proof. done. Qed.

(** Enough fuel gives the result that any more fuel gives, and a value takes at
    least a byte. *)
Lemma value_fuel f : ∀ f' depth s, f ≤ f' →
  (2 * String.length s < f → agree (String.length s) (value f depth s) (value f' depth s)) ∧
  (2 * String.length s < pred f →
    agree (String.length s) (elements f depth s) (elements f' depth s) ∧
    agree (String.length s) (members f depth s) (members f' depth s)).
Proof.
  induction f as [|f IH]; intros [|f'] depth s Hle; try (simpl; lia).
  pose proof (skip_space_length s) as Hs. split; [|intros Hf; split].
  - intros Hf. cbn [value]. set (t := skip_space s) in *. clearbody t.
    destruct (expect "{" t) as [u|] eqn:Eo; [|destruct (expect "[" t) as [u|] eqn:Ea].
    3:{ apply agree_refl. intros v r Hv%scalar_length. lia. }
    + apply expect_length in Eo. pose proof (skip_space_length u).
      destruct (_ <=? _)%Z; [done|]. destruct (expect "}" _) as [w|] eqn:Ec.
      { apply agree_refl. intros v r [= _ <-]. apply expect_length in Ec. lia. }
      eapply (agree_map (String.length u)); [lia|]. apply IH; lia.
    + apply expect_length in Ea. pose proof (skip_space_length u).
      destruct (_ <=? _)%Z; [done|]. destruct (expect "]" _) as [w|] eqn:Ec.
      { apply agree_refl. intros v r [= _ <-]. apply expect_length in Ec. lia. }
      eapply (agree_map (String.length u)); [lia|]. apply IH; lia.
  - cbn [elements]. eapply agree_bind; [apply IH; simpl in Hf; lia|]. intros v r Hr.
    pose proof (skip_space_length r). destruct (expect "," _) as [w|] eqn:Ec.
    + apply expect_length in Ec. eapply (agree_map (String.length w)); [lia|]. apply IH; simpl in Hf; lia.
    + apply agree_refl. intros v' r'. destruct (expect "]" _) as [w|] eqn:Eb; [|done].
      intros [= _ <-]. apply expect_length in Eb. lia.
  - cbn [members]. destruct (expect quote _) as [u|] eqn:Eq; [|done]. bind.
    apply expect_length in Eq. destruct (unquote 0 0 u) as [[k r]|] eqn:Eu; [|done]. bind.
    apply unquote_length in Eu. pose proof (skip_space_length r).
    destruct (expect ":" _) as [w|] eqn:Ec; [|done]. bind. apply expect_length in Ec.
    eapply agree_bind; [apply IH; simpl in Hf; lia|]. intros v r' Hr'.
    pose proof (skip_space_length r'). destruct (expect "," _) as [z|] eqn:Ez.
    + apply expect_length in Ez. eapply (agree_map (String.length z)); [lia|]. apply IH; simpl in Hf; lia.
    + apply agree_refl. intros v' r''. destruct (expect "}" _) as [z|] eqn:Eb; [|done].
      intros [= _ <-]. apply expect_length in Eb. lia.
Qed.

Lemma value_enough f depth s :
  2 * String.length s < f → value f depth s = value (S (2 * String.length s)) depth s.
Proof. intros Hf. symmetry. apply value_fuel; lia. Qed.

(** ** Round trips *)

Lemma str_app_cons a s t : String a s +:+ t = String a (s +:+ t).
Proof. done. Qed.

Lemma str_app_assoc (s t u : string) : (s +:+ t) +:+ u = s +:+ t +:+ u.
Proof. induction s as [|a s IH]; simpl; [done|]. by rewrite !str_app_cons, IH. Qed.

Lemma unquote_ascii a t : (code a < 128)%N →
  unquote 0 0 (encode_ascii a +:+ t) = '(v, rest) ← unquote 0 0 t; Some (String a v, rest).
Proof.
  intros Ha. destruct a as [[] [] [] [] [] [] [] []]; try (vm_compute in Ha; discriminate Ha);
    reflexivity.
Qed.

Lemma str_app_length s t : String.length (s +:+ t) = String.length s + String.length t.
Proof. induction s as [|a s IH]; [done|]. rewrite str_app_cons. simpl. by rewrite IH. Qed.

(** A multi-byte encoding, after its first byte. *)
Lemma scan_tail rs s : utf8_scan rs s = true →
  ∃ t s', s = t +:+ s' ∧ utf8_scan [] s' = true ∧ (∀ x, tail_ok rs (t +:+ x) = true) ∧
    encode_chars (length rs) 0 s = t +:+ encode_chars 0 0 s' ∧
    (∀ x, unquote (length rs) 0 (t +:+ x) = '(v, rest) ← unquote 0 0 x; Some (t +:+ v, rest)) ∧
    String.length t = length rs.
Proof.
  revert s. induction rs as [|[lo hi] rs IH]; intros s Hs.
  - exists "", s. split; [done|]. split; [done|]. split; [done|]. split; [done|]. split; [|done].
    intros x. change (unquote (length []) 0 ("" +:+ x)) with (unquote 0 0 x).
    by destruct (unquote 0 0 x) as [[v r]|].
  - destruct s as [|a s]; [done|]. cbn [utf8_scan] in Hs. apply andb_prop in Hs as [Hin Hs].
    destruct (IH s Hs) as (t & s' & -> & Hs' & Hok & Henc & Hunq & Hlen).
    exists (String a t), s'. split; [done|]. split; [done|]. split.
    { intros x. rewrite str_app_cons. cbn [tail_ok]. unfold code. rewrite Hin. apply Hok. }
    split; [cbn [length encode_chars]; by rewrite Henc|]. split; [|simpl; by rewrite Hlen].
    intros x. rewrite str_app_cons. cbn [length unquote]. rewrite Hunq.
    by destruct (unquote 0 0 x) as [[v r]|].
Qed.

Lemma line_separator_spec a s c : line_separator a s = Some c →
  ∃ b d s', s = String b (String d s') ∧ encode_rune (8224 + (code c - 48)) = String a (String b (String d "")) ∧
    (c = "8"%char ∨ c = "9"%char).
Proof.
  destruct s as [|b [|d s]]; simpl; try done.
  destruct (bool_decide (code a = 226%N)) eqn:Ea; [|done].
  destruct (bool_decide (code b = 128%N)) eqn:Eb; [|done]. simpl.
  apply bool_decide_eq_true in Ea, Eb.
  assert (∀ x n, code x = n → x = ascii_of_N n) as Hcode.
  { intros x n <-. symmetry. apply ascii_N_embedding. }
  apply Hcode in Ea, Eb. subst a b. intros Hc. exists (ascii_of_N 128), d, s.
  destruct (decide (code d = 168%N)) as [->%Hcode|].
  { injection Hc as <-. split; [done|]. split; [done|by left]. }
  destruct (decide (code d = 169%N)) as [->%Hcode|]; [|done].
  injection Hc as <-. split; [done|]. split; [done|by right].
Qed.

Lemma unquote_u202 c x : c = "8"%char ∨ c = "9"%char →
  unquote 0 0 (String backslash ("u202" +:+ String c x)) =
  '(v, rest) ← unquote 0 0 x; Some (encode_rune (8224 + (code c - 48)) +:+ v, rest).
Proof. intros [-> | ->]; reflexivity. Qed.

(** What the encoder writes for valid UTF-8 is read back as it was. *)
Lemma unquote_encode s rest : ValidString s = true →
  unquote 0 0 (encode_chars 0 0 s +:+ String quote rest) = Some (s, rest).
Proof.
  unfold ValidString. remember (String.length s) as n eqn:Hn. revert s Hn.
  induction (lt_wf n) as [n _ IH]. intros [|a s] -> Hs; [done|].
  cbn [utf8_scan] in Hs. destruct (utf8_tail (N_of_ascii a)) as [rs|] eqn:Hrs; [|done].
  destruct (scan_tail rs s Hs) as (t & s' & -> & Hs' & Hok & Henc & Hunq & Hlen).
  assert (String.length s' < String.length (String a (t +:+ s'))) as Hlt.
  { cbn [String.length]. rewrite str_app_length. lia. }
  specialize (IH _ Hlt s' eq_refl Hs'). cbn [encode_chars].
  destruct (code a <? 128)%N eqn:Ha.
  { apply N.ltb_lt in Ha. assert (rs = []) as ->.
    { unfold code in Ha. unfold utf8_tail in Hrs. destruct (N.leb_spec (N_of_ascii a) 127); [|lia].
      by injection Hrs as <-. }
    destruct t; [|done]. change ("" +:+ s') with s'. rewrite str_app_assoc, unquote_ascii, IH by done. done. }
  assert (a ≠ quote ∧ a ≠ backslash ∧ (code a <? 32)%N = false) as (Hq & Hb & Hc).
  { apply N.ltb_ge in Ha. split_and!; [intros ->; vm_compute in Ha; done..|]. apply N.ltb_ge. lia. }
  destruct (line_separator a (t +:+ s')) as [c|] eqn:Hls.
  - destruct (line_separator_spec a _ c Hls) as (b & d & s2 & Hs2 & Hr & Hc89).
    assert (a = ascii_of_N 226) as ->.
    { destruct Hc89 as [-> | ->]; vm_compute in Hr; by injection Hr as <- _ _. }
    vm_compute in Hrs. injection Hrs as <-. destruct t as [|b' [|d' [|]]]; try done.
    change (String b' (String d' s') = String b (String d s2)) in Hs2.
    injection Hs2 as -> -> ->.
    transitivity (unquote 0 0
      (String backslash ("u202" +:+ String c (encode_chars 0 0 s2 +:+ String quote rest)))); [done|].
    rewrite unquote_u202, IH by done. cbn [mbind option_bind]. by rewrite Hr.
  - unfold rune_tail. unfold code at 1. rewrite Hrs. bind.
    pose proof (Hok s') as Hok'. rewrite Hok'. rewrite Henc, str_app_cons, str_app_assoc. cbn [unquote].
    rewrite !decide_False, Hc by done. unfold rune_tail. unfold code. rewrite Hrs. bind.
    rewrite Hok, Hunq, IH. done.
Qed.

(** *** Integers *)

Lemma digit_value_char (x : N) : (x < 10)%N → digit_value (pretty_N_char x) = Some (Z.of_N x).
Proof.
  intros Hx. do 10 (destruct x as [|x] using N.peano_ind; [done|clear IHx; try lia]).
Qed.

Fixpoint all_digits (s : string) : bool :=
  match s with
  | EmptyString => true
  | String a s => bool_decide (is_Some (digit_value a)) && all_digits s
  end.

(** The digits of [x] in front of [s]. *)
Lemma pretty_N_go_spec (x : N) s : all_digits s = true →
  all_digits (pretty_N_go x s) = true ∧
  digits_from 0 (pretty_N_go x s) = digits_from (Z.of_N x) s ∧
  ((0 < x)%N → ∃ a s', pretty_N_go x s = String a s' ∧ a ≠ "0"%char).
Proof.
  revert s. induction (N.lt_wf_0 x) as [x _ IH]. intros s Hs.
  destruct (decide (x = 0%N)) as [->|Hx]; [rewrite pretty_N_go_0; split_and!; done || lia|].
  rewrite pretty_N_go_step by lia.
  pose proof (N.mod_lt x 10 ltac:(lia)) as Hm. pose proof (digit_value_char _ Hm) as Hd.
  destruct (IH (x `div` 10)%N (N.div_lt x 10 ltac:(lia) ltac:(lia)) (String (pretty_N_char (x `mod` 10)) s))
    as (H1 & H2 & H3).
  { cbn [all_digits]. rewrite Hd, Hs. done. }
  split; [done|]. split.
  - rewrite H2. cbn [digits_from]. rewrite Hd. bind. f_equal. pose proof (N.div_mod x 10 ltac:(lia)). lia.
  - intros _. destruct (decide (x `div` 10 = 0)%N) as [Hz|Hz]; [|by apply H3, N.neq_0_lt_0].
    rewrite Hz, pretty_N_go_0. eexists _, _. split; [done|]. intros Hc. rewrite Hc in Hd.
    change (digit_value "0") with (Some 0%Z) in Hd. apply (inj Some) in Hd. pose proof (N.div_mod x 10 ltac:(lia)). lia.
Qed.

Lemma digit_run_digits s rest :
  all_digits s = true → (∀ a t, rest = String a t → digit_value a = None) →
  digit_run (s +:+ rest) = (s, rest).
Proof.
  intros Hs Hrest. induction s as [|a s IH].
  - change ("" +:+ rest) with rest. destruct rest as [|a t]; [done|]. simpl. by rewrite (Hrest a t).
  - cbn [all_digits] in Hs. apply andb_prop in Hs as [[d Hd]%bool_decide_eq_true Hs].
    rewrite str_app_cons. cbn [digit_run]. by rewrite Hd, IH.
Qed.

Lemma pretty_positive_spec (p : positive) :
  ∃ a s, pretty p = String a s ∧ a ≠ "0"%char ∧ is_Some (digit_value a) ∧ all_digits (pretty p) = true ∧
    digits (pretty p) = Some (Z.pos p).
Proof.
  unfold pretty, pretty_positive, pretty, pretty_N. rewrite decide_False by done.
  destruct (pretty_N_go_spec (N.pos p) "") as (H1 & H2 & H3); [done|].
  destruct H3 as (a & s & E & Ha); [lia|]. exists a, s. rewrite E in *.
  cbn [all_digits] in H1. pose proof H1 as [Hd _]%andb_prop. apply bool_decide_eq_true in Hd.
  split_and!; [done..|]. unfold digits. by rewrite H2.
Qed.

(** A byte that cannot continue an integer. *)
Definition ends_number (rest : string) : bool :=
  match rest with
  | EmptyString => true
  | String a _ => bool_decide (digit_value a = None) && negb (bool_decide (a ∈ ["."; "e"; "E"]%char))
  end.

Lemma ends_number_spec rest : ends_number rest = true →
  number_frac rest = Some ("", rest) ∧ number_exp rest = Some ("", rest) ∧
  (∀ a t, rest = String a t → digit_value a = None).
Proof.
  destruct rest as [|a t]; [done|]. simpl. intros [Hd Ha]%andb_prop.
  apply bool_decide_eq_true in Hd. apply negb_true_iff, bool_decide_eq_false in Ha.
  unfold number_frac. simpl. rewrite decide_False by set_solver.
  rewrite !bool_decide_false by set_solver. split_and!; [done|done|]. by intros ? ? [= <- <-].
Qed.

Lemma number_positive (p : positive) rest : ends_number rest = true →
  number_int (pretty p +:+ rest) = Some (pretty p, rest).
Proof.
  intros Hr. destruct (ends_number_spec rest Hr) as (_ & _ & Hd).
  destruct (pretty_positive_spec p) as (a & s & E & Ha & _ & Hall & _).
  unfold number_int. rewrite E at 1. rewrite str_app_cons. cbn [expect]. rewrite decide_False by done.
  unfold digit_run1. rewrite digit_run_digits by done. by rewrite E.
Qed.

Lemma str_app_nil s : s +:+ "" = s.
Proof. induction s as [|a s IH]; [done|]. by rewrite str_app_cons, IH. Qed.

(** A decimal integer is read as the literal it was written as, and the literal
    as the integer. *)
Lemma number_pretty (z : Z) rest : ends_number rest = true →
  number (pretty z +:+ rest) = Some (pretty z, rest).
Proof.
  intros Hr. destruct (ends_number_spec rest Hr) as (Hf & He & Hd). unfold number.
  destruct z as [|p|p].
  - change (pretty 0%Z +:+ rest) with (String "0" rest). cbn [expect number_int].
    rewrite decide_False by done. unfold number_int. cbn [expect]. rewrite decide_True by done. bind.
    rewrite Hf. bind. rewrite He. done.
  - change (pretty (Z.pos p)) with (pretty p).
    destruct (pretty_positive_spec p) as (a & s & E & _ & [d Ha] & _ & _).
    assert (expect "-" (pretty p +:+ rest) = None) as ->.
    { rewrite E, str_app_cons. cbn [expect]. rewrite decide_False; [done|]. by intros ->. }
    rewrite number_positive by done. bind. rewrite Hf. bind. rewrite He. bind. by rewrite !str_app_nil.
  - change (pretty (Z.neg p)) with (String "-" (pretty p)). rewrite str_app_cons. cbn [expect].
    rewrite decide_True by done. rewrite number_positive by done. bind. rewrite Hf. bind. rewrite He.
    bind. by rewrite !str_app_nil.
Qed.

Lemma Atoi_pretty (z : Z) : (int64_min ≤ z ≤ int64_max)%Z → Atoi (pretty z) = Some z.
Proof.
  intros Hz. assert (in_int64 z = Some z) as Hin.
  { unfold in_int64. destruct (Z.leb_spec int64_min z), (Z.leb_spec z int64_max); done || lia. }
  unfold Atoi. destruct z as [|p|p]; [done|..].
  - change (pretty (Z.pos p)) with (pretty p).
    destruct (pretty_positive_spec p) as (a & s & E & _ & [d Ha] & _ & Hd). rewrite E.
    rewrite !decide_False by (by intros ->). rewrite <-E, Hd. done.
  - change (pretty (Z.neg p)) with (String "-" (pretty p)). cbn match. rewrite decide_True by done.
    destruct (pretty_positive_spec p) as (a & s & E & _ & _ & _ & ->). done.
Qed.

(** *** Objects *)

(** The text [e] is read as the value [v], whatever non-digit comes next. *)
Definition reads (e : string) (v : json) : Prop :=
  ∀ f depth rest, ends_number rest = true → value (S f) depth (e +:+ rest) = Some (v, rest).

Lemma reads_scalar e v a t :
  e = String a t → bool_decide (code a ∈ [32; 9; 10; 13]%N) = false → a ∉ ["{"; "["]%char →
  (∀ rest, ends_number rest = true → scalar (e +:+ rest) = Some (v, rest)) → reads e v.
Proof.
  intros -> Hsp Ha Hs f depth rest Hr. cbn [value]. rewrite str_app_cons. cbn [skip_space].
  rewrite Hsp. cbn [expect]. rewrite !decide_False by set_solver. by apply Hs.
Qed.

Lemma after_prefix_ne a b p s : a ≠ b → after_prefix (String a p) (String b s) = None.
Proof. intros Hne. simpl. by rewrite decide_False. Qed.

(** Between quotes, a text that unquotes to [s] wherever the closing quote is. *)
Lemma reads_literal e s :
  (∀ rest, unquote 0 0 (e +:+ String quote rest) = Some (s, rest)) →
  reads (String quote (e +:+ String quote "")) (JString s).
Proof.
  intros He. eapply reads_scalar; [done|done|set_solver|]. intros rest _. unfold scalar.
  rewrite str_app_cons, !after_prefix_ne by done. cbn [expect]. rewrite decide_True by done.
  rewrite str_app_assoc. change (String quote "" +:+ rest) with (String quote rest). by rewrite He.
Qed.

Lemma reads_string s : ValidString s = true → reads (encode_string s) (JString s).
Proof. intros Hs. apply reads_literal. intros rest. by apply unquote_encode. Qed.

Lemma reads_bool b : reads (encode_bool b) (JBool b).
Proof. destruct b; eapply reads_scalar; done || set_solver. Qed.

Lemma scalar_number n a t rest :
  n = String a t → a ∉ ["t"; "f"; "n"; quote]%char → number (n +:+ rest) = Some (n, rest) →
  scalar (n +:+ rest) = Some (JNumber n, rest).
Proof.
  intros -> Ha Hn. unfold scalar. rewrite str_app_cons, !after_prefix_ne by set_solver.
  cbn [expect]. rewrite decide_False by set_solver. by rewrite <-str_app_cons, Hn.
Qed.

(** A text that starts with a digit or a minus sign and is one number. *)
Lemma reads_number n a t :
  n = String a t → is_Some (digit_value a) ∨ a = "-"%char →
  (∀ rest, ends_number rest = true → number (n +:+ rest) = Some (n, rest)) → reads n (JNumber n).
Proof.
  intros E Ha Hn.
  assert (∀ l : list ascii, (∀ b, b ∈ l → digit_value b = None ∧ b ≠ "-"%char) → a ∉ l) as Hno.
  { intros l Hl Hin. destruct (Hl a Hin), Ha as [[? ?]|?]; congruence. }
  eapply (reads_scalar _ _ a t E).
  - apply bool_decide_eq_false. intros Hin. apply (Hno (ascii_of_N <$> [32; 9; 10; 13]%N)).
    + apply Forall_forall. repeat constructor; done.
    + apply list_elem_of_fmap. exists (code a). split; [symmetry; apply ascii_N_embedding|done].
  - apply Hno, Forall_forall. repeat constructor; done.
  - intros rest Hr. apply (scalar_number _ a t rest E); [|by apply Hn].
    apply Hno, Forall_forall. repeat constructor; done.
Qed.

Lemma reads_int (z : Z) : reads (pretty z) (JNumber (pretty z)).
Proof.
  assert (∃ a t, pretty z = String a t ∧ (is_Some (digit_value a) ∨ a = "-"%char)) as (a & t & E & Ha).
  { destruct z as [|p|p].
    - eexists _, _. split; [reflexivity|]. left. eexists. reflexivity.
    - destruct (pretty_positive_spec p) as (a & t & E & _ & Ha & _). exists a, t. split; [exact E|by left].
    - eexists _, _. split; [reflexivity|]. by right. }
  apply (reads_number _ a t E Ha). intros rest Hr. by apply number_pretty.
Qed.

(** *** Nested values *)

(** The text [e] is read as [v], with the fuel its length gives and in at most
    [d] levels, whatever non-digit comes next. *)
Definition encodes (d : Z) (e : string) (v : json) : Prop :=
  e ≠ "" ∧ ∀ f depth rest, S (2 * String.length e) ≤ f → (depth + d ≤ maxNestingDepth)%Z →
    ends_number rest = true → value f depth (e +:+ rest) = Some (v, rest).

Lemma reads_encodes e v : reads e v → encodes 0 e v.
Proof.
  intros Hr. split; [intros ->; specialize (Hr 0 0%Z "" eq_refl); vm_compute in Hr; discriminate Hr|].
  intros [|f] depth rest Hf _ Hrest; [lia|]. by apply Hr.
Qed.

Lemma encodes_mono d d' e v : (d ≤ d')%Z → encodes d e v → encodes d' e v.
Proof. intros Hd [Hne He]. split; [done|]. intros f depth rest Hf Hdep. apply He; [done|lia]. Qed.

Lemma encodes_length d e v : encodes d e v → 1 ≤ String.length e.
Proof. intros [He _]. destruct e; [done|simpl; lia]. Qed.

(** No value starts like the end of an array. *)
Lemma value_no_bracket f depth s r : expect "]" (skip_space s) = Some r → value f depth s = None.
Proof.
  destruct f as [|f]; [done|]. cbn [value]. destruct (skip_space s) as [|a t]; [done|]. cbn [expect].
  destruct (decide (a = "]"%char)) as [->|]; done.
Qed.

Lemma concat_cons2 e e' (l : list string) :
  String.concat "," (e :: e' :: l) = e +:+ "," +:+ String.concat "," (e' :: l).
Proof. done. Qed.

Lemma elements_encode d es vs f depth rest :
  Forall2 (encodes d) es vs → es ≠ [] → 2 * String.length (String.concat "," es) + 2 ≤ f →
  (depth + d ≤ maxNestingDepth)%Z →
  elements f depth (String.concat "," es +:+ "]" +:+ rest) = Some (vs, rest).
Proof.
  intros Hes. revert f. induction Hes as [|e v es vs [Hne He] Hes IH]; intros f Hnil Hf Hd; [done|].
  destruct f as [|f]; [lia|]. destruct es as [|e' es].
  - inversion Hes; subst. simpl in Hf. cbn [elements String.concat]. rewrite He by (done || lia). bind. done.
  - rewrite concat_cons2 in *. rewrite !str_app_length in Hf. change (String.length ",") with 1 in Hf.
    cbn [elements]. rewrite !str_app_assoc, He by (done || lia). bind.
    change (expect "," (skip_space ("," +:+ ?x))) with (Some x). cbn match.
    rewrite IH by (done || lia). done.
Qed.

Lemma encodes_array d es vs :
  (0 ≤ d)%Z → Forall2 (encodes d) es vs → encodes (d + 1) (brackets es) (JArray vs).
Proof.
  intros Hd0 Hes. split; [done|]. unfold brackets. intros f depth rest Hf Hd Hrest.
  destruct f as [|f]; [lia|]. rewrite !str_app_length in Hf.
  change (String.length "[") with 1 in Hf. change (String.length "]") with 1 in Hf.
  cbn [value]. rewrite !str_app_assoc.
  change (skip_space ("[" +:+ ?x)) with ("[" +:+ x). change (expect "{" ("[" +:+ ?x)) with (@None string).
  change (expect "[" ("[" +:+ ?x)) with (Some x). cbn match.
  rewrite (proj2 (Z.leb_gt maxNestingDepth depth)) by lia.
  destruct Hes as [|e v es vs He Hes]; [done|].
  assert (expect "]" (skip_space (String.concat "," (e :: es) +:+ "]" +:+ rest)) = None) as ->.
  { destruct (expect "]" _) as [r|] eqn:E; [|done].
    assert (∃ tail, ends_number tail = true ∧ String.concat "," (e :: es) +:+ "]" +:+ rest = e +:+ tail)
      as (tail & Ht & Etail).
    { destruct es as [|e' es]; [by exists ("]" +:+ rest)|].
      rewrite concat_cons2, !str_app_assoc. by exists ("," +:+ String.concat "," (e' :: es) +:+ "]" +:+ rest). }
    rewrite Etail in E. apply (value_no_bracket (S (2 * String.length e)) depth) in E.
    rewrite (proj2 He) in E by (done || lia). done. }
  rewrite (elements_encode d (e :: es) (v :: vs)) by (done || lia || by constructor). done.
Qed.

(** The fields of an encoded object are read back in order. *)
Lemma members_encode d (l : list (string * string)) (vs : list (string * json)) f depth rest :
  Forall2 (λ kt kv, kt.1 = kv.1 ∧ ValidString kt.1 = true ∧ encodes d kt.2 kv.2) l vs →
  l ≠ [] → 2 * String.length (encode_fields l) + 2 ≤ f → (depth + d ≤ maxNestingDepth)%Z →
  members f depth (encode_fields l +:+ "}" +:+ rest) = Some (vs, rest).
Proof.
  intros Hl. revert f. induction Hl as [|[k t] [k' v] l vs (Hk & Hval & Henc) Hl IH]; intros f Hne Hf Hd;
    [done|]. simpl in Hk, Hval, Henc. subst k'. destruct f as [|f]; [lia|].
  assert (∀ tail, ends_number tail = true → S (2 * String.length t) ≤ f →
    members (S f) depth (encode_string k +:+ ":" +:+ t +:+ tail) =
    match expect "," (skip_space tail) with
    | Some rest => '(l, rest) ← members f depth rest; Some ((k, v) :: l, rest)
    | None => rest ← expect "}" (skip_space tail); Some ([(k, v)], rest)
    end) as Hstep.
  { intros tail Htail Ht. cbn [members]. unfold encode_string. rewrite str_app_cons.
    change (skip_space (String quote ?x)) with (String quote x). cbn [expect].
    rewrite decide_True by done. bind. rewrite str_app_assoc.
    change (String quote "" +:+ ?x) with (String quote x). rewrite unquote_encode by done. bind.
    change (expect ":" (skip_space (":" +:+ t +:+ tail))) with (Some (t +:+ tail)). bind.
    rewrite (proj2 Henc) by done. done. }
  destruct l as [|kt l].
  - inversion Hl; subst. cbn [encode_fields] in *. rewrite !str_app_length in Hf.
    rewrite !str_app_assoc, Hstep by (done || simpl in Hf; lia). done.
  - change (encode_fields ((k, t) :: kt :: l)) with
      (encode_string k +:+ ":" +:+ t +:+ "," +:+ encode_fields (kt :: l)) in *.
    rewrite !str_app_length in Hf. change (String.length ":") with 1 in Hf. change (String.length ",") with 1 in Hf.
    rewrite !str_app_assoc, Hstep by (done || lia).
    change (expect "," (skip_space ("," +:+ ?x))) with (Some x). cbn match.
    rewrite IH by (done || lia). done.
Qed.

Lemma encodes_object d l vs :
  (0 ≤ d)%Z → Forall2 (λ kt kv, kt.1 = kv.1 ∧ ValidString kt.1 = true ∧ encodes d kt.2 kv.2) l vs → l ≠ [] →
  encodes (d + 1) (encode_object l) (JObject vs).
Proof.
  intros Hd0 Hl Hne. split; [done|]. unfold encode_object. intros f depth rest Hf Hd Hrest.
  destruct f as [|f]; [lia|]. rewrite !str_app_length in Hf. simpl in Hf.
  cbn [value]. rewrite !str_app_assoc.
  change (skip_space ("{" +:+ ?x)) with ("{" +:+ x). change (expect "{" ("{" +:+ ?x)) with (Some x).
  cbn match. rewrite (proj2 (Z.leb_gt maxNestingDepth depth)) by lia.
  assert (∀ x, expect "}" (skip_space (encode_fields l +:+ x)) = None) as ->.
  { intros x. destruct l as [|[k t] [|kt l]]; done. }
  rewrite (members_encode d l vs) by (done || lia). done.
Qed.

(** A text that encodes a value is read as it, alone or followed by white space. *)
Lemma encodes_first d e v rest :
  encodes d e v → (d ≤ maxNestingDepth)%Z → ends_number rest = true → first_value (e +:+ rest) = Some v.
Proof.
  intros [_ He] Hd Hr. unfold first_value. rewrite He; [done| |lia|done]. rewrite str_app_length. lia.
Qed.

Lemma encodes_whole d e v rest :
  encodes d e v → (d ≤ maxNestingDepth)%Z → ends_number rest = true → skip_space rest = "" →
  whole_value (e +:+ rest) = Some v.
Proof.
  intros [_ He] Hd Hr Hsp. unfold whole_value. rewrite He; [|rewrite str_app_length; lia|lia|done].
  bind. by rewrite decide_True.
Qed.

(** An encoded struct is read back field by field. *)
Lemma object_encodes l vs :
  Forall2 (λ kt kv, kt.1 = kv.1 ∧ ValidString kt.1 = true ∧ reads kt.2 kv.2) l vs → l ≠ [] →
  encodes 1 (encode_object l) (JObject vs).
Proof.
  intros Hl. apply (encodes_object 0); [done|]. eapply Forall2_impl; [exact Hl|].
  intros [k t] [k' v] (? & ? & ?). split_and!; [done|done|by apply reads_encodes].
Qed.

Lemma whole_value_object l vs :
  Forall2 (λ kt kv, kt.1 = kv.1 ∧ ValidString kt.1 = true ∧ reads kt.2 kv.2) l vs → l ≠ [] →
  whole_value (encode_object l) = Some (JObject vs).
Proof.
  intros Hl Hne. rewrite <-(str_app_nil (encode_object l)).
  by apply (encodes_whole 1 _ _ "" (object_encodes l vs Hl Hne)).
Qed.

Lemma first_value_object l vs rest :
  Forall2 (λ kt kv, kt.1 = kv.1 ∧ ValidString kt.1 = true ∧ reads kt.2 kv.2) l vs → l ≠ [] →
  ends_number rest = true → first_value (encode_object l +:+ rest) = Some (JObject vs).
Proof. intros Hl Hne. by apply (encodes_first 1 _ _ rest (object_encodes l vs Hl Hne)). Qed.
End Json.
