(* ===== verification/StateFile.v ===== *)
(** The state file of a Raft node byte by byte: [statePath], [loadState] and
    [saveState] of [src/internal/raft/state.go] over a directory of files, and
    that they implement the file that [Raft] keeps as a value. *)
From S2P Require Import Prelude GoStrings Json Raft.

Module StateFile.
Import Raft Json.

(** ** The file *)

Definition statePath (stateDir id : string) : string := stateDir +:+ "/raft-" +:+ id +:+ ".json".

(** [json.Marshal(n.ps)] and [json.Unmarshal(data, &n.ps)]. *)
Definition marshal (p : persistentState) : string :=
  encode_object [("current_term", pretty (CurrentTerm p)); ("voted_for", encode_string (VotedFor p))].

Definition set_field (key : string) (v : json) (p : persistentState) : option persistentState :=
  if same_name key "current_term" then
    t ← to_int64 v (CurrentTerm p); Some (mk_ps t (VotedFor p))
  else if same_name key "voted_for" then
    c ← to_string v (VotedFor p); Some (mk_ps (CurrentTerm p) c)
  else Some p.

Definition unmarshal (data : string) (old : persistentState) : option persistentState :=
  v ← whole_value data; to_struct set_field v old.

(** [loadState] of a fresh node in a directory with the files [fs]; [readable] says whether an existing file can be
    read. *)
Definition loadFile (fs : gmap string string) (readable : bool) (stateDir id : string)
    : option persistentState :=
  match fs !! statePath stateDir id with
  | None => Some (mk_ps 0 "")
  | Some data => if readable then unmarshal data (mk_ps 0 "") else None
  end.

(** How far [saveState] gets, by an error or a crash: the temporary file is not
    or only partly written, it is not renamed, or all went well. *)
Inductive progress :=
| WriteStopped (partial : option string)
| RenameStopped
| Saved.

Definition saveFile (how : progress) (stateDir id : string) (p : persistentState)
    (fs : gmap string string) : gmap string string :=
  let path := statePath stateDir id in
  let tmp := path +:+ ".tmp" in
  match how with
  | WriteStopped None => fs
  | WriteStopped (Some partial) => <[tmp := partial]> fs
  | RenameStopped => <[tmp := marshal p]> fs
  | Saved => <[path := marshal p]> (delete tmp fs)
  end.

(** What the file of a node reads as. *)
Definition as_file (fs : gmap string string) (stateDir id : string) : stateFile :=
  match fs !! statePath stateDir id with
  | None => NotExist
  | Some data =>
      match unmarshal data (mk_ps 0 "") with
      | Some p => Stored p
      | None => Malformed
      end
  end.

(** ** Paths *)

Lemma str_app_inj_l (s t u : string) : s +:+ t = s +:+ u → t = u.
Proof. induction s as [|a s IH]; [done|]. rewrite !str_app_cons. intros [= H]. auto. Qed.

Lemma str_app_inj_r (s t u : string) : s +:+ u = t +:+ u → s = t.
Proof.
  intros H. assert (String.length s = String.length t) as Hlen.
  { apply (f_equal String.length) in H. rewrite !str_app_length in H. lia. }
  revert t H Hlen. induction s as [|a s IH]; intros [|b t] H Hlen; simpl in Hlen; try done || lia.
  rewrite !str_app_cons in H. injection H as -> H. f_equal. apply IH; [done|lia].
Qed.

Lemma statePath_inj d i j : statePath d i = statePath d j → i = j.
Proof. unfold statePath. intros H%str_app_inj_l%str_app_inj_l. by apply str_app_inj_r in H. Qed.

(** A temporary name is not the name of a state file. *)
Lemma tmp_not_json s t : s +:+ ".tmp" ≠ t +:+ ".json".
Proof.
  intros H. apply (f_equal (λ s, last (String.list_ascii_of_string s))) in H.
  assert (∀ x a b, last (String.list_ascii_of_string (x +:+ String a b)) =
    last (String.list_ascii_of_string (String a b))) as Hlast.
  { intros x a b. induction x as [|c x IH]; [done|]. rewrite str_app_cons. cbn [String.list_ascii_of_string].
    rewrite last_cons, IH. destruct (last (String.list_ascii_of_string (String a b))) eqn:E; [done|].
    by apply last_None in E. }
  by rewrite !Hlast in H.
Qed.

Lemma tmp_not_path d i j : statePath d i +:+ ".tmp" ≠ statePath d j.
Proof. unfold statePath at 2. rewrite <-!str_app_assoc. apply tmp_not_json. Qed.

(** ** The file holds what was saved *)

(** A state the node can have: the term is an [int64], and the identifiers it
    may have voted for are valid UTF-8. *)
Definition storable (p : persistentState) : Prop :=
  (int64_min ≤ CurrentTerm p ≤ int64_max)%Z ∧ ValidString (VotedFor p) = true.

Lemma unmarshal_marshal p : storable p → unmarshal (marshal p) (mk_ps 0 "") = Some p.
Proof.
  intros [Ht Hv]. unfold unmarshal, marshal.
  rewrite (whole_value_object _
    [("current_term", JNumber (pretty (CurrentTerm p))); ("voted_for", JString (VotedFor p))]); [|..|done].
  - cbn [mbind option_bind to_struct foldl fst snd]. unfold set_field.
    change (same_name "current_term" "current_term") with true.
    change (same_name "voted_for" "current_term") with false.
    change (same_name "voted_for" "voted_for") with true. cbn match. cbn [to_int64 to_string].
    rewrite Atoi_pretty by done. by destruct p.
  - repeat constructor; [apply reads_int|by apply reads_string].
Qed.

Lemma saveFile_other how d i j p fs : i ≠ j →
  saveFile how d i p fs !! statePath d j = fs !! statePath d j.
Proof.
  intros Hij. assert (statePath d i ≠ statePath d j) as Hne by (by intros H%statePath_inj).
  pose proof (tmp_not_path d i j).
  destruct how as [[partial|]| |]; simpl; rewrite ?lookup_insert_ne, ?lookup_delete_ne by done; done.
Qed.

Definition is_saved (how : progress) : bool := match how with Saved => true | _ => false end.

Lemma saveFile_own how d i p fs :
  saveFile how d i p fs !! statePath d i = if is_saved how then Some (marshal p) else fs !! statePath d i.
Proof.
  pose proof (tmp_not_path d i i).
  destruct how as [[partial|]| |]; simpl; rewrite ?lookup_insert_ne by done; [done..|].
  by rewrite lookup_insert_eq.
Qed.

(** C12: the state file on disk. Let the state to save have a vote in UTF-8 and
    a term that is an [int64]. A save that is stopped by an error or a crash at
    any point leaves the node's file as it was, one that completes makes it read
    as exactly the saved term and vote, which is what the abstract file of
    [Raft.saveState] says; a restart then loads what [Raft.loadState] loads; and
    the files of the other nodes in the directory stay as they are. *)
Theorem state_file_refines (fs : gmap string string) (how : progress) (stateDir : string) (n : RaftNode)
    (Hok : storable (ps n)) (Hdisk : as_file fs stateDir (id n) = disk n) :
  let fs' := saveFile how stateDir (id n) (ps n) fs in
  let n' := saveState (is_saved how) n in
  as_file fs' stateDir (id n) = disk n' ∧
  loadFile fs' true stateDir (id n) = ps <$> loadState n' ∧
  (∀ j, j ≠ id n → fs' !! statePath stateDir j = fs !! statePath stateDir j).
Proof.
  intros fs' n'.
  assert (as_file fs' stateDir (id n) = disk n') as Has.
  { unfold as_file, fs', n'. rewrite saveFile_own. destruct (is_saved how); [|exact Hdisk].
    by rewrite unmarshal_marshal. }
  split; [done|]. split; [|intros j Hj; by apply saveFile_other].
  revert Has. unfold as_file, loadFile, loadState. destruct (fs' !! _) as [data|].
  - destruct (unmarshal data _); intros <-; done.
  - by intros <-.
Qed.

(** A node that voted in term 3 saves the vote of term 4 over the old file, next
    to the file of another node. *)
Definition voted3 : RaftNode :=
  mk_node "node1" [] Follower "" (mk_ps 4 "node2") [] time_zero (Stored (mk_ps 3 "node1")).
Definition two_files : gmap string string :=
  <[statePath "/tmp/raft" "node1" := marshal (mk_ps 3 "node1")]>
    {[statePath "/tmp/raft" "node2" := marshal (mk_ps 3 "node1")]}.

Lemma state_file_refines_witness :
  as_file (saveFile Saved "/tmp/raft" "node1" (mk_ps 4 "node2") two_files) "/tmp/raft" "node1"
    = Stored (mk_ps 4 "node2") ∧
  as_file (saveFile RenameStopped "/tmp/raft" "node1" (mk_ps 4 "node2") two_files) "/tmp/raft" "node1"
    = Stored (mk_ps 3 "node1").
Proof.
  assert (storable (ps voted3)) as Hok by (split; [vm_compute; split; discriminate|reflexivity]).
  assert (as_file two_files "/tmp/raft" "node1" = disk voted3) as Hd by (vm_compute; reflexivity).
  split.
  - exact (proj1 (state_file_refines two_files Saved "/tmp/raft" voted3 Hok Hd)).
  - exact (proj1 (state_file_refines two_files RenameStopped "/tmp/raft" voted3 Hok Hd)).
Defined.
End StateFile.
