(* ===== verification/GoFmt.v ===== *)
(** The parts of Go's [fmt] the repository uses beyond plain [%s] and [%d]:
    scanning integers with [Fscanf], and quoting a string with [%q]. *)
From S2P Require Import Prelude GoStrings Json.
From Stdlib Require Import Ascii.

Module GoFmt.
Import Json.

Definition newline : ascii := ascii_of_N 10.
Definition nl : string := String newline "".

(** ** Fscanf *)

(** The next rune of the input, as its bytes, and the rest. *)
Definition read_rune (s : string) : option (string * string) :=
  match s with
  | EmptyString => None
  | String a t =>
      let n := S (default 0 (rune_tail a t)) in
      Some (slice_to s n, drop_bytes n s)
  end.

Definition is_space (r : string) : bool :=
  bool_decide (String.list_ascii_of_string r ∈ space_encodings).

(** Passes over white space other than newlines; a space is one rune, so the
    length of the input is fuel enough. *)
Fixpoint skip_blanks (fuel : nat) (s : string) : string :=
  match fuel with
  | 0 => s
  | S fuel =>
      match read_rune s with
      | Some (r, rest) => if is_space r && negb (bool_decide (r = nl)) then skip_blanks fuel rest else s
      | None => s
      end
  end.

(** White space of the format: the newlines in it, whether blanks follow the
    last one, and the rest of the format. *)
Fixpoint format_spaces (newlines : nat) (trailing : bool) (f : string) : nat * bool * string :=
  match f with
  | String a f' =>
      if is_space (String a "") then
        if decide (a = newline) then format_spaces (S newlines) false f'
        else format_spaces newlines true f'
      else (newlines, trailing, f)
  | EmptyString => (newlines, trailing, f)
  end.

(** Each newline of the format matches blanks and then a newline or the end of
    the input. *)
Fixpoint match_newlines (n : nat) (s : string) : option string :=
  match n with
  | 0 => Some s
  | S n =>
      match read_rune (skip_blanks (String.length s) s) with
      | Some (r, rest) => if decide (r = nl) then match_newlines n rest else None
      | None => match_newlines n ""
      end
  end.

(** Blanks of the format after its newlines, or alone. *)
Definition match_trailing (alone : bool) (s : string) : option string :=
  match read_rune s with
  | None => Some s
  | Some (r, _) =>
      if alone && (negb (is_space r) || bool_decide (r = nl)) then None
      else Some (skip_blanks (String.length s) s)
  end.

(** [advance]: matches the format against the input up to the next verb. An
    error stops the scan; a mismatch makes [advance] return -1. The formats of
    the repository are ASCII and have no doubled percent sign. *)
Inductive advanced :=
| Stop
| Mismatch
| At (moved : bool) (f s : string).

Fixpoint advance (fuel : nat) (moved : bool) (f s : string) : advanced :=
  match fuel, f with
  | 0, _ | _, EmptyString => At moved f s
  | S fuel, String a f' =>
      if is_space (String a "") then
        let '(newlines, trailing, rest) := format_spaces 0 false f in
        match match_newlines newlines s with
        | None => Stop
        | Some s =>
            if trailing then
              match match_trailing (bool_decide (newlines = 0)) s with
              | None => Stop
              | Some s => advance fuel true rest s
              end
            else advance fuel true rest s
        end
      else if decide (a = "%"%char) then
        match f' with EmptyString => Stop | _ => At moved f s end
      else
        match read_rune s with
        | None => Stop
        | Some (r, rest) =>
            if decide (r = String a "") then advance fuel true f' rest else Mismatch
        end
  end.

(** [SkipSpace]: a newline is an error, but for a carriage return and a newline
    together. *)
Fixpoint SkipSpace (fuel : nat) (s : string) : option string :=
  match fuel with
  | 0 => Some s
  | S fuel =>
      match read_rune s with
      | None => Some s
      | Some (r, rest) =>
          if decide (r = nl) then None
          else if bool_decide (r = String (ascii_of_N 13) "") && HasPrefix rest nl then
            SkipSpace fuel (drop_bytes 1 rest)
          else if is_space r then SkipSpace fuel rest
          else Some s
      end
  end.

(** [scanOne] into an [int64]: a decimal integer for [%d]. Any letter that is
    not a verb of integers is an error; the other verbs of integers do not occur
    in the repository. *)
Definition scan_int (verb : ascii) (s : string) : option (Z * string) :=
  s ← SkipSpace (String.length s) s;
  if decide (s = "") then None
  else if decide (verb = "d"%char) then
    let '(sign, s) :=
      match expect "+" s, expect "-" s with
      | Some s, _ => ("+", s)
      | None, Some s => ("-", s)
      | None, None => ("", s)
      end in
    '(d, s) ← digit_run1 s;
    z ← Atoi (sign +:+ d);
    Some (z, s)
  else None.

(** [doScanf] with [n] operands, verbs without a width: the operands set before
    the scan ends or fails. Every round passes over a byte of the format. *)
Fixpoint scanf (fuel n : nat) (f s : string) : list Z :=
  match fuel with
  | 0 => []
  | S fuel =>
      match advance (String.length f) false f s with
      | Stop | Mismatch => []
      | At moved f s =>
          match f with
          | String "%" (String verb f) =>
              match n, SkipSpace (String.length s) s with
              | S n, Some s =>
                  match scan_int verb s with
                  | Some (z, s) => z :: scanf fuel n f s
                  | None => []
                  end
              | _, _ => []
              end
          | _ => []
          end
      end
  end.

Definition Fscanf (n : nat) (f s : string) : list Z := scanf (S (String.length f)) n f s.

(** *** The scan stops at a bad verb *)

Definition no_percent (f : string) : Prop := Forall (λ a, a ≠ "%"%char) (String.list_ascii_of_string f).

Lemma format_spaces_suffix n t lit v : no_percent lit →
  ∃ n' t' lit', format_spaces n t (lit +:+ String "%" v) = (n', t', lit' +:+ String "%" v) ∧
    no_percent lit' ∧ String.length lit' ≤ String.length lit ∧
    (∀ a rest, lit = String a rest → is_space (String a "") = true → String.length lit' < String.length lit).
Proof.
  revert n t. induction lit as [|a lit IH]; intros n t Hlit.
  { exists n, t, "". split; [done|]. split; [done|]. split; [done|]. intros; discriminate. }
  apply Forall_cons in Hlit as [Ha Hlit]. rewrite str_app_cons. cbn [format_spaces].
  destruct (is_space (String a "")) eqn:Hsp.
  - assert (∀ n t, ∃ n' t' lit', format_spaces n t (lit +:+ String "%" v) = (n', t', lit' +:+ String "%" v) ∧
      no_percent lit' ∧ String.length lit' ≤ String.length (String a lit) ∧
      (∀ b rest, String a lit = String b rest → is_space (String b "") = true →
        String.length lit' < String.length (String a lit))) as Hgo.
    { intros n0 t0. destruct (IH n0 t0 Hlit) as (n' & t' & lit' & E & Hno & Hle & _).
      exists n', t', lit'. split; [done|]. split; [done|]. split; [simpl; lia|]. intros. simpl. lia. }
    destruct (decide (a = newline)); apply Hgo.
  - exists n, t, (String a lit). split; [done|]. split; [by constructor|]. split; [done|].
    intros b rest [= <- <-] Hb. congruence.
Qed.

(** [advance] gets no further than the next verb. *)
Lemma advance_to_verb fuel moved lit b v s m f' s' :
  no_percent lit → String.length lit ≤ fuel →
  advance fuel moved (lit +:+ String "%" (String b v)) s = At m f' s' → f' = String "%" (String b v).
Proof.
  revert moved lit s. induction fuel as [|fuel IH]; intros moved lit s Hlit Hfuel.
  { destruct lit; [|simpl in Hfuel; lia]. by intros [= _ <- _]. }
  destruct lit as [|a lit]; [by intros [= _ <- _]|].
  pose proof Hlit as [Ha Hrest]%Forall_cons. rewrite str_app_cons. cbn [advance].
  destruct (is_space (String a "")) eqn:Hsp.
  - destruct (format_spaces_suffix 0 false (String a lit) (String b v) Hlit)
      as (n' & t' & lit' & E & Hno & _ & Hlt). rewrite str_app_cons in E. rewrite E.
    specialize (Hlt a lit eq_refl Hsp). simpl in Hlt, Hfuel.
    destruct (match_newlines n' s); [|done]. destruct t'; [destruct (match_trailing _ _); [|done]|];
      apply IH; done || lia.
  - rewrite decide_False by done. destruct (read_rune s) as [[r rest]|]; [|done].
    destruct (decide _); [|done]. apply IH; [done|]. simpl in Hfuel. lia.
Qed.

Lemma Fscanf_bad_verb n lit b v s :
  no_percent lit → b ≠ "d"%char → Fscanf n (lit +:+ String "%" (String b v)) s = [].
Proof.
  intros Hlit Hb. unfold Fscanf. cbn [scanf].
  destruct (advance _ false _ s) as [| |m f' s'] eqn:E; [done|done|].
  apply advance_to_verb in E; [|done|rewrite str_app_length; lia]. subst f'.
  destruct n as [|n]; [done|]. destruct (SkipSpace _ s') as [s1|]; [|done].
  assert (scan_int b s1 = None) as ->; [|done]. unfold scan_int.
  destruct (SkipSpace _ s1) as [s2|]; [|done]. bind. destruct (decide (s2 = "")); [done|].
  by rewrite decide_False.
Qed.

(** ** %q *)

Section Quote.
(** [unicode.IsPrint] of a rune outside ASCII, given by its encoding. *)
Context (IsPrint : string → bool).

Definition hex_byte (n : N) : string :=
  String (hex_digit (N.shiftr n 4)) (String (hex_digit (N.land n 15)) "").

(** The code point of a multi-byte encoding: the bits of the first byte below
    its length mark, then six bits of each other byte. *)
Fixpoint decode_tail (acc : N) (n : nat) (s : string) : N :=
  match n, s with
  | S n, String a s => decode_tail (acc * 64 + N.land (code a) 63) n s
  | _, _ => acc
  end.
Definition decode_rune (a : ascii) (n : nat) (s : string) : N :=
  decode_tail (N.land (code a) (N.shiftr 63 (N.of_nat n))) n s.

Definition hex16 (r : N) : string := hex_byte (N.shiftr r 8) +:+ hex_byte (N.land r 255).

Definition quote_ascii (a : ascii) : string :=
  let n := code a in
  let esc (c : ascii) := String backslash (String c "") in
  if bool_decide (a = quote) || bool_decide (a = backslash) then esc a
  else if ((32 <=? n) && (n <=? 126))%N then String a ""
  else if decide (n = 7)%N then esc "a"%char
  else if decide (n = 8)%N then esc "b"%char
  else if decide (n = 12)%N then esc "f"%char
  else if decide (n = 10)%N then esc "n"%char
  else if decide (n = 13)%N then esc "r"%char
  else if decide (n = 9)%N then esc "t"%char
  else if decide (n = 11)%N then esc "v"%char
  else String backslash ("x" +:+ hex_byte n).

Fixpoint quote_chars (copy drop : nat) (s : string) : string :=
  match s with
  | EmptyString => ""
  | String a s' =>
      match drop, copy with
      | S drop, _ => quote_chars copy drop s'
      | 0, S copy => String a (quote_chars copy 0 s')
      | 0, 0 =>
          if (code a <? 128)%N then quote_ascii a +:+ quote_chars 0 0 s'
          else match rune_tail a s' with
               | None => String backslash ("x" +:+ hex_byte (code a) +:+ quote_chars 0 0 s')
               | Some n =>
                   if IsPrint (slice_to s (S n)) then String a (quote_chars n 0 s')
                   else
                     let r := decode_rune a n s' in
                     (if (r <? 65536)%N then String backslash ("u" +:+ hex16 r)
                      else String backslash ("U" +:+ hex16 (N.shiftr r 16) +:+ hex16 (N.land r 65535)))
                     +:+ quote_chars 0 n s'
               end
      end
  end.

Definition Quote (s : string) : string := String quote (quote_chars 0 0 s +:+ String quote "").

(** Quoted printable ASCII is a JSON string with the same meaning. *)
Definition printable (a : ascii) : bool := ((32 <=? code a) && (code a <=? 126))%N.

Lemma unquote_quote s rest :
  Forall (λ a, printable a = true) (String.list_ascii_of_string s) →
  unquote 0 0 (quote_chars 0 0 s +:+ String quote rest) = Some (s, rest).
Proof.
  induction s as [|a s IH]; [done|]. cbn [String.list_ascii_of_string].
  intros [Ha Hs]%Forall_cons. specialize (IH Hs). cbn [quote_chars].
  assert ((code a <? 128)%N = true) as ->.
  { apply andb_prop in Ha as [_ Ha]. apply N.leb_le in Ha. apply N.ltb_lt. lia. }
  assert (∀ t, unquote 0 0 (quote_ascii a +:+ t) = '(v, rest) ← unquote 0 0 t; Some (String a v, rest)) as Hq.
  { intros t. clear -Ha. destruct a as [[] [] [] [] [] [] [] []]; try (vm_compute in Ha; discriminate Ha);
      reflexivity. }
  by rewrite str_app_assoc, Hq, IH.
Qed.

Lemma reads_quote s :
  Forall (λ a, printable a = true) (String.list_ascii_of_string s) → reads (Quote s) (JString s).
Proof.
  intros Hs. eapply reads_scalar; [done|done|set_solver|]. intros rest _. unfold scalar, Quote.
  rewrite str_app_cons, !after_prefix_ne by done. cbn [expect]. rewrite decide_True by done.
  rewrite str_app_assoc. change (String quote "" +:+ rest) with (String quote rest).
  by rewrite unquote_quote.
Qed.
End Quote.

(** ** Examples *)

Example scan_pair : Fscanf 2 "a %d b %d" "a 12 b -7" = [12; -7]%Z.
Proof. reflexivity. Qed.
Example scan_lines :
  Fscanf 2 ("hits %d" +:+ nl +:+ "misses %d" +:+ nl) ("hits 3" +:+ nl +:+ "misses 4" +:+ nl) = [3; 4]%Z.
Proof. reflexivity. Qed.
Example scan_partial : Fscanf 2 "a %d b %d" "a 12 c 7" = [12]%Z.
Proof. reflexivity. Qed.
End GoFmt.
