(* ===== verification/Cluster.v ===== *)
(** The cluster layer on top of the ring and the cache,
    [src/internal/cluster]: node health ([node.go]), the coordinator that routes
    keys ([coordinator.go]) and the cache server with its metrics
    ([cacheserver.go], [util.go]). *)
From S2P Require Import Prelude Policy Lru Cache Ring.

Module Cluster.

(** ** Node health *)

Record NodeHealth := mk_NodeHealth {
  nodeID : string;
  addr : string;
  available : bool;
  lastProbeAt : Time;
  lastSeenAt : Time
}.

Definition NewNodeHealth (id a : string) : NodeHealth := mk_NodeHealth id a true time_zero time_zero.

Definition MarkAvailable (now : Time) (h : NodeHealth) : NodeHealth :=
  mk_NodeHealth (nodeID h) (addr h) true (lastProbeAt h) now.

Definition MarkUnavailable (h : NodeHealth) : NodeHealth :=
  mk_NodeHealth (nodeID h) (addr h) false (lastProbeAt h) (lastSeenAt h).

Definition IsAvailable (h : NodeHealth) : bool := available h.

(** ** The coordinator *)

Inductive cluster_error := ErrNoCoordinator | ErrRoutingMismatch.

Record RouteResult := mk_RouteResult { rr_NodeID : string; rr_Addr : string }.
Definition no_route : RouteResult := mk_RouteResult "" "".

Record Coordinator := mk_Coordinator {
  ring : Ring.Ring;
  health : gmap string NodeHealth;
  isLeader : bool
}.

Definition NewCoordinator (r : Ring.Ring) (h : gmap string NodeHealth) : Coordinator :=
  mk_Coordinator r h false.

(** The three results of [Route]: the route, whether the node is available, and
    the error. [None] is a panic of the ring lookup. *)
Definition Route (key : string) (c : Coordinator)
    : option (RouteResult * bool * option cluster_error) :=
  if isLeader c then
    r ← Ring.Get key (ring c);
    match r with
    | None => Some (no_route, false, Some ErrNoCoordinator)
    | Some (id, a) =>
        match health c !! id with
        | Some h => if IsAvailable h then Some (mk_RouteResult id a, true, None)
                    else Some (no_route, false, None)
        | None => Some (no_route, false, None)
        end
    end
  else Some (no_route, false, Some ErrNoCoordinator).

Definition ValidateOwnership (key id : string) (c : Coordinator) : option (option cluster_error) :=
  r ← Ring.Get key (ring c);
  Some match r with
       | None => Some ErrNoCoordinator
       | Some (owner, _) => if decide (owner = id) then None else Some ErrRoutingMismatch
       end.

Definition SetLeader (b : bool) (c : Coordinator) : Coordinator :=
  mk_Coordinator (ring c) (health c) b.

Definition IsLeader (c : Coordinator) : bool := isLeader c.

Definition UpdateNodeHealth (now : Time) (id : string) (up : bool) (c : Coordinator) : Coordinator :=
  match health c !! id with
  | None => c
  | Some h =>
      mk_Coordinator (ring c)
        (<[id := if up then MarkAvailable now h else MarkUnavailable h]> (health c)) (isLeader c)
  end.

(** Routing and ownership agree. Whenever the coordinator routes a key to a
    node, the node is the ring's owner of the key, is known to be available,
    carries the ring's address, and is the only node that passes the ownership
    check for the key. *)
Theorem route_agrees_with_ownership (key : string) (c : Coordinator) (res : RouteResult) err
    (Hroute : Route key c = Some (res, true, err)) :
  err = None ∧ isLeader c = true ∧
  Ring.Get key (ring c) = Some (Some (rr_NodeID res, rr_Addr res)) ∧
  (∃ h, health c !! rr_NodeID res = Some h ∧ available h = true) ∧
  ∀ id, ValidateOwnership key id c =
        Some (if decide (id = rr_NodeID res) then None else Some ErrRoutingMismatch).
Proof.
  unfold Route in Hroute. destruct (isLeader c); [|done].
  destruct (Ring.Get key (ring c)) as [[[id a]|]|] eqn:E; try done. simpl in Hroute.
  destruct (health c !! id) as [h|] eqn:Eh; [|done].
  destruct (IsAvailable h) eqn:Ea; [|done]. injection Hroute as <- <-. simpl.
  split; [done|]. split; [done|]. split; [done|]. split; [eauto|].
  intros id'. unfold ValidateOwnership. rewrite E. simpl. f_equal.
  destruct (decide (id = id')), (decide (id' = id)); congruence.
Qed.

(** Marking a node down turns its keys into misses and touches no other key.
    With a leader coordinator and a known node, a key of another node is routed
    as before, a key of that node is reported unavailable without an error and
    without rerouting, and marking the node up again restores its route. *)
Theorem health_change_is_local (key id : string) (c : Coordinator) (now : Time) owner a h
    (Hleader : isLeader c = true)
    (Hget : Ring.Get key (ring c) = Some (Some (owner, a)))
    (Hknown : health c !! id = Some h) :
  let down := UpdateNodeHealth now id false c in
  let up := UpdateNodeHealth now id true down in
  Route key down = (if decide (owner = id) then Some (no_route, false, None) else Route key c) ∧
  Route key up = (if decide (owner = id) then Some (mk_RouteResult owner a, true, None)
                  else Route key c).
Proof.
  unfold UpdateNodeHealth. rewrite Hknown. simpl. rewrite lookup_insert_eq. simpl.
  unfold Route. simpl. rewrite Hleader, Hget. simpl.
  destruct (decide (owner = id)) as [->|Hne].
  - rewrite !lookup_insert_eq. done.
  - by rewrite !lookup_insert_ne by done.
Qed.

(** ** The cache server *)

(** [secondsToDuration]: the product is an [int64]. *)
Definition secondsToDuration (seconds : Z) : Duration := wrap64 (seconds * Second).

Record CacheNodeMetrics := mk_metrics { hits : Z; misses : Z; evictions : Z }.

Section Server.
Context {P : Type} `{!EvictionPolicy P}.

(** The server shares the policy object with its cache. *)
Record CacheServer := mk_CacheServer {
  srv_nodeID : string;
  srv_cache : Cache.InMemoryCache P;
  metrics : CacheNodeMetrics
}.

Definition NewCacheServer (id : string) (c : Cache.InMemoryCache P) : CacheServer :=
  mk_CacheServer id c (mk_metrics 0 0 0).

Definition with_cache (s : CacheServer) c : CacheServer := mk_CacheServer (srv_nodeID s) c (metrics s).
Definition with_metrics (s : CacheServer) m : CacheServer := mk_CacheServer (srv_nodeID s) (srv_cache s) m.

(** Atomic counters are [int64]. *)
Definition Get (now : Clock) (key : string) (s : CacheServer) : option (CacheServer * option bytes) :=
  '(c, r) ← Cache.Get now key (srv_cache s);
  let m := metrics s in
  let m' := match r with
            | Some _ => mk_metrics (wrap64 (hits m + 1)) (misses m) (evictions m)
            | None => mk_metrics (hits m) (wrap64 (misses m + 1)) (evictions m)
            end in
  Some (with_metrics (with_cache s c) m', r).

Definition Set_ (now : Clock) (key : string) (value : bytes) (ttlSeconds : Z) (s : CacheServer)
    : option (CacheServer * option Cache.set_error) :=
  '(c, r) ← Cache.Set_ now key value (secondsToDuration ttlSeconds) (srv_cache s);
  Some (with_cache s c, r).

Definition Delete (key : string) (s : CacheServer) : option CacheServer :=
  c ← Cache.Delete key (srv_cache s);
  Some (with_cache s c).

(** [Health] asks the injected [isLeader] function. *)
Definition Health (leads : bool) (s : CacheServer) : bool * bool := (true, leads).

Definition Stats (s : CacheServer) : Z * Z * Z * Z * string :=
  (hits (metrics s), misses (metrics s), evictions (metrics s), Cache.Len (srv_cache s),
   Name (Cache.policy (srv_cache s))).

Definition RecordEviction (s : CacheServer) : CacheServer :=
  let m := metrics s in
  with_metrics s (mk_metrics (hits m) (misses m) (wrap64 (evictions m + 1))).
End Server.
Arguments CacheServer : clear implicits.

Inductive request :=
| ReqGet (now : Clock) (key : string)
| ReqSet (now : Clock) (key : string) (value : bytes) (ttlSeconds : Z)
| ReqDelete (key : string).

(** The cache call a request makes. *)
Definition cache_op (r : request) : Cache.op :=
  match r with
  | ReqGet now key => Cache.OpGet now key
  | ReqSet now key value ttl => Cache.OpSet now key value (secondsToDuration ttl)
  | ReqDelete key => Cache.OpDelete key
  end.

Section Requests.
Context {P : Type} `{!EvictionPolicy P}.

Definition serve (s : CacheServer P) (r : request) : option (CacheServer P * Cache.result) :=
  match r with
  | ReqGet now key => '(s', v) ← Get now key s; Some (s', Cache.RGet v)
  | ReqSet now key value ttl => '(s', e) ← Set_ now key value ttl s; Some (s', Cache.RSet e)
  | ReqDelete key => s' ← Delete key s; Some (s', Cache.RDelete)
  end.

Fixpoint serve_all (s : CacheServer P) (rs : list request)
    : option (CacheServer P * list Cache.result) :=
  match rs with
  | [] => Some (s, [])
  | r :: rs =>
      '(s1, x) ← serve s r;
      '(s2, xs) ← serve_all s1 rs;
      Some (s2, x :: xs)
  end.
End Requests.

(** How many results are hits, and how many are misses. *)
Definition is_hit (r : Cache.result) : bool := match r with Cache.RGet (Some _) => true | _ => false end.
Definition is_miss (r : Cache.result) : bool := match r with Cache.RGet None => true | _ => false end.
Definition count (f : Cache.result → bool) (rs : list Cache.result) : Z :=
  Z.of_nat (length (List.filter f rs)).

Section Metrics.
Context {P : Type} `{!EvictionPolicy P}.

(** One request: the cache call, and at most one counter. *)
Lemma serve_step (s : CacheServer P) r :
  serve s r =
    '(c, x) ← Cache.step (srv_cache s) (cache_op r);
    let m := metrics s in
    Some (with_metrics (with_cache s c)
            (mk_metrics (if is_hit x then wrap64 (hits m + 1) else hits m)
               (if is_miss x then wrap64 (misses m + 1) else misses m) (evictions m)), x).
Proof.
  destruct r as [now key|now key v ttl|key]; cbn [serve Cache.step cache_op]; unfold Get, Set_, Delete.
  - destruct (Cache.Get now key (srv_cache s)) as [[c [v|]]|]; done.
  - destruct (Cache.Set_ now key v (secondsToDuration ttl) (srv_cache s)) as [[c e]|]; [|done].
    by destruct s as [? ? []].
  - destruct (Cache.Delete key (srv_cache s)) as [c|]; [|done]. by destruct s as [? ? []].
Qed.

Lemma serve_all_run rs (s : CacheServer P) c xs h m :
  metrics s = mk_metrics h m 0 →
  (0 ≤ h)%Z → (0 ≤ m)%Z → (h + m + Z.of_nat (length rs) ≤ int64_max)%Z →
  Cache.run (srv_cache s) (cache_op <$> rs) = Some (c, xs) →
  ∃ s', serve_all s rs = Some (s', xs) ∧ srv_cache s' = c ∧
        metrics s' = mk_metrics (h + count is_hit xs) (m + count is_miss xs) 0.
Proof.
  revert s c xs h m. induction rs as [|r rs IH]; intros s c xs h m Hm Hh Hmi Hlen;
    [|rewrite fmap_cons]; cbn [Cache.run serve_all].
  - intros [= <- <-]. exists s. rewrite Hm. unfold count. simpl. by rewrite !Z.add_0_r.
  - rewrite serve_step. destruct (Cache.step (srv_cache s) (cache_op r)) as [[c1 x]|]; [|done].
    bind. destruct (Cache.run c1 (cache_op <$> rs)) as [[c2 ys]|] eqn:E; [|done].
    intros [= <- <-]. rewrite Hm. cbn [hits misses evictions].
    assert (∀ f, count f (x :: ys) = (if f x then 1 else 0) + count f ys)%Z as Hc.
    { intros f. unfold count. simpl. destruct (f x); simpl; lia. }
    assert (∀ z, 0 ≤ z < int64_max → wrap64 (z + 1) = z + 1)%Z as Hw.
    { intros z Hz. apply wrap64_id. unfold int64_min, int64_max in *. lia. }
    set (h' := if is_hit x then (h + 1)%Z else h). set (m' := if is_miss x then (m + 1)%Z else m).
    cbn [length] in Hlen.
    replace (if is_hit x then wrap64 (h + 1) else h) with h'
      by (unfold h'; destruct (is_hit x); [rewrite Hw; [done|lia]|done]).
    replace (if is_miss x then wrap64 (m + 1) else m) with m'
      by (unfold m'; destruct (is_miss x); [rewrite Hw; [done|lia]|done]).
    destruct (IH (with_metrics (with_cache s c1) (mk_metrics h' m' 0)) c2 ys h' m' eq_refl)
      as (s' & Hs' & Hc' & Hm'); [..|exact E|].
    1-3: unfold h', m'; destruct x as [[v|]| |]; simpl; lia.
    exists s'. rewrite Hs'. split; [done|]. split; [done|]. rewrite Hm', !Hc.
    unfold h', m'. f_equal; destruct x as [[v|]| |]; simpl; lia.
Qed.
End Metrics.

(** The server is the cache plus exact counters. With any policy that meets
    the contract and any sequence of fewer than 2^63 requests, the server never
    panics, answers as the cache does on the corresponding calls, and [Stats]
    reports exactly the hits and misses among the answers, the current number of
    entries, and 0 evictions: no code counts an eviction, although the cache
    does evict. *)
Theorem server_stats_exact {P : Type} `{!EvictionPolicy P, !EvictionPolicySpec P}
    (id : string) (cap : Z) (pol : P) (rs : list request)
    (Hwf : policy_wf pol) (Hempty : tracked pol = ∅) (Hcap : (1 ≤ cap)%Z)
    (Hlen : (Z.of_nat (length rs) ≤ int64_max)%Z) :
  ∃ s xs, serve_all (NewCacheServer id (Cache.New cap pol)) rs = Some (s, xs) ∧
    Cache.run (Cache.New cap pol) (cache_op <$> rs) = Some (srv_cache s, xs) ∧
    ∃ name entries, Stats s = (count is_hit xs, count is_miss xs, 0, entries, name)%Z ∧
                    (entries ≤ cap)%Z.
Proof.
  destruct (Cache.inv_new cap pol Hwf Hempty Hcap) as (Hinv & Hb & _).
  destruct (Cache.cache_run_refines (cache_op <$> rs) (Cache.New cap pol) cap Hinv eq_refl Hcap Hb)
    as (c & xs & Hrun & _ & Hc & Hb' & _).
  destruct (serve_all_run rs (NewCacheServer id (Cache.New cap pol)) c xs 0 0) as (s & Hs & Hsc & Hm);
    try done; try lia.
  exists s, xs. split; [done|]. rewrite Hsc. split; [done|].
  eexists _, _. unfold Stats. rewrite Hm, Hsc. split; [done|].
  unfold Cache.bounded in Hb'. lia.
Qed.

(** C40: [Set] in seconds validates as documented while the product fits: for a
    TTL whose nanosecond count is an [int64], the call fails exactly outside
    0..86400 seconds. *)
Theorem server_set_validates {P : Type} `{!EvictionPolicy P, !EvictionPolicySpec P}
    (s : CacheServer P) (now : Clock) key value (ttlSeconds : Z)
    (Hinv : Cache.cache_inv (srv_cache s))
    (Hfit : (int64_min ≤ ttlSeconds * Second ≤ int64_max)%Z) :
  ∃ s' err, Set_ now key value ttlSeconds s = Some (s', err) ∧
            (err = None ↔ 0 ≤ ttlSeconds ≤ 86400)%Z ∧
            (err ≠ None → s' = s).
Proof.
  unfold Set_, secondsToDuration. rewrite wrap64_id by done. unfold Cache.Set_.
  destruct (Z.ltb_spec (ttlSeconds * Second) 0) as [Hn|Hn]; simpl.
  { eexists _, _. split; [done|]. split; [split; [done|unfold Second in *; lia]|]. by destruct s. }
  destruct (Z.ltb_spec Cache.maxTTL (ttlSeconds * Second)) as [Hx|Hx]; simpl.
  { eexists _, _. split; [done|]. unfold Cache.maxTTL, Second in *.
    split; [split; [done|lia]|]. by destruct s. }
  destruct (Cache.Set_locked_spec (now 0%nat) (now 1%nat) key value
    (Cache.expiry (now 0%nat) (ttlSeconds * Second)) (srv_cache s) Hinv) as (c' & -> & _).
  simpl. eexists _, _. split; [done|]. unfold Cache.maxTTL, Second in *.
  split; [split; [lia|done]|done].
Qed.

(** Beyond that range the product wraps around before it is checked: a TTL
    of 18446744074 seconds (over 584 years) is accepted, as about 0.29 seconds. *)
Theorem server_set_overflow_accepted :
  ∃ s : CacheServer LRU.LRU,
    secondsToDuration 18446744074 = 290448384%Z ∧
    Set_ (λ _, 1%Z) "k" [] 18446744074 (NewCacheServer "node1" (Cache.New 1 LRU.NewLRU)) = Some (s, None).
Proof. eexists. split; [reflexivity|]. vm_compute. reflexivity. Qed.

(** *** Witnesses *)

Definition lru_cache : Cache.InMemoryCache LRU.LRU := Cache.New 1 LRU.NewLRU.

Lemma lru_cache_inv : Cache.cache_inv lru_cache.
Proof.
  apply (Cache.inv_new 1 LRU.NewLRU); [exists []; apply LRU.recency_new|reflexivity|lia].
Qed.

Lemma server_stats_exact_witness :
  ∃ s xs, serve_all (NewCacheServer "node1" lru_cache)
    [ReqSet (λ _, 1%Z) "a" [] 10; ReqSet (λ _, 2%Z) "b" [] 10; ReqGet (λ _, 3%Z) "a"] = Some (s, xs) ∧
    hits (metrics s) = 0%Z ∧ misses (metrics s) = 1%Z ∧ evictions (metrics s) = 0%Z.
Proof.
  destruct (server_stats_exact "node1" 1 LRU.NewLRU
    [ReqSet (λ _, 1%Z) "a" [] 10; ReqSet (λ _, 2%Z) "b" [] 10; ReqGet (λ _, 3%Z) "a"])
    as (s & xs & Hs & _ & name & n & Hst & _).
  - exists []. apply LRU.recency_new.
  - reflexivity.
  - lia.
  - unfold int64_max. simpl. lia.
  - exists s, xs. split; [exact Hs|]. vm_compute in Hs. injection Hs as <- <-. auto.
Defined.

Lemma server_set_validates_witness :
  ∃ s' err, Set_ (λ _, 1%Z) "a" [] 86401 (NewCacheServer "node1" lru_cache) = Some (s', err) ∧ err ≠ None.
Proof.
  destruct (server_set_validates (NewCacheServer "node1" lru_cache) (λ _, 1%Z) "a" [] 86401)
    as (s' & err & Hs & Herr & _).
  - exact lru_cache_inv.
  - unfold int64_min, int64_max, Second. lia.
  - exists s', err. split; [exact Hs|]. intros He. apply Herr in He. lia.
Defined.

Definition coord1 : Coordinator :=
  mk_Coordinator (Ring.Add "node1" "node1:9001" Ring.NewRing)
    {[ "node1" := NewNodeHealth "node1" "node1:9001" ]} true.

Lemma route_agrees_with_ownership_witness :
  ValidateOwnership "k" "node1" coord1 = Some None.
Proof.
  destruct (route_agrees_with_ownership "k" coord1 (mk_RouteResult "node1" "node1:9001") None)
    as (_ & _ & _ & _ & Hown).
  - vm_compute. reflexivity.
  - rewrite Hown. vm_compute. reflexivity.
Defined.

Lemma health_change_is_local_witness :
  Route "k" (UpdateNodeHealth 5 "node1" false coord1) = Some (no_route, false, None).
Proof.
  destruct (health_change_is_local "k" "node1" coord1 5 "node1" "node1:9001"
    (NewNodeHealth "node1" "node1:9001")) as [Hdown _].
  - reflexivity.
  - vm_compute. reflexivity.
  - vm_compute. reflexivity.
  - rewrite Hdown. vm_compute. reflexivity.
Defined.
End Cluster.
