(* ===== verification/Metrics.v ===== *)
(** The Prometheus metrics of [src/internal/metrics]: the collectors declared for
    the cache nodes, the API and the proxy ([cache.go], [api.go], [proxy.go]) and
    their registration. The client library is an interface: a registry that takes
    a collector when its description is well formed and new. *)
From S2P Require Import Prelude GoStrings.
From Stdlib Require Import Ascii.

Module Metrics.

(** ** Collectors *)

(** The vectors and the plain gauge of the client library; every histogram has
    the library's default buckets. *)
Inductive kind := CounterVec | GaugeVec | HistogramVec | Gauge.

Record collector := mk_collector { ckind : kind; cname : string; help : string; labels : list string }.

Definition counter (name help : string) (labels : list string) : collector :=
  mk_collector CounterVec name help labels.
Definition histogram (name help : string) (labels : list string) : collector :=
  mk_collector HistogramVec name help labels.

(** What makes a description well formed: the name of the metric, the names of
    its labels, which differ and are not reserved, and for a histogram no label
    that stands for the bucket. *)
Definition letter (a : ascii) : bool :=
  let n := N_of_ascii a in
  ((65 <=? n) && (n <=? 90) || (97 <=? n) && (n <=? 122) || (n =? 95))%N.
Definition digit (a : ascii) : bool := bool_decide (is_Some (digit_value a)).

Definition valid_word (first rest : ascii → bool) (s : string) : bool :=
  match s with
  | EmptyString => false
  | String a s => first a && forallb rest (String.list_ascii_of_string s)
  end.

Definition colon (a : ascii) : bool := bool_decide (a = ":"%char).
Definition valid_name : string → bool :=
  valid_word (λ a, letter a || colon a) (λ a, letter a || colon a || digit a).
Definition valid_label (s : string) : bool :=
  valid_word letter (λ a, letter a || digit a) s && negb (HasPrefix s "__").

Definition is_histogram (k : kind) : bool := match k with HistogramVec => true | _ => false end.

Definition valid (c : collector) : bool :=
  valid_name (cname c) && forallb valid_label (labels c) && bool_decide (NoDup (labels c)) &&
  negb (is_histogram (ckind c) && bool_decide ("le" ∈ labels c)).

(** ** The registry *)

Class Registerer (R : Type) := {
  NewRegistry : R;
  Register : collector → R → R + string;
  registered : R → gset string
}.

(** The documented behaviour of [Register] the constructors rely on. *)
Class RegistererSpec (R : Type) `{!Registerer R} := {
  registered_new : registered NewRegistry = ∅;
  Register_fresh c r : valid c = true → cname c ∉ registered r →
    ∃ r', Register c r = inl r' ∧ registered r' = {[cname c]} ∪ registered r;
  Register_used c r : cname c ∈ registered r → ∃ e, Register c r = inr e
}.

Section Constructors.
Context {R : Type} `{!Registerer R}.

(** [MustRegister] panics at the first collector that is refused. *)
Fixpoint MustRegister (cs : list collector) (r : R) : option R :=
  match cs with
  | [] => Some r
  | c :: cs =>
      match Register c r with
      | inl r' => MustRegister cs r'
      | inr _ => None
      end
  end.

Record CacheMetrics := mk_CacheMetrics {
  Hits : collector; Misses : collector; Evictions : collector; Entries : collector;
  Routed : collector; OpDuration : collector
}.

Definition cacheMetrics : CacheMetrics := mk_CacheMetrics
  (counter "dcg_cache_hits_total" "Total number of cache hits." ["node_id"; "eviction_policy"])
  (counter "dcg_cache_misses_total" "Total number of cache misses." ["node_id"; "eviction_policy"])
  (counter "dcg_cache_evictions_total" "Total number of cache evictions." ["node_id"; "eviction_policy"])
  (mk_collector GaugeVec "dcg_cache_entries" "Current number of entries in the cache."
     ["node_id"; "eviction_policy"])
  (counter "dcg_cache_routed_requests_total" "Total requests routed to this node by the coordinator."
     ["node_id"])
  (histogram "dcg_cache_operation_duration_seconds" "Cache operation latency in seconds."
     ["node_id"; "operation"]).

Definition NewCacheMetrics (reg : R) : option (R * CacheMetrics) :=
  let m := cacheMetrics in
  reg' ← MustRegister [Hits m; Misses m; Evictions m; Entries m; Routed m; OpDuration m] reg;
  Some (reg', m).

Record APIMetrics := mk_APIMetrics {
  Requests : collector; RequestDuration : collector; CacheHits : collector; CacheMisses : collector;
  DBQueries : collector; InvalidationDur : collector
}.

Definition apiMetrics : APIMetrics := mk_APIMetrics
  (counter "dcg_api_requests_total" "Total HTTP requests to the API layer."
     ["endpoint"; "method"; "status_code"])
  (histogram "dcg_api_request_duration_seconds"
     "API request latency in seconds (p99 derivable from histogram)." ["endpoint"; "method"])
  (counter "dcg_api_cache_hits_total" "Total cache hits at the API layer."
     ["endpoint"; "invalidation_strategy"])
  (counter "dcg_api_cache_misses_total" "Total cache misses at the API layer."
     ["endpoint"; "invalidation_strategy"])
  (counter "dcg_api_db_queries_total" "Total database queries issued by the API layer." ["query_type"])
  (histogram "dcg_api_invalidation_duration_seconds" "Time spent on cache invalidation per strategy."
     ["strategy"]).

Definition NewAPIMetrics (reg : R) : option (R * APIMetrics) :=
  let m := apiMetrics in
  reg' ← MustRegister [Requests m; RequestDuration m; CacheHits m; CacheMisses m; DBQueries m;
                       InvalidationDur m] reg;
  Some (reg', m).

Record ProxyMetrics := mk_ProxyMetrics {
  ProxyHits : collector; ProxyMisses : collector; ProxyDuration : collector; CachedEntries : collector;
  UpstreamErrors : collector
}.

Definition proxyMetrics : ProxyMetrics := mk_ProxyMetrics
  (counter "dcg_proxy_hits_total" "Total proxy cache hits (requests served without calling upstream)." [])
  (counter "dcg_proxy_misses_total" "Total proxy cache misses (requests forwarded to upstream)." [])
  (histogram "dcg_proxy_request_duration_seconds"
     "Proxied request latency in seconds (p99 derivable from histogram)." ["status_code"])
  (mk_collector Gauge "dcg_proxy_cached_entries"
     "Current number of cached HTTP responses in the proxy store." [])
  (counter "dcg_proxy_upstream_errors_total" "Total upstream errors encountered by the proxy."
     ["error_type"]).

Definition NewProxyMetrics (reg : R) : option (R * ProxyMetrics) :=
  let m := proxyMetrics in
  reg' ← MustRegister [ProxyHits m; ProxyMisses m; ProxyDuration m; CachedEntries m; UpstreamErrors m] reg;
  Some (reg', m).

(** ** Registration *)

Context `{!RegistererSpec R}.

Definition fits (cs : list collector) (used : gset string) : Prop :=
  Forall (λ c, valid c = true ∧ cname c ∉ used) cs ∧ NoDup (cname <$> cs).

Lemma MustRegister_fits cs r :
  fits cs (registered r) →
  ∃ r', MustRegister cs r = Some r' ∧ registered r' = list_to_set (cname <$> cs) ∪ registered r.
Proof.
  revert r. induction cs as [|c cs IH]; intros r [Hv Hnd].
  { exists r. split; [done|]. simpl. by rewrite (left_id_L ∅ (∪)). }
  apply Forall_cons in Hv as [[Hc Hn] Hv]. rewrite fmap_cons in Hnd. apply NoDup_cons in Hnd as [Hcs Hnd].
  destruct (Register_fresh c r Hc Hn) as (r1 & E & Hr1). cbn [MustRegister]. rewrite E.
  destruct (IH r1) as (r' & -> & Hr').
  { split; [|done]. apply Forall_forall. intros d Hd. rewrite Forall_forall in Hv.
    destruct (Hv d Hd) as [Hvd Hnd']. split; [done|]. rewrite Hr1.
    rewrite elem_of_union, elem_of_singleton. intros [Heq|]; [|done].
    apply Hcs. rewrite <-Heq. by apply list_elem_of_fmap_2. }
  exists r'. split; [done|]. rewrite Hr', Hr1. rewrite fmap_cons. set_solver.
Qed.

(** A second registration of the same collectors is refused. *)
Lemma MustRegister_again c cs r : cname c ∈ registered r → MustRegister (c :: cs) r = None.
Proof.
  intros Hin. cbn [MustRegister]. by destruct (Register_used c r Hin) as [e ->].
Qed.

Definition cache_collectors : list collector :=
  let m := cacheMetrics in [Hits m; Misses m; Evictions m; Entries m; Routed m; OpDuration m].
Definition api_collectors : list collector :=
  let m := apiMetrics in [Requests m; RequestDuration m; CacheHits m; CacheMisses m; DBQueries m; InvalidationDur m].
Definition proxy_collectors : list collector :=
  let m := proxyMetrics in [ProxyHits m; ProxyMisses m; ProxyDuration m; CachedEntries m; UpstreamErrors m].

Definition fitsb (cs : list collector) (used : list string) : bool :=
  forallb (λ c, valid c && bool_decide (cname c ∉ used)) cs && bool_decide (NoDup (cname <$> cs)).

Lemma fitsb_fits cs used (r : gset string) :
  fitsb cs used = true → r = list_to_set used → fits cs r.
Proof.
  intros [H1 H2]%andb_prop ->. split; [|by apply bool_decide_eq_true in H2].
  apply Forall_forall. intros c Hc. rewrite forallb_forall in H1.
  apply list_elem_of_In, H1, andb_prop in Hc as [Hv Hn]. split; [done|].
  apply bool_decide_eq_true in Hn. by rewrite elem_of_list_to_set.
Qed.

(** The metrics of the three services can be registered, alone or together: on a
    new registry none of the constructors panics, also when all three share the
    registry, and then the registry holds exactly their seventeen metrics. A
    constructor called twice on one registry panics. *)
Theorem metrics_register :
  ∃ r1 r2 r3,
    NewCacheMetrics NewRegistry = Some (r1, cacheMetrics) ∧
    NewAPIMetrics r1 = Some (r2, apiMetrics) ∧
    NewProxyMetrics r2 = Some (r3, proxyMetrics) ∧
    registered r3 = list_to_set (cname <$> proxy_collectors ++ api_collectors ++ cache_collectors) ∧
    size (registered r3) = 17 ∧
    is_Some (NewAPIMetrics NewRegistry) ∧ is_Some (NewProxyMetrics NewRegistry) ∧
    NewCacheMetrics r1 = None ∧ NewAPIMetrics r2 = None ∧ NewProxyMetrics r3 = None.
Proof.
  pose proof registered_new as H0.
  destruct (MustRegister_fits cache_collectors NewRegistry) as (r1 & E1 & H1).
  { by apply (fitsb_fits _ []); [vm_compute|]. }
  rewrite H0 in H1.
  destruct (MustRegister_fits api_collectors r1) as (r2 & E2 & H2).
  { apply (fitsb_fits _ (cname <$> cache_collectors)); [by vm_compute|]. by rewrite H1, (right_id_L ∅ (∪)). }
  destruct (MustRegister_fits proxy_collectors r2) as (r3 & E3 & H3).
  { apply (fitsb_fits _ (cname <$> api_collectors ++ cache_collectors)); [by vm_compute|].
    rewrite H2, H1, fmap_app, list_to_set_app_L. by rewrite (right_id_L ∅ (∪)). }
  destruct (MustRegister_fits api_collectors NewRegistry) as (ra & Ea & _).
  { by apply (fitsb_fits _ []); [vm_compute|]. }
  destruct (MustRegister_fits proxy_collectors NewRegistry) as (rp & Ep & _).
  { by apply (fitsb_fits _ []); [vm_compute|]. }
  assert (registered r3 = list_to_set (cname <$> proxy_collectors ++ api_collectors ++ cache_collectors)) as Hr3.
  { rewrite H3, H2, H1, !fmap_app, !list_to_set_app_L. by rewrite (right_id_L ∅ (∪)). }
  exists r1, r2, r3. unfold NewCacheMetrics, NewAPIMetrics, NewProxyMetrics. cbv zeta.
  fold cache_collectors api_collectors proxy_collectors. rewrite E1, E2, E3, Ea, Ep.
  split; [done|]. split; [done|]. split; [done|]. split; [done|]. split.
  { rewrite Hr3. vm_compute. reflexivity. }
  split; [by eexists|]. split; [by eexists|].
  unfold cache_collectors, api_collectors, proxy_collectors. cbv zeta.
  rewrite !MustRegister_again; [done|..].
  - rewrite H3. apply elem_of_union_l, elem_of_list_to_set. by left.
  - rewrite H2. apply elem_of_union_l, elem_of_list_to_set. by left.
  - rewrite H1. apply elem_of_union_l, elem_of_list_to_set. by left.
Qed.
End Constructors.

(** *** Witnesses *)

(** A registry as the list of the names it holds. *)
#[global] Instance list_registry : Registerer (list string) := {|
  NewRegistry := [];
  Register c r := if valid c then
                    if decide (cname c ∈ r) then inr "duplicate metrics collector registration attempted"
                    else inl (cname c :: r)
                  else inr "invalid descriptor";
  registered r := list_to_set r
|}.

#[global] Instance list_registry_spec : RegistererSpec (list string).
Proof.
  split; [done| |]; cbn.
  - intros c r -> Hn. rewrite elem_of_list_to_set in Hn. rewrite decide_False by done. by eexists.
  - intros c r Hn. rewrite elem_of_list_to_set in Hn. destruct (valid c); [|by eexists].
    rewrite decide_True by done. by eexists.
Qed.

Lemma metrics_register_witness :
  ∃ r, NewCacheMetrics (NewRegistry (R := list string)) = Some (r, cacheMetrics) ∧ length r = 6.
Proof.
  destruct (metrics_register (R := list string)) as (r1 & _ & _ & H1 & _).
  exists r1. split; [exact H1|]. vm_compute in H1. injection H1 as <-. reflexivity.
Defined.
End Metrics.
