(* ===== verification/Flags.v ===== *)
(** Command lines: the part of Go's [flag] package the processes of [src/cmd]
    read their options with, on string and integer flags, and the [strconv.ParseInt]
    it reads integers with, which finds the base in the prefix of the number. *)
From S2P Require Import Prelude GoStrings Json.
From Stdlib Require Import Ascii.

Module Flags.

(** ** Integers with a base prefix *)

Definition code (a : ascii) : Z := Z.of_N (N_of_ascii a).

(** The value of a digit or letter. *)
Definition digit36 (a : ascii) : option Z :=
  let c := code (lower_byte a) in
  if ((48 <=? c) && (c <=? 57))%Z then Some (c - 48)%Z
  else if ((97 <=? c) && (c <=? 122))%Z then Some (c - 87)%Z
  else None.

(** The loop of [ParseUint] with the base found in a prefix: underscores are
    passed over, and checked afterwards. *)
Fixpoint in_base (base acc : Z) (s : string) : option Z :=
  match s with
  | EmptyString => Some acc
  | String a s =>
      if decide (a = "_"%char) then in_base base acc s
      else d ← digit36 a; if (d <? base)%Z then in_base base (acc * base + d)%Z s else None
  end.

(** The base a number names, and its digits. *)
Definition base_of (s : string) : Z * string :=
  match s with
  | String a rest =>
      if decide (a = "0"%char) then
        match rest with
        | String b (String _ _ as ds) =>
            let b := lower_byte b in
            if decide (b = "b"%char) then (2%Z, ds)
            else if decide (b = "o"%char) then (8%Z, ds)
            else if decide (b = "x"%char) then (16%Z, ds)
            else (8%Z, rest)
        | _ => (8%Z, rest)
        end
      else (10%Z, s)
  | EmptyString => (10%Z, "")
  end.

(** [underscoreOK]: every underscore stands between digits, a base prefix
    counting as one. [saw] is the kind of the last byte. *)
Inductive saw := SawStart | SawDigit | SawUnderscore | SawOther.
#[global] Instance saw_eq_dec : EqDecision saw.
Proof. solve_decision. Defined.

Fixpoint underscores (hex : bool) (last : saw) (s : string) : bool :=
  match s with
  | EmptyString => negb (bool_decide (last = SawUnderscore))
  | String a s =>
      let c := code (lower_byte a) in
      if ((48 <=? c) && (c <=? 57) || hex && (97 <=? c) && (c <=? 102))%Z then underscores hex SawDigit s
      else if decide (a = "_"%char) then bool_decide (last = SawDigit) && underscores hex SawUnderscore s
      else negb (bool_decide (last = SawUnderscore)) && underscores hex SawOther s
  end.

Definition underscoreOK (s : string) : bool :=
  match s with
  | String a (String b rest) =>
      let b := lower_byte b in
      if bool_decide (a = "0"%char) && bool_decide (b ∈ ["b"; "o"; "x"]%char)
      then underscores (bool_decide (b = "x"%char)) SawDigit rest
      else underscores false SawStart s
  | _ => underscores false SawStart s
  end.

(** An unsigned number; [None] is a syntax error. *)
Definition unsigned (s : string) : option Z :=
  match s with
  | EmptyString => None
  | _ =>
      let '(base, ds) := base_of s in
      n ← in_base base 0 ds;
      if Contains s "_" && negb (underscoreOK s) then None else Some n
  end.

(** [strconv.ParseInt(s, 0, 64)]. *)
Definition ParseInt (s : string) : option Z :=
  match s with
  | EmptyString => None
  | String a rest =>
      n ← (if decide (a = "-"%char) then Z.opp <$> unsigned rest
           else if decide (a = "+"%char) then unsigned rest
           else unsigned s);
      in_int64 n
  end.

(** ** Flags *)

Inductive flag_value := FInt (n : Z) | FString (s : string).

Definition flag_set := gmap string flag_value.

Inductive flag_error :=
| BadSyntax (arg : string)
| Undefined (name : string)
| HelpRequested
| NeedsArgument (name : string)
| InvalidValue (value name : string).

(** The package's own flag set exits when it meets an error. *)
Definition exit_code (e : flag_error) : Z := match e with HelpRequested => 0 | _ => 2 end.

(** [Value.Set] of the two kinds of flags. *)
Definition set_value (v : flag_value) (text : string) : option flag_value :=
  match v with
  | FInt _ => FInt <$> ParseInt text
  | FString _ => Some (FString text)
  end.

(** What one argument is. *)
Inductive argument :=
| Positional
| Terminator
| Broken
| Named (name : string) (value : option string).

Definition named (name : string) : argument :=
  match name with
  | EmptyString => Broken
  | String a _ =>
      if bool_decide (a = "-"%char) || bool_decide (a = "="%char) then Broken
      else match cut name "="%char with
           | Some (name, value) => Named name (Some value)
           | None => Named name None
           end
  end.

Definition classify (arg : string) : argument :=
  match arg with
  | String a (String b rest as name) =>
      if decide (a = "-"%char) then
        if decide (b = "-"%char) then
          match rest with EmptyString => Terminator | _ => named rest end
        else named name
      else Positional
  | _ => Positional
  end.

(** [Parse]: the flags as set, and the arguments left. *)
Fixpoint Parse (args : list string) (fs : flag_set) : flag_set * list string + flag_error :=
  match args with
  | [] => inl (fs, [])
  | arg :: rest =>
      match classify arg with
      | Positional => inl (fs, args)
      | Terminator => inl (fs, rest)
      | Broken => inr (BadSyntax arg)
      | Named name value =>
          match fs !! name with
          | None => inr (if bool_decide (name ∈ ["help"; "h"]) then HelpRequested else Undefined name)
          | Some v =>
              match value, rest with
              | Some text, _ =>
                  match set_value v text with
                  | Some v' => Parse rest (<[name := v']> fs)
                  | None => inr (InvalidValue text name)
                  end
              | None, text :: rest' =>
                  match set_value v text with
                  | Some v' => Parse rest' (<[name := v']> fs)
                  | None => inr (InvalidValue text name)
                  end
              | None, [] => inr (NeedsArgument name)
              end
          end
      end
  end.

(** The values of flags after parsing. *)
Definition int_flag (name : string) (fs : flag_set) : Z :=
  match fs !! name with Some (FInt n) => n | _ => 0%Z end.
Definition string_flag (name : string) (fs : flag_set) : string :=
  match fs !! name with Some (FString s) => s | _ => "" end.

(** ** Round trips *)

(** A name a flag can be given by. *)
Definition flag_name (name : string) : Prop :=
  match name with
  | EmptyString => False
  | String a _ => a ≠ "-"%char
  end ∧ Forall (λ a, a ≠ "="%char) (String.list_ascii_of_string name).

Definition flag_nameb (name : string) : bool :=
  match name with EmptyString => false | String a _ => negb (bool_decide (a = "-"%char)) end &&
  forallb (λ a, negb (bool_decide (a = "="%char))) (String.list_ascii_of_string name).

Lemma flag_name_dec name : flag_nameb name = true → flag_name name.
Proof.
  unfold flag_nameb, flag_name. intros [H1 H2]%andb_prop. split.
  - destruct name; [done|]. by apply negb_true_iff, bool_decide_eq_false in H1.
  - apply Forall_forall. intros a Ha. rewrite forallb_forall in H2.
    apply list_elem_of_In, H2, negb_true_iff, bool_decide_eq_false in Ha. done.
Qed.

Definition assignment (name text : string) : string := "--" +:+ name +:+ "=" +:+ text.

Lemma cut_after s t c :
  Forall (λ a, a ≠ c) (String.list_ascii_of_string s) → cut (s +:+ String c t) c = Some (s, t).
Proof.
  induction s as [|a s IH]; simpl; intros Hs; [by rewrite decide_True|].
  apply Forall_cons in Hs as [Ha Hs]. by rewrite decide_False, (IH Hs).
Qed.

Lemma classify_assignment name text :
  flag_name name → classify (assignment name text) = Named name (Some text).
Proof.
  destruct name as [|a name]; intros [Ha Hs]; [done|].
  change (classify (assignment (String a name) text)) with (named (String a name +:+ String "=" text)).
  pose proof (cut_after _ text _ Hs) as Hcut. apply Forall_cons in Hs as [Heq _].
  change (String a name +:+ String "=" text) with (String a (name +:+ String "=" text)) in *.
  unfold named. rewrite !bool_decide_eq_false_2 by done. cbn [orb]. by rewrite Hcut.
Qed.

(** Assigning a flag that is declared sets it to the value of the text and
    leaves every other flag alone. *)
Lemma Parse_assignment name text rest fs v v' :
  flag_name name → fs !! name = Some v → set_value v text = Some v' →
  Parse (assignment name text :: rest) fs = Parse rest (<[name := v']> fs).
Proof. intros Hn Hv Hset. cbn [Parse]. by rewrite classify_assignment, Hv, Hset. Qed.

Lemma digit36_digit a d : digit_value a = Some d → digit36 a = Some d ∧ (d < 10)%Z ∧ a ≠ "_"%char.
Proof.
  unfold digit_value. intros H. assert ((48 <= code a <= 57)%Z ∧ d = (code a - 48)%Z) as [Hc ->].
  { unfold code. destruct (_ && _)%Z eqn:E; [|done]. injection H as <-. lia. }
  clear H. destruct a as [[] [] [] [] [] [] [] []]; vm_compute in Hc;
    try (exfalso; destruct Hc as [H1 H2]; solve [by apply H1|by apply H2]);
    (split; [reflexivity|split; [reflexivity|discriminate]]).
Qed.

Lemma in_base_digits s acc n : digits_from acc s = Some n → in_base 10 acc s = Some n.
Proof.
  revert acc. induction s as [|a s IH]; intros acc; cbn [digits_from in_base]; [done|].
  destruct (digit_value a) as [d|] eqn:E; [|done]. bind.
  destruct (digit36_digit a d E) as (-> & Hd & Hne). rewrite decide_False by done. bind.
  rewrite (proj2 (Z.ltb_lt d 10) Hd). apply IH.
Qed.

Lemma no_underscore s n acc : digits_from acc s = Some n → Contains s "_" = false.
Proof.
  revert acc. induction s as [|a s IH]; intros acc; cbn [digits_from]; [done|].
  destruct (digit_value a) as [d|] eqn:E; [|done]. bind. intros H.
  destruct (digit36_digit a d E) as (_ & _ & Hne). cbn [Contains]. rewrite (IH _ H), orb_false_r.
  unfold HasPrefix. apply bool_decide_eq_false. cbn [after_prefix]. rewrite decide_False by done.
  by intros [? ?].
Qed.

(** Printed numbers are read back: they have no leading zero that would make
    them octal. *)
Lemma ParseInt_pretty (n : Z) : (0 < n ≤ int64_max)%Z → ParseInt (pretty n) = Some n.
Proof.
  intros Hn. destruct n as [|p|p]; [lia| |lia]. change (pretty (Z.pos p)) with (pretty p).
  destruct (Json.pretty_positive_spec p) as (a & s & E & Hz & [d Ha] & _ & Hd).
  assert (unsigned (pretty p) = Some (Z.pos p)) as Hu.
  { unfold digits in Hd. rewrite E in *. unfold unsigned. cbn [base_of]. rewrite decide_False by done.
    rewrite (in_base_digits _ _ _ Hd). bind. by rewrite (no_underscore _ _ _ Hd). }
  unfold ParseInt. rewrite E in *.
  destruct (decide (a = "-"%char)) as [->|]; [done|]. destruct (decide (a = "+"%char)) as [->|]; [done|].
  rewrite Hu. bind. unfold in_int64. rewrite (proj2 (Z.leb_le _ _)), (proj2 (Z.leb_le _ _)); [done|lia|].
  unfold int64_min. lia.
Qed.
End Flags.
