(* ===== verification/Node.v ===== *)
(** Starting a cache node: the configuration of [src/internal/shared/config.go]
    and the wiring of [src/cmd/cachenode/main.go], from the flags and the
    environment to the eviction policy, the cache, the peers, the ring and the
    coordinator. *)
From S2P Require Import Prelude Policy Lru Heap IndexedHeap Lfu TtlPolicy RandomPolicy Cache Ring Raft GoStrings Cluster.
From Stdlib Require Import Ascii.

Module Node.

(** ** Configuration *)

Record Config := mk_Config {
  EvictionPolicyName : string;
  CacheCapacity : Z;
  InvalidationStrategy : string;
  CacheClusterAddr : string;
  DBDSN : string;
  Port : Z;
  NodeID : string;
  Peers : string
}.

Inductive config_error :=
| BadEvictionPolicy (v : string)
| BadInvalidationStrategy (v : string)
| BadCacheCapacity (v : Z).

(** [os.Getenv]: the empty string when the variable is not set. *)
Definition getEnv (env : string → string) (key defaultVal : string) : string :=
  if decide (env key = "") then defaultVal else env key.

Definition getEnvInt (env : string → string) (key : string) (defaultVal : Z) : Z :=
  if decide (env key = "") then defaultVal else default defaultVal (Atoi (env key)).

Definition validPolicies : list string := ["lru"; "lfu"; "ttl"; "random"].
Definition validStrategies : list string := ["ttl"; "write-through"; "write-behind"].

Definition Load (env : string → string) : Config + config_error :=
  let cfg := mk_Config (getEnv env "EVICTION_POLICY" "lru") (getEnvInt env "CACHE_CAPACITY" 10000)
    (getEnv env "INVALIDATION_STRATEGY" "write-through") (getEnv env "CACHE_CLUSTER_ADDR" "")
    (getEnv env "DB_DSN" "") (getEnvInt env "PORT" 8080) (getEnv env "NODE_ID" "")
    (getEnv env "PEERS" "") in
  if negb (bool_decide (EvictionPolicyName cfg ∈ validPolicies)) then
    inr (BadEvictionPolicy (EvictionPolicyName cfg))
  else if negb (bool_decide (InvalidationStrategy cfg ∈ validStrategies)) then
    inr (BadInvalidationStrategy (InvalidationStrategy cfg))
  else if ((CacheCapacity cfg <? 1) || (1000000 <? CacheCapacity cfg))%Z then
    inr (BadCacheCapacity (CacheCapacity cfg))
  else inl cfg.

(** ** The eviction policy interface value *)

(** A value of the interface [shared.EvictionPolicy] holds one of the four
    policies; a call dispatches on it. *)
Inductive AnyPolicy :=
| PLru (p : LRU.LRU)
| PLfu (p : LFU.LFU)
| PTtl (p : TTLOnly.TTLOnly)
| PRandom (p : Random.Random).

#[global] Instance AnyPolicy_policy : EvictionPolicy AnyPolicy := {
  OnAccess now k p :=
    match p with
    | PLru p => PLru <$> OnAccess now k p
    | PLfu p => PLfu <$> OnAccess now k p
    | PTtl p => PTtl <$> OnAccess now k p
    | PRandom p => PRandom <$> OnAccess now k p
    end;
  OnInsert now k e p :=
    match p with
    | PLru p => PLru <$> OnInsert now k e p
    | PLfu p => PLfu <$> OnInsert now k e p
    | PTtl p => PTtl <$> OnInsert now k e p
    | PRandom p => PRandom <$> OnInsert now k e p
    end;
  OnEvict k p :=
    match p with
    | PLru p => PLru <$> OnEvict k p
    | PLfu p => PLfu <$> OnEvict k p
    | PTtl p => PTtl <$> OnEvict k p
    | PRandom p => PRandom <$> OnEvict k p
    end;
  Evict p :=
    match p with
    | PLru p => prod_map id PLru <$> Evict p
    | PLfu p => prod_map id PLfu <$> Evict p
    | PTtl p => prod_map id PTtl <$> Evict p
    | PRandom p => prod_map id PRandom <$> Evict p
    end;
  Name p :=
    match p with
    | PLru p => Name p
    | PLfu p => Name p
    | PTtl p => Name p
    | PRandom p => Name p
    end
}.

#[global] Program Instance AnyPolicy_spec : EvictionPolicySpec AnyPolicy := {
  policy_wf p :=
    match p with
    | PLru p => policy_wf p
    | PLfu p => policy_wf p
    | PTtl p => policy_wf p
    | PRandom p => policy_wf p
    end;
  tracked p :=
    match p with
    | PLru p => tracked p
    | PLfu p => tracked p
    | PTtl p => tracked p
    | PRandom p => tracked p
    end
}.
Next Obligation.
  intros now k [p|p|p|p] Hwf; destruct (OnAccess_spec now k p Hwf) as (p' & Heq & ? & ?);
    cbn [OnAccess AnyPolicy_policy]; rewrite Heq; eexists; done.
Qed.
Next Obligation.
  intros now k e [p|p|p|p] Hwf Hk; destruct (OnInsert_spec now k e p Hwf Hk) as (p' & Heq & ? & ?);
    cbn [OnInsert AnyPolicy_policy]; rewrite Heq; eexists; done.
Qed.
Next Obligation.
  intros k [p|p|p|p] Hwf; destruct (OnEvict_spec k p Hwf) as (p' & Heq & ? & ?);
    cbn [OnEvict AnyPolicy_policy]; rewrite Heq; eexists; done.
Qed.
Next Obligation.
  intros [p|p|p|p] Hwf; destruct (Evict_spec p Hwf) as (r & p' & Heq & ? & ? & ?);
    cbn [Evict AnyPolicy_policy]; rewrite Heq; eexists _, _; done.
Qed.

(** [buildEvictionPolicy]; the seed of the random policy is the clock's. *)
Definition buildEvictionPolicy (seed : nat → Z) (name : string) : option AnyPolicy :=
  if decide (name = "lfu") then PLfu <$> LFU.NewLFU
  else if decide (name = "ttl") then PTtl <$> TTLOnly.NewTTLOnly
  else if decide (name = "random") then Some (PRandom (Random.NewRandom seed))
  else Some (PLru LRU.NewLRU).

(** ** Peers, ring and coordinator *)

(** The body of the loop of [parsePeers] on one piece. *)
Definition parsePeer (piece : string) : option Raft.PeerConfig :=
  let p := TrimSpace piece in
  if decide (p = "") then None
  else
    let id := match Index p ":"%char with
              | Some (S i) => slice_to p (S i)
              | _ => p
              end in
    Some (Raft.mk_Peer id p).

Definition parsePeers (peersFlag : string) : list Raft.PeerConfig :=
  if decide (peersFlag = "") then [] else omap parsePeer (Split peersFlag ","%char).

(** [fmt.Sprintf("%s:%d", nodeID, grpcPort)]. *)
Definition selfAddr (nodeID : string) (grpcPort : Z) : string :=
  nodeID +:+ ":" +:+ pretty grpcPort.

Definition buildRing (nodeID : string) (grpcPort : Z) (peers : list Raft.PeerConfig) : Ring.Ring :=
  foldl (λ r p, Ring.Add (Raft.ID p) (Raft.Addr p) r)
    (Ring.Add nodeID (selfAddr nodeID grpcPort) Ring.NewRing) peers.

(** One health tracker per node of the ring, whatever the order of [Nodes]. *)
Definition buildHealth (r : Ring.Ring) : gmap string Cluster.NodeHealth :=
  foldr (λ n m, <[n := Cluster.NewNodeHealth n (default "" (Ring.NodeAddr n r))]> m) ∅ (Ring.Nodes r).

Definition buildCoordinator (nodeID : string) (grpcPort : Z) (peers : list Raft.PeerConfig)
    : Cluster.Coordinator :=
  let r := buildRing nodeID grpcPort peers in
  Cluster.NewCoordinator r (buildHealth r).

(** ** The configured cache *)

Lemma buildEvictionPolicy_spec seed name :
  ∃ p, buildEvictionPolicy seed name = Some p ∧ policy_wf p ∧ tracked p = ∅ ∧
       (name ∈ validPolicies → Name p = name).
Proof.
  unfold buildEvictionPolicy, validPolicies.
  destruct (decide (name = "lfu")) as [->|H1].
  { eexists. split; [reflexivity|]. split; [|split; [reflexivity|done]]. exists ∅. apply hp_rep_empty. }
  destruct (decide (name = "ttl")) as [->|H2].
  { eexists. split; [reflexivity|]. split; [|split; [reflexivity|done]]. exists ∅. apply hp_rep_empty. }
  destruct (decide (name = "random")) as [->|H3].
  { eexists. split; [reflexivity|]. split; [constructor|]. split; [reflexivity|done]. }
  eexists. split; [reflexivity|]. split; [exists []; apply LRU.recency_new|].
  split; [reflexivity|]. simpl. set_solver.
Qed.

Lemma Load_valid env cfg :
  Load env = inl cfg →
  EvictionPolicyName cfg ∈ validPolicies ∧ InvalidationStrategy cfg ∈ validStrategies ∧
  (1 ≤ CacheCapacity cfg ≤ 1000000)%Z.
Proof.
  unfold Load. cbn [EvictionPolicyName InvalidationStrategy CacheCapacity].
  destruct (bool_decide (_ ∈ validPolicies)) eqn:H1; [|done]. apply bool_decide_eq_true in H1.
  destruct (bool_decide (_ ∈ validStrategies)) eqn:H2; [|done]. apply bool_decide_eq_true in H2.
  destruct (_ || _)%Z eqn:H3; [done|]. apply orb_false_iff in H3 as [H3%Z.ltb_ge H4%Z.ltb_ge].
  intros [= <-]. done.
Qed.

(** Whatever the environment, a cache node that starts has a working cache.
    If the configuration loads, the policy of the configured name is built, and
    the cache of the configured capacity behaves as the bounded map with
    expiries on every sequence of calls, without a panic and within 1 to
    1,000,000 entries. *)
Theorem configured_cache_meets_contract (env : string → string) (seed : nat → Z)
    (cfg : Config) (os : list Cache.op) (Hload : Load env = inl cfg) :
  ∃ pol c rs,
    buildEvictionPolicy seed (EvictionPolicyName cfg) = Some pol ∧
    Name pol = EvictionPolicyName cfg ∧
    Cache.run (Cache.New (CacheCapacity cfg) pol) os = Some (c, rs) ∧
    Cache.spec_run (CacheCapacity cfg) ∅ os (Cache.abs c) rs ∧
    (Cache.Len c ≤ CacheCapacity cfg ≤ 1000000)%Z.
Proof.
  destruct (Load_valid env cfg Hload) as (Hp & _ & Hcap & Hmax).
  destruct (buildEvictionPolicy_spec seed (EvictionPolicyName cfg)) as (pol & Hb & Hwf & Ht & Hn).
  destruct (Cache.inv_new (CacheCapacity cfg) pol Hwf Ht Hcap) as (Hinv & Hbd & Habs).
  destruct (Cache.cache_run_refines os _ (CacheCapacity cfg) Hinv eq_refl Hcap Hbd)
    as (c & rs & Hrun & _ & Hc & Hb' & Hspec).
  rewrite Habs in Hspec. unfold Cache.bounded in Hb'. exists pol, c, rs.
  do 4 (split; [by auto|]). lia.
Qed.

(** ** Round trip of the peer list *)

(** A host name or a port, as it stands in a flag: printable bytes, no comma
    and no colon. *)
Definition word (s : string) : Prop :=
  s ≠ "" ∧ Forall (λ a, plain a = true ∧ a ≠ ","%char ∧ a ≠ ":"%char) (String.list_ascii_of_string s).

Definition flag_of (peers : list Raft.PeerConfig) : string := String.concat "," (Raft.Addr <$> peers).

Lemma Split_word s t c :
  Forall (λ a, a ≠ c) (String.list_ascii_of_string s) →
  Split s c = [s] ∧ Split (s +:+ String c t) c = s :: Split t c.
Proof.
  induction s as [|a s IH]; simpl; intros Hs.
  - split; [done|]. by rewrite decide_True.
  - apply Forall_cons in Hs as [Ha Hs]. destruct (IH Hs) as [IH1 IH2].
    rewrite !decide_False by done. by rewrite IH1, IH2.
Qed.

Lemma Index_after s t c :
  Forall (λ a, a ≠ c) (String.list_ascii_of_string s) →
  Index (s +:+ String c t) c = Some (String.length s).
Proof.
  induction s as [|a s IH]; simpl; intros Hs; [by rewrite decide_True|].
  apply Forall_cons in Hs as [Ha Hs]. rewrite decide_False by done. by rewrite (IH Hs).
Qed.

Lemma slice_to_app s t : slice_to (s +:+ t) (String.length s) = s.
Proof. induction s as [|a s IH]; simpl; [by destruct t|]. by rewrite IH. Qed.

Lemma ascii_app s t :
  String.list_ascii_of_string (s +:+ t) =
    String.list_ascii_of_string s ++ String.list_ascii_of_string t.
Proof. induction s as [|a s IH]; simpl; [done|]. by rewrite IH. Qed.

Lemma parsePeer_word id port :
  word id → word port → parsePeer (id +:+ ":" +:+ port) = Some (Raft.mk_Peer id (id +:+ ":" +:+ port)).
Proof.
  intros [Hne Hid] [_ Hport]. unfold parsePeer. rewrite TrimSpace_plain.
  2:{ rewrite !ascii_app, !Forall_app. split; [|split].
      - eapply Forall_impl; [exact Hid|]. by intros a [? _].
      - by constructor; [reflexivity|].
      - eapply Forall_impl; [exact Hport|]. by intros a [? _]. }
  destruct id as [|a id]; [done|]. rewrite decide_False by done.
  change (":" +:+ port) with (String ":"%char port).
  rewrite (Index_after (String a id) port).
  2:{ eapply Forall_impl; [exact Hid|]. by intros b (_ & _ & ?). }
  cbn [String.length]. by rewrite (slice_to_app (String a id)).
Qed.

(** A peer with the address [host:port]. *)
Definition peer_of (hp : string * string) : Raft.PeerConfig :=
  Raft.mk_Peer hp.1 (hp.1 +:+ ":" +:+ hp.2).

Lemma addr_no_comma h p :
  word h → word p → Forall (λ a, a ≠ ","%char) (String.list_ascii_of_string (h +:+ ":" +:+ p)).
Proof.
  intros [_ Hh] [_ Hp]. rewrite !ascii_app, !Forall_app. split; [|split].
  - eapply Forall_impl; [exact Hh|]. by intros a (_ & ? & _).
  - by constructor.
  - eapply Forall_impl; [exact Hp|]. by intros a (_ & ? & _).
Qed.

Lemma Split_flag hps hp :
  Forall (λ x, word x.1 ∧ word x.2) (hp :: hps) →
  Split (flag_of (peer_of <$> hp :: hps)) ","%char = Raft.Addr ∘ peer_of <$> hp :: hps.
Proof.
  revert hp. induction hps as [|hp' hps IH]; intros hp [[Hh Hp] Hrest]%Forall_cons.
  - change (flag_of (peer_of <$> [hp])) with (hp.1 +:+ ":" +:+ hp.2).
    by destruct (Split_word (hp.1 +:+ ":" +:+ hp.2) "" ","%char (addr_no_comma _ _ Hh Hp)) as [-> _].
  - specialize (IH hp' Hrest).
    change (flag_of (peer_of <$> hp :: hp' :: hps)) with
      ((hp.1 +:+ ":" +:+ hp.2) +:+ String ","%char (flag_of (peer_of <$> hp' :: hps))).
    destruct (Split_word (hp.1 +:+ ":" +:+ hp.2) (flag_of (peer_of <$> hp' :: hps)) ","%char)
      as [_ ->]; [by apply addr_no_comma|]. by rewrite IH.
Qed.

(** The peer flag round trips. Printing any list of peers with well-formed
    hosts and ports as [host:port,host:port,...] and parsing it back gives the
    same peers, with the host as the node identifier. *)
Theorem parsePeers_roundtrip (hps : list (string * string))
    (Hwords : Forall (λ hp, word hp.1 ∧ word hp.2) hps) :
  parsePeers (flag_of (peer_of <$> hps)) = peer_of <$> hps.
Proof.
  destruct hps as [|hp hps]; [done|]. unfold parsePeers. rewrite decide_False.
  2:{ intros E. pose proof (Split_flag hps hp Hwords) as Hs. rewrite E in Hs.
      apply Forall_cons in Hwords as [[[Hh _] _] _]. destruct hp as [[|a h] p]; [done|].
      simpl in Hs. by destruct hps. }
  rewrite Split_flag by done. clear -Hwords. induction Hwords as [|x l [Hh Hp] _ IH]; [done|].
  rewrite !fmap_cons. cbn [omap list_omap]. unfold compose at 1. cbn [peer_of Raft.Addr].
  rewrite parsePeer_word by done. f_equal. exact IH.
Qed.

(** ** Every member routes alike *)

Lemma buildRing_build nodeID port peers :
  Ring.build Ring.NewRing (Ring.Register nodeID (selfAddr nodeID port) ::
    ((λ p, Ring.Register (Raft.ID p) (Raft.Addr p)) <$> peers)) = Some (buildRing nodeID port peers).
Proof.
  unfold buildRing. cbn [Ring.build Ring.apply_change mbind option_bind].
  generalize (Ring.Add nodeID (selfAddr nodeID port) Ring.NewRing).
  induction peers as [|p peers IH]; intros r; [done|]. rewrite fmap_cons. simpl. apply IH.
Qed.

Lemma legal_registers U (m : gmap string string) (ps : list (string * string)) :
  NoDup ps.*1 → (∀ n, n ∈ ps.*1 → n ∈ U ∧ m !! n = None) →
  Ring.legal U m ((λ p, Ring.Register p.1 p.2) <$> ps) = true ∧
  foldl Ring.registered m ((λ p, Ring.Register p.1 p.2) <$> ps) = list_to_map ps ∪ m.
Proof.
  revert m. induction ps as [|[n a] ps IH]; intros m Hnd Hps.
  { split; [done|]. simpl. by rewrite (left_id_L ∅ (∪)). }
  rewrite fmap_cons in *. apply NoDup_cons in Hnd as [Hn Hnd].
  destruct (Hps n) as [HU Hm]; [by left|].
  destruct (IH (<[n := a]> m) Hnd) as [IH1 IH2].
  { intros n' Hn'. rewrite lookup_insert_ne by (intros ->; done). apply Hps. by right. }
  cbn [Ring.legal Ring.registered foldl fst snd]. split.
  - rewrite !bool_decide_eq_true_2 by done. done.
  - rewrite IH2. simpl. rewrite <-insert_union_l, <-insert_union_r; [done|].
    by apply not_elem_of_list_to_map_1.
Qed.

(** The registration of a member. *)
Definition entry_of (np : string * Z) : string * string := (np.1, selfAddr np.1 np.2).

Lemma entry_names l : (entry_of <$> l).*1 = l.*1.
Proof. induction l as [|np l IH]; [done|]. rewrite !fmap_cons. by f_equal. Qed.

Lemma member_ring (members others : list (string * Z)) n p :
  Ring.collision_free members.*1 → NoDup members.*1 → (n, p) :: others ≡ₚ members →
  let r := buildRing n p ((λ np, Raft.mk_Peer np.1 (selfAddr np.1 np.2)) <$> others) in
  Ring.ring_rep members.*1 r ∧ Ring.nodeAddrs r = list_to_map (entry_of <$> members).
Proof.
  intros Hcf Hnd Hperm r.
  assert (Ring.build Ring.NewRing ((λ x, Ring.Register x.1 x.2) <$> (entry_of <$> (n, p) :: others))
    = Some r) as Hb.
  { unfold r. rewrite <-buildRing_build. rewrite !fmap_cons. do 2 f_equal.
    by rewrite <-!list_fmap_compose. }
  assert (NoDup (entry_of <$> (n, p) :: others).*1) as Hnd1
    by (rewrite entry_names, Hperm; done).
  destruct (legal_registers members.*1 ∅ (entry_of <$> (n, p) :: others) Hnd1) as [Hleg Hreg].
  { intros m Hm. rewrite entry_names, Hperm in Hm. done. }
  destruct (Ring.build_rep members.*1 Ring.NewRing _ Hcf (Ring.ring_rep_new _) Hleg)
    as (r' & Hb' & Hrep & Ha). rewrite Hb in Hb'. injection Hb' as <-. split; [done|].
  change (Ring.nodeAddrs Ring.NewRing) with (∅ : gmap string string) in Ha.
  rewrite Hreg, (right_id_L ∅ (∪)) in Ha. rewrite Ha.
  apply list_to_map_proper; [done|]. by rewrite Hperm.
Qed.

Lemma buildHealth_lookup r n :
  n ∈ dom (Ring.nodeAddrs r) →
  buildHealth r !! n = Some (Cluster.NewNodeHealth n (default "" (Ring.NodeAddr n r))).
Proof.
  intros Hn. unfold buildHealth, Ring.Nodes.
  assert (n ∈ (map_to_list (Ring.nodeAddrs r)).*1) as Hin
    by (by rewrite dom_alt, elem_of_list_to_set in Hn).
  induction (map_to_list (Ring.nodeAddrs r)).*1 as [|m l IH]; [set_solver|]. simpl.
  destruct (decide (m = n)) as [->|Hne]; [by rewrite lookup_insert_eq|].
  rewrite lookup_insert_ne by done. apply IH. set_solver.
Qed.

(** Every member of the cluster builds the same ring and routes alike. Let
    the members have distinct names whose tokens do not collide, and let each
    start with itself and the others, in any order, as its peers: any two of
    them end up with equal rings, and as coordinators with all nodes up they
    route every key to the same node, one of the members. *)
Theorem members_route_alike (members : list (string * Z)) (n1 n2 : string) (p1 p2 : Z)
    (others1 others2 : list (string * Z)) (key : string)
    (Hcf : Ring.collision_free members.*1) (Hnd : NoDup members.*1)
    (H1 : (n1, p1) :: others1 ≡ₚ members) (H2 : (n2, p2) :: others2 ≡ₚ members) :
  let peers l := (λ np : string * Z, Raft.mk_Peer np.1 (selfAddr np.1 np.2)) <$> l in
  let c1 := Cluster.SetLeader true (buildCoordinator n1 p1 (peers others1)) in
  let c2 := Cluster.SetLeader true (buildCoordinator n2 p2 (peers others2)) in
  c1 = c2 ∧
  ∃ n p, (n, p) ∈ members ∧
         Cluster.Route key c1 = Some (Cluster.mk_RouteResult n (selfAddr n p), true, None).
Proof.
  intros peers c1 c2.
  destruct (member_ring members others1 n1 p1 Hcf Hnd H1) as [Hrep1 Ha1].
  destruct (member_ring members others2 n2 p2 Hcf Hnd H2) as [Hrep2 Ha2].
  set (r1 := buildRing n1 p1 _) in Hrep1, Ha1. set (r2 := buildRing n2 p2 _) in Hrep2, Ha2.
  assert (r1 = r2) as Hr by (apply (Ring.ring_rep_unique members.*1); try done; congruence).
  split.
  - unfold c1, c2, buildCoordinator. fold (peers others1) in r1. fold (peers others2) in r2.
    fold r1. fold r2. by rewrite Hr.
  - destruct (Ring.Get_nearest key r1 (Ring.ring_rep_wf _ _ Hrep1)) as (t & n & a & Hget & _ & Ht & Hn).
    { intros Hl. assert (Ring.token n1 0 ∈ Ring.sortedTokens r1) as Hin.
      { apply (Ring.rep_elem _ _ Hrep1). exists n1. apply (Ring.rep_tokens _ _ Hrep1). split.
        - rewrite Ha1, dom_list_to_map_L, entry_names, <-H1. set_solver.
        - apply list_elem_of_fmap_2, elem_of_seq. unfold Ring.defaultVirtualNodes. lia. }
      rewrite Hl in Hin. by apply elem_of_nil in Hin. }
    pose proof Hn as Hin. rewrite Ha1 in Hin.
    apply elem_of_list_to_map_2, list_elem_of_fmap_1 in Hin as ([m p] & [= -> ->] & Hm).
    exists m, p. split; [done|]. unfold Cluster.Route. simpl. fold (peers others1) in r1. fold r1.
    rewrite Hget. simpl. rewrite buildHealth_lookup by (by eapply elem_of_dom_2). done.
Qed.

(** *** Witnesses *)

Definition docker_env : string → string := λ key,
  if decide (key = "EVICTION_POLICY") then "lfu"
  else if decide (key = "CACHE_CAPACITY") then "500" else "".

Lemma configured_cache_meets_contract_witness :
  ∃ cfg pol c rs, Load docker_env = inl cfg ∧ CacheCapacity cfg = 500%Z ∧
    buildEvictionPolicy (λ _, 0%Z) "lfu" = Some pol ∧ Name pol = "lfu" ∧
    Cache.run (Cache.New 500 pol) [Cache.OpGet (λ _, 1%Z) "k"] = Some (c, rs).
Proof.
  destruct (Load docker_env) as [cfg|e] eqn:Hload; [|vm_compute in Hload; discriminate Hload].
  destruct (configured_cache_meets_contract docker_env (λ _, 0%Z) cfg
    [Cache.OpGet (λ _, 1%Z) "k"] Hload) as (pol & c & rs & Hb & Hn & Hrun & _).
  vm_compute in Hload. injection Hload as <-. cbn [EvictionPolicyName CacheCapacity] in *.
  eexists _, pol, c, rs. split; [reflexivity|]. split; [reflexivity|].
  split; [exact Hb|]. split; [exact Hn|exact Hrun].
Defined.

Lemma parsePeers_roundtrip_witness :
  parsePeers "node2:9002,node3:9003" = [Raft.mk_Peer "node2" "node2:9002"; Raft.mk_Peer "node3" "node3:9003"].
Proof.
  apply (parsePeers_roundtrip [("node2", "9002"); ("node3", "9003")]).
  repeat constructor; simpl; try discriminate.
Defined.

Definition docker_members : list (string * Z) := [("node1", 9001); ("node2", 9002); ("node3", 9003)]%Z.

Lemma members_route_alike_witness :
  Cluster.SetLeader true (buildCoordinator "node1" 9001
    [Raft.mk_Peer "node2" "node2:9002"; Raft.mk_Peer "node3" "node3:9003"]) =
  Cluster.SetLeader true (buildCoordinator "node2" 9002
    [Raft.mk_Peer "node1" "node1:9001"; Raft.mk_Peer "node3" "node3:9003"]).
Proof.
  destruct (members_route_alike docker_members "node1" "node2" 9001 9002
    [("node2", 9002%Z); ("node3", 9003%Z)] [("node1", 9001%Z); ("node3", 9003%Z)] "user:1")
    as [Heq _].
  - exact Ring.cluster3_collision_free.
  - apply (bool_decide_eq_true_1 (NoDup _)). reflexivity.
  - reflexivity.
  - apply perm_swap.
  - exact Heq.
Defined.
End Node.
