(* ===== verification/Debug.v ===== *)
(** The diagnostic endpoints: what a cache node serves on its HTTP port
    ([startHTTPServer] of [src/cmd/cachenode/main.go]), how the API collects it
    ([src/internal/api/debug.go]), and the ring, the coordinator and the node
    addresses [src/cmd/api/main.go] sets up for that. *)
From S2P Require Import Prelude Policy Lru Cache Ring Raft GoStrings Json GoFmt Cluster Node.
From Stdlib Require Import Ascii.

Module Debug.
Import Json GoFmt.

(** ** The HTTP endpoints of a cache node *)

Record response := mk_response { status : Z; contentType : option string; body : string }.

Section NodeHTTP.
Context (IsPrint : string → bool) {P : Type} `{!EvictionPolicy P}.

(** [/health]; [leads] is the coordinator's flag. *)
Definition serve_health (nodeID : string) (leads : bool) (srv : Cluster.CacheServer P) : response :=
  let '(healthy, isCoord) := Cluster.Health leads srv in
  if healthy then
    mk_response 200 (Some "application/json")
      (encode_object [("healthy", "true"); ("node_id", Quote IsPrint nodeID);
                      ("is_coordinator", encode_bool isCoord)])
  else
    mk_response 503 None
      (encode_object [("healthy", "false"); ("node_id", Quote IsPrint nodeID)]).

(** [/metrics]. *)
Definition serve_metrics (nodeID : string) (srv : Cluster.CacheServer P) : response :=
  let '(hits, misses, evictions, entries, policyName) := Cluster.Stats srv in
  mk_response 200 (Some "text/plain")
    ("# cache stats for " +:+ nodeID +:+ " (policy=" +:+ policyName +:+ ")" +:+ nl +:+
     "cache_hits " +:+ pretty hits +:+ nl +:+ "cache_misses " +:+ pretty misses +:+ nl +:+
     "cache_evictions " +:+ pretty evictions +:+ nl +:+ "cache_entries " +:+ pretty entries +:+ nl).
End NodeHTTP.

(** ** Collecting the status of the cluster *)

Record NodeStatus := mk_NodeStatus {
  NodeID : string;
  Healthy : bool;
  IsCoordinator : bool;
  EntryCount : Z;
  HitCount : Z;
  MissCount : Z;
  EvictionCount : Z;
  Error : string
}.

(** What a [GET] with a timeout comes back with: the URL does not make a request,
    nothing answers in time, or the body of an answer. *)
Inductive reply :=
| BadRequest (err : string)
| NoAnswer
| Answer (body : string).

Record healthReply := mk_healthReply { h_healthy : bool; h_node_id : string; h_is_coordinator : bool }.

Definition set_health (key : string) (v : json) (h : healthReply) : option healthReply :=
  if same_name key "healthy" then
    b ← to_bool v (h_healthy h); Some (mk_healthReply b (h_node_id h) (h_is_coordinator h))
  else if same_name key "node_id" then
    s ← to_string v (h_node_id h); Some (mk_healthReply (h_healthy h) s (h_is_coordinator h))
  else if same_name key "is_coordinator" then
    b ← to_bool v (h_is_coordinator h); Some (mk_healthReply (h_healthy h) (h_node_id h) b)
  else Some h.

Definition decode_health (text : string) : option healthReply :=
  v ← first_value text; to_struct set_health v (mk_healthReply false "" false).

(** The format the counts are scanned with. *)
Definition stats_format : string :=
  "# cache stats for %*s" +:+ nl +:+ "cache_hits %d" +:+ nl +:+ "cache_misses %d" +:+ nl +:+
  "cache_evictions %d" +:+ nl +:+ "cache_entries %d" +:+ nl.

Section Collect.
(** The network, as the answer to a [GET] of a URL. *)
Context (fetch : string → reply).

(** The variables the scan does not reach keep their zero. *)
Definition fetchNodeStats (nodeID metricsURL : string) : NodeStatus :=
  match fetch metricsURL with
  | BadRequest _ | NoAnswer => mk_NodeStatus nodeID false false 0 0 0 0 ""
  | Answer text =>
      let scanned := Fscanf 4 stats_format text in
      let nth i := default 0%Z (scanned !! i) in
      let hits := nth 0 in let misses := nth 1 in let evictions := nth 2 in let entries := nth 3 in
      mk_NodeStatus nodeID false false entries hits misses evictions ""
  end.

Definition fetchNodeHealth (nodeID httpAddr : string) : NodeStatus :=
  match fetch ("http://" +:+ httpAddr +:+ "/health") with
  | BadRequest err => mk_NodeStatus nodeID false false 0 0 0 0 err
  | NoAnswer => mk_NodeStatus nodeID false false 0 0 0 0 "unreachable"
  | Answer text =>
      match decode_health text with
      | None => mk_NodeStatus nodeID false false 0 0 0 0 "bad response"
      | Some health =>
          let stats := fetchNodeStats nodeID ("http://" +:+ httpAddr +:+ "/metrics") in
          mk_NodeStatus nodeID (h_healthy health) (h_is_coordinator health) (EntryCount stats)
            (HitCount stats) (MissCount stats) (EvictionCount stats) (Error stats)
      end
  end.

(** The loop of [ClusterStatus] over the nodes in the order [Nodes] gave them. *)
Fixpoint ClusterStatus_loop (nodeAddrs : gmap string string) (nodes : list string)
    (statuses : list NodeStatus) (coordinator : string) : list NodeStatus * string :=
  match nodes with
  | [] => (statuses, coordinator)
  | nodeID :: nodes =>
      match nodeAddrs !! nodeID with
      | None =>
          ClusterStatus_loop nodeAddrs nodes
            (statuses ++ [mk_NodeStatus nodeID false false 0 0 0 0 "address not configured"]) coordinator
      | Some httpAddr =>
          let status := fetchNodeHealth nodeID httpAddr in
          ClusterStatus_loop nodeAddrs nodes (statuses ++ [status])
            (if IsCoordinator status then nodeID else coordinator)
      end
  end.

Definition ClusterStatus (nodeAddrs : gmap string string) (nodes : list string)
    : list NodeStatus * string :=
  ClusterStatus_loop nodeAddrs nodes [] "".

(** ** The counts *)

(** The first verb of the format is no verb of an integer, so the scan sets
    nothing. *)
Lemma stats_scan_empty text : Fscanf 4 stats_format text = [].
Proof.
  apply (Fscanf_bad_verb 4 "# cache stats for " "*"%char); [|done].
  apply (bool_decide_eq_true_1 (Forall _ _)). reflexivity.
Qed.

Lemma fetchNodeStats_zero nodeID url :
  fetchNodeStats nodeID url = mk_NodeStatus nodeID false false 0 0 0 0 "".
Proof. unfold fetchNodeStats. destruct (fetch url); try done. by rewrite stats_scan_empty. Qed.

(** ** The health of a node *)

(** The identifiers of nodes are printable ASCII. *)
Definition printable_id (s : string) : Prop :=
  Forall (λ a, printable a = true) (String.list_ascii_of_string s).

Lemma decode_serve_health IsPrint {P} `{!EvictionPolicy P} nodeID leads (srv : Cluster.CacheServer P) :
  printable_id nodeID →
  decode_health (body (serve_health IsPrint nodeID leads srv)) = Some (mk_healthReply true nodeID leads).
Proof.
  intros Hid. unfold serve_health, decode_health. cbn [Cluster.Health body].
  rewrite <-(str_app_nil (encode_object _)).
  rewrite (first_value_object _
    [("healthy", JBool true); ("node_id", JString nodeID); ("is_coordinator", JBool leads)]); [done|..|done|done].
  constructor; [split_and!; [done|done|apply (reads_bool true)]|].
  constructor; [split_and!; [done|done|by apply reads_quote]|].
  constructor; [split_and!; [done|done|apply reads_bool]|constructor].
Qed.

(** The state of a node's endpoint: unreachable, or serving [/health] with the
    coordinator flag given, under whatever name the node has for itself. *)
Definition endpoint_ok (IsPrint : string → bool) (up : string → option bool) (nodeID httpAddr : string)
    : Prop :=
  match up nodeID with
  | None => fetch ("http://" +:+ httpAddr +:+ "/health") = NoAnswer
  | Some leads =>
      ∃ (name : string) (srv : Cluster.CacheServer LRU.LRU),
        printable_id name ∧
        fetch ("http://" +:+ httpAddr +:+ "/health") = Answer (body (serve_health IsPrint name leads srv))
  end.

(** What is reported of a node. *)
Definition reported (nodeAddrs : gmap string string) (up : string → option bool) (nodeID : string)
    : NodeStatus :=
  match nodeAddrs !! nodeID, up nodeID with
  | None, _ => mk_NodeStatus nodeID false false 0 0 0 0 "address not configured"
  | Some _, None => mk_NodeStatus nodeID false false 0 0 0 0 "unreachable"
  | Some _, Some leads => mk_NodeStatus nodeID true leads 0 0 0 0 ""
  end.

Lemma fetchNodeHealth_spec IsPrint nodeAddrs up nodeID httpAddr :
  nodeAddrs !! nodeID = Some httpAddr → endpoint_ok IsPrint up nodeID httpAddr →
  fetchNodeHealth nodeID httpAddr = reported nodeAddrs up nodeID.
Proof.
  unfold endpoint_ok. intros Ha Hup. unfold fetchNodeHealth, reported. rewrite Ha.
  destruct (up nodeID) as [leads|]; [|by rewrite Hup].
  destruct Hup as (name & srv & Hid & Hsrv).
  by rewrite Hsrv, (decode_serve_health IsPrint name leads srv Hid), fetchNodeStats_zero.
Qed.

(** A node that is asked and says that it is the coordinator. *)
Definition claims (nodeAddrs : gmap string string) (up : string → option bool) (nodeID : string) : bool :=
  bool_decide (is_Some (nodeAddrs !! nodeID)) && bool_decide (up nodeID = Some true).

Lemma reported_claims nodeAddrs up n : IsCoordinator (reported nodeAddrs up n) = claims nodeAddrs up n.
Proof.
  unfold reported, claims. destruct (nodeAddrs !! n); [|done]. rewrite bool_decide_true by eauto.
  by destruct (up n) as [[]|].
Qed.

Lemma ClusterStatus_loop_spec IsPrint nodeAddrs up nodes sts c :
  (∀ n a, n ∈ nodes → nodeAddrs !! n = Some a → endpoint_ok IsPrint up n a) →
  ClusterStatus_loop nodeAddrs nodes sts c =
    (sts ++ (reported nodeAddrs up <$> nodes),
     default c (last (filter (λ n, claims nodeAddrs up n = true) nodes))).
Proof.
  revert sts c. induction nodes as [|n nodes IH]; intros sts c Hok.
  { simpl. by rewrite app_nil_r. }
  assert (∀ n' a, n' ∈ nodes → nodeAddrs !! n' = Some a → endpoint_ok IsPrint up n' a) as Hok'.
  { intros n' a Hn'. apply Hok. by right. }
  cbn [ClusterStatus_loop]. rewrite fmap_cons, filter_cons. destruct (nodeAddrs !! n) as [a|] eqn:Ha.
  - rewrite (fetchNodeHealth_spec IsPrint nodeAddrs up n a Ha) by (apply Hok; [by left|done]).
    rewrite IH, <-app_assoc by done. rewrite (reported_claims nodeAddrs up n).
    destruct (claims nodeAddrs up n); [rewrite decide_True by done|by rewrite decide_False by done].
    rewrite last_cons. by destruct (last _).
  - rewrite IH, <-app_assoc by done.
    assert (claims nodeAddrs up n = false) as Hc by (unfold claims; by rewrite Ha).
    assert (reported nodeAddrs up n = mk_NodeStatus n false false 0 0 0 0 "address not configured") as ->
      by (unfold reported; by rewrite Ha).
    rewrite Hc, decide_False by done. done.
Qed.

(** C32: the cluster status is what the nodes serve. Let every configured node
    either be unreachable or serve its own [/health] page: the status lists
    exactly the nodes of the ring in the order [Nodes] gave them, with the
    health and the coordinator flag each serves and with the errors for
    unreachable and unconfigured nodes; the coordinator it names is a node that
    claims to be it, and it names one if there is any. The counts it reports are
    all zero, whatever the nodes' [/metrics] pages say. *)
Theorem cluster_status_exact (IsPrint : string → bool) (nodeAddrs : gmap string string)
    (up : string → option bool) (nodes : list string)
    (Hok : ∀ n a, n ∈ nodes → nodeAddrs !! n = Some a → endpoint_ok IsPrint up n a) :
  let '(statuses, coordinator) := ClusterStatus nodeAddrs nodes in
  statuses = reported nodeAddrs up <$> nodes ∧
  ((coordinator ∈ nodes ∧ claims nodeAddrs up coordinator = true) ∨
   (coordinator = "" ∧ ∀ n, n ∈ nodes → claims nodeAddrs up n = false)).
Proof.
  unfold ClusterStatus. rewrite (ClusterStatus_loop_spec IsPrint nodeAddrs up nodes [] "" Hok).
  split; [done|].
  destruct (last (filter (λ n, claims nodeAddrs up n = true) nodes)) as [n|] eqn:El; simpl.
  - left. apply last_Some_elem_of, list_elem_of_filter in El. tauto.
  - right. apply last_None in El. split; [done|]. intros n Hn.
    destruct (claims nodeAddrs up n) eqn:Hc; [|done].
    assert (n ∈ filter (λ n, claims nodeAddrs up n = true) nodes) as Hin
      by (by apply list_elem_of_filter).
    rewrite El in Hin. by apply elem_of_nil in Hin.
Qed.
End Collect.

(** ** The debug handler of the API *)

(** The metrics address of a node from the parts of its gRPC address. *)
Definition http_addr (host port : string) : option string :=
  if decide (port = "") then None
  else if decide (port = "9001") then Some (host +:+ ":9101")
  else if decide (port = "9002") then Some (host +:+ ":9102")
  else if decide (port = "9003") then Some (host +:+ ":9103")
  else Some (host +:+ ":9101").

(** One piece of [CACHE_CLUSTER_ADDR]. *)
Definition register_node (acc : Ring.Ring * gmap string string) (piece : string)
    : Ring.Ring * gmap string string :=
  let '(r, addrs) := acc in
  let addr := TrimSpace piece in
  if decide (addr = "") then acc
  else match cut addr ":"%char with
       | None => acc
       | Some (host, port) =>
           let nodeID := remove_all "cache-" 0 host in
           (Ring.Add nodeID addr r,
            match http_addr host port with Some a => <[nodeID := a]> addrs | None => addrs end)
       end.

Definition buildDebugRing (clusterAddr : string) : Ring.Ring * gmap string string :=
  if decide (clusterAddr = "") then (Ring.NewRing, ∅)
  else foldl register_node (Ring.NewRing, ∅) (Split clusterAddr ","%char).

Definition buildDebugCoordinator (r : Ring.Ring) : Cluster.Coordinator :=
  Cluster.SetLeader true (Cluster.NewCoordinator r (Node.buildHealth r)).

Section Handler.
Context {P : Type} `{!EvictionPolicy P, !EvictionPolicySpec P}.

Record DebugHandler := mk_DebugHandler {
  cache : Cache.InMemoryCache P;
  ring : Ring.Ring;
  coordinator : Cluster.Coordinator;
  nodeAddrs : gmap string string
}.

(** The handler [main] makes. *)
Definition buildDebugHandler (clusterAddr : string) (c : Cache.InMemoryCache P) : DebugHandler :=
  let '(r, addrs) := buildDebugRing clusterAddr in
  mk_DebugHandler c r (buildDebugCoordinator r) addrs.

Record CacheDebugResponse := mk_CacheDebugResponse {
  Key : string;
  OwnerNode : string;
  OwnerAddr : string;
  InCache : bool;
  CacheStatus : string;
  OwnerIsCoordinator : bool
}.

(** [CacheDebug]: the report, or the message of a bad request. The lookup is an
    ordinary [Get] of the cache, with its effects on it. *)
Definition CacheDebug (now : Clock) (key : string) (d : DebugHandler)
    : option (DebugHandler * (CacheDebugResponse + string)) :=
  if decide (key = "") then Some (d, inr "key is required")
  else
    owner ← Ring.Get key (ring d);
    let '(ownerNode, ownerAddr) := match owner with Some na => na | None => ("unknown", "") end in
    '(c, r) ← Cache.Get now key (cache d);
    let inCache := bool_decide (is_Some r) in
    Some (mk_DebugHandler c (ring d) (coordinator d) (nodeAddrs d),
          inl (mk_CacheDebugResponse key ownerNode ownerAddr inCache
                 (if inCache then "HIT" else "MISS") (Cluster.IsLeader (coordinator d)))).

(** *** The ring of the handler *)

Definition handler_ok (acc : Ring.Ring * gmap string string) : Prop :=
  Ring.ring_wf acc.1 ∧ (Ring.nodeAddrs acc.1 = ∅ ↔ Ring.sortedTokens acc.1 = []) ∧
  Ring.virtualNodes acc.1 = Ring.defaultVirtualNodes ∧ dom acc.2 ⊆ dom (Ring.nodeAddrs acc.1).

Lemma register_node_ok acc piece : handler_ok acc → handler_ok (register_node acc piece).
Proof.
  destruct acc as [r addrs]. intros (Hwf & Hemp & Hv & Hdom). unfold register_node.
  destruct (decide _); [done|]. destruct (cut _ _) as [[host port]|]; [|done].
  set (nodeID := remove_all "cache-" 0 host). set (addr := TrimSpace piece).
  destruct (Ring.Add_spec nodeID addr r) as (Ha & Hv' & _ & Hperm & _).
  split; [by apply Ring.wf_add|]. simpl in *. split; [|split].
  - rewrite Ha. split; [intros E; by apply insert_non_empty in E|].
    intros E. rewrite E, Hv in Hperm. apply Permutation_nil in Hperm. symmetry in Hperm.
    destruct (Ring.sortedTokens r); done.
  - congruence.
  - rewrite Ha, dom_insert_L. destruct (http_addr host port); rewrite ?dom_insert_L; set_solver.
Qed.

Lemma buildDebugRing_ok clusterAddr : handler_ok (buildDebugRing clusterAddr).
Proof.
  assert (handler_ok (Ring.NewRing, ∅)) as Hnew.
  { split; [apply Ring.wf_new|]. split; [done|]. split; [done|]. simpl. set_solver. }
  unfold buildDebugRing. destruct (decide _); [done|].
  generalize (Ring.NewRing, ∅ : gmap string string), Hnew.
  induction (Split clusterAddr ",") as [|piece l IH]; intros acc Hacc; [done|].
  simpl. by apply IH, register_node_ok.
Qed.

(** C33: the key report. Whatever [CACHE_CLUSTER_ADDR] holds and whatever is
    cached, a request for a key is answered without a panic: the report names
    the node whose token comes next clockwise from the key, with the address it
    was registered with, or [unknown] exactly when no node is configured; it
    says HIT exactly when the key is cached and has not expired; it calls the
    owner the coordinator, whichever node that is; and it leaves every cached
    value that has not expired in place. *)
Theorem key_report_exact (clusterAddr key : string) (now : Clock) (c : Cache.InMemoryCache P)
    (Hinv : Cache.cache_inv c) (Hkey : key ≠ "") :
  ∃ d' resp,
    CacheDebug now key (buildDebugHandler clusterAddr c) = Some (d', inl resp) ∧
    Key resp = key ∧ OwnerIsCoordinator resp = true ∧
    (Ring.nodeAddrs (ring d') = ∅ ∧ OwnerNode resp = "unknown" ∧ OwnerAddr resp = "" ∨
     ∃ t, Ring.nearest (Ring.sortedTokens (ring d')) (Ring.hashKey key) t ∧
          Ring.tokens (ring d') !! t = Some (OwnerNode resp) ∧
          Ring.nodeAddrs (ring d') !! OwnerNode resp = Some (OwnerAddr resp)) ∧
    InCache resp = Cache.readable c (now 0) key ∧
    CacheStatus resp = (if InCache resp then "HIT" else "MISS") ∧
    Cache.cache_inv (cache d') ∧
    (∀ k v x, Cache.abs c !! k = Some (v, x) → Cache.past x (now 1) = false →
              Cache.abs (cache d') !! k = Some (v, x)).
Proof.
  pose proof (buildDebugRing_ok clusterAddr) as (Hwf & Hemp & _ & _).
  unfold CacheDebug, buildDebugHandler. rewrite decide_False by done.
  destruct (buildDebugRing clusterAddr) as [r addrs]. cbn [fst snd ring cache coordinator] in *.
  assert (∃ o, Ring.Get key r = Some o ∧
    let '(n, a) := match o with Some na => na | None => ("unknown", "") end in
    (Ring.nodeAddrs r = ∅ ∧ n = "unknown" ∧ a = "" ∨
     ∃ t, Ring.nearest (Ring.sortedTokens r) (Ring.hashKey key) t ∧ Ring.tokens r !! t = Some n ∧
          Ring.nodeAddrs r !! n = Some a)) as (o & -> & Howner).
  { destruct (decide (Ring.sortedTokens r = [])) as [He|Hne].
    - exists None. split; [by apply Ring.Get_empty|]. left. by rewrite Hemp.
    - destruct (Ring.Get_nearest key r Hwf Hne) as (t & n & a & Hget & ?). exists (Some (n, a)).
      split; [done|]. right. eauto. }
  bind. destruct (match o with Some na => na | None => _ end) as [n a].
  destruct (Cache.Get_spec now key c Hinv) as (c' & res & -> & Hinv' & _ & _ & Hres). bind.
  eexists _, _. split; [reflexivity|]. cbn. split; [done|]. split; [done|]. split; [exact Howner|].
  unfold Cache.readable. destruct (Cache.abs c !! key) as [[v x]|] eqn:Ek.
  - destruct (Cache.past x (now 0)) eqn:E0.
    + destruct Hres as [-> Hc]. split; [done|]. split; [done|]. split; [done|].
      destruct (Cache.past x (now 1)) eqn:E1; [|by subst c'].
      destruct Hc as [-> _]. intros k v' x' Hk Hx'. rewrite lookup_delete_ne; [done|].
      intros ->. congruence.
    + destruct Hres as (-> & -> & _). by split_and!.
  - destruct Hres as [-> ->]. by split_and!.
Qed.
End Handler.

(** ** The deployment *)

Definition docker_addr : string := "cache-node-1:9001,cache-node-2:9002,cache-node-3:9003".

(** [main] derives the identifiers [node-1] to [node-3], and the cache nodes
    call themselves [node1] to [node3]: the owner that the debug endpoint names
    for a key is not the node that owns it. *)
Theorem debug_owner_differs :
  Ring.Get "product:prod-001" (buildDebugRing docker_addr).1 = Some (Some ("node-3", "cache-node-3:9003")) ∧
  Ring.Get "product:prod-001" (Node.buildRing "node1" 9001
    [Raft.mk_Peer "node2" "node2:9002"; Raft.mk_Peer "node3" "node3:9003"]) = Some (Some ("node2", "node2:9002")).
Proof. split; vm_compute; reflexivity. Qed.

(** The first node leads, the second is up, the third is down. *)
Definition idle_server : Cluster.CacheServer LRU.LRU :=
  Cluster.NewCacheServer "node1" (Cache.New 10 LRU.NewLRU).
Definition demo_up (n : string) : option bool :=
  if decide (n = "node-1") then Some true else if decide (n = "node-2") then Some false else None.
Definition demo_net (url : string) : reply :=
  if decide (url = "http://cache-node-1:9101/health") then
    Answer (body (serve_health (λ _, true) "node1" true idle_server))
  else if decide (url = "http://cache-node-2:9102/health") then
    Answer (body (serve_health (λ _, true) "node2" false idle_server))
  else if decide (url = "http://cache-node-1:9101/metrics") then
    Answer (body (serve_metrics "node1" idle_server))
  else NoAnswer.

Lemma cluster_status_exact_witness :
  ClusterStatus demo_net (buildDebugRing docker_addr).2 ["node-2"; "node-1"; "node-3"] =
    ([mk_NodeStatus "node-2" true false 0 0 0 0 ""; mk_NodeStatus "node-1" true true 0 0 0 0 "";
      mk_NodeStatus "node-3" false false 0 0 0 0 "unreachable"], "node-1") ∧
  reported (buildDebugRing docker_addr).2 demo_up <$> ["node-2"; "node-1"; "node-3"] =
    (ClusterStatus demo_net (buildDebugRing docker_addr).2 ["node-2"; "node-1"; "node-3"]).1.
Proof.
  assert ((buildDebugRing docker_addr).2 = <["node-3" := "cache-node-3:9103"]>
    (<["node-2" := "cache-node-2:9102"]> {["node-1" := "cache-node-1:9101"]})) as E
    by (vm_compute; reflexivity).
  rewrite E. split; [vm_compute; reflexivity|].
  pose proof (cluster_status_exact demo_net (λ _, true) (<["node-3" := "cache-node-3:9103"]>
    (<["node-2" := "cache-node-2:9102"]> {["node-1" := "cache-node-1:9101"]})) demo_up
    ["node-2"; "node-1"; "node-3"]) as H.
  destruct (ClusterStatus demo_net _ _) as [sts co]. symmetry. apply H. clear H.
  intros n a Hn Ha. assert (printable_id "node1" ∧ printable_id "node2") as [P1 P2]
    by (split; apply (bool_decide_eq_true_1 (Forall _ _)); reflexivity).
  repeat (apply elem_of_cons in Hn as [->|Hn]).
  - vm_compute in Ha. injection Ha as <-. exists "node2", idle_server. by split.
  - vm_compute in Ha. injection Ha as <-. exists "node1", idle_server. by split.
  - vm_compute in Ha. injection Ha as <-. reflexivity.
  - by apply elem_of_nil in Hn.
Defined.

Lemma key_report_exact_witness :
  ∃ d resp,
    CacheDebug (λ _, 1%Z) "user:1" (buildDebugHandler docker_addr (Cache.New 10 LRU.NewLRU)) =
      Some (d, inl resp) ∧ Key resp = "user:1" ∧ InCache resp = false.
Proof.
  destruct (Cache.inv_new 10 LRU.NewLRU) as (Hinv & _ & _); [exists []; apply LRU.recency_new|done|lia|].
  destruct (key_report_exact docker_addr "user:1" (λ _, 1%Z) (Cache.New 10 LRU.NewLRU) Hinv)
    as (d & resp & Hd & Hk & _ & _ & Hin & _); [discriminate|].
  exists d, resp. split; [exact Hd|]. split; [exact Hk|]. rewrite Hin. reflexivity.
Defined.
End Debug.
