(* ===== verification/CacheNode.v ===== *)
(** The cache node process, [src/cmd/cachenode/main.go]: [main] from the command
    line and the environment to the running node, the goroutine that follows the
    leader channel, and the two pages of its HTTP server. *)
From S2P Require Import Prelude Policy Lru Cache Ring Raft RaftCluster GoStrings Json GoFmt Cluster Flags Node Debug.
From Stdlib Require Import Ascii.

Module CacheNode.
Import Flags.

(** ** Starting *)

Definition declared : flag_set := list_to_map
  [("id", FString ""); ("port", FInt 9001); ("metrics-port", FInt 9101); ("peers", FString "");
   ("state-dir", FString "/tmp/raft")].

Record process := mk_process {
  nodeID : string;
  grpcPort : Z;
  metricsPort : Z;
  raftNode : Raft.RaftNode;
  coordinator : Cluster.Coordinator;
  cacheServer : Cluster.CacheServer Node.AnyPolicy
}.

Inductive outcome :=
| Exited (code : Z)
| MissingID
| ConfigError (e : Node.config_error)
| StateDirError
| RaftInitError
| Panicked
| Running (p : process).

Section Start.
(** The seed of the random policy, the environment, the directories that can be
    created, and the state file of a node in a directory. *)
Context (seed : nat → Z) (env : string → string) (mkdirAll : string → bool)
  (stateFile : string → string → Raft.stateFile).

(** [main] up to the start of the goroutines. *)
Definition main (args : list string) : outcome :=
  match Parse args declared with
  | inr e => Exited (exit_code e)
  | inl (fs, _) =>
      let nodeID := string_flag "id" fs in
      let grpcPort := int_flag "port" fs in
      let stateDir := string_flag "state-dir" fs in
      if decide (nodeID = "") then MissingID
      else
        match Node.Load env with
        | inr e => ConfigError e
        | inl cfg =>
            match Node.buildEvictionPolicy seed (Node.EvictionPolicyName cfg) with
            | None => Panicked
            | Some policy =>
                let c := Cache.New (Node.CacheCapacity cfg) policy in
                let peers := Node.parsePeers (string_flag "peers" fs) in
                if mkdirAll stateDir then
                  match Raft.NewRaftNode nodeID peers (stateFile stateDir nodeID) with
                  | None => RaftInitError
                  | Some raftNode =>
                      Running (mk_process nodeID grpcPort (int_flag "metrics-port" fs) raftNode
                        (Node.buildCoordinator nodeID grpcPort peers) (Cluster.NewCacheServer nodeID c))
                  end
                else StateDirError
            end
        end
  end.
End Start.

(** ** Running *)

(** What runs after the start: the goroutine on the leader channel, and the HTTP
    server. The server for the cache's own calls is made, but no code gives it to a
    listener, so no call reaches the cache. *)

Definition with_coordinator (p : process) c : process :=
  mk_process (nodeID p) (grpcPort p) (metricsPort p) (raftNode p) c (cacheServer p).

(** The body of the loop [for leaderID := range raftNode.LeaderCh()]. *)
Definition proc_step (p : process) (leaderID : string) : process :=
  let isLeader := bool_decide (leaderID = nodeID p) in
  with_coordinator p (Cluster.SetLeader isLeader (coordinator p)).

Definition proc_run (p : process) (leaders : list string) : process := foldl proc_step p leaders.

(** The pages of [startHTTPServer], whatever the method; the mux answers any
    other clean path with 404. *)
Definition serve_page (IsPrint : string → bool) (path : string) (p : process) : Debug.response :=
  if decide (path = "/health") then
    Debug.serve_health IsPrint (nodeID p) (Cluster.IsLeader (coordinator p)) (cacheServer p)
  else if decide (path = "/metrics") then Debug.serve_metrics (nodeID p) (cacheServer p)
  else Debug.mk_response 404 (Some "text/plain; charset=utf-8") ("404 page not found" +:+ GoFmt.nl).

Definition listen_addr (p : process) : string := ":" +:+ pretty (metricsPort p).

(** ** Every node that starts is well formed *)

Record started (p : process) : Prop := {
  started_id : nodeID p ≠ "";
  started_raft : Raft.id (raftNode p) = nodeID p ∧ Raft.state (raftNode p) = Raft.Follower;
  started_follower : Cluster.IsLeader (coordinator p) = false;
  started_health : ∀ n, n ∈ dom (Ring.nodeAddrs (Cluster.ring (coordinator p))) →
    ∃ h, Cluster.health (coordinator p) !! n = Some h ∧ Cluster.IsAvailable h = true;
  started_cache : ∃ cap pol, cacheServer p = Cluster.NewCacheServer (nodeID p) (Cache.New cap pol) ∧
    (1 ≤ cap ≤ 1000000)%Z ∧ policy_wf pol ∧ tracked pol = ∅
}.

Lemma loadState_id n n' :
  Raft.loadState n = Some n' → Raft.id n' = Raft.id n ∧ Raft.state n' = Raft.state n.
Proof. unfold Raft.loadState. destruct (Raft.disk n); try done; by intros [= <-]. Qed.

(** No command line, environment or state file makes the start panic, and a node
    that runs is well formed. *)
Lemma main_started seed env mk file args :
  main seed env mk file args ≠ Panicked ∧
  ∀ p, main seed env mk file args = Running p → started p.
Proof.
  unfold main. destruct (Parse args declared) as [[fs rest]|e]; [|done].
  destruct (decide (string_flag "id" fs = "")) as [|Hid]; [done|].
  destruct (Node.Load env) as [cfg|e] eqn:Hload; [|done].
  destruct (Node.Load_valid env cfg Hload) as (_ & _ & Hcap).
  destruct (Node.buildEvictionPolicy_spec seed (Node.EvictionPolicyName cfg))
    as (pol & -> & Hwf & Ht & _).
  destruct (mk _); [|done]. destruct (Raft.NewRaftNode _ _ _) as [n|] eqn:Hn; [|done].
  split; [done|]. intros p [= <-]. apply loadState_id in Hn. constructor; cbn; [done|done|done| |].
  - intros m Hm. rewrite Node.buildHealth_lookup by done. eauto.
  - eexists _, pol. done.
Qed.

(** The configuration a running node was built from. *)
Lemma main_config seed env mk file args p :
  main seed env mk file args = Running p →
  ∃ cfg pol, Node.Load env = inl cfg ∧ Name pol = Node.EvictionPolicyName cfg ∧
    cacheServer p = Cluster.NewCacheServer (nodeID p) (Cache.New (Node.CacheCapacity cfg) pol).
Proof.
  unfold main. destruct (Parse args declared) as [[fs rest]|e]; [|done].
  destruct (decide (string_flag "id" fs = "")) as [|Hid]; [done|].
  destruct (Node.Load env) as [cfg|e] eqn:Hload; [|done].
  destruct (Node.Load_valid env cfg Hload) as (Hp & _).
  destruct (Node.buildEvictionPolicy_spec seed (Node.EvictionPolicyName cfg)) as (pol & -> & _ & _ & Hname).
  destruct (mk _); [|done]. destruct (Raft.NewRaftNode _ _ _) as [n|]; [|done].
  intros [= <-]. exists cfg, pol. by rewrite Hname.
Qed.

(** ** A running node *)

Lemma proc_run_spec leaders p :
  nodeID (proc_run p leaders) = nodeID p ∧ cacheServer (proc_run p leaders) = cacheServer p ∧
  Cluster.IsLeader (coordinator (proc_run p leaders)) =
    default (Cluster.IsLeader (coordinator p)) (last ((λ l, bool_decide (l = nodeID p)) <$> leaders)).
Proof.
  unfold proc_run. revert p. induction leaders as [|l leaders IH]; intros p; [done|]. cbn [foldl].
  destruct (IH (proc_step p l)) as (-> & -> & ->). split; [done|]. split; [done|].
  rewrite fmap_cons, last_cons. cbn [proc_step with_coordinator nodeID coordinator].
  by destruct (last _).
Qed.

(** C19: the pages of a node are exact. Whatever the command line, the environment
    and the state file, let a node start under an identifier that is printed as it
    is, and let any leaders be announced to it. Then [/health] reads back as a
    healthy node of that identifier, which is coordinator exactly when the last
    leader announced is the node itself, [/metrics] reports the configured policy
    and four zeros, since no call ever reaches the cache of the process. *)
Theorem node_pages_exact (IsPrint : string → bool) (seed : nat → Z) (env : string → string)
    (mk : string → bool) (file : string → string → Raft.stateFile) (args : list string)
    (p : process) (leaders : list string)
    (Hmain : main seed env mk file args = Running p) (Hprint : Debug.printable_id (nodeID p)) :
  let page path := serve_page IsPrint path (proc_run p leaders) in
  Debug.status (page "/health") = 200%Z ∧
  Debug.decode_health (Debug.body (page "/health")) =
    Some (Debug.mk_healthReply true (nodeID p)
      (default false (last ((λ l, bool_decide (l = nodeID p)) <$> leaders)))) ∧
  (∃ cfg, Node.Load env = inl cfg ∧
    page "/metrics" = Debug.mk_response 200 (Some "text/plain")
      ("# cache stats for " +:+ nodeID p +:+ " (policy=" +:+ Node.EvictionPolicyName cfg +:+ ")" +:+ GoFmt.nl +:+
       "cache_hits 0" +:+ GoFmt.nl +:+ "cache_misses 0" +:+ GoFmt.nl +:+ "cache_evictions 0" +:+ GoFmt.nl +:+
       "cache_entries 0" +:+ GoFmt.nl)).
Proof.
  destruct (main_started seed env mk file args) as [_ Hst]. destruct (Hst p Hmain) as [_ _ Hfol _ _].
  destruct (main_config seed env mk file args p Hmain) as (cfg & pol & Hload & Hname & Hsrv).
  destruct (proc_run_spec leaders p) as (Hid & Hs & Hlead). rewrite Hfol in Hlead.
  cbv zeta. unfold serve_page. rewrite Hid, Hs, Hlead, Hsrv. split; [done|]. split.
  - exact (Debug.decode_serve_health IsPrint (nodeID p) _ _ Hprint).
  - exists cfg. split; [done|]. rewrite <-Hname. reflexivity.
Qed.

(** ** A cluster from its command lines *)

(** A member, its host name and port, as a peer of the others. *)
Definition member_peer (np : string * Z) : Raft.PeerConfig :=
  Raft.mk_Peer np.1 (Node.selfAddr np.1 np.2).

Definition others_of (members : list (string * Z)) (np : string * Z) : list (string * Z) :=
  filter (λ q, Node.selfAddr q.1 q.2 ≠ Node.selfAddr np.1 np.2) members.

(** The command line of a member: its own name and ports, and all the others. *)
Definition member_args (mport : string → Z) (dir : string) (members : list (string * Z))
    (np : string * Z) : list string :=
  [assignment "id" np.1; assignment "port" (pretty np.2); assignment "metrics-port" (pretty (mport np.1));
   assignment "peers" (Node.flag_of (member_peer <$> others_of members np)); assignment "state-dir" dir].

(** The Raft system made of processes that have just started. *)
Definition cluster_of (ps : list process) : RaftCluster.sys :=
  let addr p := Node.selfAddr (nodeID p) (grpcPort p) in
  RaftCluster.mk_sys (list_to_map ((λ p, (addr p, raftNode p)) <$> ps))
    (list_to_map ((λ p, (addr p, RaftCluster.Idle)) <$> ps)) [] [] [] []
    (list_to_map ((λ p, (addr p, Cluster.IsLeader (coordinator p))) <$> ps)) [] [].

Definition port_ok (p : Z) : Prop := (0 < p ≤ int64_max)%Z.

Record members_ok (members : list (string * Z)) : Prop := {
  ok_names : NoDup members.*1;
  ok_tokens : Ring.collision_free members.*1;
  ok_words : Forall (λ np, Node.word np.1 ∧ port_ok np.2) members
}.

Lemma digit_word s : s ≠ "" → Json.all_digits s = true → Node.word s.
Proof.
  intros Hne Hd. split; [done|]. clear Hne. induction s as [|a s IH]; [constructor|].
  cbn [Json.all_digits] in Hd. apply andb_prop in Hd as [Ha Hd]. constructor; [|by apply IH].
  apply bool_decide_eq_true in Ha as [d Ha]. destruct (digit36_digit a d Ha) as (H36 & Hlt & _).
  clear -Ha. unfold digit_value in Ha. destruct a as [[] [] [] [] [] [] [] []]; vm_compute in Ha;
    try discriminate Ha; (split; [reflexivity|split; discriminate]).
Qed.

Lemma port_word p : port_ok p → Node.word (pretty p).
Proof.
  intros [Hp _]. destruct p as [|p|p]; [lia| |lia]. change (pretty (Z.pos p)) with (pretty p).
  destruct (Json.pretty_positive_spec p) as (a & s & E & _ & _ & Hd & _).
  apply digit_word; [by rewrite E|done].
Qed.

(** The peers flag of a member is read back as the others. *)
Lemma peers_read members np :
  members_ok members →
  Node.parsePeers (Node.flag_of (member_peer <$> others_of members np)) =
    member_peer <$> others_of members np.
Proof.
  intros [_ _ Hw]. pose proof (Node.parsePeers_roundtrip
    ((λ q, (q.1, pretty q.2)) <$> others_of members np)) as H.
  rewrite <-list_fmap_compose in H. apply H. apply Forall_fmap, Forall_forall.
  intros q [_ Hq]%list_elem_of_filter. rewrite Forall_forall in Hw. destruct (Hw q Hq).
  split; [done|by apply port_word].
Qed.

Lemma filter_members members np :
  filter (λ q, Raft.Addr q ≠ Node.selfAddr np.1 np.2) (member_peer <$> members) =
    member_peer <$> others_of members np.
Proof.
  unfold others_of. induction members as [|q members IH]; [done|].
  rewrite fmap_cons, !filter_cons. cbn [member_peer Raft.Addr].
  destruct (decide (Node.selfAddr q.1 q.2 ≠ _)); [rewrite fmap_cons; by f_equal|done].
Qed.

Lemma selfAddr_inj n1 p1 n2 p2 :
  Node.word n1 → Node.word n2 → Node.selfAddr n1 p1 = Node.selfAddr n2 p2 → n1 = n2.
Proof.
  intros [_ H1] [_ H2] E. pose proof (f_equal (λ s, cut s ":"%char) E) as Ec.
  unfold Node.selfAddr in Ec. cbv beta in Ec.
  change (n1 +:+ ":" +:+ pretty p1) with (n1 +:+ String ":" (pretty p1)) in Ec.
  change (n2 +:+ ":" +:+ pretty p2) with (n2 +:+ String ":" (pretty p2)) in Ec.
  rewrite !cut_after in Ec; [by injection Ec|..]; eapply Forall_impl; [exact H2| |exact H1|];
    by intros a (_ & _ & ?).
Qed.

Lemma others_perm members np :
  members_ok members → np ∈ members → np :: others_of members np ≡ₚ members.
Proof.
  intros [Hnd _ Hw] Hnp. rewrite Forall_forall in Hw.
  apply list_elem_of_split in Hnp as (l1 & l2 & ->).
  assert (∀ l : list (string * Z), (∀ q, q ∈ l → q ∈ l1 ++ np :: l2 ∧ q.1 ≠ np.1) →
    filter (λ q, Node.selfAddr q.1 q.2 ≠ Node.selfAddr np.1 np.2) l = l) as Hall.
  { intros l Hl. apply filter_all. intros q Hq E. destruct (Hl q Hq) as [Hin Hne]. apply Hne.
    eapply selfAddr_inj; [apply (Hw q Hin)|apply (Hw np); set_solver|exact E]. }
  rewrite fmap_app, fmap_cons, NoDup_app, NoDup_cons in Hnd. destruct Hnd as (_ & Hd & Hn2 & _).
  unfold others_of. rewrite filter_app, filter_cons, decide_False by (intros H; by apply H).
  rewrite !Hall; [by rewrite Permutation_middle|..]; intros q Hq; (split; [set_solver|]); intros E.
  - apply Hn2. rewrite <-E. by apply list_elem_of_fmap_2.
  - apply (Hd q.1); [by apply list_elem_of_fmap_2|]. rewrite E. by left.
Qed.

(** The flags of a member are read back. *)
Lemma Parse_member id (port mp : Z) peers dir :
  port_ok port → port_ok mp →
  ∃ fs, Parse [assignment "id" id; assignment "port" (pretty port); assignment "metrics-port" (pretty mp);
               assignment "peers" peers; assignment "state-dir" dir] declared = inl (fs, []) ∧
    string_flag "id" fs = id ∧ int_flag "port" fs = port ∧ int_flag "metrics-port" fs = mp ∧
    string_flag "peers" fs = peers ∧ string_flag "state-dir" fs = dir.
Proof.
  intros Hp Hm. eexists.
  do 5 (erewrite Parse_assignment;
    [|apply flag_name_dec; reflexivity|reflexivity
     |cbn [set_value snd]; rewrite ?ParseInt_pretty by assumption; reflexivity]).
  split; [reflexivity|]. done.
Qed.

Section Cluster.
Context (seed : nat → Z) (env : string → string) (mkdirAll : string → bool)
  (file : string → string → Raft.stateFile) (mport : string → Z) (dir : string)
  (members : list (string * Z)) (cfg : Node.Config) (pol : Node.AnyPolicy).
Hypothesis Hok : members_ok members.
Hypothesis Hports : ∀ np, np ∈ members → port_ok (mport np.1).
Hypothesis Hload : Node.Load env = inl cfg.
Hypothesis Hpol : Node.buildEvictionPolicy seed (Node.EvictionPolicyName cfg) = Some pol.
Hypothesis Hdir : mkdirAll dir = true.
Hypothesis Hfile : ∀ np, np ∈ members → file dir np.1 = Raft.NotExist.

Definition member_process (np : string * Z) : process :=
  mk_process np.1 np.2 (mport np.1) (RaftCluster.init_node (member_peer <$> members) (member_peer np))
    (Node.buildCoordinator np.1 np.2 (member_peer <$> others_of members np))
    (Cluster.NewCacheServer np.1 (Cache.New (Node.CacheCapacity cfg) pol)).

Lemma member_starts np :
  np ∈ members →
  main seed env mkdirAll file (member_args mport dir members np) = Running (member_process np).
Proof.
  intros Hnp. pose proof (proj1 (Forall_forall _ _) (ok_words _ Hok) np Hnp) as [[Hne _] Hp].
  destruct (Parse_member np.1 np.2 (mport np.1) (Node.flag_of (member_peer <$> others_of members np)) dir)
    as (fs & Hparse & Hid & Hport & Hmp & Hpeers & Hsd); [done|by apply Hports|].
  unfold main, member_args. rewrite Hparse, Hid, Hport, Hmp, Hpeers, Hsd, Hload, Hpol, Hdir.
  rewrite decide_False by done. rewrite Hfile, peers_read by done.
  unfold Raft.NewRaftNode, Raft.loadState, member_process, RaftCluster.init_node.
  cbn [Raft.disk member_peer Raft.ID Raft.Addr]. by rewrite filter_members.
Qed.

(** The processes of all members are an initial state of the Raft system. *)
Lemma members_init :
  cluster_of (member_process <$> members) = RaftCluster.init (member_peer <$> members).
Proof.
  unfold cluster_of, RaftCluster.init. by rewrite <-!list_fmap_compose.
Qed.
End Cluster.

(** C18: a cluster started from its command lines. Let the members have distinct
    host names, collision-free ring tokens and positive ports, and start each as
    the compose file does, with its own name and port and all the others in
    [--peers], a valid environment, a state directory that can be made and no
    state file. Then every process runs; together they are the initial state of
    the Raft system; no node is coordinator; and any two of them, once
    coordinator, route every key to the same member at its own address. *)
Theorem started_cluster (seed : nat → Z) (env : string → string) (mkdirAll : string → bool)
    (file : string → string → Raft.stateFile) (mport : string → Z) (dir : string)
    (members : list (string * Z)) (cfg : Node.Config)
    (Hok : members_ok members) (Hports : ∀ np, np ∈ members → port_ok (mport np.1))
    (Hload : Node.Load env = inl cfg) (Hdir : mkdirAll dir = true)
    (Hfile : ∀ np, np ∈ members → file dir np.1 = Raft.NotExist) :
  ∃ ps,
    main seed env mkdirAll file ∘ member_args mport dir members <$> members = Running <$> ps ∧
    cluster_of ps = RaftCluster.init (member_peer <$> members) ∧
    (∀ p, p ∈ ps → started p) ∧
    ∀ key p q, p ∈ ps → q ∈ ps → ∃ n port, (n, port) ∈ members ∧
      Cluster.Route key (Cluster.SetLeader true (coordinator p)) =
        Some (Cluster.mk_RouteResult n (Node.selfAddr n port), true, None) ∧
      Cluster.Route key (Cluster.SetLeader true (coordinator q)) =
        Some (Cluster.mk_RouteResult n (Node.selfAddr n port), true, None).
Proof.
  destruct (Node.buildEvictionPolicy_spec seed (Node.EvictionPolicyName cfg)) as (pol & Hpol & _).
  pose proof (member_starts seed env mkdirAll file mport dir members cfg pol Hok Hports Hload Hpol Hdir
    Hfile) as Hst.
  exists (member_process mport members cfg pol <$> members). split_and!.
  - rewrite <-list_fmap_compose. apply list_fmap_ext. intros i np Hi.
    apply Hst. by eapply list_elem_of_lookup_2.
  - apply members_init.
  - intros p (np & -> & Hnp)%list_elem_of_fmap. eapply main_started. by apply Hst.
  - intros key p q ([n1 p1] & -> & H1)%list_elem_of_fmap ([n2 p2] & -> & H2)%list_elem_of_fmap.
    destruct (Node.members_route_alike members n1 n2 p1 p2 (others_of members (n1, p1))
      (others_of members (n2, p2)) key (ok_tokens _ Hok) (ok_names _ Hok)) as [Heq Hr];
      [by apply others_perm..|].
    destruct Hr as (n & port & Hin & Hr). exists n, port. split; [done|]. split; [exact Hr|].
    rewrite <-Hr. exact (f_equal (Cluster.Route key) (eq_sym Heq)).
Qed.

(** *** Witnesses *)

Definition no_files (dir id : string) : Raft.stateFile := Raft.NotExist.

(** The command line of [node1] in the compose file. *)
Definition node1_args : list string :=
  ["--id=node1"; "--port=9001"; "--metrics-port=9101"; "--peers=node2:9002,node3:9003";
   "--state-dir=/tmp/raft"].

Lemma docker_members_ok : members_ok Node.docker_members.
Proof.
  constructor; [|exact Ring.cluster3_collision_free|].
  - apply (bool_decide_eq_true_1 (NoDup _)). reflexivity.
  - repeat constructor; discriminate.
Qed.

Lemma node1_starts :
  ∃ p, main (λ _, 0%Z) (λ _, "") (λ _, true) no_files node1_args = Running p ∧ nodeID p = "node1".
Proof.
  destruct (Node.Load (λ _, "")) as [cfg|e] eqn:Hload; [|vm_compute in Hload; discriminate Hload].
  destruct (Node.buildEvictionPolicy_spec (λ _, 0%Z) (Node.EvictionPolicyName cfg)) as (pol & Hpol & _).
  pose proof (member_starts (λ _, 0%Z) (λ _, "") (λ _, true) no_files (λ _, 9101%Z) "/tmp/raft"
    Node.docker_members cfg pol docker_members_ok) as H.
  assert (member_args (λ _, 9101%Z) "/tmp/raft" Node.docker_members ("node1", 9001%Z) = node1_args) as <-
    by (vm_compute; reflexivity).
  eexists. split; [apply H; try done; by left|reflexivity].
Qed.

Lemma node_pages_exact_witness :
  ∃ p, main (λ _, 0%Z) (λ _, "") (λ _, true) no_files node1_args = Running p ∧
    Debug.decode_health (Debug.body (serve_page (λ _, true) "/health" (proc_run p ["node2"; "node1"]))) =
      Some (Debug.mk_healthReply true "node1" true).
Proof.
  destruct node1_starts as (p & Hmain & Hid).
  destruct (node_pages_exact (λ _, true) _ _ _ _ _ p ["node2"; "node1"] Hmain) as (_ & Hh & _).
  - rewrite Hid. repeat constructor.
  - rewrite Hid in Hh. exists p. split; [exact Hmain|exact Hh].
Defined.

Lemma started_cluster_witness :
  ∃ ps, main (λ _, 0%Z) (λ _, "") (λ _, true) no_files ∘
      member_args (λ _, 9101%Z) "/tmp/raft" Node.docker_members <$> Node.docker_members = Running <$> ps ∧
    member_args (λ _, 9101%Z) "/tmp/raft" Node.docker_members ("node1", 9001%Z) = node1_args ∧
    cluster_of ps = RaftCluster.init (member_peer <$> Node.docker_members).
Proof.
  destruct (Node.Load (λ _, "")) as [cfg|e] eqn:Hload; [|vm_compute in Hload; discriminate Hload].
  destruct (started_cluster (λ _, 0%Z) (λ _, "") (λ _, true) no_files (λ _, 9101%Z) "/tmp/raft"
    Node.docker_members cfg) as (ps & Hps & Hinit & _).
  - exact docker_members_ok.
  - intros np _. split; [reflexivity|discriminate].
  - exact Hload.
  - reflexivity.
  - reflexivity.
  - exists ps. split; [exact Hps|]. split; [vm_compute; reflexivity|exact Hinit].
Defined.
End CacheNode.
