(* ===== verification/Proxy.v ===== *)
(** The caching reverse proxy, [src/internal/proxy]: the response store
    ([store.go]), the request path and the routes ([proxy.go]). The upstream
    service is given by the outcome of each call to it, and the dashboard page by
    its text. *)
From S2P Require Import Prelude GoStrings Json GoFmt.
From Stdlib Require Import Ascii.

Module Proxy.

(** ** Messages *)

(** [http.Header]: the values of each (canonical) field name. *)
Abbreviation Header := (gmap string (list string)) (only parsing).

(** [Header.Get]: the first value, or the empty string. *)
Definition header_get (h : Header) (key : string) : string :=
  default "" (head (default [] (h !! key))).

(** [copyHeaders(dst, src)]: every value of [src] is added to [dst]. *)
Definition copyHeaders (dst src : Header) : Header :=
  union_with (λ a b, Some (a ++ b)) dst src.

Record request := mk_request {
  req_method : string;
  req_uri : string;
  req_header : Header;
  req_body : bytes
}.

Record response := mk_response {
  status : Z;
  header : Header;
  body : bytes
}.

(** How the call to the upstream ends: an error of the transport, an error
    while reading the body, or a response. *)
Inductive outcome :=
| Unreachable
| BodyError
| Responded (r : response).

(** ** The response store *)

Record CachedHTTPResponse := mk_cached {
  StatusCode : Z;
  Headers : Header;
  Body : bytes;
  CachedAt : Time;
  ExpiresAt : Time
}.

Definition IsExpired (r : CachedHTTPResponse) (now : Time) : bool :=
  negb (IsZero (ExpiresAt r)) && After now (ExpiresAt r).

Abbreviation ResponseStore := (gmap string CachedHTTPResponse) (only parsing).

Definition NewResponseStore : ResponseStore := ∅.

Definition store_Get (now : Clock) (urlKey : string) (s : ResponseStore)
    : ResponseStore * option CachedHTTPResponse :=
  match s !! urlKey with
  | None => (s, None)
  | Some e =>
      if IsExpired e (now 0) then
        (match s !! urlKey with
         | Some e' => if IsExpired e' (now 1) then delete urlKey s else s
         | None => s
         end, None)
      else (s, Some e)
  end.

Definition store_Set (urlKey : string) (r : CachedHTTPResponse) (s : ResponseStore) : ResponseStore :=
  <[urlKey := r]> s.

Definition store_Delete (urlKey : string) (s : ResponseStore) : ResponseStore := delete urlKey s.

Definition store_Len (s : ResponseStore) : Z := Z.of_nat (size s).

(** ** Cache-Control *)

Definition defaultCacheTTL : Duration := (5 * Minute)%Z.

Definition forbidding : list string := ["no-store"; "no-cache"; "private"].

(** The loop over the comma-separated parts; [None] when no part decides. *)
Fixpoint max_age (parts : list string) : option (bool * Duration) :=
  match parts with
  | [] => None
  | part :: parts =>
      let part := TrimSpace part in
      if HasPrefix (ToLower part) "max-age=" then
        match Atoi (TrimSpace (TrimPrefix (ToLower part) "max-age=")) with
        | None => max_age parts
        | Some n => Some (if (n =? 0)%Z then (false, 0%Z) else (true, wrap64 (n * Second)))
        end
      else max_age parts
  end.

Definition parseCacheControl (h : string) : bool * Duration :=
  if decide (h = "") then (true, defaultCacheTTL)
  else if existsb (Contains (ToLower h)) forbidding then (false, 0%Z)
  else default (true, defaultCacheTTL) (max_age (Split h ","%char)).

(** ** The request path *)

Record Proxy := mk_Proxy { store : ResponseStore; upstreamURL : string }.

Definition NewProxy (url : string) : Proxy := mk_Proxy NewResponseStore (TrimRight url "/"%char).

Definition serveCached (c : CachedHTTPResponse) : response :=
  mk_response (StatusCode c) (<["X-Proxy-Cache" := ["HIT"]]> (copyHeaders ∅ (Headers c))) (Body c).

(** The request sent upstream. *)
Definition forwardToUpstream (p : Proxy) (r : request) : string * request :=
  (upstreamURL p +:+ req_uri r,
   mk_request (req_method r) (req_uri r) (copyHeaders ∅ (req_header r)) (req_body r)).

(** [http.Error]. *)
Definition http_error (msg : string) (code : Z) : response :=
  mk_response code
    (<["Content-Type" := ["text/plain; charset=utf-8"]]>
      {[ "X-Content-Type-Options" := ["nosniff"] ]})
    (String.list_byte_of_string msg ++ [Byte.x0a]).

(** Steps 4 and 5: cache the upstream's response if it allows it. *)
Definition cacheable (r : response) : bool :=
  (parseCacheControl (header_get (header r) "Cache-Control")).1 &&
  ((200 <=? status r) && (status r <? 300))%Z.

Definition cached_of (now : Clock) (r : response) : CachedHTTPResponse :=
  let ttl := (parseCacheControl (header_get (header r) "Cache-Control")).2 in
  mk_cached (status r) (header r) (body r) (now 0)
    (if (0 <? ttl)%Z then Add (now 1) ttl else time_zero).

(** Where the answer came from. *)
Inductive source := FromCache | FromUpstream | FromStale | Failed | FromProxy.

(** The clock is read twice by each lookup and twice when caching. [call] is
    the upstream: it is asked only on a miss, with the forwarded request. *)
Definition ServeHTTP (now : Clock) (call : string * request → outcome) (r : request) (p : Proxy)
    : Proxy * (source * response) :=
  let '(s1, hit) := store_Get now (req_uri r) (store p) in
  match hit with
  | Some c => (mk_Proxy s1 (upstreamURL p), (FromCache, serveCached c))
  | None =>
      match call (forwardToUpstream p r) with
      | Unreachable =>
          let '(s2, stale) := store_Get (λ i, now (2 + i)) (req_uri r) s1 in
          match stale with
          | Some c => (mk_Proxy s2 (upstreamURL p), (FromStale, serveCached c))
          | None => (mk_Proxy s2 (upstreamURL p), (Failed, http_error "upstream unavailable and no cached response available" 503))
          end
      | BodyError => (mk_Proxy s1 (upstreamURL p), (Failed, http_error "failed to read upstream response" 502))
      | Responded resp =>
          let s2 := if cacheable resp
                    then store_Set (req_uri r) (cached_of (λ i, now (2 + i)) resp) s1 else s1 in
          (mk_Proxy s2 (upstreamURL p),
           (FromUpstream, mk_response (status resp) (copyHeaders ∅ (header resp)) (body resp)))
      end
  end.

(** ** Routes *)

(** The path of a request URI: what comes before the query. *)
Definition uri_path (uri : string) : string :=
  match Index uri "?"%char with Some i => slice_to uri i | None => uri end.

Definition text_body (s : string) : bytes := String.list_byte_of_string s.

(** What [Handler]'s routes answer with; [dashboardHTML] is the page. A [GET]
    pattern also takes [HEAD]; any other request goes to the catch-all. Paths
    that the server would redirect to their clean form are not considered. *)
Definition Handler (dashboardHTML : string) (now : Clock) (call : string * request → outcome)
    (r : request) (p : Proxy) : Proxy * (source * response) :=
  let path := uri_path (req_uri r) in
  let reads := bool_decide (req_method r = "GET") || bool_decide (req_method r = "HEAD") in
  let own ct text := (p, (FromProxy, mk_response 200 {[ "Content-Type" := [ct] ]} (text_body text))) in
  if reads && bool_decide (path = "/health") then
    own "application/json"
      (Json.encode_object [("healthy", "true"); ("cached_entries", pretty (store_Len (store p)))])
  else if reads && bool_decide (path = "/metrics") then
    own "text/plain"
      ("# proxy metrics — prometheus instrumentation added in task 15" +:+ GoFmt.nl +:+
       "proxy_cached_entries " +:+ pretty (store_Len (store p)) +:+ GoFmt.nl)
  else if bool_decide (path = "/") || bool_decide (path = "") then
    own "text/html; charset=utf-8" dashboardHTML
  else ServeHTTP now call r p.

(** ** Histories *)

(** One incoming request, with the clock readings it sees and the upstream as
    it is at that time. *)
Record exchange := mk_exchange {
  x_now : Clock;
  x_call : string * request → outcome;
  x_req : request
}.

Fixpoint serve_all (p : Proxy) (xs : list exchange) : Proxy * list (source * response) :=
  match xs with
  | [] => (p, [])
  | x :: xs =>
      let '(p1, out) := ServeHTTP (x_now x) (x_call x) (x_req x) p in
      let '(p2, outs) := serve_all p1 xs in
      (p2, out :: outs)
  end.

(** [x] is an exchange for [uri] in which the upstream gave [r], cacheable. *)
Definition answered (url uri : string) (r : response) (x : exchange) : Prop :=
  req_uri (x_req x) = uri ∧ cacheable r = true ∧
  x_call x (forwardToUpstream (mk_Proxy ∅ url) (x_req x)) = Responded r.

(** Every stored response was received from the upstream in [xs]. *)
Definition store_inv (url : string) (xs : list exchange) (s : ResponseStore) : Prop :=
  ∀ uri c, s !! uri = Some c →
    ∃ x r, x ∈ xs ∧ answered url uri r x ∧ c = cached_of (λ i, x_now x (2 + i)) r.

Lemma store_Get_spec now k s :
  let '(s', r) := store_Get now k s in
  (∀ k' c, s' !! k' = Some c → s !! k' = Some c) ∧
  (∀ c, r = Some c → s !! k = Some c ∧ IsExpired c (now 0) = false).
Proof.
  unfold store_Get. destruct (s !! k) as [e|] eqn:E; [|done].
  destruct (IsExpired e (now 0)) eqn:Ex; [|by split; [done|intros c [= <-]]].
  split; [|done]. intros k' c. destruct (IsExpired e (now 1)); [|done].
  by intros [_ ?]%lookup_delete_Some.
Qed.

Lemma store_inv_sub url xs x s s' :
  (∀ k c, s' !! k = Some c → s !! k = Some c) → store_inv url xs s → store_inv url (xs ++ [x]) s'.
Proof.
  intros Hsub Hs k c Hk%Hsub. destruct (Hs k c Hk) as (x0 & r & ? & ? & ?).
  exists x0, r. split; [set_solver|done].
Qed.

Lemma ServeHTTP_inv url xs x p :
  upstreamURL p = url → store_inv url xs (store p) →
  let '(p', out) := ServeHTTP (x_now x) (x_call x) (x_req x) p in
  upstreamURL p' = url ∧ store_inv url (xs ++ [x]) (store p') ∧
  (∀ resp, out = (FromCache, resp) →
     ∃ c, resp = serveCached c ∧ store p !! req_uri (x_req x) = Some c ∧
          IsExpired c (x_now x 0) = false).
Proof.
  intros <- Hs. unfold ServeHTTP. set (uri := req_uri (x_req x)).
  pose proof (store_Get_spec (x_now x) uri (store p)) as Hg.
  destruct (store_Get (x_now x) uri (store p)) as [s1 [c|]]; destruct Hg as [Hsub Hhit].
  { split; [done|]. split; [by eapply store_inv_sub|]. intros resp [= <-].
    destruct (Hhit c eq_refl). eauto. }
  destruct (x_call x (forwardToUpstream p (x_req x))) as [| |r] eqn:Ecall.
  - pose proof (store_Get_spec (λ i, x_now x (2 + i)) uri s1) as Hg2.
    destruct (store_Get (λ i, x_now x (2 + i)) uri s1) as [s2 [c|]]; destruct Hg2 as [Hsub2 _];
      (split; [done|]; split; [|done]; eapply store_inv_sub; [|done]; simpl; by auto).
  - split; [done|]. split; [by eapply store_inv_sub|done].
  - split; [done|]. split; [|done]. simpl. destruct (cacheable r) eqn:Ec; [|by eapply store_inv_sub].
    intros k c. unfold store_Set. rewrite lookup_insert.
    destruct (decide (uri = k)) as [<-|]; [|by apply (store_inv_sub _ _ _ _ _ Hsub Hs)].
    intros [= <-]. exists x, r. split; [set_solver|]. done.
Qed.

Lemma serve_all_inv url xs pre p :
  upstreamURL p = url → store_inv url pre (store p) →
  let '(p', outs) := serve_all p xs in
  upstreamURL p' = url ∧ store_inv url (pre ++ xs) (store p').
Proof.
  revert pre p. induction xs as [|x xs IH]; intros pre p Hurl Hs; simpl.
  { by rewrite app_nil_r. }
  pose proof (ServeHTTP_inv url pre x p Hurl Hs) as Hx.
  destruct (ServeHTTP (x_now x) (x_call x) (x_req x) p) as [p1 out]. destruct Hx as (Hurl1 & Hs1 & _).
  specialize (IH _ p1 Hurl1 Hs1). destruct (serve_all p1 xs) as [p2 outs].
  by rewrite <-(assoc_L (++)) in IH.
Qed.

Lemma serve_all_snoc p xs x :
  serve_all p (xs ++ [x]) =
    let '(p1, outs) := serve_all p xs in
    let '(p2, out) := ServeHTTP (x_now x) (x_call x) (x_req x) p1 in
    (p2, outs ++ [out]).
Proof.
  revert p. induction xs as [|x' xs IH]; intros p; simpl.
  - by destruct (ServeHTTP _ _ _ p).
  - destruct (ServeHTTP (x_now x') (x_call x') (x_req x') p) as [p1 out].
    rewrite IH. destruct (serve_all p1 xs) as [p2 outs].
    by destruct (ServeHTTP (x_now x) (x_call x) (x_req x) p2).
Qed.

Lemma copyHeaders_empty h : copyHeaders ∅ h = h.
Proof. unfold copyHeaders. apply (left_id_L ∅ (union_with _)). Qed.

(** A cached answer is a replay. On any history of requests, an answer served
    from the cache has the status, the body and the headers (marked
    [X-Proxy-Cache: HIT]) of a cacheable 2xx response that the upstream gave to
    an earlier request for the same URI, whose lifetime, if it has one, has not
    passed. *)
Theorem cached_answer_replays_upstream (base : string) (xs : list exchange) (x : exchange) p outs resp
    (Hrun : serve_all (NewProxy base) (xs ++ [x]) = (p, outs ++ [(FromCache, resp)])) :
  ∃ x' r, x' ∈ xs ∧ answered (TrimRight base "/"%char) (req_uri (x_req x)) r x' ∧
    status resp = status r ∧ body resp = body r ∧
    header resp = <["X-Proxy-Cache" := ["HIT"]]> (header r) ∧
    IsExpired (cached_of (λ i, x_now x' (2 + i)) r) (x_now x 0) = false.
Proof.
  rewrite serve_all_snoc in Hrun.
  pose proof (serve_all_inv (TrimRight base "/"%char) xs [] (NewProxy base) eq_refl) as Hinv.
  destruct (serve_all (NewProxy base) xs) as [p1 outs1].
  destruct Hinv as [Hurl Hs]; [intros k c; unfold NewProxy, NewResponseStore; simpl; by rewrite lookup_empty|].
  pose proof (ServeHTTP_inv _ _ x p1 Hurl Hs) as Hx.
  destruct (ServeHTTP (x_now x) (x_call x) (x_req x) p1) as [p2 out].
  injection Hrun as <- [_ ->]%app_inj_tail. destruct Hx as (_ & _ & Hhit).
  destruct (Hhit resp eq_refl) as (c & -> & Hc & Hex).
  destruct (Hs _ _ Hc) as (x' & r & Hin & Hans & ->). exists x', r.
  split; [done|]. split; [done|]. simpl. by rewrite copyHeaders_empty.
Qed.

(** The stale-serving branch is dead. The lookup that finds a response
    expired has already deleted it, so with a clock that does not run backwards
    an unreachable upstream always means a 503, whatever was cached. *)
Theorem stale_response_never_served (now : Clock) (call : string * request → outcome)
    (r : request) (p : Proxy) (Hmono : monotone now)
    (Hdown : call (forwardToUpstream p r) = Unreachable) :
  let '(_, (src, resp)) := ServeHTTP now call r p in
  src = FromCache ∨
  (src = Failed ∧ resp = http_error "upstream unavailable and no cached response available" 503).
Proof.
  unfold ServeHTTP, store_Get. destruct (store p !! req_uri r) as [e|] eqn:E.
  2:{ rewrite Hdown, E. by right. }
  destruct (IsExpired e (now 0)) eqn:Ex; [|by left]. rewrite Hdown.
  assert (IsExpired e (now 1) = true) as ->.
  { unfold IsExpired, After in *. apply andb_prop in Ex as [-> Ex]. simpl.
    apply Z.ltb_lt in Ex. apply Z.ltb_lt. pose proof (Hmono 0 1 ltac:(lia)). lia. }
  rewrite lookup_delete_eq. by right.
Qed.

(** ** One answer for its lifetime *)

Lemma ServeHTTP_hit now call r p c :
  store p !! req_uri r = Some c → IsExpired c (now 0) = false →
  ServeHTTP now call r p = (p, (FromCache, serveCached c)).
Proof.
  intros Hc Hx. unfold ServeHTTP, store_Get. rewrite Hc, Hx. by destruct p.
Qed.

Lemma ServeHTTP_keeps now call r p uri c :
  req_uri r ≠ uri → store p !! uri = Some c → store (ServeHTTP now call r p).1 !! uri = Some c.
Proof.
  intros Hne Hc. unfold ServeHTTP.
  assert (∀ now s, s !! uri = Some c → (store_Get now (req_uri r) s).1 !! uri = Some c) as Hget.
  { intros now' s Hs. unfold store_Get. destruct (s !! req_uri r) as [e|]; [|done].
    destruct (IsExpired e (now' 0)); [|done]. destruct (IsExpired e (now' 1)); [|done].
    by apply lookup_delete_Some. }
  pose proof (Hget now (store p) Hc) as H1. destruct (store_Get now _ (store p)) as [s1 [e|]]; [done|].
  destruct (call _) as [| |resp]; [|done|].
  - pose proof (Hget (λ i, now (2 + i)) s1 H1) as H2.
    by destruct (store_Get (λ i, now (2 + i)) _ s1) as [s2 [e|]].
  - simpl in *. destruct (cacheable resp); [|done]. unfold store_Set. by rewrite lookup_insert_ne.
Qed.

(** One answer for its lifetime. Once a response to a URI is cached, every
    request for that URI gets exactly this response, marked as a hit, as long as
    it has not expired: whatever its method, whatever other requests come in
    between, and whatever the upstream would answer by then. *)
Theorem one_answer_for_its_lifetime (p : Proxy) (uri : string) (c : CachedHTTPResponse)
    (xs : list exchange) (i : nat) (x : exchange)
    (Hc : store p !! uri = Some c)
    (Hlive : ∀ y, y ∈ xs → req_uri (x_req y) = uri → IsExpired c (x_now y 0) = false)
    (Hx : xs !! i = Some x) (Huri : req_uri (x_req x) = uri) :
  (serve_all p xs).2 !! i = Some (FromCache, serveCached c).
Proof.
  revert p i Hc Hx. induction xs as [|y xs IH]; intros p i Hc Hx; [done|]. cbn [serve_all].
  assert (store (ServeHTTP (x_now y) (x_call y) (x_req y) p).1 !! uri = Some c) as Hc'.
  { destruct (decide (req_uri (x_req y) = uri)) as [E|]; [|by apply ServeHTTP_keeps].
    erewrite ServeHTTP_hit; [done| |apply Hlive; [by left|done]]. by rewrite E. }
  destruct i as [|i].
  - injection Hx as ->. erewrite (ServeHTTP_hit _ _ _ p c) by
      (rewrite ?Huri; done || (apply Hlive; [by left|done])).
    by destruct (serve_all p xs).
  - destruct (ServeHTTP _ _ _ p) as [p1 out]. simpl in Hx.
    specialize (IH (λ y' Hy', Hlive y' (list_elem_of_further _ _ _ Hy')) p1 i Hc' Hx).
    by destruct (serve_all p1 xs).
Qed.

(** ** The meaning of max-age *)

(** A decimal numeral: digits only. *)
Definition numeral (s : string) : Prop :=
  Forall (λ a, is_Some (digit_value a)) (String.list_ascii_of_string s).

Lemma digit_facts a : is_Some (digit_value a) →
  plain a = true ∧ lower_byte a = a ∧ a ≠ ","%char ∧ a ≠ "-"%char ∧ a ≠ "+"%char ∧
  a ≠ "n"%char ∧ a ≠ "p"%char.
Proof.
  intros [d Hd]. destruct a as [[] [] [] [] [] [] [] []]; vm_compute in Hd; try discriminate Hd;
    repeat split; discriminate.
Qed.

Lemma Contains_first s a sub :
  Contains s (String a sub) = true → a ∈ String.list_ascii_of_string s.
Proof.
  assert (∀ t b, HasPrefix t (String b sub) = true → b ∈ String.list_ascii_of_string t) as Hp.
  { intros [|c t] b [u Hu]%bool_decide_eq_true; simpl in Hu; [done|].
    destruct (decide (b = c)) as [->|]; [by left|done]. }
  induction s as [|c s IH]; intros Hc; cbn [Contains] in Hc.
  - apply orb_prop in Hc as [Hc|Hc]; [|done]. by apply (Hp "" a).
  - apply orb_prop in Hc as [Hc|Hc]; [by apply (Hp (String c s) a)|]. right. auto.
Qed.

Lemma ToLower_numeral s : numeral s → ToLower s = s.
Proof.
  unfold numeral. induction s as [|a s IH]; simpl; [done|]. intros [Ha Hs]%Forall_cons.
  rewrite (IH Hs). by destruct (digit_facts a Ha) as (_ & -> & _).
Qed.

Lemma Split_none s c :
  c ∉ String.list_ascii_of_string s → Split s c = [s].
Proof.
  induction s as [|a s IH]; simpl; [done|]. intros Hc.
  rewrite decide_False by set_solver. rewrite IH by set_solver. done.
Qed.

Lemma numeral_Atoi s n :
  numeral s → digits s = Some n → (0 ≤ n ≤ int64_max)%Z → Atoi s = Some n.
Proof.
  intros Hs Hd Hn. unfold Atoi. destruct s as [|a s]; [done|].
  apply Forall_cons in Hs as [Ha _]. destruct (digit_facts a Ha) as (_ & _ & _ & H1 & H2 & _).
  rewrite !decide_False by done. rewrite Hd. simpl. unfold in_int64.
  unfold int64_min, int64_max in *. by replace (_ && _)%Z with true by lia.
Qed.

Lemma max_age_numeral s :
  numeral s → parseCacheControl ("max-age=" +:+ s) =
    default (true, defaultCacheTTL)
      ((λ n, if (n =? 0)%Z then (false, 0%Z) else (true, wrap64 (n * Second))) <$> Atoi s).
Proof.
  intros Hs. unfold parseCacheControl. rewrite decide_False by done.
  assert (ToLower ("max-age=" +:+ s) = "max-age=" +:+ s) as Hlow
    by (simpl; by rewrite ToLower_numeral).
  assert (∀ c, c ∈ String.list_ascii_of_string ("max-age=" +:+ s) →
    plain c = true ∧ c ≠ ","%char ∧ c ≠ "n"%char ∧ c ≠ "p"%char) as Hchars.
  { intros c Hc. change (String.list_ascii_of_string ("max-age=" +:+ s)) with
      (String.list_ascii_of_string "max-age=" ++ String.list_ascii_of_string s) in Hc.
    apply elem_of_app in Hc as [Hc|Hc].
    - simpl in Hc. repeat (apply elem_of_cons in Hc as [->|Hc]; [done|]). by apply elem_of_nil in Hc.
    - eapply Forall_forall in Hs; [|exact Hc].
      destruct (digit_facts c Hs) as (? & _ & ? & _ & _ & ? & ?). done. }
  assert (existsb (Contains (ToLower ("max-age=" +:+ s))) forbidding = false) as ->.
  { rewrite Hlow. destruct (existsb _ forbidding) eqn:E; [|done].
    apply existsb_exists in E as (d & Hd & Hc). unfold forbidding in Hd. simpl in Hd.
    destruct Hd as [<-|[<-|[<-|[]]]]; apply Contains_first, Hchars in Hc; naive_solver. }
  rewrite Split_none by (intros Hc; by apply Hchars in Hc as (_ & ? & _)).
  cbn [max_age]. rewrite (TrimSpace_plain ("max-age=" +:+ s)).
  2:{ apply Forall_forall. intros c Hc. by apply Hchars. }
  rewrite Hlow. change (HasPrefix ("max-age=" +:+ s) "max-age=") with (HasPrefix s "").
  replace (TrimPrefix ("max-age=" +:+ s) "max-age=") with s by done.
  rewrite (TrimSpace_plain s).
  2:{ eapply Forall_impl; [exact Hs|]. intros a Ha. by apply digit_facts. }
  unfold HasPrefix. simpl. by destruct (Atoi s).
Qed.

(** [Cache-Control: max-age=N] means N seconds. For every numeral whose
    value is at most 9223372036 the response is cacheable with exactly that
    lifetime, and not cacheable for 0; without the header the lifetime is five
    minutes. *)
Theorem max_age_exact (s : string) (n : Z)
    (Hs : numeral s) (Hval : digits s = Some n) (Hn : (0 ≤ n ≤ 9223372036)%Z) :
  parseCacheControl ("max-age=" +:+ s) = (negb (n =? 0)%Z, (n * Second)%Z) ∧
  parseCacheControl "" = (true, (300 * Second)%Z).
Proof.
  split; [|done]. rewrite max_age_numeral by done.
  rewrite (numeral_Atoi s n) by (done || unfold int64_max; lia). simpl.
  destruct (Z.eqb_spec n 0) as [->|]; [done|]. simpl. f_equal. apply wrap64_id.
  unfold int64_min, int64_max, Second. lia.
Qed.

Lemma max_age_exact_witness :
  parseCacheControl "max-age=60" = (true, (60 * Second)%Z).
Proof.
  destruct (max_age_exact "60" 60) as [H _].
  - repeat constructor; vm_compute; eauto.
  - reflexivity.
  - lia.
  - exact H.
Defined.

(** Lifetimes that are negative or do not fit never expire. A response with
    [max-age=-1], or with a lifetime over 292 years, is stored without an expiry
    time and is served from the cache at any later instant. *)
Theorem bad_max_age_cached_forever (t : Time) (h : string)
    (Hh : h = "max-age=-1" ∨ h = "max-age=9223372037") :
  let r := mk_response 200 {[ "Cache-Control" := [h] ]} [] in
  cacheable r = true ∧ ∀ now, IsExpired (cached_of (λ _, t) r) now = false.
Proof. destruct Hh as [-> | ->]; by split. Qed.

Lemma bad_max_age_cached_forever_witness :
  cacheable (mk_response 200 {[ "Cache-Control" := ["max-age=-1"] ]} []) = true.
Proof.
  destruct (bad_max_age_cached_forever 1 "max-age=-1" (or_introl eq_refl)) as [H _]. exact H.
Defined.

Definition product_uri : string := "/products/prod-001".
Definition get_product : request := mk_request "GET" product_uri ∅ [].
Definition put_product : request := mk_request "PUT" product_uri ∅ [Byte.x7b; Byte.x7d].

(** The cache key ignores the method. After a GET of a product has been
    cached, a PUT to the same URI is answered from the cache, whatever the
    upstream would have said: the write never reaches it. *)
Theorem put_answered_from_cache (call : string * request → outcome) (t : Time)
    (Ht : (0 ≤ t ≤ 300 * Second)%Z) :
  let r := mk_response 200 ∅ [Byte.x31] in
  ∃ p resp,
    serve_all (NewProxy "http://api:8081")
      [mk_exchange (λ _, 1%Z) (λ _, Responded r) get_product; mk_exchange (λ _, t) call put_product] =
      (p, [(FromUpstream, r); (FromCache, resp)]) ∧
    body resp = body r.
Proof.
  assert (IsExpired (cached_of (λ _, 1%Z) (mk_response 200 ∅ [Byte.x31])) t = false) as Hlive.
  { assert (ExpiresAt (cached_of (λ _, 1%Z) (mk_response 200 ∅ [Byte.x31])) = 300000000001%Z) as Hx
      by (vm_compute; reflexivity).
    unfold IsExpired, After. rewrite Hx. apply andb_false_intro2, Z.ltb_ge. unfold Second in *. lia. }
  intros r. fold r in Hlive. cbn [serve_all x_now x_call x_req].
  assert (ServeHTTP (λ _, 1%Z) (λ _, Responded r) get_product (NewProxy "http://api:8081") =
    (mk_Proxy {[ product_uri := cached_of (λ _, 1%Z) r ]} "http://api:8081", (FromUpstream, r))) as ->
    by (vm_compute; reflexivity).
  unfold ServeHTTP, store_Get. cbn [req_uri put_product store]. rewrite lookup_singleton_eq.
  rewrite Hlive. eexists _, _. split; reflexivity.
Qed.

Lemma put_answered_from_cache_witness :
  ∃ p resp,
    serve_all (NewProxy "http://api:8081")
      [mk_exchange (λ _, 1%Z) (λ _, Responded (mk_response 200 ∅ [Byte.x31])) get_product;
       mk_exchange (λ _, 2%Z) (λ _, Unreachable) put_product] =
      (p, [(FromUpstream, mk_response 200 ∅ [Byte.x31]); (FromCache, resp)]) ∧
    body resp = [Byte.x31].
Proof. apply (put_answered_from_cache (λ _, Unreachable) 2). unfold Second. lia. Defined.

Lemma cached_answer_replays_upstream_witness :
  ∃ x' r, x' ∈ [mk_exchange (λ _, 1%Z) (λ _, Responded (mk_response 200 ∅ [Byte.x31])) get_product] ∧
          answered "http://api:8081" product_uri r x'.
Proof.
  destruct (serve_all (NewProxy "http://api:8081/")
    ([mk_exchange (λ _, 1%Z) (λ _, Responded (mk_response 200 ∅ [Byte.x31])) get_product] ++
     [mk_exchange (λ _, 2%Z) (λ _, Unreachable) get_product])) as [p outs] eqn:Hrun.
  destruct (cached_answer_replays_upstream "http://api:8081/"
    [mk_exchange (λ _, 1%Z) (λ _, Responded (mk_response 200 ∅ [Byte.x31])) get_product]
    (mk_exchange (λ _, 2%Z) (λ _, Unreachable) get_product) p
    [(FromUpstream, mk_response 200 ∅ [Byte.x31])]
    (mk_response 200 {[ "X-Proxy-Cache" := ["HIT"] ]} [Byte.x31])) as (x' & r & Hin & Hans & _).
  - rewrite Hrun. vm_compute in Hrun. injection Hrun as <- <-. vm_compute. reflexivity.
  - exists x', r. split; [exact Hin|exact Hans].
Defined.

(** The dashboard polls the cluster status every two seconds: the proxy answers
    with the first status although the upstream has a new one. *)
Definition status_poll (t : Time) (status : Byte.byte) : exchange :=
  mk_exchange (λ _, t) (λ _, Responded (mk_response 200 ∅ [status]))
    (mk_request "GET" "/cluster/status" ∅ []).
Definition polled_once : Proxy :=
  mk_Proxy {[ "/cluster/status" := cached_of (λ _, Second) (mk_response 200 ∅ [Byte.x31]) ]}
    "http://api:8081".

Lemma one_answer_for_its_lifetime_witness :
  serve_all (NewProxy "http://api:8081") [status_poll Second Byte.x31] =
    (polled_once, [(FromUpstream, mk_response 200 ∅ [Byte.x31])]) ∧
  (serve_all polled_once [status_poll (3 * Second) Byte.x32; status_poll (5 * Second) Byte.x32]).2 !! 1 =
    Some (FromCache, mk_response 200 {[ "X-Proxy-Cache" := ["HIT"] ]} [Byte.x31]).
Proof.
  split; [vm_compute; reflexivity|].
  transitivity (Some (FromCache, serveCached (cached_of (λ _, Second) (mk_response 200 ∅ [Byte.x31]))));
    [|vm_compute; reflexivity].
  apply (one_answer_for_its_lifetime polled_once "/cluster/status"
    (cached_of (λ _, Second) (mk_response 200 ∅ [Byte.x31])) _ 1 (status_poll (5 * Second) Byte.x32));
    try reflexivity.
  intros y Hy _. repeat (apply elem_of_cons in Hy as [->|Hy]; [vm_compute; reflexivity|]).
  by apply elem_of_nil in Hy.
Defined.

Lemma stale_response_never_served_witness :
  (ServeHTTP (λ _, 10%Z) (λ _, Unreachable) get_product
    (mk_Proxy {[ product_uri := mk_cached 200 ∅ [] 1 5 ]} "http://api:8081")).2.1 = Failed.
Proof.
  pose proof (stale_response_never_served (λ _, 10%Z) (λ _, Unreachable) get_product
    (mk_Proxy {[ product_uri := mk_cached 200 ∅ [] 1 5 ]} "http://api:8081")) as H.
  destruct (ServeHTTP (λ _, 10%Z) (λ _, Unreachable) get_product
    (mk_Proxy {[ product_uri := mk_cached 200 ∅ [] 1 5 ]} "http://api:8081")) as [p [src resp]] eqn:E.
  destruct H as [->|[-> _]].
  - intros i j _. lia.
  - reflexivity.
  - vm_compute in E. discriminate E.
  - reflexivity.
Defined.
End Proxy.
