(* ===== verification/ProxyConc.v ===== *)
(** The caching proxy under concurrent requests. A request of [proxy.go] takes
    the lock of the response store ([store.go]) for its lookup, again when it
    cleans up an expired page, and again to store what the upstream sent, and
    waits for the upstream in between; the goroutines of the requests in flight
    move from one of these points to the next in any order, and the upstream
    answers each call as it likes. A stored response is never changed after it is
    stored, so it is kept by value. *)
From S2P Require Import Prelude GoStrings Proxy.

Module ProxyConc.
Import Proxy.

(** ** The system *)

(** Where a request stands. A lookup is the first one or, when [again] is set,
    the one after the upstream failed. *)
Inductive phase :=
| Look (again : bool)                                (* about to look the page up under the read lock *)
| Test (again : bool) (e : CachedHTTPResponse)       (* found a page, about to test its expiry *)
| Clean (again : bool)                               (* saw it expired, about to take the write lock *)
| Call                                               (* missed, about to call the upstream *)
| Got (u : response) (received : Time)               (* has the upstream's response *)
| Keep (u : response) (e : CachedHTTPResponse).      (* about to store it under the write lock *)

(** What a client gets, with the time of the step that decided it. *)
Record answer := mk_answer { a_req : request; a_time : Time; a_source : source; a_resp : response }.

(** What the upstream sent, for which URI and when. *)
Record receipt := mk_receipt { r_time : Time; r_uri : string; r_resp : response }.

(** [receipts], [prepared] and [answers] record what happened: what the upstream
    sent, what was made into a page for the store, with the time its lifetime
    counts from, and what was answered; no code reads them. *)
Record sys := mk_sys {
  now : Time;
  pages : ResponseStore;
  flights : gmap nat (request * phase);
  receipts : list receipt;
  prepared : list receipt;
  answers : list answer
}.

(** A goroutine goes on with a phase or with the answer it writes. *)
Definition next : Type := phase + (source * response).

(** The lookup found nothing that may be served. *)
Definition missed (again : bool) : next :=
  if again then inr (Failed, http_error "upstream unavailable and no cached response available" 503)
  else inl Call.

Definition pass_on (u : response) : source * response :=
  (FromUpstream, mk_response (status u) (copyHeaders ∅ (header u)) (body u)).

(** One step of a request between two points where others can interfere: the
    store, what was received, and how it goes on. The clock is read at most twice;
    [out] is how the upstream answers if the step calls it. *)
Definition advance (c : Clock) (out : outcome) (r : request) (s : ResponseStore) (ph : phase)
    : ResponseStore * option response * next :=
  let uri := req_uri r in
  match ph with
  | Look again => (s, None, match s !! uri with None => missed again | Some e => inl (Test again e) end)
  | Test again e =>
      (s, None, if IsExpired e (c 0) then inl (Clean again)
                else inr (if again then FromStale else FromCache, serveCached e))
  | Clean again =>
      (match s !! uri with
       | Some e => if IsExpired e (c 0) then delete uri s else s
       | None => s
       end, None, missed again)
  | Call =>
      match out with
      | Unreachable => (s, None, inl (Look true))
      | BodyError => (s, None, inr (Failed, http_error "failed to read upstream response" 502))
      | Responded u => (s, Some u, inl (Got u (c 0)))
      end
  | Got u _ => (s, None, if cacheable u then inl (Keep u (cached_of c u)) else inr (pass_on u))
  | Keep u e => (store_Set uri e s, None, inr (pass_on u))
  end.

(** A record with one more entry, if there is one. *)
Definition with_receipt (t : Time) (uri : string) (u : option response) (rs : list receipt) : list receipt :=
  match u with Some u => mk_receipt t uri u :: rs | None => rs end.

(** The response a page was just made of. *)
Definition page_of (ph : phase) : option response := match ph with Keep u _ => Some u | _ => None end.

(** What the scheduler chooses. *)
Inductive choice :=
| Arrive (i : nat) (r : request)
| Move (i : nat) (c : Clock) (out : outcome).

Definition step (s : sys) (ch : choice) : option sys :=
  match ch with
  | Arrive i r =>
      match flights s !! i with
      | None => Some (mk_sys (now s) (pages s) (<[i := (r, Look false)]> (flights s)) (receipts s) (prepared s) (answers s))
      | Some _ => None
      end
  | Move i c out =>
      '(r, ph) ← flights s !! i;
      if (now s <=? c 0%nat)%Z && (c 0%nat <=? c 1%nat)%Z then
        let '(st, u, nx) := advance c out r (pages s) ph in
        let rs := with_receipt (c 0) (req_uri r) u (receipts s) in
        Some match nx with
             | inl ph' =>
                 mk_sys (c 1) st (<[i := (r, ph')]> (flights s)) rs
                   (with_receipt (c 1) (req_uri r) (page_of ph') (prepared s)) (answers s)
             | inr (src, resp) =>
                 mk_sys (c 1) st (delete i (flights s)) rs (prepared s) (mk_answer r (c 0) src resp :: answers s)
             end
      else None
  end.

Fixpoint run (s : sys) (chs : list choice) : option sys :=
  match chs with
  | [] => Some s
  | ch :: chs => s' ← step s ch; run s' chs
  end.

(** A proxy that starts at [t]. *)
Definition start (t : Time) : sys := mk_sys t NewResponseStore ∅ [] [] [].

(** ** What is served was received, and has not expired *)

(** By time [t] the page [e] was made of what the upstream sent for [uri]. *)
Definition kept (rs ps : list receipt) (t : Time) (uri : string) (e : CachedHTTPResponse) : Prop :=
  ∃ t0 u c, mk_receipt t0 uri u ∈ rs ∧ mk_receipt (c 1%nat) uri u ∈ ps ∧ cacheable u = true ∧
            (0 ≤ t0 ≤ c 0%nat)%Z ∧ (c 0%nat ≤ c 1%nat ≤ t)%Z ∧ e = cached_of c u.

Definition phase_ok (rs ps : list receipt) (t : Time) (uri : string) (ph : phase) : Prop :=
  match ph with
  | Test _ e => kept rs ps t uri e
  | Got u t0 => mk_receipt t0 uri u ∈ rs ∧ (0 ≤ t0 ≤ t)%Z
  | Keep u e => kept rs ps t uri e ∧ ∃ t0, mk_receipt t0 uri u ∈ rs
  | _ => True
  end.

Definition answer_ok (rs ps : list receipt) (a : answer) : Prop :=
  let uri := req_uri (a_req a) in
  match a_source a with
  | FromCache | FromStale =>
      ∃ e, kept rs ps (a_time a) uri e ∧ IsExpired e (a_time a) = false ∧ a_resp a = serveCached e
  | FromUpstream => ∃ t u, mk_receipt t uri u ∈ rs ∧ a_resp a = (pass_on u).2
  | Failed => status (a_resp a) ∈ [502; 503]%Z
  | FromProxy => False
  end.

Record sys_inv (s : sys) : Prop := {
  inv_now : (0 ≤ now s)%Z;
  inv_pages uri e : pages s !! uri = Some e → kept (receipts s) (prepared s) (now s) uri e;
  inv_flights i r ph :
    flights s !! i = Some (r, ph) → phase_ok (receipts s) (prepared s) (now s) (req_uri r) ph;
  inv_answers : Forall (answer_ok (receipts s) (prepared s)) (answers s)
}.

Lemma kept_mono rs rs' ps ps' t t' uri e :
  rs ⊆ rs' → ps ⊆ ps' → (t ≤ t')%Z → kept rs ps t uri e → kept rs' ps' t' uri e.
Proof.
  intros Hr Hp Ht (t0 & u & c & H1 & H2 & H3 & H4 & H5 & H6). exists t0, u, c.
  split_and!; [by apply Hr|by apply Hp|done|lia|lia|lia|lia|done].
Qed.

Lemma phase_ok_mono rs rs' ps ps' t t' uri ph :
  rs ⊆ rs' → ps ⊆ ps' → (t ≤ t')%Z → phase_ok rs ps t uri ph → phase_ok rs' ps' t' uri ph.
Proof.
  intros Hr Hp Ht H. destruct ph; simpl in *; try done.
  - by eapply kept_mono.
  - split; [apply Hr, H|lia].
  - destruct H as [Hk [t0 Hin]]. split; [by eapply kept_mono|]. exists t0. by apply Hr.
Qed.

Lemma answer_ok_mono rs rs' ps ps' a : rs ⊆ rs' → ps ⊆ ps' → answer_ok rs ps a → answer_ok rs' ps' a.
Proof.
  intros Hr Hp. unfold answer_ok. destruct (a_source a); try done.
  - intros (e & Hk & ?). exists e. split; [by eapply kept_mono|done].
  - intros (t & u & Hin & ?). exists t, u. split; [by apply Hr|done].
  - intros (e & Hk & ?). exists e. split; [by eapply kept_mono|done].
Qed.

Lemma with_receipt_sub t uri u rs : rs ⊆ with_receipt t uri u rs.
Proof. destruct u; set_solver. Qed.

(** The pages made after a step. *)
Definition made (c : Clock) (r : request) (nx : next) (ps : list receipt) : list receipt :=
  match nx with inl ph => with_receipt (c 1%nat) (req_uri r) (page_of ph) ps | inr _ => ps end.

Lemma made_sub c r nx ps : ps ⊆ made c r nx ps.
Proof. destruct nx; [apply with_receipt_sub|done]. Qed.

(** One step of a request, on its own. *)
Lemma advance_ok c out r s ph rs ps t :
  (0 ≤ t ≤ c 0%nat)%Z → (c 0%nat ≤ c 1%nat)%Z →
  (∀ uri e, s !! uri = Some e → kept rs ps t uri e) → phase_ok rs ps t (req_uri r) ph →
  let '(s', u, nx) := advance c out r s ph in
  let rs' := with_receipt (c 0%nat) (req_uri r) u rs in
  let ps' := made c r nx ps in
  (∀ uri e, s' !! uri = Some e → kept rs' ps' (c 1%nat) uri e) ∧
  match nx with
  | inl ph' => phase_ok rs' ps' (c 1%nat) (req_uri r) ph'
  | inr (src, resp) => answer_ok rs' ps' (mk_answer r (c 0%nat) src resp)
  end.
Proof.
  intros Ht Hc Hs Hp.
  assert (∀ nx uri e, s !! uri = Some e → kept rs (made c r nx ps) (c 1%nat) uri e) as Hold.
  { intros nx uri e He. eapply kept_mono; [done|apply made_sub| |by apply Hs]. lia. }
  unfold answer_ok. destruct ph as [again|again e|again| |u t0|u e]; cbn [advance].
  - split; [by apply Hold|]. destruct (s !! req_uri r) as [e|] eqn:E; [by apply (Hold (inl (Test again e)))|].
    destruct again; simpl; [set_solver|done].
  - split; [by apply Hold|]. destruct (IsExpired e (c 0)) eqn:E; [done|].
    assert (kept rs ps (c 0%nat) (req_uri r) e) by (by eapply kept_mono; [..|exact Hp]; [| |lia]).
    destruct again; simpl; eauto.
  - split; [|destruct again; simpl; [set_solver|done]]. intros uri e. destruct (s !! req_uri r) as [e'|]; [|apply Hold].
    destruct (IsExpired e' (c 0)); [|apply Hold]. intros [_ He]%lookup_delete_Some. by apply Hold.
  - destruct out as [| |u]; [split; [by apply (Hold (inl (Look true)))|done]|
      split; [by apply (Hold (inr (Failed, http_error "failed to read upstream response" 502)))|simpl; set_solver]|].
    cbn [made page_of with_receipt]. split.
    + intros uri e He. eapply kept_mono; [| | |by apply Hs]; [set_solver|set_solver|lia].
    + split; [set_solver|lia].
  - destruct Hp as [Hin Ht0]. split; [by apply Hold|]. destruct (cacheable u) eqn:E; simpl; [|eauto].
    split; [|eauto]. exists t0, u, c. split_and!; [done|set_solver|done|lia|lia|lia|lia|done].
  - destruct Hp as [Hk [t0 Hin]]. split; [|simpl; eauto]. intros uri e'. unfold store_Set.
    intros [[<- <-]|[_ He]]%lookup_insert_Some; [|by apply Hold].
    eapply kept_mono; [done|done| |exact Hk]. lia.
Qed.

Lemma step_ok s ch s' : step s ch = Some s' → sys_inv s → sys_inv s' ∧ (now s ≤ now s')%Z.
Proof.
  intros Hstep [Hn Hp Hf Ha]. destruct ch as [i r|i c out]; cbn [step] in Hstep.
  - destruct (flights s !! i); [done|]. injection Hstep as <-. split; [split; simpl; try done|simpl; lia].
    intros j r' ph [[<- [= <- <-]]|[_ ?]]%lookup_insert_Some; [done|by eapply Hf].
  - destruct (flights s !! i) as [[r ph]|] eqn:Ei; [|done]. cbn [mbind option_bind] in Hstep.
    destruct (Z.leb_spec (now s) (c 0%nat)), (Z.leb_spec (c 0%nat) (c 1%nat)); cbn [andb] in Hstep; try done.
    pose proof (advance_ok c out r (pages s) ph (receipts s) (prepared s) (now s) ltac:(lia) ltac:(lia) Hp
      (Hf _ _ _ Ei)) as Hadv.
    destruct (advance c out r (pages s) ph) as [[st u] nx].
    pose proof (with_receipt_sub (c 0%nat) (req_uri r) u (receipts s)) as Hsub.
    pose proof (made_sub c r nx (prepared s)) as Hsub'.
    assert (Some s' = Some (mk_sys (c 1%nat) st
      (match nx with inl ph' => <[i := (r, ph')]> (flights s) | inr _ => delete i (flights s) end)
      (with_receipt (c 0%nat) (req_uri r) u (receipts s)) (made c r nx (prepared s))
      (match nx with inl _ => answers s | inr (src, resp) => mk_answer r (c 0%nat) src resp :: answers s end))) as E
      by (rewrite <-Hstep; by destruct nx as [|[]]).
    clear Hstep. apply (inj Some) in E as ->.
    set (rs := with_receipt _ _ _ _) in *. clearbody rs. set (ps := made _ _ _ _) in *. clearbody ps.
    destruct Hadv as [Hst Hnx].
    assert (∀ j r' ph', flights s !! j = Some (r', ph') → phase_ok rs ps (c 1%nat) (req_uri r') ph') as Hold.
    { intros j r' ph' Hj. eapply phase_ok_mono; [done|done| |by eapply Hf]. lia. }
    assert (Forall (answer_ok rs ps) (answers s)) as Has.
    { eapply Forall_impl; [exact Ha|]. intros a. by apply answer_ok_mono. }
    destruct nx as [ph'|[src resp]]; (split; [split|]); simpl; try lia; try done.
    + intros j r' ph0 [[<- [= <- <-]]|[_ ?]]%lookup_insert_Some; [done|by eapply Hold].
    + intros j r' ph0 [_ ?]%lookup_delete_Some. by eapply Hold.
    + by constructor.
Qed.

Lemma run_ok s chs s' : run s chs = Some s' → sys_inv s → sys_inv s' ∧ (now s ≤ now s')%Z.
Proof.
  revert s. induction chs as [|ch chs IH]; intros s; cbn [run]; [intros [= ->] ?; split; [done|lia]|].
  destruct (step s ch) as [s1|] eqn:E; [|done]. cbn [mbind option_bind]. intros Hrun Hinv.
  destruct (step_ok s ch s1 E Hinv) as [Hinv1 Ht]. destruct (IH s1 Hrun Hinv1). split; [done|lia].
Qed.

Lemma start_ok t : (0 ≤ t)%Z → sys_inv (start t).
Proof. intros Ht. by split. Qed.

(** What a stored page is, read off its fields. *)
Lemma kept_page rs ps uri e t : kept rs ps t uri e → IsExpired e t = false →
  ∃ t0 u t1, mk_receipt t0 uri u ∈ rs ∧ mk_receipt t1 uri u ∈ ps ∧ cacheable u = true ∧ (t0 ≤ t1 ≤ t)%Z ∧
    status (serveCached e) = status u ∧ body (serveCached e) = body u ∧
    let ttl := (parseCacheControl (header_get (header u) "Cache-Control")).2 in
    ((0 < ttl)%Z → (t ≤ t1 + ttl)%Z).
Proof.
  intros (t0 & u & c & Hin & Hps & Hu & Ht & Hc & ->) Hexp. exists t0, u, (c 1%nat).
  split_and!; [done|done|done|lia|lia|done|done|]. cbn zeta. intros Hpos. unfold cached_of, IsExpired in Hexp. cbn [ExpiresAt] in Hexp.
  rewrite (proj2 (Z.ltb_lt _ _) Hpos) in Hexp. unfold IsZero, After, Add, time_zero in Hexp.
  rewrite (proj2 (Z.eqb_neq _ _)) in Hexp by lia. cbn [negb andb] in Hexp. apply Z.ltb_ge in Hexp. lia.
Qed.

(** C20: concurrent requests are served what the upstream sent. However the requests
    in flight interleave and whatever the upstream answers, an answer from the
    store has the status and the body of a cacheable response that the upstream
    sent for the same URI and that was made into a page before; if the lifetime the
    response asks for (its max-age, or five minutes) is positive, the answer is
    given no later than that lifetime after the recorded moment the page was made.
    An answer that was passed on is a response the upstream sent for this URI, and
    any other answer is a 502 or a 503. *)
Theorem concurrent_pages_fresh (t : Time) (chs : list choice) (s : sys) (a : answer)
    (Ht : (0 ≤ t)%Z) (Hrun : run (start t) chs = Some s) (Ha : a ∈ answers s) :
  let uri := req_uri (a_req a) in
  match a_source a with
  | FromCache | FromStale =>
      ∃ t0 u t1, mk_receipt t0 uri u ∈ receipts s ∧ mk_receipt t1 uri u ∈ prepared s ∧ cacheable u = true ∧
        (t0 ≤ t1 ≤ a_time a)%Z ∧
        status (a_resp a) = status u ∧ body (a_resp a) = body u ∧
        let ttl := (parseCacheControl (header_get (header u) "Cache-Control")).2 in
        ((0 < ttl)%Z → (a_time a ≤ t1 + ttl)%Z)
  | FromUpstream =>
      ∃ t0 u, mk_receipt t0 uri u ∈ receipts s ∧ status (a_resp a) = status u ∧ body (a_resp a) = body u
  | _ => status (a_resp a) ∈ [502; 503]%Z
  end.
Proof.
  destruct (run_ok _ _ _ Hrun (start_ok t Ht)) as [[_ _ _ Has] _].
  rewrite Forall_forall in Has. specialize (Has a Ha). unfold answer_ok in Has. cbn zeta.
  destruct (a_source a); try done.
  - destruct Has as (e & Hk & He & ->). by apply kept_page.
  - destruct Has as (t0 & u & Hin & ->). by exists t0, u.
  - destruct Has as (e & Hk & He & ->). by apply kept_page.
Qed.

(** ** The store keeps the last page until it expires *)

(** The page a choice stores under [k]. *)
Definition stores (k : string) (s : sys) (ch : choice) : list CachedHTTPResponse :=
  match ch with
  | Move i _ _ =>
      match flights s !! i with
      | Some (r, Keep _ e) => if decide (req_uri r = k) then [e] else []
      | _ => []
      end
  | Arrive _ _ => []
  end.

(** The pages stored under [k] in a run, in order. *)
Fixpoint stored (k : string) (s : sys) (chs : list choice) : list CachedHTTPResponse :=
  match chs with
  | [] => []
  | ch :: chs => match step s ch with Some s' => stores k s ch ++ stored k s' chs | None => [] end
  end.

(** The store has the last page of [l] under [k], or that page has expired. *)
Definition holds_last (k : string) (l : list CachedHTTPResponse) (s : sys) : Prop :=
  (∀ e, pages s !! k = Some e → last l = Some e) ∧
  (∀ e, last l = Some e → IsExpired e (now s) = false → pages s !! k = Some e).

Lemma IsExpired_mono e t t' : (t ≤ t')%Z → IsExpired e t' = false → IsExpired e t = false.
Proof.
  unfold IsExpired, After. destruct (IsZero _); [done|]. cbn [negb andb]. rewrite !Z.ltb_ge. lia.
Qed.

Lemma advance_holds k c out r s ph l t :
  (t ≤ c 0%nat ≤ c 1%nat)%Z → holds_last k l (mk_sys t s ∅ [] [] []) →
  holds_last k (l ++ match ph with Keep _ e => if decide (req_uri r = k) then [e] else [] | _ => [] end)
    (mk_sys (c 1%nat) (advance c out r s ph).1.1 ∅ [] [] []).
Proof.
  intros Hc [H1 H2]. cbn [pages now] in *.
  assert (holds_last k (l ++ []) (mk_sys (c 1%nat) s ∅ [] [] [])) as Hsame.
  { rewrite app_nil_r. split; [done|]. intros e He Hx. apply H2; [done|]. eapply IsExpired_mono; [|exact Hx]. simpl. lia. }
  destruct ph as [again|again e|again| |u t0|u e]; cbn [advance fst]; try exact Hsame.
  - destruct (s !! req_uri r) as [e'|] eqn:E; [|exact Hsame]. destruct (IsExpired e' (c 0)) eqn:Ee; [|exact Hsame].
    rewrite app_nil_r. split; cbn [pages now].
    + intros e [_ He]%lookup_delete_Some. by apply H1.
    + intros e He Hx. destruct (decide (req_uri r = k)) as [<-|Hne].
      * apply H1 in E. rewrite E in He. injection He as ->.
        apply (IsExpired_mono _ (c 0%nat)) in Hx; [congruence|lia].
      * rewrite lookup_delete_ne by done. apply H2; [done|]. eapply IsExpired_mono; [|exact Hx]. lia.
  - by destruct out.
  - unfold store_Set. destruct (decide (req_uri r = k)) as [<-|Hne].
    + split; cbn [pages now]; intros e'; rewrite lookup_insert_eq, last_snoc; [done|]. by intros [= ->].
    + destruct Hsame as [S1 S2]. split; cbn [pages now] in *; intros e'; rewrite lookup_insert_ne by done; auto.
Qed.

Lemma step_holds k s ch s' l : step s ch = Some s' → holds_last k l s → holds_last k (l ++ stores k s ch) s'.
Proof.
  intros Hstep Hl. destruct ch as [i r|i c out]; cbn [step stores] in *.
  - destruct (flights s !! i); [done|]. injection Hstep as <-. by rewrite app_nil_r.
  - destruct (flights s !! i) as [[r ph]|] eqn:Ei; [|done]. cbn [mbind option_bind] in Hstep.
    destruct (Z.leb_spec (now s) (c 0%nat)), (Z.leb_spec (c 0%nat) (c 1%nat)); cbn [andb] in Hstep; try done.
    pose proof (advance_holds k c out r (pages s) ph l (now s) ltac:(lia) Hl) as Hadv.
    destruct (advance c out r (pages s) ph) as [[st u] [ph'|[src resp]]]; by injection Hstep as <-.
Qed.

Lemma run_holds k s chs s' l : run s chs = Some s' → holds_last k l s → holds_last k (l ++ stored k s chs) s'.
Proof.
  revert s l. induction chs as [|ch chs IH]; intros s l; cbn [run stored]; [intros [= ->]; by rewrite app_nil_r|].
  destruct (step s ch) as [s1|] eqn:E; [|done]. cbn [mbind option_bind]. intros Hrun Hl.
  rewrite app_assoc. apply IH; [done|]. by apply step_holds.
Qed.

(** C21: the response store is a register per URI. Whatever interleaves, the page
    under a URI is the one that was stored there last, and it is there as long as
    it has not expired: a request that found an expired page and cleans it up never
    removes a page that was stored in the meantime. *)
Theorem store_keeps_last_page (s s' : sys) (chs : list choice) (k : string)
    (Hrun : run s chs = Some s') :
  let l := option_list (pages s !! k) ++ stored k s chs in
  (∀ e, pages s' !! k = Some e → last l = Some e) ∧
  (∀ e, last l = Some e → IsExpired e (now s') = false → pages s' !! k = Some e).
Proof.
  apply (run_holds k s chs s'); [done|]. split; intros e; destruct (pages s !! k) as [e'|]; simpl; done.
Qed.

(** ** Every request ends *)

(** The steps a request still takes, at most. *)
Definition work (ph : phase) : nat :=
  match ph with
  | Look false => 7 | Test false _ => 6 | Clean false => 5 | Call => 4
  | Look true => 3 | Test true _ => 2 | Clean true => 1
  | Got _ _ => 2 | Keep _ _ => 1
  end.

Lemma advance_work c out r s ph :
  match (advance c out r s ph).2 with inl ph' => work ph' < work ph | inr _ => 1 ≤ work ph end.
Proof.
  destruct ph as [[]|[] e|[]| |u t|u e]; cbn [advance snd missed].
  1,2: destruct (s !! _); simpl; lia.
  1,2: destruct (IsExpired e _); simpl; lia.
  3: destruct out.
  6: destruct (cacheable u).
  all: simpl; lia.
Qed.

(** The steps of request [i] among the choices. *)
Fixpoint moves (i : nat) (chs : list choice) : nat :=
  match chs with
  | [] => 0
  | Move j _ _ :: chs => (if decide (j = i) then 1 else 0) + moves i chs
  | Arrive _ _ :: chs => moves i chs
  end.

Lemma step_answers s ch s' : step s ch = Some s' → answers s ⊆ answers s'.
Proof.
  destruct ch as [i r|i c out]; cbn [step]; [destruct (flights s !! i); [done|]; by intros [= <-]|].
  destruct (flights s !! i) as [[r ph]|]; [|done]. cbn [mbind option_bind]. destruct (_ && _); [|done].
  destruct (advance _ _ _ _ _) as [[st u] [ph'|[src resp]]]; intros [= <-]; simpl; set_solver.
Qed.

Lemma run_answers s chs s' : run s chs = Some s' → answers s ⊆ answers s'.
Proof.
  revert s. induction chs as [|ch chs IH]; intros s; cbn [run]; [by intros [= ->]|].
  destruct (step s ch) as [s1|] eqn:E; [|done]. cbn [mbind option_bind]. intros H%IH.
  apply step_answers in E. set_solver.
Qed.

(** A request that has made its steps is answered; no other request can keep it
    from that. *)
Theorem request_answered (s s' : sys) (chs : list choice) (i : nat) (r : request) (ph : phase)
    (Hrun : run s chs = Some s') (Hi : flights s !! i = Some (r, ph)) (Hmoves : work ph ≤ moves i chs) :
  ∃ a, a ∈ answers s' ∧ a_req a = r.
Proof.
  revert s ph Hrun Hi Hmoves. induction chs as [|ch chs IH]; intros s ph; cbn [run moves].
  { intros _ _ Hw. destruct ph as [[]|[]|[]| | |]; simpl in Hw; lia. }
  destruct (step s ch) as [s1|] eqn:E; [|done]. cbn [mbind option_bind]. intros Hrun Hi Hw.
  destruct ch as [j r'|j c out]; cbn [step] in E.
  - destruct (flights s !! j) eqn:Ej; [done|]. injection E as <-. eapply IH; [exact Hrun| |exact Hw].
    simpl. rewrite lookup_insert_ne; [done|]. intros ->. congruence.
  - destruct (flights s !! j) as [[rj phj]|] eqn:Ej; [|done]. cbn [mbind option_bind] in E.
    destruct (_ && _); [|done]. pose proof (advance_work c out rj (pages s) phj) as Hadv.
    destruct (advance _ _ _ _ _) as [[st u] [ph'|[src resp]]]; injection E as <-; simpl in Hadv;
      destruct (decide (j = i)) as [->|Hne].
    + rewrite Hi in Ej. injection Ej as <- <-. eapply (IH _ ph'); [exact Hrun|simpl; by rewrite lookup_insert_eq|lia].
    + eapply IH; [exact Hrun|simpl; by rewrite lookup_insert_ne|simpl in Hw; lia].
    + rewrite Hi in Ej. injection Ej as <- <-. eexists. split; [apply (run_answers _ _ _ Hrun); simpl; by left|done].
    + eapply IH; [exact Hrun|simpl; by rewrite lookup_delete_ne|simpl in Hw; lia].
Qed.

(** ** Alone, a request is [ServeHTTP] *)

(** The readings of the clock in the order of the code. *)
Definition readings (now : Clock) (ph : phase) : Clock :=
  λ i, now (match ph with
            | Test again _ => if again then 2 else 0
            | Clean again => if again then 3 else 1
            | Got _ _ => 2 + i
            | _ => i
            end).

Fixpoint alone (fuel : nat) (now : Clock) (out : outcome) (r : request) (s : ResponseStore) (ph : phase)
    : option (ResponseStore * (source * response)) :=
  match fuel with
  | 0 => None
  | S fuel =>
      match advance (readings now ph) out r s ph with
      | (s', _, inl ph') => alone fuel now out r s' ph'
      | (s', _, inr a) => Some (s', a)
      end
  end.

(** The steps are those of the sequential definition: with nobody else around they
    compute what it does. *)
Theorem alone_is_ServeHTTP (now : Clock) (call : string * request → outcome) (r : request) (p : Proxy) :
  alone 7 now (call (forwardToUpstream p r)) r (store p) (Look false) =
  Some (store (ServeHTTP now call r p).1, (ServeHTTP now call r p).2).
Proof.
  assert (∀ fuel again s,
    alone (S (S (S fuel))) now (call (forwardToUpstream p r)) r s (Look again) =
    let '(s', hit) := store_Get (λ i, now ((if again then 2 else 0) + i)) (req_uri r) s in
    match hit with
    | Some e => Some (s', (if again : bool then FromStale else FromCache, serveCached e))
    | None => match missed again with inl ph => alone (if bool_decide (s !! req_uri r = None) then S (S fuel) else fuel) now (call (forwardToUpstream p r)) r s' ph
              | inr a => Some (s', a) end
    end) as Hget.
  { intros fuel again s. unfold store_Get. cbn [alone advance]. destruct (s !! req_uri r) as [e|] eqn:E.
    - cbn [alone advance]. unfold readings at 1. destruct again; cbn [Nat.add];
        (destruct (IsExpired e _); [|done]); cbn [alone advance]; rewrite E; unfold readings;
        (rewrite bool_decide_false by done); (destruct (IsExpired e _); done).
    - rewrite bool_decide_true by done. by destruct again. }
  pose proof (Hget 4 false (store p)) as Hfirst. cbn [Nat.add] in Hfirst. change (λ i, now i) with now in Hfirst.
  rewrite Hfirst. unfold ServeHTTP.
  destruct (store_Get now (req_uri r) (store p)) as [s1 [e|]]; [done|].
  cbn [missed].
  assert (∀ fuel, 4 ≤ fuel → alone fuel now (call (forwardToUpstream p r)) r s1 Call =
    match call (forwardToUpstream p r) with
    | Unreachable => alone (pred fuel) now (call (forwardToUpstream p r)) r s1 (Look true)
    | BodyError => Some (s1, (Failed, http_error "failed to read upstream response" 502))
    | Responded u => Some (if cacheable u then store_Set (req_uri r) (cached_of (λ i, now (2 + i)) u) s1 else s1, pass_on u)
    end) as Hcall.
  { intros [|[|fuel]] Hf; try lia. cbn [alone advance pred]. destruct (call _) as [| |u] eqn:Ec; [done|done|].
    cbn [alone advance]. destruct (cacheable u); [|done]. destruct fuel as [|fuel]; [lia|]. done. }
  rewrite Hcall by (destruct (bool_decide _); lia).
  destruct (call (forwardToUpstream p r)) as [| |u] eqn:Ec; [|done|by destruct (cacheable u)].
  destruct (bool_decide _); cbn [pred]; rewrite (Hget _ true);
    change (λ i, now ((if true then 2 else 0) + i)) with (λ i, now (2 + i));
    destruct (store_Get (λ i, now (2 + i)) (req_uri r) s1) as [s2 [e|]]; done.
Qed.

(** ** A race *)

Definition page_request : request := mk_request "GET" "/products/prod-001" ∅ [].
Definition version (v : string) : outcome := Responded (mk_response 200 ∅ (text_body v)).
Definition go (i : nat) (sec : Z) (out : outcome) : choice := Move i (λ _, (sec * Second)%Z) out.

(** A page is stored and expires. Two requests see it expired; one of them cleans
    up, gets a new version and stores it before the other one cleans up. That one
    finds the new page under the lock and leaves it, and serves it when the upstream
    fails. *)
Definition race : list choice :=
  [Arrive 0 page_request; go 0 1 Unreachable; go 0 1 (version "old"); go 0 1 Unreachable; go 0 1 Unreachable;
   Arrive 1 page_request; go 1 400 Unreachable; go 1 400 Unreachable;
   Arrive 2 page_request; go 2 401 Unreachable; go 2 401 Unreachable; go 2 401 Unreachable;
   go 2 402 (version "new"); go 2 402 Unreachable; go 2 403 Unreachable;
   go 1 404 Unreachable; go 1 405 Unreachable; go 1 406 Unreachable; go 1 406 Unreachable].

Definition seen (a : answer) : string * source * string :=
  (req_uri (a_req a), a_source a, String.string_of_list_byte (body (a_resp a))).

Lemma race_runs :
  (λ s, (map seen (answers s), String.string_of_list_byte ∘ Body <$> pages s !! "/products/prod-001", now s))
    <$> run (start 0) race =
  Some ([("/products/prod-001", FromStale, "new"); ("/products/prod-001", FromUpstream, "new");
         ("/products/prod-001", FromUpstream, "old")], Some "new", (406 * Second)%Z).
Proof. vm_compute. reflexivity. Qed.

Lemma race_state : ∃ s a, run (start 0) race = Some s ∧ a ∈ answers s ∧
  seen a = ("/products/prod-001", FromStale, "new") ∧ now s = (406 * Second)%Z.
Proof.
  pose proof race_runs as H. destruct (run (start 0) race) as [s|]; [|discriminate H]. apply (inj Some) in H.
  pose proof (f_equal (λ x, x.1.1) H) as Ha. pose proof (f_equal snd H) as Hn. cbn [fst snd] in Ha, Hn.
  destruct (answers s) as [|a l] eqn:E; [discriminate Ha|]. exists s, a. split; [reflexivity|].
  rewrite E. split; [by left|]. split; [exact (f_equal (default (seen a) ∘ head) Ha)|exact Hn].
Qed.

Lemma concurrent_pages_fresh_witness :
  ∃ s a t0 u, run (start 0) race = Some s ∧ a ∈ answers s ∧ a_source a = FromStale ∧
    mk_receipt t0 "/products/prod-001" u ∈ receipts s ∧ String.string_of_list_byte (body u) = "new".
Proof.
  destruct race_state as (s & a & Hrun & Ha & Hseen & _). unfold seen in Hseen.
  injection Hseen as Hreq Hsrc Hb. pose proof (concurrent_pages_fresh 0 race s a (Z.le_refl 0) Hrun Ha) as H.
  cbn zeta in H. rewrite Hsrc, Hreq in H. destruct H as (t0 & u & t1 & Hin & _ & _ & _ & _ & Hbody & _).
  exists s, a, t0, u. split; [exact Hrun|]. split; [exact Ha|]. split; [exact Hsrc|]. split; [exact Hin|].
  rewrite <-Hbody. exact Hb.
Defined.

Lemma store_keeps_last_page_witness :
  ∃ s e, run (start 0) race = Some s ∧ last (stored "/products/prod-001" (start 0) race) = Some e ∧
    pages s !! "/products/prod-001" = Some e.
Proof.
  destruct race_state as (s & a & Hrun & _ & _ & Hnow).
  destruct (store_keeps_last_page (start 0) s race "/products/prod-001" Hrun) as [_ Hkeep].
  assert ((λ e, IsExpired e (406 * Second)) <$> last (stored "/products/prod-001" (start 0) race) = Some false)
    as (e & He & Hx)%fmap_Some by (vm_compute; reflexivity).
  exists s, e. split; [exact Hrun|]. split; [exact He|]. apply Hkeep; [exact He|]. rewrite Hnow. symmetry. exact Hx.
Defined.
End ProxyConc.
