(* ===== verification/Invalidation.v ===== *)
(** The three invalidation strategies, [src/internal/invalidation], on the
    in-memory cache: what happens to the cached copy of a row after the row has
    been written to the database. *)
From S2P Require Import Prelude Policy Cache.

Module Invalidation.

Definition writeThroughTTL : Duration := (5 * Minute)%Z.
Definition writeBehindDeadline : Duration := (5 * Second)%Z.
Definition writeBehindDelay : Duration := (100 * Millisecond)%Z.

(** The values of the interface [shared.InvalidationStrategy]. *)
Inductive strategy := TTL | WriteThrough | WriteBehind.

(** A background deletion: the key, and the instant from which the goroutine
    may run, its delay after the write. *)
Record task := mk_task { task_key : string; not_before : Time }.

Definition strategy_Name (s : strategy) : string :=
  match s with
  | TTL => "ttl"
  | WriteThrough => "write-through"
  | WriteBehind => "write-behind"
  end.

(** [buildInvalidationStrategy] of [src/cmd/api/main.go]. *)
Definition buildInvalidationStrategy (name : string) : strategy :=
  if decide (name = "write-through") then WriteThrough
  else if decide (name = "write-behind") then WriteBehind
  else TTL.

Section OnWrite.
Context {P : Type} `{!EvictionPolicy P}.
Local Abbreviation cache := (Cache.InMemoryCache P).

(** [OnWrite] of each strategy: the cache afterwards, the goroutine it starts,
    if any, and the error it returns. *)
Definition TTL_OnWrite (c : cache) : option (cache * option task * option Cache.set_error) :=
  Some (c, None, None).

Definition WriteThrough_OnWrite (now : Clock) (key : string) (value : bytes) (c : cache)
    : option (cache * option task * option Cache.set_error) :=
  '(c', err) ← Cache.Set_ now key value writeThroughTTL c;
  Some (c', None, err).

Definition WriteBehind_OnWrite (now : Clock) (key : string) (c : cache)
    : option (cache * option task * option Cache.set_error) :=
  Some (c, Some (mk_task key (Add (now 0) writeBehindDelay)), None).

Definition OnWrite (s : strategy) (now : Clock) (key : string) (value : bytes) (c : cache)
    : option (cache * option task * option Cache.set_error) :=
  match s with
  | TTL => TTL_OnWrite c
  | WriteThrough => WriteThrough_OnWrite now key value c
  | WriteBehind => WriteBehind_OnWrite now key c
  end.

(** The body of the goroutine, when it runs. *)
Definition run_task (t : task) (c : cache) : option cache := Cache.Delete (task_key t) c.
End OnWrite.

Section Spec.
Context {P : Type} `{!EvictionPolicy P, !EvictionPolicySpec P}.
Implicit Types c : Cache.InMemoryCache P.

(** Storing a value with an admissible TTL: the key holds it, and every other
    key holds what it held, or nothing. *)
Lemma Set_frame now key value ttl c :
  Cache.cache_inv c → (0 ≤ ttl ≤ Cache.maxTTL)%Z →
  ∃ c', Cache.Set_ now key value ttl c = Some (c', None) ∧ Cache.cache_inv c' ∧
        Cache.abs c' !! key = Some (value, Cache.expiry (now 0) ttl) ∧
        ∀ k vx, k ≠ key → Cache.abs c' !! k = Some vx → Cache.abs c !! k = Some vx.
Proof.
  intros Hinv [H0 H1]. unfold Cache.Set_.
  rewrite (proj2 (Z.ltb_ge ttl 0) H0), (proj2 (Z.ltb_ge Cache.maxTTL ttl) H1).
  destruct (Cache.Set_locked_spec (now 0) (now 1) key value (Cache.expiry (now 0) ttl) c Hinv)
    as (c' & -> & Hinv' & _ & _ & Habs & _). simpl.
  exists c'. split; [done|]. split; [done|]. split; [by rewrite Habs, lookup_insert_eq|].
  intros k vx Hne. rewrite Habs, lookup_insert_ne by done.
  destruct (decide _); [done|]. destruct (Cache.victim c); [|done].
  by intros [_ ?]%lookup_delete_Some.
Qed.

(** Write-through stores the new value under the key, and never fails: its TTL
    is within the cache's bounds. *)
Lemma WriteThrough_spec now key value c :
  Cache.cache_inv c →
  ∃ c', WriteThrough_OnWrite now key value c = Some (c', None, None) ∧ Cache.cache_inv c' ∧
        Cache.abs c' !! key = Some (value, Cache.expiry (now 0) writeThroughTTL) ∧
        ∀ k vx, k ≠ key → Cache.abs c' !! k = Some vx → Cache.abs c !! k = Some vx.
Proof.
  intros Hinv. unfold WriteThrough_OnWrite.
  destruct (Set_frame now key value writeThroughTTL c Hinv) as (c' & -> & ?); [done|]. eauto.
Qed.

(** The goroutine of write-behind removes the key. *)
Lemma run_task_spec t c :
  Cache.cache_inv c →
  ∃ c', run_task t c = Some c' ∧ Cache.cache_inv c' ∧
        Cache.abs c' = delete (task_key t) (Cache.abs c).
Proof.
  intros Hinv. unfold run_task.
  destruct (Cache.Delete_spec (task_key t) c Hinv) as (c' & -> & ? & _ & _ & _ & ? & _). eauto.
Qed.
End Spec.
End Invalidation.
