(* ===== verification/Db.v ===== *)
(** The product database layer, [src/internal/db/postgres.go]: the statements
    it sends to PostgreSQL and how it reads their results. The server itself,
    behind the [pgx] pool, is an interface with the documented meaning of the
    statements as its laws. *)
From S2P Require Import Prelude GoStrings.
From Stdlib Require Import Ascii.

Module Db.

(** [db.Product]; a price is the bit pattern of its [float64], which this code
    only copies. *)
Record Product := mk_Product {
  ID : string;
  Name : string;
  Description : string;
  PriceUSD : Z;
  Category : string;
  CreatedAt : Time;
  UpdatedAt : Time
}.
#[global] Instance Product_eq_dec : EqDecision Product.
Proof. solve_decision. Defined.

(** [db.ProductUpdateRequest]: absent fields are not changed. *)
Record ProductUpdateRequest := mk_Update {
  new_Name : option string;
  new_Description : option string;
  new_PriceUSD : option Z;
  new_Category : option string
}.

(** The errors: the sentinel, and the wrapped errors of the driver with their
    text. *)
Inductive db_error := ErrNotFound | ErrWrapped (text : string).

(** ** Statements *)

Inductive column := CName | CDescription | CPriceUSD | CCategory | CUpdatedAt.
#[global] Instance column_eq_dec : EqDecision column.
Proof. solve_decision. Defined.

Inductive value := VString (s : string) | VFloat (bits : Z) | VInt (z : Z) | VTime (t : Time).

(** The statements. All but the update are constants of the source. *)
Inductive sql :=
| SelectById                                    (* SELECT ... WHERE id = $1 *)
| InsertProduct                                 (* INSERT ... VALUES ($1, ..., $5) RETURNING ... *)
| Statement (text : string)                     (* a text made at run time *)
| CountProducts
| SelectPage.                                   (* ... LIMIT $1 OFFSET $2 *)

(** [joinClauses], the loop from index [i]. *)
Fixpoint joinClauses_from (i : nat) (clauses : list string) (result : string) : string :=
  match clauses with
  | [] => result
  | c :: clauses =>
      let result := if decide (0 < i) then result +:+ ", " else result in
      joinClauses_from (S i) clauses (result +:+ c)
  end.

Definition joinClauses (clauses : list string) : string := joinClauses_from 0 clauses "".

(** One of the four [if req.X != nil] blocks, with the format of its clause up to
    the number: a clause, an argument and the next index. *)
Definition add_set (format : string) (v : option value) (st : list string * list value * nat)
    : list string * list value * nat :=
  let '(setClauses, args, argIdx) := st in
  match v with
  | None => st
  | Some v => (setClauses ++ [format +:+ pretty argIdx], args ++ [v], S argIdx)
  end.

(** A line of a raw string. *)
Definition line (s : string) : string := String (byte_of 10) (String (byte_of 9) (String (byte_of 9) s)).

(** The statement of [UpdateProduct] and its arguments. *)
Definition build_update (id : string) (req : ProductUpdateRequest) : sql * list value :=
  let st := (["updated_at = NOW()"], [], 1) in
  let st := add_set "name = $" (VString <$> new_Name req) st in
  let st := add_set "description = $" (VString <$> new_Description req) st in
  let st := add_set "price_usd = $" (VFloat <$> new_PriceUSD req) st in
  let '(setClauses, args, argIdx) := add_set "category = $" (VString <$> new_Category req) st in
  (Statement
     (line "UPDATE products" +:+ line "SET " +:+ joinClauses setClauses +:+
      line "WHERE id = $" +:+ pretty argIdx +:+
      line "RETURNING id, name, description, price_usd, category, created_at, updated_at" +:+
      String (byte_of 10) (String (byte_of 9) "")),
   args ++ [VString id]).

(** *** The meaning of an update statement *)

(** The right-hand sides: the time of the server, or the [i]-th argument. *)
Inductive expr := Now | Arg (i : nat).

(** The words of a statement; commas stand alone. *)
Fixpoint words (word s : string) : list string :=
  let flush l := if decide (word = "") then l else word :: l in
  match s with
  | EmptyString => flush []
  | String a s =>
      if decide (a = " "%char ∨ a = byte_of 10 ∨ a = byte_of 9) then flush (words "" s)
      else if decide (a = ","%char) then flush ("," :: words "" s)
      else words (word +:+ String a "") s
  end.

Definition column_of (s : string) : option column :=
  if decide (s = "name") then Some CName
  else if decide (s = "description") then Some CDescription
  else if decide (s = "price_usd") then Some CPriceUSD
  else if decide (s = "category") then Some CCategory
  else if decide (s = "updated_at") then Some CUpdatedAt
  else None.

Definition expr_of (s : string) : option expr :=
  if decide (s = "NOW()") then Some Now
  else rest ← after_prefix "$" s; i ← digits rest; Some (Arg (Z.to_nat i)).

(** [column = expression], separated by commas, and what follows. *)
Fixpoint assignments (ws : list string) : option (list (column * expr) * list string) :=
  match ws with
  | c :: eq :: e :: sep :: ws =>
      if decide (eq = "=") then
        c ← column_of c; e ← expr_of e;
        if decide (sep = ",") then '(l, rest) ← assignments ws; Some ((c, e) :: l, rest)
        else Some ([(c, e)], sep :: ws)
      else None
  | _ => None
  end.

Definition after_words (prefix ws : list string) : option (list string) :=
  if decide (take (length prefix) ws = prefix) then Some (drop (length prefix) ws) else None.

(** The assignments of an update of a product by its identifier that returns the
    row, and the number of the argument that holds the identifier. *)
Definition parse_update (text : string) : option (list (column * expr) * nat) :=
  ws ← after_words ["UPDATE"; "products"; "SET"] (words "" text);
  '(sets, ws) ← assignments ws;
  ws ← after_words ["WHERE"; "id"; "="] ws;
  w ← head ws; e ← expr_of w;
  if decide (tail ws = ["RETURNING"; "id"; ","; "name"; ","; "description"; ","; "price_usd"; ","; "category"; ",";
                        "created_at"; ","; "updated_at"])
  then match e with Arg i => Some (sets, i) | Now => None end
  else None.

(** ** The server *)

(** What [QueryRow(...).Scan(...)] gives. *)
Inductive query_result (A : Type) := Row (a : A) | NoRows | QueryError (text : string).
Arguments Row {A} a.
Arguments NoRows {A}.
Arguments QueryError {A} text.

Class Postgres (D : Type) := {
  QueryRow : sql → list value → D → D * query_result Product;
  QueryCount : sql → D → query_result Z;
  QueryRows : sql → list value → D → query_result (list Product)
}.

(** Assigning columns. The price column is [NUMERIC(10, 2)]: [numeric] is the
    number a stored price reads back as. *)
Definition set_column (numeric : Z → Z) (c : column) (v : value) (p : Product) : Product :=
  match c, v with
  | CName, VString s => mk_Product (ID p) s (Description p) (PriceUSD p) (Category p) (CreatedAt p) (UpdatedAt p)
  | CDescription, VString s => mk_Product (ID p) (Name p) s (PriceUSD p) (Category p) (CreatedAt p) (UpdatedAt p)
  | CPriceUSD, VFloat z => mk_Product (ID p) (Name p) (Description p) (numeric z) (Category p) (CreatedAt p) (UpdatedAt p)
  | CCategory, VString s => mk_Product (ID p) (Name p) (Description p) (PriceUSD p) s (CreatedAt p) (UpdatedAt p)
  | CUpdatedAt, VTime t => mk_Product (ID p) (Name p) (Description p) (PriceUSD p) (Category p) (CreatedAt p) t
  | _, _ => p
  end.

(** Text columns hold valid UTF-8, the encoding of the database. *)
Definition valid_row (p : Product) : Prop :=
  ValidString (ID p) = true ∧ ValidString (Name p) = true ∧
  ValidString (Description p) = true ∧ ValidString (Category p) = true.

(** [$i] is the [i]-th argument, counting from 1. *)
Definition arg (args : list value) (i : nat) : option value :=
  match i with 0 => None | S i => args !! i end.

Definition expr_value (now : Time) (args : list value) (e : expr) : option value :=
  match e with Now => Some (VTime now) | Arg i => arg args i end.

(** A value can be stored in a column. *)
Definition fits (c : column) (v : value) : bool :=
  match c, v with
  | (CName | CDescription | CCategory), VString _ | CPriceUSD, VFloat _ | CUpdatedAt, VTime _ => true
  | _, _ => false
  end.

(** The assignments of an update, with their values: none when a placeholder has
    no argument, a value is not of the type of its column or a column is assigned
    twice, which the server refuses. *)
Definition resolve (now : Time) (args : list value) (sets : list (column * expr)) : option (list (column * value)) :=
  cvs ← mapM (λ ce, v ← expr_value now args ce.2; if fits ce.1 v then Some (ce.1, v) else None) sets;
  if decide (NoDup cvs.*1) then Some cvs else None.

Definition assign (numeric : Z → Z) (cvs : list (column * value)) (p : Product) : Product :=
  foldl (λ p cv, set_column numeric cv.1 cv.2 p) p cvs.

(** What the code relies on: a select by primary key finds the row, an update
    makes the assignments its text lists, and no others, in the row its [WHERE]
    selects and returns it, an insert adds a row under a new key. [server_now] is
    what [NOW()] is for the next statement. When a statement ends in an error, a lost
    connection for instance, it took effect or it did not. *)
Class PostgresSpec (D : Type) `{!Postgres D} := {
  table : D → gmap string Product;
  numeric : Z → Z;
  server_now : D → Time;
  table_text d id p : table d !! id = Some p → valid_row p;
  select_spec id d :
    match QueryRow SelectById [VString id] d with
    | (d', Row p) => table d' = table d ∧ table d !! id = Some p
    | (d', NoRows) => table d' = table d ∧ table d !! id = None
    | (d', QueryError _) => table d' = table d
    end;
  update_spec text sets w args cvs id d :
    parse_update text = Some (sets, w) → resolve (server_now d) args sets = Some cvs →
    arg args w = Some (VString id) →
    match QueryRow (Statement text) args d with
    | (d', Row p) => ∃ p0, table d !! id = Some p0 ∧ p = assign numeric cvs p0 ∧ table d' = <[id := p]> (table d)
    | (d', NoRows) => table d' = table d ∧ table d !! id = None
    | (d', QueryError _) => table d' = table d ∨
        ∃ p0, table d !! id = Some p0 ∧ table d' = <[id := assign numeric cvs p0]> (table d)
    end;
  insert_spec id name desc price cat d :
    let row now := mk_Product id name desc (numeric price) cat now now in
    match QueryRow InsertProduct [VString id; VString name; VString desc; VFloat price; VString cat] d with
    | (d', Row p) => ∃ now, p = row now ∧ table d !! id = None ∧ table d' = <[id := p]> (table d)
    | (d', NoRows) => False
    | (d', QueryError _) => table d' = table d ∨
        ∃ now, table d !! id = None ∧ table d' = <[id := row now]> (table d)
    end
}.

(** ** The operations *)

Section Ops.
Context {D : Type} `{!Postgres D}.

Definition GetProduct (id : string) (d : D) : D * (Product + db_error) :=
  match QueryRow SelectById [VString id] d with
  | (d', Row p) => (d', inl p)
  | (d', NoRows) => (d', inr ErrNotFound)
  | (d', QueryError e) => (d', inr (ErrWrapped ("db: get product " +:+ id +:+ ": " +:+ e)))
  end.

Definition UpdateProduct (id : string) (req : ProductUpdateRequest) (d : D)
    : D * (Product + db_error) :=
  let '(query, args) := build_update id req in
  match QueryRow query args d with
  | (d', Row p) => (d', inl p)
  | (d', NoRows) => (d', inr ErrNotFound)
  | (d', QueryError e) => (d', inr (ErrWrapped ("db: update product " +:+ id +:+ ": " +:+ e)))
  end.

(** Here the absence of a row is an error as any other. *)
Definition CreateProduct (p : Product) (d : D) : D * (Product + db_error) :=
  match QueryRow InsertProduct
          [VString (ID p); VString (Name p); VString (Description p); VFloat (PriceUSD p);
           VString (Category p)] d with
  | (d', Row p) => (d', inl p)
  | (d', NoRows) => (d', inr (ErrWrapped "db: create product: no rows in result set"))
  | (d', QueryError e) => (d', inr (ErrWrapped ("db: create product: " +:+ e)))
  end.

(** The [OFFSET] of a page, an [int] product. *)
Definition page_offset (page pageSize : Z) : Z := wrap64 (wrap64 (page - 1) * pageSize).

(** An error while the rows are read is reported as one of the query. *)
Definition ListProducts (page pageSize : Z) (d : D) : (list Product * Z) + db_error :=
  match QueryCount CountProducts d with
  | Row total =>
      match QueryRows SelectPage [VInt pageSize; VInt (page_offset page pageSize)] d with
      | Row products => inl (products, total)
      | NoRows => inl ([], total)
      | QueryError e => inr (ErrWrapped ("db: list products: " +:+ e))
      end
  | NoRows => inr (ErrWrapped "db: count products: no rows in result set")
  | QueryError e => inr (ErrWrapped ("db: count products: " +:+ e))
  end.
End Ops.

(** ** The update statement *)

(** The assignments a request asks for, in the order of the code. *)
Definition provided (req : ProductUpdateRequest) : list (column * value) :=
  omap id [(λ s, (CName, VString s)) <$> new_Name req;
           (λ s, (CDescription, VString s)) <$> new_Description req;
           (λ z, (CPriceUSD, VFloat z)) <$> new_PriceUSD req;
           (λ s, (CCategory, VString s)) <$> new_Category req].

(** The row after an update. *)
Definition apply_update (numeric : Z → Z) (req : ProductUpdateRequest) (now : Time) (p : Product)
    : Product :=
  mk_Product (ID p) (default (Name p) (new_Name req)) (default (Description p) (new_Description req))
    (default (PriceUSD p) (numeric <$> new_PriceUSD req)) (default (Category p) (new_Category req))
    (CreatedAt p) now.

(** The assignments of the generated statement: the time, and the given columns,
    numbered from 1. *)
Definition numbered (req : ProductUpdateRequest) : list (column * expr) :=
  (CUpdatedAt, Now) :: imap (λ i cv, (cv.1, Arg (S i))) (provided req).

Lemma build_update_spec id req now :
  ∃ text, build_update id req = (Statement text, (provided req).*2 ++ [VString id]) ∧
    parse_update text = Some (numbered req, S (length (provided req))) ∧
    resolve now ((provided req).*2 ++ [VString id]) (numbered req) = Some ((CUpdatedAt, VTime now) :: provided req) ∧
    arg ((provided req).*2 ++ [VString id]) (S (length (provided req))) = Some (VString id).
Proof.
  destruct req as [[n|] [d|] [p|] [c|]]; (eexists; split; [reflexivity|]);
    (split; [vm_compute; reflexivity|]); split; reflexivity.
Qed.

Lemma assign_provided num req now p :
  assign num ((CUpdatedAt, VTime now) :: provided req) p = apply_update num req now p.
Proof. by destruct req as [[n|] [d|] [z|] [c|]]. Qed.

Section UpdateSpec.
Context {D : Type} `{!Postgres D, !PostgresSpec D}.

Lemma UpdateProduct_exact id req d :
  let updated p0 := apply_update numeric req (server_now d) p0 in
  match UpdateProduct id req d with
  | (d', inl p) => ∃ p0, table d !! id = Some p0 ∧ p = updated p0 ∧ table d' = <[id := p]> (table d)
  | (d', inr ErrNotFound) => table d' = table d ∧ table d !! id = None
  | (d', inr (ErrWrapped _)) => table d' = table d ∨
      ∃ p0, table d !! id = Some p0 ∧ table d' = <[id := updated p0]> (table d)
  end.
Proof.
  cbv zeta. unfold UpdateProduct. destruct (build_update_spec id req (server_now d)) as (text & -> & Hp & Hres & Hw).
  pose proof (update_spec text _ _ _ _ id d Hp Hres Hw) as Hu.
  destruct (QueryRow _ _ d) as [d' [p| |e]]; [|done|].
  - destruct Hu as (p0 & ? & -> & ?). rewrite assign_provided in *. eauto.
  - destruct Hu as [?|(p0 & ? & Ht)]; [by left|]. rewrite assign_provided in Ht. eauto.
Qed.

(** The same at some time of the server. *)
Lemma UpdateProduct_spec id req d :
  match UpdateProduct id req d with
  | (d', inl p) => ∃ p0 now, table d !! id = Some p0 ∧ p = apply_update numeric req now p0 ∧
                             table d' = <[id := p]> (table d)
  | (d', inr ErrNotFound) => table d' = table d ∧ table d !! id = None
  | (d', inr (ErrWrapped _)) => table d' = table d ∨
      ∃ p0 now, table d !! id = Some p0 ∧
                table d' = <[id := apply_update numeric req now p0]> (table d)
  end.
Proof.
  pose proof (UpdateProduct_exact id req d) as Hu. cbv zeta in Hu.
  destruct (UpdateProduct id req d) as [d' [p|[|e]]]; naive_solver.
Qed.

Lemma GetProduct_spec id d :
  match GetProduct id d with
  | (d', inl p) => table d' = table d ∧ table d !! id = Some p
  | (d', inr ErrNotFound) => table d' = table d ∧ table d !! id = None
  | (d', inr (ErrWrapped _)) => table d' = table d
  end.
Proof.
  unfold GetProduct. pose proof (select_spec id d) as Hs.
  by destruct (QueryRow SelectById [VString id] d) as [d' [p| |e]].
Qed.

Lemma CreateProduct_spec p d :
  let row now := mk_Product (ID p) (Name p) (Description p) (numeric (PriceUSD p)) (Category p) now now in
  match CreateProduct p d with
  | (d', inl q) => ∃ now, q = row now ∧ table d !! ID p = None ∧ table d' = <[ID p := q]> (table d)
  | (d', inr ErrNotFound) => False
  | (d', inr (ErrWrapped _)) => table d' = table d ∨
      ∃ now, table d !! ID p = None ∧ table d' = <[ID p := row now]> (table d)
  end.
Proof.
  cbv zeta. unfold CreateProduct.
  pose proof (insert_spec (ID p) (Name p) (Description p) (PriceUSD p) (Category p) d) as Hi.
  by destruct (QueryRow InsertProduct _ d) as [d' [q| |e]].
Qed.

(** C38: a partial update changes exactly the given fields and the time of the
    update. The text that is generated lists an assignment for each given field,
    with the placeholder of its argument, and one of [NOW()] to [updated_at], so on
    a server that executes it the row keeps every field the request leaves out, its
    identifier and its creation time, takes the given value in the others, the price
    as its column stores it, and the time of the server as the time of its update,
    and no other row changes; a missing row is reported as not found. When the
    statement ends in an error, the table is as it was, or has that same update. *)
Theorem partial_update_exact (id : string) (req : ProductUpdateRequest) (d : D) :
  let updated p0 p :=
    ID p = ID p0 ∧ CreatedAt p = CreatedAt p0 ∧
    Name p = default (Name p0) (new_Name req) ∧
    Description p = default (Description p0) (new_Description req) ∧
    PriceUSD p = default (PriceUSD p0) (numeric <$> new_PriceUSD req) ∧
    Category p = default (Category p0) (new_Category req) ∧ UpdatedAt p = server_now d in
  let d' := (UpdateProduct id req d).1 in
  (∀ id', id' ≠ id → table d' !! id' = table d !! id') ∧
  match (UpdateProduct id req d).2 with
  | inl p => table d' !! id = Some p ∧ ∃ p0, table d !! id = Some p0 ∧ updated p0 p
  | inr ErrNotFound => table d !! id = None ∧ table d' !! id = None
  | inr (ErrWrapped _) => table d' !! id = table d !! id ∨
      ∃ p0 p, table d !! id = Some p0 ∧ table d' !! id = Some p ∧ updated p0 p
  end.
Proof.
  cbv zeta. pose proof (UpdateProduct_exact id req d) as Hu. cbv zeta in Hu.
  destruct (UpdateProduct id req d) as [d' [p|[|e]]]; simpl in *.
  - destruct Hu as (p0 & Hp0 & -> & ->). split.
    { intros id' Hne. by rewrite lookup_insert_ne. }
    rewrite lookup_insert_eq. split; [done|]. exists p0. by repeat split.
  - destruct Hu as [-> ?]. done.
  - destruct Hu as [->|(p0 & Hp0 & ->)]; [by split; [|left]|]. split.
    { intros id' Hne. by rewrite lookup_insert_ne. }
    right. eexists p0, _. rewrite lookup_insert_eq. split; [done|]. split; [done|]. by repeat split.
Qed.
End UpdateSpec.

(** ** A server in memory *)

(** A table kept in memory, with all its timestamps at zero and prices as
    given: it meets the laws, so they can hold. Rows whose text is not UTF-8 are
    not part of it. *)
Definition MemPg : Type := gmap string Product.

#[global] Instance valid_row_dec p : Decision (valid_row p).
Proof. unfold valid_row. apply _. Defined.

Definition mem_rows (d : MemPg) : gmap string Product := filter (λ kv, valid_row kv.2) (d : gmap string Product).

(** Stores a row whose text is valid. *)
Definition mem_store (id : string) (p : Product) (d : MemPg) : MemPg * query_result Product :=
  if decide (valid_row p) then (<[id := p]> (d : gmap string Product), Row p)
  else (d, QueryError "invalid byte sequence for encoding UTF8").

#[global] Instance MemPg_postgres : Postgres MemPg := {
  QueryRow q args d :=
    match q, args with
    | SelectById, [VString id] =>
        (d, match mem_rows d !! id with Some p => Row p | None => NoRows end)
    | Statement text, _ =>
        match '(sets, w) ← parse_update text; cvs ← resolve 0 args sets; v ← arg args w; Some (cvs, v) with
        | Some (cvs, VString id) =>
            match mem_rows d !! id with
            | Some p0 => mem_store id (assign (λ z, z) cvs p0) d
            | None => (d, NoRows)
            end
        | _ => (d, QueryError "syntax error")
        end
    | InsertProduct, [VString id; VString name; VString desc; VFloat price; VString cat] =>
        match mem_rows d !! id with
        | Some _ => (d, QueryError "duplicate key value violates unique constraint (SQLSTATE 23505)")
        | None => mem_store id (mk_Product id name desc price cat 0 0) d
        end
    | _, _ => (d, QueryError "syntax error")
    end;
  QueryCount q d := Row (Z.of_nat (size (mem_rows d)));
  QueryRows q args d := Row ((map_to_list (mem_rows d)).*2)
}.

Lemma mem_rows_insert id p (d : MemPg) :
  valid_row p → mem_rows (<[id := p]> (d : gmap string Product)) = <[id := p]> (mem_rows d).
Proof. intros Hp. unfold mem_rows. by rewrite map_filter_insert_True. Qed.

#[global] Program Instance MemPg_spec : PostgresSpec MemPg := {
  table := mem_rows;
  numeric z := z;
  server_now _ := 0%Z
}.
Next Obligation. intros d id p [_ ?]%map_lookup_filter_Some. done. Qed.
Next Obligation. intros id d. simpl. by destruct (mem_rows d !! id). Qed.
Next Obligation.
  intros text sets w args cvs id d Hp Hres Hw. cbn [QueryRow MemPg_postgres]. rewrite Hp. cbn [mbind option_bind].
  rewrite Hres. cbn [mbind option_bind]. rewrite Hw. cbn [mbind option_bind].
  destruct (mem_rows d !! id) as [p0|]; [|done]. unfold mem_store.
  destruct (decide _); [|by left]. exists p0. by rewrite mem_rows_insert.
Qed.
Next Obligation.
  intros id name desc price cat d. simpl.
  destruct (mem_rows d !! id) as [p0|]; [by left|]. unfold mem_store.
  destruct (decide _); [|by left]. exists 0%Z. by rewrite mem_rows_insert.
Qed.

(** A new price and an empty description. *)
Definition lamp : Product := mk_Product "p1" "Lamp" "Old" 1 "home" 5 7.
Definition new_price_no_text : ProductUpdateRequest := mk_Update None (Some "") (Some 2%Z) None.

Lemma partial_update_exact_witness :
  ∃ d' p, UpdateProduct "p1" new_price_no_text ({["p1" := lamp]} : MemPg) = (d', inl p) ∧
    p = mk_Product "p1" "Lamp" "" 2 "home" 5 0 ∧ table d' !! "p1" = Some p.
Proof.
  pose proof (partial_update_exact "p1" new_price_no_text ({["p1" := lamp]} : MemPg)) as [_ H]. cbv zeta in H.
  assert ((UpdateProduct "p1" new_price_no_text ({["p1" := lamp]} : MemPg)).2 =
    inl (mk_Product "p1" "Lamp" "" 2 "home" 5 0)) as Hr by (vm_compute; reflexivity).
  destruct (UpdateProduct "p1" new_price_no_text ({["p1" := lamp]} : MemPg)) as [d' r]. cbn [fst snd] in *. subst r.
  eexists d', _. split; [reflexivity|]. split; [reflexivity|]. apply H.
Defined.
End Db.
