(* ===== verification/DbSetup.v ===== *)
(** Connecting to the database, [New] and [migrate] of
    [src/internal/db/postgres.go]: the statements of the migration, and that
    starting the service again and again changes nothing that is in the table. *)
From S2P Require Import Prelude GoStrings Db.

Module DbSetup.
Import Db.

(** A row of the seed; the price is in cents. *)
Record seed := mk_seed {
  s_id : string;
  s_name : string;
  s_description : string;
  s_cents : Z;
  s_category : string
}.

(** The statements of the migration. *)
Inductive ddl :=
| CreateProducts                        (* CREATE TABLE IF NOT EXISTS products *)
| CreateCategoryIndex                   (* CREATE INDEX IF NOT EXISTS ... ON products(category) *)
| InsertOrIgnore (rows : list seed).    (* INSERT ... ON CONFLICT (id) DO NOTHING *)

Definition seeds : list seed := [
  mk_seed "prod-001" "Wireless Headphones" "Noise-cancelling over-ear headphones" 7999 "electronics";
  mk_seed "prod-002" "Mechanical Keyboard" "TKL layout with Cherry MX switches" 12999 "electronics";
  mk_seed "prod-003" "Standing Desk Mat" "Anti-fatigue mat for standing desks" 4999 "office";
  mk_seed "prod-004" "USB-C Hub" "7-in-1 USB-C hub with HDMI and PD" 3999 "electronics";
  mk_seed "prod-005" "Notebook (A5)" "Dotted grid, 200 pages" 1299 "office";
  mk_seed "prod-006" "Laptop Backpack" "Water-resistant 30L backpack" 8999 "bags";
  mk_seed "prod-007" "Monitor Light Bar" "Screenbar clip-on monitor light" 5999 "electronics";
  mk_seed "prod-008" "Cable Management Box" "Hide power strips and cables cleanly" 2499 "office";
  mk_seed "prod-009" "Webcam 1080p" "Autofocus webcam with privacy cover" 6999 "electronics";
  mk_seed "prod-010" "Desk Plant (Small)" "Low-maintenance succulent" 1499 "decor"]%Z.

Definition migration : list ddl := [CreateProducts; CreateCategoryIndex; InsertOrIgnore seeds].

(** ** The server *)

(** The schema: the table, if it exists, and the index on it. *)
Record schema := mk_schema { products : option (gmap string Product); category_index : bool }.

(** What the statements mean: [price] is the number a stored price in cents
    reads back as. Using a missing table is an error. *)
Definition insert_or_ignore (price : Z → Z) (now : Time) (m : gmap string Product) (r : seed)
    : gmap string Product :=
  match m !! s_id r with
  | Some _ => m
  | None => <[s_id r := mk_Product (s_id r) (s_name r) (s_description r) (price (s_cents r))
                          (s_category r) now now]> m
  end.

Definition run_ddl (price : Z → Z) (now : Time) (st : ddl) (s : schema) : option schema :=
  match st with
  | CreateProducts => Some (mk_schema (Some (default ∅ (products s))) (category_index s))
  | CreateCategoryIndex => _ ← products s; Some (mk_schema (products s) true)
  | InsertOrIgnore rows =>
      m ← products s;
      Some (mk_schema (Some (foldl (insert_or_ignore price now) m rows)) (category_index s))
  end.

Fixpoint run_script (price : Z → Z) (now : Time) (l : list ddl) (s : schema) : option schema :=
  match l with
  | [] => Some s
  | st :: l => s' ← run_ddl price now st s; run_script price now l s'
  end.

(** The server behind the pool: connecting, pinging and executing a script,
    each of which may fail with the text of an error. *)
Class PgServer (D : Type) := {
  Connect : string → D → option string;
  Ping : D → option string;
  Exec : list ddl → D → D * option string
}.

(** A script sent without parameters is one transaction: when it fails nothing
    of it took effect, unless the error is that of a connection lost after it
    was committed. *)
Class PgServerSpec (D : Type) `{!PgServer D} := {
  schema_of : D → schema;
  price_of : Z → Z;
  exec_spec l d :
    match Exec l d with
    | (d', None) => ∃ now, run_script price_of now l (schema_of d) = Some (schema_of d')
    | (d', Some _) => schema_of d' = schema_of d ∨
        ∃ now, run_script price_of now l (schema_of d) = Some (schema_of d')
    end
}.

(** ** Starting the service *)

Section New.
Context {D : Type} `{!PgServer D}.

Definition migrate (d : D) : D * option string := Exec migration d.

(** The error is the wrapped one; without an error the service is ready. *)
Definition New (dsn : string) (d : D) : D * option string :=
  match Connect dsn d with
  | Some e => (d, Some ("db: connect: " +:+ e))
  | None =>
      match Ping d with
      | Some e => (d, Some ("db: ping: " +:+ e))
      | None =>
          match migrate d with
          | (d', Some e) => (d', Some ("db: migrate: " +:+ e))
          | (d', None) => (d', None)
          end
      end
  end.
End New.

(** ** The migration keeps what is there *)

Definition keeps (m m' : gmap string Product) : Prop :=
  (∀ id p, m !! id = Some p → m' !! id = Some p) ∧
  (∀ id, is_Some (m' !! id) → is_Some (m !! id) ∨ id ∈ (s_id <$> seeds)).

Lemma fold_insert_spec price now rows m :
  let m' := foldl (insert_or_ignore price now) m rows in
  (∀ id p, m !! id = Some p → m' !! id = Some p) ∧
  (∀ r, r ∈ rows → is_Some (m' !! s_id r)) ∧
  (∀ id, is_Some (m' !! id) → is_Some (m !! id) ∨ id ∈ (s_id <$> rows)).
Proof.
  revert m. induction rows as [|r rows IH]; intros m; simpl; [split_and!; [done|set_solver|auto]|].
  destruct (IH (insert_or_ignore price now m r)) as (H1 & H2 & H3).
  assert (∀ id p, m !! id = Some p → insert_or_ignore price now m r !! id = Some p) as Hkeep.
  { intros id p Hp. unfold insert_or_ignore. destruct (m !! s_id r) eqn:E; [done|].
    rewrite lookup_insert_ne; [done|congruence]. }
  split; [by auto|]. split.
  - intros r' [->|Hr']%elem_of_cons; [|by auto].
    assert (is_Some (insert_or_ignore price now m r !! s_id r)) as [p Hp]; [|by exists p; apply H1].
    unfold insert_or_ignore. destruct (m !! s_id r) eqn:E; [by rewrite E|]. by rewrite lookup_insert_eq.
  - intros id Hid. destruct (H3 id Hid) as [[p Hp]|Hin]; [|right; by right].
    unfold insert_or_ignore in Hp. destruct (m !! s_id r) eqn:E; [left; by exists p|].
    apply lookup_insert_Some in Hp as [[<- _]|[_ Hp]]; [right; by left|left; by exists p].
Qed.

Lemma fold_insert_same price now rows m :
  (∀ r, r ∈ rows → is_Some (m !! s_id r)) → foldl (insert_or_ignore price now) m rows = m.
Proof.
  revert m. induction rows as [|r rows IH]; intros m Hm; [done|]. simpl.
  destruct (Hm r) as [p Hp]; [by left|]. assert (insert_or_ignore price now m r = m) as -> by (unfold insert_or_ignore; by rewrite Hp).
  apply IH. intros r' Hr'. apply Hm. by right.
Qed.

Lemma script_spec rows price now s s' :
  run_script price now [CreateProducts; CreateCategoryIndex; InsertOrIgnore rows] s = Some s' →
  s' = mk_schema (Some (foldl (insert_or_ignore price now) (default ∅ (products s)) rows)) true.
Proof. cbn [run_script run_ddl mbind option_bind products category_index]. by intros [= <-]. Qed.

Lemma migration_spec price now s s' :
  run_script price now migration s = Some s' →
  ∃ m', products s' = Some m' ∧ category_index s' = true ∧ keeps (default ∅ (products s)) m' ∧
        ∀ r, r ∈ seeds → is_Some (m' !! s_id r).
Proof.
  intros ->%script_spec. unfold keeps. generalize seeds as rows. intros rows.
  destruct (fold_insert_spec price now rows (default ∅ (products s))) as (H1 & H2 & H3).
  eexists. split; [reflexivity|]. split; [done|]. split; [split; [exact H1|exact H3]|exact H2].
Qed.

Lemma migration_same price now s m :
  products s = Some m → category_index s = true → (∀ r, r ∈ seeds → is_Some (m !! s_id r)) →
  run_script price now migration s = Some s.
Proof.
  unfold migration. generalize seeds as rows. intros rows Hm Hi Hr.
  cbn [run_script run_ddl mbind option_bind products category_index]. rewrite Hm. cbn [default].
  rewrite fold_insert_same by done. destruct s; simpl in *. by subst.
Qed.

Section Spec.
Context {D : Type} `{!PgServer D, !PgServerSpec D}.

Definition rows_of (d : D) : gmap string Product := default ∅ (products (schema_of d)).

(** Start-up is safe to repeat. However [New] ends, every row of the table
    is still there unchanged, edited sample products included, and any row that
    was added is a sample product. When it succeeds the table and its index
    exist and hold all sample products, and starting once more, successfully or
    not, leaves the table exactly as it is. *)
Theorem startup_keeps_rows (dsn : string) (d : D) :
  let '(d1, err) := New dsn d in
  keeps (rows_of d) (rows_of d1) ∧
  (err = None →
     category_index (schema_of d1) = true ∧
     (∀ r, r ∈ seeds → is_Some (rows_of d1 !! s_id r)) ∧
     ∀ dsn', schema_of (New dsn' d1).1 = schema_of d1).
Proof.
  assert (∀ d, keeps (rows_of d) (rows_of d)) as Hrefl by (intros; by split; [|by left]).
  unfold New. destruct (Connect dsn d); [by split|]. destruct (Ping d); [by split|].
  unfold migrate. pose proof (exec_spec migration d) as Hex.
  destruct (Exec migration d) as [d1 [e|]].
  - split; [|done]. unfold rows_of. destruct Hex as [->|[now Hrun]]; [apply Hrefl|].
    apply migration_spec in Hrun as (m' & -> & _ & Hk & _). exact Hk.
  - destruct Hex as [now Hrun].
    destruct (migration_spec _ _ _ _ Hrun) as (m' & Hm' & Hidx & Hk & Hs).
    unfold rows_of at 2. rewrite Hm'. split; [exact Hk|]. intros _.
    split; [done|]. unfold rows_of. rewrite Hm'. split; [exact Hs|]. intros dsn'.
    destruct (Connect dsn' d1); [done|]. destruct (Ping d1); [done|].
    pose proof (λ now', migration_same price_of now' (schema_of d1) m' Hm' Hidx Hs) as Hsame.
    pose proof (exec_spec migration d1) as Hex1.
    destruct (Exec migration d1) as [d2 [e|]]; simpl.
    + destruct Hex1 as [?|[now' Hr]]; [done|]. rewrite Hsame in Hr. by injection Hr as <-.
    + destruct Hex1 as [now' Hr]. rewrite Hsame in Hr. by injection Hr as <-.
Qed.
End Spec.

(** ** A server in memory *)

(** Scripts run at time zero, prices read back in cents; everything succeeds. *)
#[global] Instance schema_server : PgServer schema := {
  Connect _ _ := None;
  Ping _ := None;
  Exec l d := match run_script (λ c, c) 0 l d with Some d' => (d', None) | None => (d, Some "error") end
}.
#[global] Program Instance schema_server_spec : PgServerSpec schema := {
  schema_of d := d;
  price_of c := c
}.
Next Obligation.
  intros l d. simpl. destruct (run_script _ 0 l d) as [d'|] eqn:E; [|by left]. by exists 0%Z.
Qed.

(** An empty database gets the ten products; a price edited since then stays. *)
Example first_start :
  (λ d : schema * option string, (size (rows_of d.1), d.2)) (New "postgres://" (mk_schema None false))
    = (10, None).
Proof. vm_compute. reflexivity. Qed.

Lemma startup_keeps_rows_witness :
  ∃ d : schema, New "postgres://" (mk_schema None false) = (d, None) ∧
    is_Some (rows_of d !! "prod-010") ∧ (New "postgres://" d).1 = d.
Proof.
  pose proof (startup_keeps_rows "postgres://" (mk_schema None false)) as H.
  destruct (New "postgres://" (mk_schema None false)) as [d err] eqn:E. exists d.
  assert (err = None) as -> by (change err with (d, err).2; rewrite <-E; vm_compute; reflexivity).
  destruct H as [_ H]. destruct (H eq_refl) as (_ & Hs & Hagain). split; [reflexivity|]. split.
  - apply (Hs (mk_seed "prod-010" "Desk Plant (Small)" "Low-maintenance succulent" 1499 "decor")).
    apply (list_elem_of_lookup_2 _ 9). reflexivity.
  - exact (Hagain "postgres://").
Defined.

Example restart_keeps_edit :
  let edited := mk_Product "prod-001" "Wireless Headphones" "" 5999 "electronics" 0 7 in
  rows_of (New "postgres://" (mk_schema (Some {[ "prod-001" := edited ]}) true)).1 !! "prod-001" = Some edited.
Proof. vm_compute. reflexivity. Qed.
End DbSetup.
