(* ===== verification/Api.v ===== *)
(** The product API, [src/internal/api]: the cache-aside read and write paths
    ([middleware.go]) over the cache, the database and the invalidation
    strategy, and the HTTP handlers ([handler.go]). *)
From S2P Require Import Prelude Policy Lru Cache GoStrings Invalidation Db.

Module Api.

(** [api.Product] has the fields of [db.Product]. *)
Record Product := mk_Product {
  ID : string;
  Name : string;
  Description : string;
  PriceUSD : Z;
  Category : string;
  CreatedAt : Time;
  UpdatedAt : Time
}.
#[global] Instance Product_eq_dec : EqDecision Product.
Proof. solve_decision. Defined.

Definition dbToAPIProduct (p : Db.Product) : Product :=
  mk_Product (Db.ID p) (Db.Name p) (Db.Description p) (Db.PriceUSD p) (Db.Category p)
    (Db.CreatedAt p) (Db.UpdatedAt p).

Definition valid_text (p : Product) : Prop :=
  ValidString (ID p) = true ∧ ValidString (Name p) = true ∧
  ValidString (Description p) = true ∧ ValidString (Category p) = true.

(** [encoding/json] on products: marshalling fails on a price that is not a
    number; what it makes of a product whose text is UTF-8 decodes to that
    product; the empty input does not decode. *)
Class JSON := {
  Marshal : Product → option bytes;
  Unmarshal : bytes → option Product;
  Unmarshal_Marshal p b : valid_text p → Marshal p = Some b → Unmarshal b = Some p;
  Unmarshal_empty : Unmarshal [] = None
}.

Definition defaultProductTTL : Duration := (5 * Minute)%Z.
Definition cacheKeyPrefix : string := "product:".
Definition cache_key (id : string) : string := cacheKeyPrefix +:+ id.

Inductive api_error := NotFound | Unavailable.
Inductive cache_status := HIT | MISS.

Section CacheAside.
Context {P D : Type} `{!EvictionPolicy P, !Db.Postgres D, !JSON}.

Record CacheAside := mk_CacheAside {
  cache : Cache.InMemoryCache P;
  db : D;
  strategy : Invalidation.strategy
}.

Definition with_cache (ca : CacheAside) c : CacheAside := mk_CacheAside c (db ca) (strategy ca).
Definition with_db (ca : CacheAside) d : CacheAside := mk_CacheAside (cache ca) d (strategy ca).

(** *** GetProduct, step by step *)

(** Step 1: the cache. A value that does not decode is deleted. *)
Definition GetProduct_check (now : Clock) (id : string) (ca : CacheAside)
    : option (CacheAside * option Product) :=
  '(c, r) ← Cache.Get now (cache_key id) (cache ca);
  match r with
  | None => Some (with_cache ca c, None)
  | Some v =>
      match Unmarshal v with
      | Some p => Some (with_cache ca c, Some p)
      | None => c' ← Cache.Delete (cache_key id) c; Some (with_cache ca c', None)
      end
  end.

(** Step 2: the database. *)
Definition GetProduct_fetch (id : string) (ca : CacheAside) : CacheAside * (Product + api_error) :=
  match Db.GetProduct id (db ca) with
  | (d, inl p) => (with_db ca d, inl (dbToAPIProduct p))
  | (d, inr Db.ErrNotFound) => (with_db ca d, inr NotFound)
  | (d, inr (Db.ErrWrapped _)) => (with_db ca d, inr Unavailable)
  end.

(** Step 3: populate the cache; errors are dropped. *)
Definition GetProduct_fill (now : Clock) (id : string) (p : Product) (ca : CacheAside)
    : option CacheAside :=
  match Marshal p with
  | None => Some ca
  | Some serialised =>
      '(c, _) ← Cache.Set_ now (cache_key id) serialised defaultProductTTL (cache ca);
      Some (with_cache ca c)
  end.

Definition GetProduct (now : Clock) (id : string) (ca : CacheAside)
    : option (CacheAside * ((Product * cache_status) + api_error)) :=
  '(ca1, hit) ← GetProduct_check now id ca;
  match hit with
  | Some p => Some (ca1, inl (p, HIT))
  | None =>
      match GetProduct_fetch id ca1 with
      | (ca2, inl p) =>
          ca3 ← GetProduct_fill (λ i, now (3 + i)) id p ca2;
          Some (ca3, inl (p, MISS))
      | (ca2, inr e) => Some (ca2, inr e)
      end
  end.

(** *** UpdateProduct, step by step *)

(** Step 1: the database. The API's update request has the fields of the
    database's. *)
Definition UpdateProduct_write (id : string) (req : Db.ProductUpdateRequest) (ca : CacheAside)
    : CacheAside * (Product + api_error) :=
  match Db.UpdateProduct id req (db ca) with
  | (d, inl p) => (with_db ca d, inl (dbToAPIProduct p))
  | (d, inr Db.ErrNotFound) => (with_db ca d, inr NotFound)
  | (d, inr (Db.ErrWrapped _)) => (with_db ca d, inr Unavailable)
  end.

(** Step 2: the strategy, whose error is dropped. A product that does not
    marshal is passed on as an empty value. *)
Definition UpdateProduct_notify (now : Clock) (id : string) (product : Product) (ca : CacheAside)
    : option (CacheAside * option Invalidation.task) :=
  let serialised := default [] (Marshal product) in
  '(c, t, _) ← Invalidation.OnWrite (strategy ca) now (cache_key id) serialised (cache ca);
  Some (with_cache ca c, t).

Definition UpdateProduct (now : Clock) (id : string) (req : Db.ProductUpdateRequest) (ca : CacheAside)
    : option (CacheAside * option Invalidation.task * (Product + api_error)) :=
  match UpdateProduct_write id req ca with
  | (ca1, inl product) =>
      '(ca2, t) ← UpdateProduct_notify now id product ca1;
      Some (ca2, t, inl product)
  | (ca1, inr e) => Some (ca1, None, inr e)
  end.

(** *** Handlers *)

Inductive http_body :=
| BProduct (p : Product)
| BList (ps : list Product) (page pageSize total : Z)
| BError (msg : string).

Record http_response := mk_http { code : Z; x_cache : option cache_status; payload : http_body }.

Definition writeError (c : Z) (msg : string) : http_response := mk_http c None (BError msg).

(** The header is read back after it is set, and always found. *)
Definition handle_get (now : Clock) (id : string) (ca : CacheAside) : option (CacheAside * http_response) :=
  '(ca', r) ← GetProduct now id ca;
  Some (ca', match r with
             | inl (p, st) => mk_http 200 (Some st) (BProduct p)
             | inr NotFound => writeError 404 "product not found"
             | inr Unavailable => writeError 503 "service temporarily unavailable"
             end).

(** A request body decodes, or gives the decoder's error. *)
Definition handle_put (now : Clock) (id : string) (req : Db.ProductUpdateRequest + string)
    (ca : CacheAside) : option (CacheAside * option Invalidation.task * http_response) :=
  match req with
  | inr err => Some (ca, None, writeError 400 ("invalid request body: " +:+ err))
  | inl req =>
      '(ca', t, r) ← UpdateProduct now id req ca;
      Some (ca', t, match r with
                    | inl p => mk_http 200 None (BProduct p)
                    | inr NotFound => writeError 404 "product not found"
                    | inr Unavailable => writeError 503 "service temporarily unavailable"
                    end)
  end.

Definition db_error_text (e : Db.db_error) : string :=
  match e with Db.ErrNotFound => "db: product not found" | Db.ErrWrapped s => s end.

Definition isUniqueViolation (e : Db.db_error) : bool :=
  Contains (db_error_text e) "23505" || Contains (db_error_text e) "unique".

Definition handle_post (req : Product + string) (ca : CacheAside) : CacheAside * http_response :=
  match req with
  | inr err => (ca, writeError 400 ("invalid request body: " +:+ err))
  | inl p =>
      if decide (ID p = "" ∨ Name p = "") then (ca, writeError 400 "id and name are required")
      else
        match Db.CreateProduct (Db.mk_Product (ID p) (Name p) (Description p) (PriceUSD p) (Category p)
                time_zero time_zero) (db ca) with
        | (d, inl q) => (with_db ca d, mk_http 201 None (BProduct (dbToAPIProduct q)))
        | (d, inr e) =>
            (with_db ca d,
             if isUniqueViolation e then writeError 409 "product with this ID already exists"
             else writeError 503 "service temporarily unavailable")
        end
  end.

(** [queryInt]: the parameter, empty when absent. *)
Definition queryInt (s : string) (defaultVal : Z) : Z :=
  if decide (s = "") then defaultVal else default defaultVal (Atoi s).

Definition clamp_page (page : Z) : Z := if (page <? 1)%Z then 1%Z else page.
Definition clamp_size (pageSize : Z) : Z :=
  let pageSize := if (pageSize <? 1)%Z then 1%Z else pageSize in
  if (100 <? pageSize)%Z then 100%Z else pageSize.

Definition handle_list (pageParam sizeParam : string) (ca : CacheAside) : http_response :=
  let page := clamp_page (queryInt pageParam 1) in
  let pageSize := clamp_size (queryInt sizeParam 20) in
  match Db.ListProducts page pageSize (db ca) with
  | inl (products, total) => mk_http 200 None (BList (dbToAPIProduct <$> products) page pageSize total)
  | inr _ => writeError 503 "service temporarily unavailable"
  end.
End CacheAside.
Arguments CacheAside : clear implicits.

(** ** Histories of requests *)

Inductive request :=
| RGet (now : Clock) (id : string)
| RPut (now : Clock) (id : string) (req : Db.ProductUpdateRequest + string)
| RPost (req : Product + string).

Section Histories.
Context {P D : Type} `{!EvictionPolicy P, !Db.Postgres D, !JSON}.

(** One request served on its own. *)
Definition serve (ca : CacheAside P D) (r : request) : option (CacheAside P D * http_response) :=
  match r with
  | RGet now id => handle_get now id ca
  | RPut now id req => '(ca', _, resp) ← handle_put now id req ca; Some (ca', resp)
  | RPost req => Some (handle_post req ca)
  end.

Fixpoint serve_all (ca : CacheAside P D) (rs : list request)
    : option (CacheAside P D * list http_response) :=
  match rs with
  | [] => Some (ca, [])
  | r :: rs =>
      '(ca', resp) ← serve ca r;
      '(ca'', resps) ← serve_all ca' rs;
      Some (ca'', resp :: resps)
  end.
End Histories.

(** ** Coherence of the cached products *)

Section Coherence.
Context {P D : Type} `{!EvictionPolicy P, !EvictionPolicySpec P, !Db.Postgres D, !Db.PostgresSpec D, !JSON}.
Implicit Types ca : CacheAside P D.

(** What the database holds of a product, as the API shows it. *)
Definition row ca (id : string) : option Product := dbToAPIProduct <$> Db.table (db ca) !! id.

(** A cached value that decodes decodes to the row; [T] are the products this is
    not known of. *)
Definition coherent (T : gset string) ca : Prop :=
  ∀ id v x p, id ∉ T → Cache.abs (cache ca) !! cache_key id = Some (v, x) → Unmarshal v = Some p →
              row ca id = Some p.

Definition ca_inv (T : gset string) ca : Prop := Cache.cache_inv (cache ca) ∧ coherent T ca.

Lemma cache_key_inj id id' : cache_key id = cache_key id' → id = id'.
Proof. unfold cache_key. by intros ?%(inj (String.append _)). Qed.

Lemma row_valid ca id p : row ca id = Some p → valid_text p.
Proof.
  unfold row. intros (q & Hq & ->)%fmap_Some. exact (Db.table_text (db ca) id q Hq).
Qed.

Lemma row_ext ca c d id : Db.table d = Db.table (db ca) → row (mk_CacheAside c d (strategy ca)) id = row ca id.
Proof. unfold row; simpl. by intros ->. Qed.

(** The cache changed and the table did not: every entry is an old one, or
    decodes to its row. *)
Lemma coherent_mono T ca c d :
  coherent T ca → Db.table d = Db.table (db ca) →
  (∀ id v x, id ∉ T → Cache.abs c !! cache_key id = Some (v, x) →
     Cache.abs (cache ca) !! cache_key id = Some (v, x) ∨
     ∀ p, Unmarshal v = Some p → row ca id = Some p) →
  coherent T (mk_CacheAside c d (strategy ca)).
Proof.
  intros Hco Ht Habs id v x p HT Hv Hp. rewrite row_ext by done.
  destruct (Habs id v x HT Hv) as [Hold|Hnew]; [by apply (Hco id v x)|by apply Hnew].
Qed.

(** What each step does to the cache, whatever it holds. *)

Lemma GetProduct_check_frame now id ca :
  Cache.cache_inv (cache ca) →
  ∃ c r, GetProduct_check now id ca = Some (with_cache ca c, r) ∧ Cache.cache_inv c ∧
         (∀ k vx, Cache.abs c !! k = Some vx → Cache.abs (cache ca) !! k = Some vx) ∧
         ∀ p, r = Some p → ∃ v x, Cache.abs (cache ca) !! cache_key id = Some (v, x) ∧
                                  Unmarshal v = Some p ∧ Cache.past x (now 0) = false.
Proof.
  intros Hinv. unfold GetProduct_check.
  destruct (Cache.Get_spec now (cache_key id) (cache ca) Hinv)
    as (c & r & -> & Hinv' & _ & _ & Hr). simpl.
  assert (Hsub : ∀ k vx, Cache.abs c !! k = Some vx → Cache.abs (cache ca) !! k = Some vx).
  { intros k vx. destruct (Cache.abs (cache ca) !! cache_key id) as [[v x]|]; [|by destruct Hr as [_ ->]].
    destruct (Cache.past x (now 0)); [|by destruct Hr as (_ & -> & _)].
    destruct Hr as [_ Hr]. destruct (Cache.past x (now 1)); [|by subst].
    destruct Hr as [-> _]. by intros [_ ?]%lookup_delete_Some. }
  destruct r as [v|]; [|by exists c, None].
  destruct (Unmarshal v) as [p|] eqn:Hp.
  - exists c, (Some p). split; [done|]. split; [done|]. split; [done|]. intros ? [= <-].
    destruct (Cache.abs (cache ca) !! cache_key id) as [[v' x]|]; [|by destruct Hr].
    destruct (Cache.past x (now 0)) eqn:Hx; [by destruct Hr|]. destruct Hr as ([= ->] & _). eauto.
  - destruct (Cache.Delete_spec (cache_key id) c Hinv') as (c' & -> & Hinv'' & _ & _ & _ & Habs & _).
    exists c', None. split; [done|]. split; [done|]. split; [|done].
    intros k vx. rewrite Habs. intros [_ ?]%lookup_delete_Some. by apply Hsub.
Qed.

Lemma GetProduct_fill_frame now id p ca :
  Cache.cache_inv (cache ca) →
  ∃ c, GetProduct_fill now id p ca = Some (with_cache ca c) ∧ Cache.cache_inv c ∧
       ∀ k v x, Cache.abs c !! k = Some (v, x) → Cache.abs (cache ca) !! k = Some (v, x) ∨
         k = cache_key id ∧ Marshal p = Some v ∧ x = Cache.expiry (now 0) defaultProductTTL.
Proof.
  intros Hinv. unfold GetProduct_fill. destruct (Marshal p) as [b|] eqn:Hb.
  - destruct (Invalidation.Set_frame now (cache_key id) b defaultProductTTL (cache ca) Hinv)
      as (c & -> & Hinv' & Hc & Hframe); [done|].
    exists c. split; [done|]. split; [done|]. intros k v x Hv.
    destruct (decide (k = cache_key id)) as [->|Hne]; [right|left; by apply Hframe].
    rewrite Hc in Hv. by injection Hv as <- <-.
  - exists (cache ca). split; [by destruct ca|]. auto.
Qed.

Lemma UpdateProduct_notify_frame now id p ca :
  Cache.cache_inv (cache ca) →
  ∃ c t, UpdateProduct_notify now id p ca = Some (with_cache ca c, t) ∧ Cache.cache_inv c ∧
       ∀ k v x, Cache.abs c !! k = Some (v, x) → Cache.abs (cache ca) !! k = Some (v, x) ∨
         k = cache_key id ∧ v = default [] (Marshal p) ∧
         x = Cache.expiry (now 0) Invalidation.writeThroughTTL.
Proof.
  intros Hinv. unfold UpdateProduct_notify.
  destruct (strategy ca); simpl; [by eexists _, _; eauto| |by eexists _, _; eauto].
  destruct (Invalidation.WriteThrough_spec now (cache_key id) (default [] (Marshal p)) (cache ca) Hinv)
    as (c & -> & Hinv' & Hc & Hframe).
  exists c, None. split; [done|]. split; [done|]. intros k v x Hv.
  destruct (decide (k = cache_key id)) as [->|Hne]; [right|left; by apply Hframe].
  rewrite Hc in Hv. by injection Hv as <- <-.
Qed.

Lemma UpdateProduct_write_spec id req ca :
  ∃ d r, UpdateProduct_write id req ca = (with_db ca d, r) ∧
         ∀ p, r = inl p → dbToAPIProduct <$> Db.table d !! id = Some p.
Proof.
  unfold UpdateProduct_write. pose proof (Db.UpdateProduct_spec id req (db ca)) as Hu.
  destruct (Db.UpdateProduct id req (db ca)) as [d [q|[|e]]]; eexists d, _; (split; [done|]); try done.
  destruct Hu as (p0 & t & _ & _ & ->). intros p [= <-]. by rewrite lookup_insert_eq.
Qed.

Lemma handle_post_frame req ca : ∃ d, (handle_post req ca).1 = with_db ca d.
Proof.
  destruct req as [p|err]; simpl; [|exists (db ca); by destruct ca].
  destruct (decide _); [exists (db ca); by destruct ca|].
  destruct (Db.CreateProduct _ _) as [d [q|e]]; by exists d.
Qed.

Lemma GetProduct_check_spec T now id ca :
  ca_inv T ca →
  ∃ c r, GetProduct_check now id ca = Some (with_cache ca c, r) ∧ ca_inv T (with_cache ca c) ∧
         ∀ p, r = Some p → id ∉ T → row ca id = Some p.
Proof.
  intros [Hinv Hco].
  destruct (GetProduct_check_frame now id ca Hinv) as (c & r & -> & Hinv' & Hsub & Hr).
  exists c, r. split; [done|]. split; [split; [done|apply coherent_mono; eauto]|].
  intros p (v & x & Hv & Hp & _)%Hr HT. by apply (Hco id v x).
Qed.

Lemma GetProduct_fetch_spec id ca :
  ∃ d r, GetProduct_fetch id ca = (with_db ca d, r) ∧ Db.table d = Db.table (db ca) ∧
         match r with
         | inl p => row ca id = Some p
         | inr NotFound => row ca id = None
         | inr Unavailable => True
         end.
Proof.
  unfold GetProduct_fetch, row. pose proof (Db.GetProduct_spec id (db ca)) as Hg.
  destruct (Db.GetProduct id (db ca)) as [d [q|[|e]]]; eexists d, _; (split; [done|]).
  - destruct Hg as [? ->]. done.
  - destruct Hg as [? ->]. done.
  - done.
Qed.

Lemma coherent_store T ca c id p x v :
  coherent T ca → row ca id = Some p → Unmarshal v = Some p ∨ Unmarshal v = None →
  Cache.abs c !! cache_key id = Some (v, x) →
  (∀ k vx, k ≠ cache_key id → Cache.abs c !! k = Some vx → Cache.abs (cache ca) !! k = Some vx) →
  coherent T (with_cache ca c).
Proof.
  intros Hco Hrow Hv Hx Hframe. apply coherent_mono; [done|done|].
  intros id' v' x' HT Hv'. destruct (decide (id' = id)) as [->|Hne].
  - right. intros p' Hp'. rewrite Hx in Hv'. injection Hv' as <- <-. destruct Hv; congruence.
  - left. apply Hframe; [|done]. by intros ?%cache_key_inj.
Qed.

Lemma GetProduct_fill_spec T now id p ca :
  ca_inv T ca → row ca id = Some p →
  ∃ c, GetProduct_fill now id p ca = Some (with_cache ca c) ∧ ca_inv T (with_cache ca c).
Proof.
  intros [Hinv Hco] Hrow. unfold GetProduct_fill. destruct (Marshal p) as [v|] eqn:Hv.
  - destruct (Invalidation.Set_frame now (cache_key id) v defaultProductTTL (cache ca) Hinv)
      as (c & -> & Hinv' & Hc & Hframe); [done|].
    exists c. split; [done|]. split; [done|].
    apply (coherent_store T ca c id p (Cache.expiry (now 0) defaultProductTTL) v); [done|done| |done|done].
    left. apply Unmarshal_Marshal; [by eapply row_valid|done].
  - exists (cache ca). by destruct ca.
Qed.

(** The read path keeps the invariant and the table, and answers with the row of
    every product outside [T]. *)
Lemma GetProduct_coherent T now id ca :
  ca_inv T ca →
  ∃ ca' r, GetProduct now id ca = Some (ca', r) ∧ ca_inv T ca' ∧ strategy ca' = strategy ca ∧
    Db.table (db ca') = Db.table (db ca) ∧
    match r with
    | inl (p, HIT) => id ∉ T → row ca id = Some p
    | inl (p, MISS) => row ca id = Some p
    | inr NotFound => row ca id = None
    | inr Unavailable => True
    end.
Proof.
  intros Hinv. unfold GetProduct.
  destruct (GetProduct_check_spec T now id ca Hinv) as (c & [p|] & -> & Hinv1 & Hr); bind.
  { eexists _, _. split; [done|]. split; [done|]. naive_solver. }
  destruct (GetProduct_fetch_spec id (with_cache ca c)) as (d & r & -> & Ht & Hd). simpl in Ht.
  assert (Hinv2 : ca_inv T (with_db (with_cache ca c) d)).
  { destruct Hinv1 as [? Hco]. split; [done|]. by apply (coherent_mono T (with_cache ca c)); eauto. }
  destruct r as [p|e].
  - destruct (GetProduct_fill_spec T (λ i, now (3 + i)) id p _ Hinv2) as (c' & -> & Hinv3).
    { by rewrite <-Hd; apply (row_ext (with_cache ca c)). }
    eexists _, _. split; [done|]. done.
  - eexists _, _. split; [done|]. split; [done|]. by destruct e.
Qed.

(** A table in which only the row of [id] changed. *)
Lemma coherent_update T ca d id :
  coherent T ca → (∀ id', id' ≠ id → Db.table d !! id' = Db.table (db ca) !! id') →
  coherent ({[id]} ∪ T) (with_db ca d).
Proof.
  intros Hco Ht id' v x p HT Hv Hp. unfold row; simpl. rewrite Ht by set_solver.
  apply (Hco id' v x); [set_solver|done|done].
Qed.

Lemma coherent_weaken T T' ca : T ⊆ T' → coherent T ca → coherent T' ca.
Proof. intros HT Hco id v x p Hid. apply Hco. set_solver. Qed.

(** What the write path hands to the strategy decodes to the product or not at
    all. *)
Lemma Unmarshal_written p :
  valid_text p →
  Unmarshal (default [] (Marshal p)) = Some p ∨ Unmarshal (default [] (Marshal p)) = None.
Proof.
  intros Hp. destruct (Marshal p) as [b|] eqn:Hb; simpl.
  - left. by apply Unmarshal_Marshal.
  - right. apply Unmarshal_empty.
Qed.

(** The write path under write-through. *)
Lemma UpdateProduct_coherent T now id req ca :
  ca_inv T ca → strategy ca = Invalidation.WriteThrough →
  ∃ ca' r, UpdateProduct now id req ca = Some (ca', None, r) ∧ strategy ca' = Invalidation.WriteThrough ∧
    ca_inv (if r is inr Unavailable then {[id]} ∪ T else T) ca'.
Proof.
  intros [Hinv Hco] Hs. unfold UpdateProduct, UpdateProduct_write, UpdateProduct_notify.
  pose proof (Db.UpdateProduct_spec id req (db ca)) as Hu.
  destruct (Db.UpdateProduct id req (db ca)) as [d [p|[|e]]].
  - destruct Hu as (p0 & t & Hp0 & Hp & Ht). simpl. rewrite Hs; simpl.
    set (product := dbToAPIProduct p). set (v := default [] (Marshal product)).
    destruct (Invalidation.WriteThrough_spec now (cache_key id) v (cache ca) Hinv)
      as (c & -> & Hinv' & Hc & Hframe). simpl.
    eexists _, _. split; [done|]. split; [done|]. split; [done|].
    assert (Hrow : row (with_db ca d) id = Some product).
    { unfold row; simpl. by rewrite Ht, lookup_insert_eq. }
    intros id' v' x' p' HT Hv' Hp'. destruct (decide (id' = id)) as [->|Hne].
    + simpl in Hv'. rewrite Hc in Hv'. injection Hv' as <- <-. change (row (with_db ca d) id = Some p').
      destruct (Unmarshal_written product); [by eapply row_valid|..]; unfold v in Hp'; congruence.
    + apply Hframe in Hv'; [|by intros ?%cache_key_inj].
      unfold row; simpl. rewrite Ht, lookup_insert_ne by done. by apply (Hco id' v' x').
  - destruct Hu as [Ht _]. eexists _, _. split; [done|]. split; [done|]. split; [done|].
    apply coherent_mono; eauto.
  - eexists _, _. split; [done|]. split; [done|]. split; [done|].
    apply coherent_update; [done|]. intros id' Hne.
    destruct Hu as [->|(p0 & t & _ & ->)]; [done|]. by rewrite lookup_insert_ne.
Qed.

Lemma handle_post_coherent T req ca :
  ca_inv T ca → ca_inv T (handle_post req ca).1 ∧ strategy (handle_post req ca).1 = strategy ca.
Proof.
  intros [Hinv Hco]. destruct req as [p|err]; [|done]. simpl. destruct (decide _); [done|].
  pose proof (Db.CreateProduct_spec (Db.mk_Product (ID p) (Name p) (Description p) (PriceUSD p)
    (Category p) time_zero time_zero) (db ca)) as Hc. simpl in Hc.
  assert (Hnew : ∀ d q, Db.table (db ca) !! ID p = None → Db.table d = <[ID p := q]> (Db.table (db ca)) →
                 ca_inv T (with_db ca d)).
  { intros d q Hnone Ht. split; [done|]. intros id v x p' HT Hv Hp'.
    pose proof (Hco id v x p' HT Hv Hp') as Hrow. unfold row in *; simpl. rewrite Ht.
    rewrite lookup_insert_ne; [done|]. intros <-. by rewrite Hnone in Hrow. }
  destruct (Db.CreateProduct _ (db ca)) as [d [q|[|e]]]; simpl; [|done|]; (split; [|done]).
  - destruct Hc as (t & _ & Hnone & Ht). by eapply Hnew.
  - destruct Hc as [Ht|(t & Hnone & Ht)]; [|by eapply Hnew].
    split; [done|]. apply coherent_mono; eauto.
Qed.

(** The products whose last known write is in doubt: an update was answered
    with 503. *)
Definition doubtful (r : request) (resp : http_response) : gset string :=
  match r with
  | RPut _ id _ => if decide (code resp = 503%Z) then {[id]} else ∅
  | _ => ∅
  end.

Fixpoint all_doubtful (rs : list request) (resps : list http_response) : gset string :=
  match rs, resps with
  | r :: rs, resp :: resps => doubtful r resp ∪ all_doubtful rs resps
  | _, _ => ∅
  end.

Lemma serve_coherent T r ca :
  ca_inv T ca → strategy ca = Invalidation.WriteThrough →
  ∃ ca' resp, serve ca r = Some (ca', resp) ∧ strategy ca' = Invalidation.WriteThrough ∧
              ca_inv (doubtful r resp ∪ T) ca'.
Proof.
  intros Hinv Hs. destruct r as [now id|now id [req|err]|req]; simpl.
  - unfold handle_get. destruct (GetProduct_coherent T now id ca Hinv) as (ca' & r & -> & ? & Hs' & _).
    simpl. eexists _, _. split; [done|]. split; [congruence|]. by autorewrite with go.
  - destruct (UpdateProduct_coherent T now id req ca Hinv Hs) as (ca' & r & -> & ? & ?). simpl.
    eexists _, _. split; [done|]. split; [done|].
    destruct r as [p|[]]; simpl; by autorewrite with go.
  - eexists _, _. split; [done|]. split; [done|]. simpl. by autorewrite with go.
  - destruct (handle_post_coherent T req ca Hinv) as [? Hs'].
    destruct (handle_post req ca) as [ca' resp]. simpl in *.
    eexists _, _. split; [done|]. split; [congruence|]. by autorewrite with go.
Qed.

Lemma serve_all_coherent rs T ca :
  ca_inv T ca → strategy ca = Invalidation.WriteThrough →
  ∃ ca' resps, serve_all ca rs = Some (ca', resps) ∧ ca_inv (all_doubtful rs resps ∪ T) ca'.
Proof.
  revert T ca. induction rs as [|r rs IH]; intros T ca Hinv Hs.
  { eexists _, _. split; [done|]. simpl. by autorewrite with go. }
  destruct (serve_coherent T r ca Hinv Hs) as (ca1 & resp & Hr & Hs1 & Hinv1).
  destruct (IH _ ca1 Hinv1 Hs1) as (ca2 & resps & Hrs & Hinv2).
  exists ca2, (resp :: resps). simpl. rewrite Hr; simpl. rewrite Hrs. split; [done|].
  by replace (doubtful r resp ∪ all_doubtful rs resps ∪ T)
    with (all_doubtful rs resps ∪ (doubtful r resp ∪ T)) by set_solver.
Qed.

Lemma ca_inv_new cap (pol : P) d s :
  policy_wf pol → tracked pol = ∅ → (1 ≤ cap)%Z → ca_inv ∅ (mk_CacheAside (Cache.New cap pol) d s).
Proof.
  intros Hwf Ht Hc. destruct (Cache.inv_new cap pol Hwf Ht Hc) as (? & _ & Habs).
  split; [done|]. intros id v x p _ Hv. simpl in Hv. by rewrite Habs in Hv.
Qed.

(** A key the cache does not hold is read from the database. *)
Lemma GetProduct_absent now id ca :
  Cache.cache_inv (cache ca) → Cache.abs (cache ca) !! cache_key id = None →
  ∃ ca' r, GetProduct now id ca = Some (ca', r) ∧
    match r with
    | inl (p, st) => st = MISS ∧ row ca id = Some p
    | inr NotFound => row ca id = None
    | inr Unavailable => True
    end.
Proof.
  intros Hinv Habs. unfold GetProduct, GetProduct_check.
  destruct (Cache.Get_spec now (cache_key id) (cache ca) Hinv) as (c & r & -> & _ & _ & _ & Hr).
  rewrite Habs in Hr. destruct Hr as [-> ->]. bind.
  destruct (GetProduct_fetch_spec id (with_cache ca (cache ca))) as (d & r & -> & _ & Hd).
  destruct r as [p|e]; [|by eexists _, _; split; [done|destruct e]].
  unfold GetProduct_fill. destruct (Marshal p) as [v|]; [|by eexists _, _].
  destruct (Invalidation.Set_frame (λ i, now (3 + i)) (cache_key id) v defaultProductTTL (cache ca) Hinv)
    as (c' & Hset & _); [done|]. cbn [cache with_db with_cache]. rewrite Hset. by eexists _, _.
Qed.

(** Write-behind leaves the cache alone until its background deletion runs,
    and repairs it then. The update starts exactly one deletion; the first read
    of the product after the deletion goes to the database, so it returns the
    product as the update left it (or 503), whatever was cached before. *)
Theorem write_behind_refreshes (now : Clock) (id : string) (req : Db.ProductUpdateRequest)
    ca ca1 (t : option Invalidation.task) (p : Product) :
  Cache.cache_inv (cache ca) → strategy ca = Invalidation.WriteBehind →
  UpdateProduct now id req ca = Some (ca1, t, inl p) →
  cache ca1 = cache ca ∧
  ∃ tk c, t = Some tk ∧ Invalidation.run_task tk (cache ca1) = Some c ∧
    ∀ now', ∃ ca2 r, GetProduct now' id (with_cache ca1 c) = Some (ca2, r) ∧
                     (r = inl (p, MISS) ∨ r = inr Unavailable).
Proof.
  intros Hinv Hs. unfold UpdateProduct, UpdateProduct_write, UpdateProduct_notify.
  pose proof (Db.UpdateProduct_spec id req (db ca)) as Hu.
  destruct (Db.UpdateProduct id req (db ca)) as [d [q|[|e]]]; [|by intros [=]..].
  cbn [strategy with_db]. rewrite Hs.
  cbn [Invalidation.OnWrite Invalidation.WriteBehind_OnWrite mbind option_bind].
  intros [= <- <- <-]. split; [done|].
  destruct Hu as (p0 & u & _ & _ & Ht).
  set (tk := Invalidation.mk_task _ _).
  destruct (Invalidation.run_task_spec tk (cache ca) Hinv) as (c & Hrun & Hinv' & Habs).
  exists tk, c. split; [done|]. split; [done|]. intros now'.
  destruct (GetProduct_absent now' id (with_cache (mk_CacheAside (cache ca) d (strategy ca)) c))
    as (ca2 & r & Hget & Hr); [done|by simpl; rewrite Habs, lookup_delete_eq|].
  exists ca2, r. split; [done|]. unfold row in Hr; simpl in Hr.
  rewrite Ht, lookup_insert_eq in Hr. destruct r as [[q' st]|[]]; simpl in Hr; [|done|by right].
  destruct Hr as [-> [= <-]]. by left.
Qed.

End Coherence.

(** ** A concrete server *)

(** A codec that meets the laws of [JSON]: a byte per bit of the product's
    code. *)
#[global] Instance Product_countable : Countable Product.
Proof.
  refine (inj_countable'
    (λ p, (ID p, Name p, Description p, PriceUSD p, Category p, CreatedAt p, UpdatedAt p))
    (λ '(i, n, d, z, c, t, u), mk_Product i n d z c t u) _).
  by intros [].
Defined.

Fixpoint bits_of (p : positive) : bytes :=
  match p with
  | xH => [Byte.x01]
  | xO p => Byte.x30 :: bits_of p
  | xI p => Byte.x31 :: bits_of p
  end.

Fixpoint of_bits (b : bytes) : option positive :=
  match b with
  | [Byte.x01] => Some xH
  | Byte.x30 :: b => xO <$> of_bits b
  | Byte.x31 :: b => xI <$> of_bits b
  | _ => None
  end.

Lemma of_bits_of p : of_bits (bits_of p) = Some p.
Proof. induction p as [p IH|p IH|]; simpl; by rewrite ?IH. Qed.

#[global] Program Instance bits_codec : JSON := {
  Marshal p := Some (bits_of (encode p));
  Unmarshal b := of_bits b ≫= decode
}.
Next Obligation. intros p b _ [= <-]. rewrite of_bits_of. simpl. apply decode_encode. Qed.
Next Obligation. done. Qed.

Definition seed : Db.MemPg :=
  {["prod-001" := Db.mk_Product "prod-001" "Wireless Headphones" "" 79 "electronics" 0 0]}.

Definition server (s : Invalidation.strategy) : CacheAside LRU.LRU Db.MemPg :=
  mk_CacheAside (Cache.New 10 LRU.NewLRU) seed s.

Definition rename (n : string) : Db.ProductUpdateRequest := Db.mk_Update (Some n) None None None.

(** The clock of a request that starts and ends at [t]. *)
Definition at_ (t : Time) : Clock := λ _, t.

(** A server under write-behind that has cached the product. *)
Definition warm : CacheAside LRU.LRU Db.MemPg :=
  default (server Invalidation.WriteBehind)
    (fst <$> handle_get (at_ 1) "prod-001" (server Invalidation.WriteBehind)).

Lemma write_behind_refreshes_witness :
  ∃ ca1 t p, UpdateProduct (at_ 2) "prod-001" (rename "Earbuds") warm = Some (ca1, t, inl p) ∧
    Name p = "Earbuds" ∧
    ∃ tk c, t = Some tk ∧ Invalidation.run_task tk (cache ca1) = Some c ∧
      ∃ ca2 r, GetProduct (at_ Second) "prod-001" (with_cache ca1 c) = Some (ca2, r) ∧
               (r = inl (p, MISS) ∨ r = inr Unavailable).
Proof.
  assert (Hinv : Cache.cache_inv (cache warm)).
  { destruct (GetProduct_coherent ∅ (at_ 1) "prod-001" (server Invalidation.WriteBehind))
      as (ca & r & Hget & [Hinv _] & _).
    - apply ca_inv_new; [exists []; apply LRU.recency_new|reflexivity|lia].
    - unfold warm, handle_get. rewrite Hget. exact Hinv. }
  assert (Hname : (λ '(ca1, t, r), if r is inl p then Name p else "")
            <$> UpdateProduct (at_ 2) "prod-001" (rename "Earbuds") warm = Some "Earbuds")
    by (vm_compute; reflexivity).
  destruct (UpdateProduct (at_ 2) "prod-001" (rename "Earbuds") warm) as [[[ca1 t] [p|e]]|] eqn:Hu;
    [|exfalso; discriminate Hname..].
  assert (Hs : strategy warm = Invalidation.WriteBehind) by (vm_compute; reflexivity).
  destruct (write_behind_refreshes (at_ 2) "prod-001" (rename "Earbuds") warm ca1 t p Hinv Hs Hu)
    as (_ & tk & c & Ht & Hrun & Hget).
  exists ca1, t, p. split; [reflexivity|]. split; [by injection Hname|].
  exists tk, c. split; [exact Ht|]. split; [exact Hrun|]. exact (Hget (at_ Second)).
Defined.

(** ** A reader that overlaps a writer *)

(** Two requests on one product: a [GET] misses the cache and fetches the row,
    a [PUT] updates row and cache and returns, and then the [GET] stores what it
    fetched. [later] is a second [GET], at [t]. *)
Definition overlapping (s : Invalidation.strategy) (t : Time) : option (CacheAside LRU.LRU Db.MemPg * http_response) :=
  '(ca1, hit) ← GetProduct_check (at_ 1) "prod-001" (server s);
  match hit, GetProduct_fetch "prod-001" ca1 with
  | None, (ca2, inl old) =>
      '(ca3, task, _) ← UpdateProduct (at_ 2) "prod-001" (rename "Earbuds") ca2;
      ca4 ← GetProduct_fill (at_ (3 * Second)) "prod-001" old ca3;
      handle_get (at_ t) "prod-001" ca4
  | _, _ => None
  end.

(** Write-through does not keep the cache and the database in sync when
    requests overlap. A reader that fetched the row before an update and stores
    it after leaves the old product in the cache: four minutes later the API
    still answers with it, as a hit, although the update has long returned. *)
Theorem overlapping_read_leaves_stale_entry :
  (λ '(ca, resp), (resp, Name <$> row ca "prod-001"))
    <$> overlapping Invalidation.WriteThrough (4 * Minute)
  = Some (mk_http 200 (Some HIT)
            (BProduct (mk_Product "prod-001" "Wireless Headphones" "" 79 "electronics" 0 0)),
          Some "Earbuds").
Proof. vm_compute. reflexivity. Qed.

(** ** Pages *)

(** The clamped page size is between 1 and 100, and the offset of every page
    that fits is the number of products before it. *)
Lemma list_page_exact pageParam sizeParam :
  let page := clamp_page (queryInt pageParam 1) in
  let pageSize := clamp_size (queryInt sizeParam 20) in
  (1 ≤ page)%Z ∧ (1 ≤ pageSize ≤ 100)%Z ∧
  ((page - 1) * pageSize ≤ int64_max → Db.page_offset page pageSize = (page - 1) * pageSize)%Z.
Proof.
  cbv zeta. generalize (queryInt pageParam 1) (queryInt sizeParam 20). intros n m.
  assert (H1 : (1 ≤ clamp_page n)%Z) by (unfold clamp_page; destruct (Z.ltb_spec n 1); lia).
  assert (H2 : (1 ≤ clamp_size m ≤ 100)%Z).
  { unfold clamp_size. cbv zeta. set (k := if (m <? 1)%Z then 1%Z else m).
    assert (1 ≤ k)%Z by (unfold k; destruct (Z.ltb_spec m 1); lia). destruct (Z.ltb_spec 100 k); lia. }
  split; [done|]. split; [done|]. unfold Db.page_offset. intros Hmax.
  rewrite (wrap64_id (clamp_page n - 1)) by (unfold int64_min; nia).
  apply wrap64_id. unfold int64_min. nia.
Qed.

(** The largest page number asks for a negative offset. *)
Theorem list_page_overflow :
  Db.page_offset (clamp_page (queryInt "9223372036854775807" 1)) (clamp_size (queryInt "100" 20)) = (-200)%Z.
Proof. vm_compute. reflexivity. Qed.
End Api.
