(* ===== verification/ApiConc.v ===== *)
(** The product API under concurrent requests: the steps of the read and write
    paths of [src/internal/api/middleware.go], the background deletions of the
    write-behind strategy and writes to the database by other processes, in any
    interleaving, with the bound on how old an answer can be. A call on the
    cache is one step here; [CacheConc] looks inside it. *)
From S2P Require Import Prelude Policy Lru Cache Invalidation Db Api.

Module ApiConc.
Import Api.

(** ** The system *)

(** Where the goroutine of a request stands. A read that has fetched a row, and
    a write that has committed one, carry the time at which they did; no code
    reads it. *)
Inductive flight :=
| FCheck (id : string)                               (* about to look into the cache *)
| FFetch (id : string)                               (* missed, about to query the database *)
| FFill (id : string) (p : Product) (fetched : Time) (* about to populate the cache *)
| FWrite (id : string) (req : Db.ProductUpdateRequest)
| FNotify (id : string) (p : Product) (written : Time) (* about to call the strategy *)
| FPost (req : Product + string).

(** An answer to a read: when the step that produced it began, the product, and
    where it came from. *)
Record answer := mk_answer { at_time : Time; of_id : string; product : Product; source : cache_status }.

Section Sys.
Context {P D : Type} `{!EvictionPolicy P, !Db.Postgres D, !JSON}.

(** [snapshots] records the table after every step that reaches the database, and [answers] the
    products returned; no code reads them. *)
Record sys := mk_sys {
  now : Time;
  ca : CacheAside P D;
  flights : gmap nat flight;
  tasks : list Invalidation.task;
  snapshots : list (Time * D);
  answers : list answer
}.

(** What the scheduler and the environment choose. Every step reads the clock
    at most three times; a step of another process replaces the database. *)
Inductive choice :=
| Arrive (i : nat) (f : flight)
| Move (i : nat) (clock : Clock)
| RunTask (k : nat) (t : Time)
| External (t : Time) (d : D).

(** The readings of a step, in order and not before the last ones. *)
Definition readings_ok (t : Time) (c : Clock) : bool :=
  (t <=? c 0%nat)%Z && (c 0%nat <=? c 1%nat)%Z && (c 1%nat <=? c 2%nat)%Z.

Definition arrives (f : flight) : bool :=
  match f with FCheck _ | FWrite _ _ | FPost _ => true | _ => false end.

(** The goroutine of request [i] goes on as [f], or ends. *)
Definition go_on (i : nat) (f : option flight) (fs : gmap nat flight) : gmap nat flight :=
  match f with Some f => <[i := f]> fs | None => delete i fs end.

Definition move (i : nat) (f : flight) (c : Clock) (s : sys) : option sys :=
  match f with
  | FCheck id =>
      '(ca', hit) ← GetProduct_check c id (ca s);
      Some match hit with
           | Some p => mk_sys (c 2) ca' (go_on i None (flights s)) (tasks s) (snapshots s)
                         (mk_answer (c 0) id p HIT :: answers s)
           | None => mk_sys (c 2) ca' (go_on i (Some (FFetch id)) (flights s)) (tasks s) (snapshots s)
                       (answers s)
           end
  | FFetch id =>
      let '(ca', r) := GetProduct_fetch id (ca s) in
      let next := match r with inl p => Some (FFill id p (c 0)) | inr _ => None end in
      Some (mk_sys (c 2) ca' (go_on i next (flights s)) (tasks s)
              ((c 0, db ca') :: snapshots s) (answers s))
  | FFill id p _ =>
      ca' ← GetProduct_fill c id p (ca s);
      Some (mk_sys (c 2) ca' (go_on i None (flights s)) (tasks s) (snapshots s)
              (mk_answer (c 0) id p MISS :: answers s))
  | FWrite id req =>
      let '(ca', r) := UpdateProduct_write id req (ca s) in
      let next := match r with inl p => Some (FNotify id p (c 0)) | inr _ => None end in
      Some (mk_sys (c 2) ca' (go_on i next (flights s)) (tasks s)
              ((c 0, db ca') :: snapshots s) (answers s))
  | FNotify id p _ =>
      '(ca', t) ← UpdateProduct_notify c id p (ca s);
      Some (mk_sys (c 2) ca' (go_on i None (flights s)) (option_list t ++ tasks s) (snapshots s)
              (answers s))
  | FPost req =>
      let ca' := (handle_post req (ca s)).1 in
      Some (mk_sys (c 2) ca' (go_on i None (flights s)) (tasks s)
              ((c 0, db ca') :: snapshots s) (answers s))
  end.

(** [L] bounds the time from a request's access to the database to its call on
    the cache. *)
Definition timely (L : Duration) (f : flight) (c : Clock) : bool :=
  match f with
  | FFill _ _ t | FNotify _ _ t => (c 0%nat <=? t + L)%Z
  | _ => true
  end.

Definition step (L : Duration) (s : sys) (ch : choice) : option sys :=
  match ch with
  | Arrive i f =>
      match flights s !! i with
      | None => if arrives f then
                  Some (mk_sys (now s) (ca s) (<[i := f]> (flights s)) (tasks s) (snapshots s) (answers s))
                else None
      | Some _ => None
      end
  | Move i c =>
      f ← flights s !! i;
      if readings_ok (now s) c && timely L f c then move i f c s else None
  | RunTask k t =>
      tk ← tasks s !! k;
      if (now s <=? t)%Z && (Invalidation.not_before tk <=? t)%Z then
        c' ← Invalidation.run_task tk (cache (ca s));
        Some (mk_sys t (with_cache (ca s) c') (flights s) (delete k (tasks s)) (snapshots s) (answers s))
      else None
  | External t d =>
      if (now s <=? t)%Z then
        Some (mk_sys t (with_db (ca s) d) (flights s) (tasks s) ((t, d) :: snapshots s) (answers s))
      else None
  end.

Fixpoint run (L : Duration) (s : sys) (chs : list choice) : option sys :=
  match chs with
  | [] => Some s
  | ch :: chs => s' ← step L s ch; run L s' chs
  end.

(** A server that has just started, at time [t]. *)
Definition start (t : Time) (cap : Z) (pol : P) (d : D) (s : Invalidation.strategy) : sys :=
  mk_sys t (mk_CacheAside (Cache.New cap pol) d s) ∅ [] [(t, d)] [].
End Sys.
Arguments sys P D : clear implicits.
Arguments choice D : clear implicits.

(** ** How old an answer can be *)

Section Staleness.
Context {P D : Type} `{!EvictionPolicy P, !EvictionPolicySpec P, !Db.Postgres D, !Db.PostgresSpec D, !JSON}.
Implicit Types s : sys P D.

(** [p] was the row of [id] at time [t]. *)
Definition was_row (snaps : list (Time * D)) (id : string) (p : Product) (t : Time) : Prop :=
  ∃ d, (t, d) ∈ snaps ∧ dbToAPIProduct <$> Db.table d !! id = Some p.

(** The age an answer may have: the TTL of both paths and the time a request may
    take between the database and the cache. *)
Definition max_age (L : Duration) : Duration := (L + defaultProductTTL)%Z.

Definition flight_ok (snaps : list (Time * D)) (t : Time) (f : flight) : Prop :=
  match f with
  | FFill id p t0 | FNotify id p t0 => was_row snaps id p t0 ∧ (t0 ≤ t)%Z
  | _ => True
  end.

(** Every cached value that decodes was a row, and expires before it is too
    old. *)
Definition cached_ok (L : Duration) (snaps : list (Time * D)) (t : Time) (c : Cache.InMemoryCache P) : Prop :=
  ∀ id v x p, Cache.abs c !! cache_key id = Some (v, x) → Unmarshal v = Some p →
    ∃ t0, was_row snaps id p t0 ∧ (t0 ≤ t)%Z ∧ (0 < x ≤ t0 + max_age L)%Z.

Definition answer_ok (L : Duration) (snaps : list (Time * D)) (a : answer) : Prop :=
  ∃ t0, was_row snaps (of_id a) (product a) t0 ∧ (t0 ≤ at_time a ≤ t0 + max_age L)%Z.

Record sys_inv (L : Duration) s : Prop := {
  inv_cache : Cache.cache_inv (cache (ca s));
  inv_now : (0 ≤ now s)%Z;
  inv_cached : cached_ok L (snapshots s) (now s) (cache (ca s));
  inv_flights i f : flights s !! i = Some f → flight_ok (snapshots s) (now s) f;
  inv_answers : Forall (answer_ok L (snapshots s)) (answers s)
}.

Lemma was_row_mono snaps snaps' id p t :
  snaps ⊆ snaps' → was_row snaps id p t → was_row snaps' id p t.
Proof. intros Hsub (d & Hd & Hp). exists d. split; [by apply Hsub|done]. Qed.

Lemma was_row_valid snaps id p t : was_row snaps id p t → valid_text p.
Proof. intros (d & _ & (q & Hq & ->)%fmap_Some). exact (Db.table_text d id q Hq). Qed.

Lemma flight_ok_mono snaps snaps' t t' f :
  snaps ⊆ snaps' → (t ≤ t')%Z → flight_ok snaps t f → flight_ok snaps' t' f.
Proof.
  intros Hsub Ht Hf. destruct f; simpl in *; try done; destruct Hf as [Hrow ?];
    (split; [by apply (was_row_mono snaps)|lia]).
Qed.

Lemma cached_ok_sub L snaps snaps' t t' c c' :
  cached_ok L snaps t c → snaps ⊆ snaps' → (t ≤ t')%Z →
  (∀ k vx, Cache.abs c' !! k = Some vx → Cache.abs c !! k = Some vx) → cached_ok L snaps' t' c'.
Proof.
  intros Hc Hsub Ht Habs id v x p Hv Hp. destruct (Hc id v x p) as (t0 & Hrow & ? & ?); [auto..|].
  exists t0. split; [by eapply was_row_mono|lia].
Qed.

Lemma answers_mono L snaps snaps' as_ :
  snaps ⊆ snaps' → Forall (answer_ok L snaps) as_ → Forall (answer_ok L snaps') as_.
Proof.
  intros Hsub Has. eapply Forall_impl; [exact Has|]. intros a (t0 & Hrow & ?). exists t0.
  split; [by eapply was_row_mono|done].
Qed.

(** A step keeps the invariant if it only adds snapshots, answers of admissible
    age and flights that are justified, and changes the cache admissibly. *)
Lemma sys_inv_step L s t ca' fs tks snaps new :
  sys_inv L s → (now s ≤ t)%Z → snapshots s ⊆ snaps →
  Cache.cache_inv (cache ca') → cached_ok L snaps t (cache ca') →
  (∀ i f, fs !! i = Some f → flights s !! i = Some f ∨ flight_ok snaps t f) →
  Forall (answer_ok L snaps) new →
  sys_inv L (mk_sys t ca' fs tks snaps (new ++ answers s)).
Proof.
  intros [Hi Hn Hc Hf Ha] Ht Hsub Hci Hcc Hfs Hnew. split; simpl; [done|lia|done| |].
  - intros i f [Hold'|?]%Hfs; [|done]. eapply flight_ok_mono; [done|done|by eapply Hf].
  - apply Forall_app. split; [done|]. by eapply answers_mono.
Qed.

Lemma go_on_lookup i next (fs : gmap nat flight) j f :
  go_on i next fs !! j = Some f → fs !! j = Some f ∨ next = Some f.
Proof.
  destruct next as [g|]; simpl.
  - intros [[-> ->]|[_ ?]]%lookup_insert_Some; auto.
  - intros [_ ?]%lookup_delete_Some; auto.
Qed.

(** Storing a product that was a row at [t0], in time. *)
Lemma cached_ok_store L snaps t t' c c' id p t0 (x : Time) :
  cached_ok L snaps t c → (t ≤ t')%Z → was_row snaps id p t0 → (t0 ≤ t')%Z →
  (0 < x ≤ t0 + max_age L)%Z →
  (∀ k v y, Cache.abs c' !! k = Some (v, y) → Cache.abs c !! k = Some (v, y) ∨
     k = cache_key id ∧ (∀ q, Unmarshal v = Some q → q = p) ∧ y = x) →
  cached_ok L snaps t' c'.
Proof.
  intros Hc Ht Hrow Ht0 Hx Habs id' v y q Hv Hq.
  destruct (Habs _ _ _ Hv) as [Hold|(Hk & Hval & ->)].
  - destruct (Hc id' v y q Hold Hq) as (t1 & ? & ? & ?). exists t1. split; [done|lia].
  - apply cache_key_inj in Hk as ->. rewrite (Hval q Hq). exists t0. done.
Qed.

(** One case per kind of step. *)
Lemma move_check L s i id c :
  sys_inv L s → readings_ok (now s) c = true → ∃ s', move i (FCheck id) c s = Some s' ∧ sys_inv L s'.
Proof.
  intros Hinv Hr. pose proof Hinv as [Hi Hn Hc Hf Ha]. unfold readings_ok in Hr.
  destruct (GetProduct_check_frame c id (ca s) Hi) as (c' & hit & Hcheck & Hi' & Hsub & Hhit).
  cbn [move]. rewrite Hcheck. bind.
  assert (Hcc : cached_ok L (snapshots s) (c 2) c') by (eapply cached_ok_sub; [done|done|lia|done]).
  destruct hit as [p|]; eexists; (split; [reflexivity|]).
  - apply (sys_inv_step L s _ _ _ _ _ [mk_answer (c 0) id p HIT]); [done|lia|done|done|done| |].
    { intros j f [?|?]%go_on_lookup; [by left|done]. }
    apply Forall_singleton. destruct (Hhit p eq_refl) as (v & x & Hv & Hp & Hx).
    destruct (Hc id v x p Hv Hp) as (t0 & Hrow & ? & ?). exists t0. split; [done|]. simpl.
    unfold Cache.past, IsZero, After, time_zero in Hx.
    destruct (Z.eqb_spec x 0); [lia|]. simpl in Hx. apply Z.ltb_ge in Hx. lia.
  - apply (sys_inv_step L s _ _ _ _ _ []); [done|lia|done|done|done| |done].
    intros j f [?|[= <-]]%go_on_lookup; [by left|by right].
Qed.

Lemma move_fetch L s i id c :
  sys_inv L s → readings_ok (now s) c = true → ∃ s', move i (FFetch id) c s = Some s' ∧ sys_inv L s'.
Proof.
  intros Hinv Hr. pose proof Hinv as [Hi Hn Hc Hf Ha]. unfold readings_ok in Hr.
  destruct (GetProduct_fetch_spec id (ca s)) as (d & r & Hfetch & Ht & Hd).
  cbn [move]. rewrite Hfetch. eexists. split; [reflexivity|].
  apply (sys_inv_step L s _ _ _ _ _ []); [done|lia|set_solver|done| | |done].
  { eapply cached_ok_sub; [done|set_solver|lia|done]. }
  intros j f [?|Heq]%go_on_lookup; [by left|right]. destruct r as [p|e]; [|done].
  injection Heq as <-. split; [|lia]. exists d. split; [set_solver|]. by rewrite Ht.
Qed.

Lemma ttl_expiry (u : Time) : Cache.expiry u defaultProductTTL = (u + defaultProductTTL)%Z.
Proof. done. Qed.

Lemma move_fill L s i id p t0 c :
  sys_inv L s → flights s !! i = Some (FFill id p t0) → readings_ok (now s) c = true →
  timely L (FFill id p t0) c = true → ∃ s', move i (FFill id p t0) c s = Some s' ∧ sys_inv L s'.
Proof.
  intros Hinv Hi0 Hr Htl. pose proof Hinv as [Hi Hn Hc Hf Ha]. unfold readings_ok in Hr. simpl in Htl.
  destruct (Hf _ _ Hi0) as [Hrow Ht0].
  destruct (GetProduct_fill_frame c id p (ca s) Hi) as (c' & Hfill & Hi' & Habs).
  cbn [move]. rewrite Hfill. bind. eexists. split; [reflexivity|].
  assert (0 < defaultProductTTL)%Z by done.
  apply (sys_inv_step L s _ _ _ _ _ [mk_answer (c 0) id p MISS]); [done|lia|done|done| | |].
  - eapply (cached_ok_store L _ _ _ _ _ id p t0 (c 0%nat + defaultProductTTL)%Z); [done|lia|done|lia| |].
    { unfold max_age. lia. }
    intros k v y [?|(-> & Hm & ->)]%Habs; [by left|right]. rewrite ttl_expiry. split; [done|].
    split; [|done]. intros q Hq. rewrite (Unmarshal_Marshal p v) in Hq; [congruence| |done].
    by eapply was_row_valid.
  - intros j f [?|?]%go_on_lookup; [by left|done].
  - apply Forall_singleton. exists t0. split; [done|]. simpl. unfold max_age. lia.
Qed.

Lemma move_write L s i id req c :
  sys_inv L s → readings_ok (now s) c = true →
  ∃ s', move i (FWrite id req) c s = Some s' ∧ sys_inv L s'.
Proof.
  intros Hinv Hr. pose proof Hinv as [Hi Hn Hc Hf Ha]. unfold readings_ok in Hr.
  destruct (UpdateProduct_write_spec id req (ca s)) as (d & r & Hw & Hd).
  cbn [move]. rewrite Hw. eexists. split; [reflexivity|].
  apply (sys_inv_step L s _ _ _ _ _ []); [done|lia|set_solver|done| | |done].
  { eapply cached_ok_sub; [done|set_solver|lia|done]. }
  intros j f [?|Heq]%go_on_lookup; [by left|right]. destruct r as [p|e]; [|done].
  injection Heq as <-. split; [|lia]. exists d. split; [set_solver|by apply Hd].
Qed.

Lemma move_notify L s i id p t0 c :
  sys_inv L s → flights s !! i = Some (FNotify id p t0) → readings_ok (now s) c = true →
  timely L (FNotify id p t0) c = true → ∃ s', move i (FNotify id p t0) c s = Some s' ∧ sys_inv L s'.
Proof.
  intros Hinv Hi0 Hr Htl. pose proof Hinv as [Hi Hn Hc Hf Ha]. unfold readings_ok in Hr. simpl in Htl.
  destruct (Hf _ _ Hi0) as [Hrow Ht0].
  destruct (UpdateProduct_notify_frame c id p (ca s) Hi) as (c' & tk & Hnote & Hi' & Habs).
  cbn [move]. rewrite Hnote. bind. eexists. split; [reflexivity|].
  assert (0 < defaultProductTTL)%Z by done.
  apply (sys_inv_step L s _ _ _ _ _ []); [done|lia|done|done| | |done].
  - eapply (cached_ok_store L _ _ _ _ _ id p t0 (c 0%nat + defaultProductTTL)%Z); [done|lia|done|lia| |].
    { unfold max_age. lia. }
    intros k v y [?|(-> & -> & ->)]%Habs; [by left|right]. split; [done|]. split; [|done].
    intros q Hq. destruct (Unmarshal_written p); [by eapply was_row_valid|congruence..].
  - intros j f [?|?]%go_on_lookup; [by left|done].
Qed.

Lemma move_post L s i req c :
  sys_inv L s → readings_ok (now s) c = true → ∃ s', move i (FPost req) c s = Some s' ∧ sys_inv L s'.
Proof.
  intros Hinv Hr. pose proof Hinv as [Hi Hn Hc Hf Ha]. unfold readings_ok in Hr.
  destruct (handle_post_frame req (ca s)) as (d & Hp).
  cbn [move]. rewrite Hp. eexists. split; [reflexivity|].
  apply (sys_inv_step L s _ _ _ _ _ []); [done|lia|set_solver|done| | |done].
  { eapply cached_ok_sub; [done|set_solver|lia|done]. }
  intros j f [?|?]%go_on_lookup; [by left|done].
Qed.

(** A request in flight can always take its next step. *)
Lemma move_ok L s i f c :
  sys_inv L s → flights s !! i = Some f → readings_ok (now s) c = true → timely L f c = true →
  ∃ s', move i f c s = Some s' ∧ sys_inv L s'.
Proof.
  intros. destruct f; eauto using move_check, move_fetch, move_fill, move_write, move_notify, move_post.
Qed.

Lemma step_inv L s ch s' : sys_inv L s → step L s ch = Some s' → sys_inv L s'.
Proof.
  intros Hinv. pose proof Hinv as [Hi Hn Hc Hf Ha]. destruct ch as [i f|i c|k t|t d]; cbn [step].
  - destruct (flights s !! i); [done|]. destruct (arrives f) eqn:Hf'; [|done]. intros [= <-].
    apply (sys_inv_step L s _ _ _ _ _ []); [done|lia|done|done|done| |done].
    intros j g [[-> ->]|[_ ?]]%lookup_insert_Some; [right|by left]. by destruct g.
  - destruct (flights s !! i) as [f|] eqn:Hf'; [|done]. bind.
    destruct (readings_ok (now s) c) eqn:Hr; [|done]. destruct (timely L f c) eqn:Htl; [|done]. simpl.
    destruct (move_ok L s i f c Hinv Hf' Hr Htl) as (s1 & -> & ?). by intros [= <-].
  - destruct (tasks s !! k) as [tk|]; [|done]. bind.
    destruct (_ && _)%bool eqn:Ht; [|done]. apply andb_true_iff in Ht as [Ht _]. apply Z.leb_le in Ht.
    destruct (Invalidation.run_task_spec tk (cache (ca s)) Hi) as (c' & -> & Hi' & Habs). bind.
    intros [= <-]. apply (sys_inv_step L s _ _ _ _ _ []); [done|lia|done|done| |by left|done].
    eapply cached_ok_sub; [done|done|lia|]. intros j vx. simpl. rewrite Habs.
    by intros [_ ?]%lookup_delete_Some.
  - destruct (Z.leb_spec (now s) t) as [Ht|]; [|done]. intros [= <-].
    apply (sys_inv_step L s _ _ _ _ _ []); [done|lia|set_solver|done| |by left|done].
    eapply cached_ok_sub; [done|set_solver|lia|done].
Qed.

Lemma run_inv L s chs s' : sys_inv L s → run L s chs = Some s' → sys_inv L s'.
Proof.
  revert s. induction chs as [|ch chs IH]; intros s Hinv; cbn [run]; [by intros [= <-]|].
  destruct (step L s ch) as [s1|] eqn:Hs; [|done]. bind. apply IH. by eapply step_inv.
Qed.

Lemma start_inv L t cap pol d strat :
  policy_wf pol → tracked pol = ∅ → (1 ≤ cap)%Z → (0 ≤ t)%Z → sys_inv L (start t cap pol d strat).
Proof.
  intros Hwf Htr Hc Ht. destruct (Cache.inv_new cap pol Hwf Htr Hc) as (Hi & _ & Habs).
  split; simpl; [done|done| |done|done]. intros id v x p. by rewrite Habs.
Qed.

(** C6: bounded staleness. Let any number of reads and writes of products be in
    flight at once, each call on the database and on the cache being one step,
    under any of the three strategies, with the background deletions of
    write-behind running whenever they like and other processes writing to the
    database. No request ever panics or gets stuck, and every product a read
    answers with was the row of the database at a moment at most five minutes
    and [L] before, where [L] bounds the time a request takes from its query to
    its call on the cache. *)
Theorem answers_are_recent (L : Duration) (t : Time) (cap : Z) (pol : P) (d : D)
    (strat : Invalidation.strategy) (chs : list (choice D)) s :
  policy_wf pol → tracked pol = ∅ → (1 ≤ cap)%Z → (0 ≤ t)%Z →
  run L (start t cap pol d strat) chs = Some s →
  (∀ a, a ∈ answers s →
     ∃ t0 d0, (t0, d0) ∈ snapshots s ∧ dbToAPIProduct <$> Db.table d0 !! of_id a = Some (product a) ∧
              (t0 ≤ at_time a ≤ t0 + (L + 5 * Minute))%Z) ∧
  (∀ i f c, flights s !! i = Some f → readings_ok (now s) c = true → timely L f c = true →
     is_Some (step L s (Move i c))).
Proof.
  intros Hwf Htr Hc Ht Hrun.
  assert (Hinv : sys_inv L s) by (eapply run_inv; [|done]; by apply start_inv). split.
  - intros a Ha. pose proof (inv_answers L s Hinv) as Has. rewrite Forall_forall in Has.
    destruct (Has a Ha) as (t0 & (d0 & Hd0 & Hrow) & Hage). exists t0, d0. done.
  - intros i f c Hf Hr Htl. cbn [step]. rewrite Hf. bind. rewrite Hr, Htl. simpl.
    destruct (move_ok L s i f c Hinv Hf Hr Htl) as (s' & -> & _). eauto.
Qed.
End Staleness.

(** ** A concrete run *)

(** Four minutes after an overlapping read and update, a third request is
    answered with the old product: the bound is nearly met. *)
Definition overlap : list (choice Db.MemPg) :=
  [Arrive 0 (FCheck "prod-001"); Arrive 1 (FWrite "prod-001" (rename "Earbuds"));
   Move 0 (Api.at_ 1); Move 0 (Api.at_ 2); Move 1 (Api.at_ 3); Move 1 (Api.at_ 4);
   Move 0 (Api.at_ Second);
   Arrive 2 (FCheck "prod-001"); Move 2 (Api.at_ (4 * Minute)); Arrive 3 (FCheck "prod-001")].

Definition overlap_run : option (sys LRU.LRU Db.MemPg) :=
  run (2 * Second) (start 0 10 LRU.NewLRU seed Invalidation.WriteThrough) overlap.

Lemma overlap_facts :
  (λ s, ((λ a, (at_time a, Name (product a), source a)) <$> answers s, flights s !! 3, now s)) <$> overlap_run
  = Some ([(4 * Minute, "Wireless Headphones", HIT); (Second, "Wireless Headphones", MISS)]%Z,
          Some (FCheck "prod-001"), 4 * Minute)%Z.
Proof. vm_compute. reflexivity. Qed.

Lemma answers_are_recent_witness :
  ∃ s, overlap_run = Some s ∧ length (answers s) = 2 ∧
    (∀ a, a ∈ answers s →
       ∃ t0 d0, (t0, d0) ∈ snapshots s ∧ dbToAPIProduct <$> Db.table d0 !! of_id a = Some (product a) ∧
                (t0 ≤ at_time a ≤ t0 + (2 * Second + 5 * Minute))%Z) ∧
    is_Some (step (2 * Second) s (Move 3 (Api.at_ (5 * Minute)))).
Proof.
  pose proof overlap_facts as Hf. destruct overlap_run as [s|] eqn:Hs; [|discriminate Hf].
  apply (inj Some) in Hf. exists s. split; [reflexivity|].
  pose proof (f_equal (λ x, x.1.1) Hf) as Ha. pose proof (f_equal (λ x, x.1.2) Hf) as Hfl.
  pose proof (f_equal snd Hf) as Hn. cbn [fst snd] in Ha, Hfl, Hn.
  split; [by apply (f_equal length) in Ha; rewrite length_fmap in Ha|].
  destruct (answers_are_recent (2 * Second) 0 10 LRU.NewLRU seed Invalidation.WriteThrough overlap s)
    as [Hans Hmove].
  - exists []. apply LRU.recency_new.
  - reflexivity.
  - lia.
  - lia.
  - exact Hs.
  - split; [exact Hans|]. apply (Hmove 3 (FCheck "prod-001")); [exact Hfl| |reflexivity].
    rewrite Hn. vm_compute. reflexivity.
Defined.
End ApiConc.
