(* ===== verification/ApiServer.v ===== *)
(** The API process: what [src/cmd/api/main.go] sets up from its environment,
    the routes of [src/internal/api/server.go], and the handlers behind them on
    one shared in-process cache. *)
From S2P Require Import Prelude Policy Lru Cache Ring GoStrings Cluster Node Debug Invalidation Db DbSetup Api.
From Stdlib Require Import Ascii.

Module ApiServer.

(** ** Start-up *)

Section Server.
Context {D : Type} `{!Db.Postgres D, !DbSetup.PgServer D, !Api.JSON}.

(** The product handlers and the debug handler work on the same cache object, so
    it is kept once. *)
Record Server := mk_Server {
  products : Api.CacheAside LRU.LRU D;
  ring : Ring.Ring;
  coordinator : Cluster.Coordinator;
  nodeAddrs : gmap string string;
  port : Z
}.

Inductive startup_error :=
| ConfigError (e : Node.config_error)
| MissingDSN
| DbError (text : string).

(** [main] up to [srv.Start]: the database as it is afterwards, and the server
    or the fatal error. *)
Definition main (env : string → string) (d : D) : D * (Server + startup_error) :=
  match Node.Load env with
  | inr e => (d, inr (ConfigError e))
  | inl cfg =>
      let c := Cache.New (Node.CacheCapacity cfg) LRU.NewLRU in
      let '(r, addrs) := Debug.buildDebugRing (Node.CacheClusterAddr cfg) in
      let coord := Debug.buildDebugCoordinator r in
      if decide (Node.DBDSN cfg = "") then (d, inr MissingDSN)
      else
        match DbSetup.New (Node.DBDSN cfg) d with
        | (d', Some e) => (d', inr (DbError e))
        | (d', None) =>
            let strategy := Invalidation.buildInvalidationStrategy (Node.InvalidationStrategy cfg) in
            let port := if (Node.Port cfg =? 0)%Z then 8081%Z else Node.Port cfg in
            (d', inl (mk_Server (Api.mk_CacheAside c d' strategy) r coord addrs port))
        end
  end.

(** ** Routes *)

(** A request: the method, the segments of its path, the query parameters and
    the decoded bodies a handler may ask for, the clock its calls read, and the
    order in which the ring lists its nodes. *)
Record http_request := mk_http_request {
  method : string;
  path : list string;
  pageParam : string;
  sizeParam : string;
  update_body : Db.ProductUpdateRequest + string;
  create_body : Api.Product + string;
  now : Clock;
  nodes_order : list string
}.

Inductive route :=
| RouteGetProduct (id : string)
| RouteListProducts
| RouteCreateProduct
| RouteUpdateProduct (id : string)
| RouteCacheDebug (key : string)
| RouteClusterStatus
| RouteHealth
| RouteMetrics
| MethodNotAllowed
| NoRoute.

(** The patterns registered with the mux: a wildcard takes one segment that is
    not empty, a [GET] pattern also takes [HEAD], and a path known only with
    other methods is answered with 405. *)
Definition route_of (method : string) (path : list string) : route :=
  let reads := bool_decide (method = "GET") || bool_decide (method = "HEAD") in
  let only_reads r := if reads then r else MethodNotAllowed in
  match path with
  | [a] =>
      if decide (a = "products") then
        if reads then RouteListProducts
        else if decide (method = "POST") then RouteCreateProduct else MethodNotAllowed
      else if decide (a = "health") then only_reads RouteHealth
      else if decide (a = "metrics") then only_reads RouteMetrics
      else NoRoute
  | [a; b] =>
      if decide (a = "products" ∧ b ≠ "") then
        if reads then RouteGetProduct b
        else if decide (method = "PUT") then RouteUpdateProduct b else MethodNotAllowed
      else if decide (a = "cluster" ∧ b = "status") then only_reads RouteClusterStatus
      else NoRoute
  | [a; b; c] =>
      if decide (a = "cache" ∧ b = "debug" ∧ c ≠ "") then only_reads (RouteCacheDebug c) else NoRoute
  | _ => NoRoute
  end.

Inductive http_answer :=
| Products (r : Api.http_response)
| KeyReport (r : Debug.CacheDebugResponse + string)
| Status (r : list Debug.NodeStatus * string)
| Page (text : string)
| Refused (code : Z).

Definition with_products (s : Server) p : Server :=
  mk_Server p (ring s) (coordinator s) (nodeAddrs s) (port s).

(** The debug handler of the server. *)
Definition debug_of (s : Server) : Debug.DebugHandler (P := LRU.LRU) :=
  Debug.mk_DebugHandler (Api.cache (products s)) (ring s) (coordinator s) (nodeAddrs s).

(** A request served on its own; [fetch] is the network to the cache nodes. The
    background deletion an update may start is the second result. *)
Definition serve (fetch : string → Debug.reply) (s : Server) (r : http_request)
    : option (Server * option Invalidation.task * http_answer) :=
  match route_of (method r) (path r) with
  | RouteGetProduct id =>
      '(p, resp) ← Api.handle_get (now r) id (products s);
      Some (with_products s p, None, Products resp)
  | RouteListProducts =>
      Some (s, None, Products (Api.handle_list (pageParam r) (sizeParam r) (products s)))
  | RouteCreateProduct =>
      let '(p, resp) := Api.handle_post (create_body r) (products s) in
      Some (with_products s p, None, Products resp)
  | RouteUpdateProduct id =>
      '(p, t, resp) ← Api.handle_put (now r) id (update_body r) (products s);
      Some (with_products s p, t, Products resp)
  | RouteCacheDebug key =>
      '(dh, resp) ← Debug.CacheDebug (now r) key (debug_of s);
      Some (with_products s (Api.with_cache (products s) (Debug.cache dh)), None, KeyReport resp)
  | RouteClusterStatus => Some (s, None, Status (Debug.ClusterStatus fetch (nodeAddrs s) (nodes_order r)))
  | RouteHealth => Some (s, None, Page (Json.Json.encode_object [("healthy", "true"); ("service", Json.Json.encode_string "api")]))
  | RouteMetrics => Some (s, None, Page ("# api metrics — prometheus instrumentation added in task 15" +:+ GoFmt.GoFmt.nl))
  | MethodNotAllowed => Some (s, None, Refused 405)
  | NoRoute => Some (s, None, Refused 404)
  end.

Fixpoint serve_all (fetch : string → Debug.reply) (s : Server) (rs : list http_request)
    : option (Server * list http_answer) :=
  match rs with
  | [] => Some (s, [])
  | r :: rs =>
      '(s', _, a) ← serve fetch s r;
      '(s'', l) ← serve_all fetch s' rs;
      Some (s'', a :: l)
  end.
End Server.
Arguments Server : clear implicits.

(** ** Reads are current *)

Section Current.
Context {D : Type} `{!Db.Postgres D, !Db.PostgresSpec D, !DbSetup.PgServer D, !Api.JSON}.
Implicit Types s : Server D.

(** What the server needs of its parts. *)
Definition server_ok (T : gset string) s : Prop :=
  Api.ca_inv T (products s) ∧ Api.strategy (products s) = Invalidation.WriteThrough ∧ Ring.ring_wf (ring s).

(** The products an update of which was answered with 503. *)
Definition in_doubt (r : http_request) (a : http_answer) : gset string :=
  match route_of (method r) (path r), a with
  | RouteUpdateProduct id, Products resp => if decide (Api.code resp = 503%Z) then {[id]} else ∅
  | _, _ => ∅
  end.
Fixpoint all_in_doubt (rs : list http_request) (l : list http_answer) : gset string :=
  match rs, l with
  | r :: rs, a :: l => in_doubt r a ∪ all_in_doubt rs l
  | _, _ => ∅
  end.

Lemma CacheDebug_ok T now key s :
  server_ok T s →
  ∃ dh resp, Debug.CacheDebug now key (debug_of s) = Some (dh, resp) ∧
    server_ok T (with_products s (Api.with_cache (products s) (Debug.cache dh))).
Proof.
  intros ([Hinv Hco] & Hs & Hwf). unfold Debug.CacheDebug.
  destruct (decide (key = "")) as [_|_]; [eexists _, _; split; [done|]; by destruct s as [[]]|].
  assert (∃ o, Ring.Get key (ring s) = Some o) as [o Ho].
  { destruct (decide (Ring.sortedTokens (ring s) = [])) as [He|Hne].
    - exists None. by apply Ring.Get_empty.
    - destruct (Ring.Get_nearest key _ Hwf Hne) as (t & n & a & Hget & _). eauto. }
  cbn [debug_of Debug.ring Debug.cache Debug.coordinator]. rewrite Ho. bind.
  destruct (match o with Some na => na | None => _ end) as [n a].
  destruct (Cache.Get_spec now key (Api.cache (products s)) Hinv) as (c & r & -> & Hinv' & _ & _ & Hr). bind.
  eexists _, _. split; [done|]. split; [|done]. split; [exact Hinv'|]. cbn [Debug.cache with_products products].
  apply Api.coherent_mono; [done|done|]. intros id v x _ Hv. left.
  destruct (Cache.abs (Api.cache (products s)) !! key) as [[v' x']|]; [|by destruct Hr as [_ <-]].
  destruct (Cache.past x' (now 0)); [|by destruct Hr as (_ & <- & _)].
  destruct Hr as [_ Hr]. destruct (Cache.past x' (now 1)); [|by subst].
  destruct Hr as [Hr _]. rewrite Hr in Hv. by apply lookup_delete_Some in Hv as [_ ?].
Qed.

Lemma serve_ok fetch T s r :
  server_ok T s →
  ∃ s' t a, serve fetch s r = Some (s', t, a) ∧ server_ok (in_doubt r a ∪ T) s'.
Proof.
  intros Hok. pose proof Hok as (Hinv & Hs & Hwf). unfold serve, in_doubt.
  destruct (route_of (method r) (path r)) as [id| | |id|key| | | | |];
    try (eexists _, _, _; split; [done|]; by autorewrite with go).
  - destruct (Api.serve_coherent T (Api.RGet (now r) id) (products s) Hinv Hs) as (p & resp & Hr & Hs' & Hinv').
    simpl in Hr. rewrite Hr. bind. eexists _, _, _. split; [done|]. by autorewrite with go in *.
  - destruct (Api.serve_coherent T (Api.RPost (create_body r)) (products s) Hinv Hs) as (p & resp & Hr & Hs' & Hinv').
    simpl in Hr. injection Hr as Hr. rewrite Hr. eexists _, _, _. split; [done|]. by autorewrite with go in *.
  - destruct (Api.serve_coherent T (Api.RPut (now r) id (update_body r)) (products s) Hinv Hs)
      as (p & resp & Hr & Hs' & Hinv').
    simpl in Hr. destruct (Api.handle_put _ _ _ _) as [[[p' t] resp']|]; [|done]. simpl in Hr.
    injection Hr as -> ->. bind. eexists _, _, _. split; [done|]. split; [exact Hinv'|done].
  - destruct (CacheDebug_ok T (now r) key s Hok) as (dh & resp & -> & Hok'). bind.
    eexists _, _, _. split; [done|]. by autorewrite with go.
Qed.

Lemma serve_all_ok fetch rs T s :
  server_ok T s →
  ∃ s' l, serve_all fetch s rs = Some (s', l) ∧ server_ok (all_in_doubt rs l ∪ T) s'.
Proof.
  revert T s. induction rs as [|r rs IH]; intros T s Hok.
  { eexists _, _. split; [done|]. simpl. by autorewrite with go. }
  destruct (serve_ok fetch T s r Hok) as (s1 & t & a & Hr & Hok1).
  destruct (IH _ s1 Hok1) as (s2 & l & Hrs & Hok2).
  exists s2, (a :: l). simpl. rewrite Hr. bind. rewrite Hrs. split; [done|].
  by replace (in_doubt r a ∪ all_in_doubt rs l ∪ T) with (all_in_doubt rs l ∪ (in_doubt r a ∪ T))
    by set_solver.
Qed.

Lemma main_ok (env : string → string) (d d' : D) s :
  main env d = (d', inl s) → Api.strategy (products s) = Invalidation.WriteThrough →
  server_ok ∅ s ∧ Api.db (products s) = d'.
Proof.
  unfold main. destruct (Node.Load env) as [cfg|e] eqn:Hload; [|done].
  destruct (Node.Load_valid env cfg Hload) as (_ & _ & Hcap & _).
  pose proof (Debug.buildDebugRing_ok (Node.CacheClusterAddr cfg)) as (Hwf & _).
  destruct (Debug.buildDebugRing _) as [r addrs]. destruct (decide _); [done|].
  destruct (DbSetup.New _ d) as [d1 [e|]]; [done|]. intros [= -> <-] Hs. split; [|done].
  split; [|by split]. cbn [products]. apply Api.ca_inv_new; [exists []; apply LRU.recency_new|done|lia].
Qed.

(** C5: under write-through, reads are current. Let the API process start with
    any environment that selects write-through, and serve any requests one after
    another, on any routes, the diagnostic ones that look into the shared cache
    included. No request panics, and a [GET] of a product then answers with the
    row of the database (200, from the cache or not), or 404 exactly when there
    is none, or 503, and leaves the table as it is. The only products this is not
    promised of are those an update of which was answered with 503: the database
    may have committed it, and the cache was not told. *)
Theorem server_reads_current (env : string → string) (fetch : string → Debug.reply) (d d' : D) s0
    (rs : list http_request)
    (Hmain : main env d = (d', inl s0)) (Hs : Api.strategy (products s0) = Invalidation.WriteThrough) :
  ∃ s answers, serve_all fetch s0 rs = Some (s, answers) ∧
    ∀ id now, id ∉ all_in_doubt rs answers →
      ∃ p resp, Api.handle_get now id (products s) = Some (p, resp) ∧
        Db.table (Api.db p) = Db.table (Api.db (products s)) ∧
        (Api.code resp = 503%Z ∨
         match Api.row (products s) id with
         | Some q => Api.code resp = 200%Z ∧ Api.payload resp = Api.BProduct q ∧ is_Some (Api.x_cache resp)
         | None => Api.code resp = 404%Z
         end).
Proof.
  destruct (main_ok env d d' s0 Hmain Hs) as [Hok _].
  destruct (serve_all_ok fetch rs ∅ s0 Hok) as (s & l & Hrun & Hinv & _). autorewrite with go in Hinv.
  exists s, l. split; [done|]. intros id now HT. unfold Api.handle_get.
  destruct (Api.GetProduct_coherent _ now id (products s) Hinv) as (p & r & -> & _ & _ & Ht & Hr). bind.
  eexists _, _. split; [done|]. split; [done|].
  destruct r as [[q []]|[]]; [|right; rewrite Hr; simpl; by eauto..|by left].
  right. rewrite Hr by done. simpl. eauto.
Qed.
End Current.

(** ** A concrete process *)

(** The table in memory, behind a connection that never fails. *)
#[global] Instance MemPg_server : DbSetup.PgServer Db.MemPg := {
  Connect _ _ := None;
  Ping _ := None;
  Exec l d :=
    match DbSetup.run_script (λ c, c) 0 l (DbSetup.mk_schema (Some (d : gmap string Db.Product)) true) with
    | Some s => (default ∅ (DbSetup.products s), None)
    | None => (d, Some "error")
    end
}.

Definition api_env (key : string) : string :=
  if decide (key = "DB_DSN") then "postgres://localhost/products"
  else if decide (key = "CACHE_CLUSTER_ADDR") then "cache-node-1:9001" else "".

Definition no_network (url : string) : Debug.reply := Debug.NoAnswer.

Definition ask (m : string) (p : list string) (t : Time) : http_request :=
  mk_http_request m p "" "" (inl (Api.rename "Earbuds"))
    (inl (Api.mk_Product "prod-011" "Lamp" "" 20 "decor" 0 0)) (λ _, t) ["node-1"].

Definition session : list http_request :=
  [ask "GET" ["products"; "prod-001"] 1; ask "GET" ["cache"; "debug"; "product:prod-001"] 2;
   ask "PUT" ["products"; "prod-001"] 3; ask "GET" ["cluster"; "status"] 4; ask "POST" ["products"] 5;
   ask "DELETE" ["products"; "prod-001"] 6; ask "GET" ["nothing"] 7].

Definition code_of (a : http_answer) : Z :=
  match a with
  | Products r => Api.code r
  | KeyReport (inr _) => 400
  | Refused c => c
  | _ => 200
  end.

Lemma session_facts :
  ('(_, r) ← Some (main api_env (∅ : Db.MemPg));
   s ← (match r with inl s => Some s | inr _ => None end);
   '(s', l) ← serve_all no_network s session;
   Some (Api.strategy (products s), map code_of l, all_in_doubt session l, Api.Name <$> Api.row (products s') "prod-001"))
  = Some (Invalidation.WriteThrough, [200; 200; 200; 200; 201; 405; 404]%Z, ∅, Some "Earbuds").
Proof. vm_compute. reflexivity. Qed.

Lemma server_reads_current_witness :
  ∃ s answers p resp,
    map code_of answers = [200; 200; 200; 200; 201; 405; 404]%Z ∧
    Api.handle_get (λ _, 8%Z) "prod-001" (products (D := Db.MemPg) s) = Some (p, resp) ∧
    (Api.Name <$> Api.row (products s) "prod-001") = Some "Earbuds" ∧
    (Api.code resp = 503%Z ∨
     match Api.row (products s) "prod-001" with
     | Some q => Api.code resp = 200%Z ∧ Api.payload resp = Api.BProduct q ∧ is_Some (Api.x_cache resp)
     | None => Api.code resp = 404%Z
     end).
Proof.
  pose proof session_facts as H.
  destruct (main api_env (∅ : Db.MemPg)) as [d' [s0|e]] eqn:Hmain; cbn [mbind option_bind] in H; [|discriminate H].
  destruct (serve_all no_network s0 session) as [[s l]|] eqn:Hrun; cbn [mbind option_bind] in H; [|discriminate H].
  apply (inj Some) in H.
  assert (Api.strategy (products s0) = Invalidation.WriteThrough) as Hs by exact (f_equal (λ x, x.1.1.1) H).
  destruct (server_reads_current api_env no_network ∅ d' s0 session Hmain Hs) as (s' & l' & Hrun' & Hget).
  rewrite Hrun in Hrun'. injection Hrun' as <- <-.
  assert (all_in_doubt session l = ∅) as Hd by exact (f_equal (λ x, x.1.2) H).
  destruct (Hget "prod-001" (λ _, 8%Z)) as (p & resp & H1 & _ & H2); [rewrite Hd; apply not_elem_of_empty|].
  exists s, l, p, resp. split; [exact (f_equal (λ x, x.1.1.2) H)|]. split; [exact H1|].
  split; [exact (f_equal snd H)|exact H2].
Defined.
End ApiServer.
