(* ===== verification/ApiHttp.v ===== *)
(** The API over HTTP: what the handlers of [src/internal/api] write, byte for
    byte ([writeJSON] and [writeError] of [handler.go], the encoders of
    [debug.go], the pages of [server.go]), and how a request line selects a route
    and its parameters. The headers [net/http] adds on its own ([Date],
    [Content-Length]) are left out. *)
From S2P Require Import Prelude GoStrings Json GoFmt Debug Db DbSetup Api ApiServer Proxy.
From Stdlib Require Import Ascii.

Module ApiHttp.
Import Json.

(** ** Requests *)

(** The segments of a clean path without escapes: [/products/p1] has two. *)
Definition path_segments (uri : string) : list string :=
  match Split (Proxy.uri_path uri) "/"%char with
  | "" :: segments => segments
  | segments => segments
  end.

(** [r.URL.Query().Get(key)] for a query without escapes: the value of the first
    field with this name. *)
Definition query_get (uri key : string) : string :=
  match cut uri "?"%char with
  | None => ""
  | Some (_, query) =>
      let named field :=
        match cut field "="%char with
        | Some (k, v) => if decide (k = key) then Some v else None
        | None => if decide (field = key) then Some "" else None
        end in
      default "" (head (omap named (Split query "&"%char)))
  end.

(** ** Responses *)

Definition json_header : gmap string (list string) := {[ "Content-Type" := ["application/json"] ]}.

(** [json.NewEncoder(w).Encode(v)]: the value and a newline, or nothing when it
    does not marshal. *)
Definition Encode (v : option string) : bytes :=
  from_option (λ t, Proxy.text_body (t +:+ GoFmt.nl)) [] v.

Definition writeJSON (status : Z) (v : option string) : Proxy.response :=
  Proxy.mk_response status json_header (Encode v).

Definition writeError (status : Z) (msg : string) : Proxy.response :=
  writeJSON status (Some (encode_object [("error", encode_string msg)])).

Definition encode_status (n : Debug.NodeStatus) : string :=
  encode_object
    ([("node_id", encode_string (Debug.NodeID n)); ("healthy", encode_bool (Debug.Healthy n));
      ("is_coordinator", encode_bool (Debug.IsCoordinator n)); ("entry_count", pretty (Debug.EntryCount n));
      ("hit_count", pretty (Debug.HitCount n)); ("miss_count", pretty (Debug.MissCount n));
      ("eviction_count", pretty (Debug.EvictionCount n))] ++
     (if decide (Debug.Error n = "") then [] else [("error", encode_string (Debug.Error n))])).

(** [ClusterStatusResponse]. *)
Definition encode_cluster (r : list Debug.NodeStatus * string) : string :=
  encode_object [("nodes", brackets (encode_status <$> r.1)); ("coordinator", encode_string r.2)].

Definition encode_report (r : Debug.CacheDebugResponse) : string :=
  encode_object
    [("key", encode_string (Debug.Key r)); ("owner_node", encode_string (Debug.OwnerNode r));
     ("owner_addr", encode_string (Debug.OwnerAddr r)); ("in_cache", encode_bool (Debug.InCache r));
     ("cache_status", encode_string (Debug.CacheStatus r));
     ("is_coordinator", encode_bool (Debug.OwnerIsCoordinator r))].

(** The methods the mux has for a path, as the [Allow] header lists them. *)
Definition allowed (path : list string) : string :=
  match path with
  | [a] => if decide (a = "products") then "GET, HEAD, POST" else "GET, HEAD"
  | [a; _] => if decide (a = "products") then "GET, HEAD, PUT" else "GET, HEAD"
  | _ => "GET, HEAD"
  end.

Definition status_name (s : Api.cache_status) : string :=
  match s with Api.HIT => "HIT" | Api.MISS => "MISS" end.

Section Render.
Context `{!Api.JSON}.

Definition Marshal_text (p : Api.Product) : option string :=
  String.string_of_list_byte <$> Api.Marshal p.

(** The value a handler passes to [writeJSON]. *)
Definition json_of (b : Api.http_body) : option string :=
  match b with
  | Api.BProduct p => Marshal_text p
  | Api.BList ps page pageSize total =>
      l ← mapM Marshal_text ps;
      Some (encode_object [("products", brackets l); ("page", pretty page);
                           ("page_size", pretty pageSize); ("total_count", pretty total)])
  | Api.BError msg => Some (encode_object [("error", encode_string msg)])
  end.

Definition write_products (r : Api.http_response) : Proxy.response :=
  let resp := writeJSON (Api.code r) (json_of (Api.payload r)) in
  match Api.x_cache r with
  | Some st => Proxy.mk_response (Proxy.status resp)
                 (<["X-Cache" := [status_name st]]> (Proxy.header resp)) (Proxy.body resp)
  | None => resp
  end.

Definition render (route : ApiServer.route) (path : list string) (a : ApiServer.http_answer)
    : Proxy.response :=
  match a with
  | ApiServer.Products r => write_products r
  | ApiServer.KeyReport (inl r) => writeJSON 200 (Some (encode_report r))
  | ApiServer.KeyReport (inr msg) => writeError 400 msg
  | ApiServer.Status r => writeJSON 200 (Some (encode_cluster r))
  | ApiServer.Page text =>
      Proxy.mk_response 200
        {[ "Content-Type" := [match route with ApiServer.RouteMetrics => "text/plain" | _ => "application/json" end] ]}
        (Proxy.text_body text)
  | ApiServer.Refused code =>
      if (code =? 404)%Z then Proxy.http_error "404 page not found" 404
      else
        let r := Proxy.http_error "Method Not Allowed" code in
        Proxy.mk_response (Proxy.status r) (<["Allow" := [allowed path]]> (Proxy.header r)) (Proxy.body r)
  end.

(** The response to a [HEAD] goes out without its body. *)
Definition on_the_wire (method : string) (r : Proxy.response) : Proxy.response :=
  if decide (method = "HEAD") then Proxy.mk_response (Proxy.status r) (Proxy.header r) [] else r.
End Render.

(** A request as the API process serves it; the bodies decode as the two
    functions say. *)
Section Serve.
Context {D : Type} `{!Db.Postgres D, !DbSetup.PgServer D, !Api.JSON}.
Context (decode_update : bytes → Db.ProductUpdateRequest + string)
        (decode_create : bytes → Api.Product + string).

Definition request_of (now : Clock) (order : list string) (r : Proxy.request) : ApiServer.http_request :=
  let uri := Proxy.req_uri r in
  ApiServer.mk_http_request (Proxy.req_method r) (path_segments uri) (query_get uri "page")
    (query_get uri "pageSize") (decode_update (Proxy.req_body r)) (decode_create (Proxy.req_body r))
    now order.

Definition respond (fetch : string → Debug.reply) (now : Clock) (order : list string)
    (r : Proxy.request) (s : ApiServer.Server D)
    : option (ApiServer.Server D * ApiServer.http_answer * Proxy.response) :=
  let req := request_of now order r in
  '(s', _, a) ← ApiServer.serve fetch s req;
  let path := ApiServer.path req in
  Some (s', a, on_the_wire (Proxy.req_method r)
                 (render (ApiServer.route_of (Proxy.req_method r) path) path a)).
End Serve.
End ApiHttp.
