(* ===== verification/Stack.v ===== *)
(** The whole read path: the caching proxy of [src/internal/proxy] in front of
    the API process of [src/cmd/api], its cache and its database. Requests come
    in one after another; the network between proxy and API may lose a request or
    a reply. *)
From S2P Require Import Prelude Policy Lru Cache GoStrings Json Ring Debug Invalidation Db DbSetup Api ApiServer Proxy ApiHttp.
From Stdlib Require Import Ascii.

Module Stack.
Import ApiHttp.

(** ** The composed system *)

(** What becomes of a request the proxy forwards. *)
Inductive network :=
| Delivered   (* the API serves it and the reply arrives *)
| NotReached  (* the API does not see it *)
| ReplyLost   (* the API serves it, the proxy gives up waiting *)
| BodyLost.   (* the reply breaks off in its body *)

(** A request to the proxy, with the clocks the two processes read, and the order
    in which the API's ring lists its nodes. *)
Record exchange := mk_exchange {
  e_now : Clock;
  e_api : Clock;
  e_net : network;
  e_order : list string;
  e_req : Proxy.request
}.

Section Stack.
Context {D : Type} `{!Db.Postgres D, !DbSetup.PgServer D, !Api.JSON}.
Context (decode_update : bytes → Db.ProductUpdateRequest + string)
        (decode_create : bytes → Api.Product + string)
        (fetch : string → Debug.reply) (dashboardHTML : string).

Record stack := mk_stack { front : Proxy.Proxy; back : ApiServer.Server D }.

(** The call of the proxy to the API: the server afterwards, and the outcome with
    the API's answer, if it served the request. *)
Definition upstream (x : exchange) (r : Proxy.request) (s : ApiServer.Server D)
    : option (ApiServer.Server D * option ApiServer.http_answer * Proxy.outcome) :=
  match e_net x with
  | NotReached => Some (s, None, Proxy.Unreachable)
  | net =>
      '(s', a, resp) ← respond decode_update decode_create fetch (e_api x) (e_order x) r s;
      Some (s', Some a, match net with
                        | Delivered => Proxy.Responded resp
                        | BodyLost => Proxy.BodyError
                        | _ => Proxy.Unreachable
                        end)
  end.

(** What an exchange leaves behind: the API process, its answer if it was asked,
    where the client's answer came from, and that answer. *)
Record event := mk_event {
  ev_back : ApiServer.Server D;
  ev_api : option ApiServer.http_answer;
  ev_source : Proxy.source;
  ev_resp : Proxy.response
}.

(** One exchange. The upstream is called at most once, and its state moves only
    if it is: [Proxy.Handler] is run with the outcome the call has, and the
    source of its answer tells whether it made the call. [None] is a panic of the
    API on a request it was asked. *)
Definition asked (src : Proxy.source) : bool :=
  match src with Proxy.FromCache | Proxy.FromProxy => false | _ => true end.

Definition stack_step (x : exchange) (st : stack) : option (stack * event) :=
  let called := upstream x (Proxy.forwardToUpstream (front st) (e_req x)).2 (back st) in
  let out := from_option snd Proxy.Unreachable called in
  let '(p', (src, resp)) := Proxy.Handler dashboardHTML (e_now x) (λ _, out) (e_req x) (front st) in
  if asked src then
    '(s', a, _) ← called;
    Some (mk_stack p' s', mk_event s' a src resp)
  else Some (mk_stack p' (back st), mk_event (back st) None src resp).

Fixpoint stack_run (st : stack) (xs : list exchange) : option (list event) :=
  match xs with
  | [] => Some []
  | x :: xs =>
      '(st', e) ← stack_step x st;
      es ← stack_run st' xs;
      Some (e :: es)
  end.

(** The products an update of which the API answered with 503. *)
Definition event_doubt (x : exchange) (e : event) : gset string :=
  match ev_api e with
  | Some a => ApiServer.in_doubt (request_of decode_update decode_create (e_api x) (e_order x)
                (Proxy.forwardToUpstream (Proxy.mk_Proxy ∅ "") (e_req x)).2) a
  | None => ∅
  end.
Fixpoint doubts (xs : list exchange) (es : list event) : gset string :=
  match xs, es with
  | x :: xs, e :: es => event_doubt x e ∪ doubts xs es
  | _, _ => ∅
  end.
End Stack.
Arguments stack : clear implicits.
Arguments event : clear implicits.

(** ** Product pages *)

(** An identifier that is a path segment without escapes. *)
Definition id_ok (id : string) : Prop :=
  id ≠ "" ∧ ∀ a, a ∈ String.list_ascii_of_string id → a ∉ ["/"; "?"; "%"]%char.

Definition product_uri (id : string) : string := "/products/" +:+ id.

Lemma Index_none s c : c ∉ String.list_ascii_of_string s → Index s c = None.
Proof.
  induction s as [|a s IH]; [done|]. simpl. intros Hc. rewrite decide_False by set_solver.
  rewrite IH by set_solver. done.
Qed.

Lemma product_uri_path id : id_ok id →
  Proxy.uri_path (product_uri id) = product_uri id ∧ path_segments (product_uri id) = ["products"; id].
Proof.
  intros [_ Hid].
  assert (Proxy.uri_path (product_uri id) = product_uri id) as E.
  { unfold Proxy.uri_path. rewrite Index_none; [done|].
    change (String.list_ascii_of_string (product_uri id))
      with (String.list_ascii_of_string "/products/" ++ String.list_ascii_of_string id).
    intros [H|H]%elem_of_app; [by vm_compute in H; set_solver|]. by apply (Hid _ H); set_solver. }
  split; [done|]. unfold path_segments. rewrite E.
  change (Split (product_uri id) "/"%char) with
    ("" :: match "" :: Split id "/"%char with
           | piece :: rest => ("products" +:+ piece) :: rest | [] => [] end).
  rewrite Proxy.Split_none; [done|]. intros H. by apply (Hid _ H); set_solver.
Qed.

(** ** Proxied reads are recent *)

(** What one request does to the proxy, by where its answer comes from. *)
Lemma ServeHTTP_cases now out r p :
  let '(p', (src, resp)) := Proxy.ServeHTTP now (λ _, out) r p in
  (∀ k c, Proxy.store p' !! k = Some c → Proxy.store p !! k = Some c ∨
     k = Proxy.req_uri r ∧ src = Proxy.FromUpstream ∧
     ∃ u, out = Proxy.Responded u ∧ Proxy.cacheable u = true ∧ c = Proxy.cached_of (λ i, now (2 + i)) u) ∧
  match src with
  | Proxy.FromCache | Proxy.FromStale =>
      ∃ i c, i ≤ 2 ∧ Proxy.store p !! Proxy.req_uri r = Some c ∧ Proxy.IsExpired c (now i) = false ∧
             resp = Proxy.serveCached c
  | Proxy.FromUpstream => ∃ u, out = Proxy.Responded u ∧ Proxy.status resp = Proxy.status u ∧
                               Proxy.body resp = Proxy.body u
  | _ => Proxy.status resp ≠ 200%Z
  end.
Proof.
  unfold Proxy.ServeHTTP. pose proof (Proxy.store_Get_spec now (Proxy.req_uri r) (Proxy.store p)) as Hg.
  destruct (Proxy.store_Get now _ _) as [s1 [c|]]; destruct Hg as [Hsub Hhit].
  { destruct (Hhit c eq_refl). split; [eauto|]. exists 0, c. split; [lia|done]. }
  destruct out as [| |u]; [|split; [eauto|done]|].
  - pose proof (Proxy.store_Get_spec (λ i, now (2 + i)) (Proxy.req_uri r) s1) as Hg2.
    destruct (Proxy.store_Get (λ i, now (2 + i)) _ s1) as [s2 [c|]]; destruct Hg2 as [Hsub2 Hhit2].
    + destruct (Hhit2 c eq_refl). split; [eauto|]. exists 2, c. split; [lia|]. auto.
    + split; [eauto|done].
  - split; [|by exists u]. intros k c. simpl. destruct (Proxy.cacheable u) eqn:Hc; [|by auto].
    unfold Proxy.store_Set. rewrite lookup_insert. destruct (decide _) as [<-|]; [|by auto].
    intros [= <-]. right. eauto 6.
Qed.

Lemma Handler_cases dashboardHTML now out r p :
  (∃ resp, Proxy.Handler dashboardHTML now (λ _, out) r p = (p, (Proxy.FromProxy, resp)) ∧
           ∀ id, id_ok id → Proxy.req_uri r ≠ product_uri id) ∨
  Proxy.Handler dashboardHTML now (λ _, out) r p = Proxy.ServeHTTP now (λ _, out) r p.
Proof.
  assert (∀ path, path ∈ ["/health"; "/metrics"; "/"; ""] →
    Proxy.uri_path (Proxy.req_uri r) = path → ∀ id, id_ok id → Proxy.req_uri r ≠ product_uri id) as Hno.
  { intros path Hin Hp id Hid E. rewrite E, (proj1 (product_uri_path id Hid)) in Hp. rewrite <-Hp in Hin.
    repeat (apply elem_of_cons in Hin as [Hin|Hin]; [discriminate Hin|]). by apply elem_of_nil in Hin. }
  unfold Proxy.Handler.
  destruct (_ && bool_decide (_ = "/health")) eqn:E1.
  { left. eexists. split; [done|]. apply andb_prop in E1 as [_ E1%bool_decide_eq_true].
    apply (Hno "/health"); [set_solver|done]. }
  destruct (_ && bool_decide (_ = "/metrics")) eqn:E2.
  { left. eexists. split; [done|]. apply andb_prop in E2 as [_ E2%bool_decide_eq_true].
    apply (Hno "/metrics"); [set_solver|done]. }
  destruct (bool_decide (_ = "/") || _) eqn:E3; [|by right].
  left. eexists. split; [done|]. apply orb_prop in E3 as [E3|E3]; apply bool_decide_eq_true in E3.
  - apply (Hno "/"); [set_solver|done].
  - apply (Hno ""); [set_solver|done].
Qed.

Section Recent.
Context {D : Type} `{!Db.Postgres D, !Db.PostgresSpec D, !DbSetup.PgServer D, !Api.JSON}.
Context (decode_update : bytes → Db.ProductUpdateRequest + string)
        (decode_create : bytes → Api.Product + string)
        (fetch : string → Debug.reply) (dashboardHTML : string).
Implicit Types (s : ApiServer.Server D) (st : stack D) (e : event D) (T : gset string).
Local Abbreviation req_of x := (request_of decode_update decode_create (e_api x) (e_order x)).

(** The page of a product: what a 200 carries. *)
Definition shows s (id : string) (text : bytes) : Prop :=
  ∃ p, Api.row (ApiServer.products s) id = Some p ∧ text = Encode (Marshal_text p).

Lemma respond_ok T now order r s :
  ApiServer.server_ok T s →
  ∃ s' a resp, respond decode_update decode_create fetch now order r s = Some (s', a, resp) ∧
    ApiServer.server_ok (ApiServer.in_doubt (request_of decode_update decode_create now order r) a ∪ T) s'.
Proof.
  intros Hok. unfold respond.
  destruct (ApiServer.serve_ok fetch T s (request_of decode_update decode_create now order r) Hok)
    as (s' & t & a & -> & Hok'). bind. eauto.
Qed.

Lemma route_product m id : id ≠ "" → m ≠ "HEAD" →
  ApiServer.route_of m ["products"; id] =
    if decide (m = "GET") then ApiServer.RouteGetProduct id
    else if decide (m = "PUT") then ApiServer.RouteUpdateProduct id else ApiServer.MethodNotAllowed.
Proof.
  intros Hid Hm. unfold ApiServer.route_of. rewrite decide_True by done.
  rewrite (bool_decide_false (m = "HEAD")) by done. rewrite orb_false_r.
  destruct (decide (m = "GET")); [by rewrite bool_decide_true|by rewrite bool_decide_false].
Qed.

Lemma on_the_wire_id m r : m ≠ "HEAD" → on_the_wire m r = r.
Proof. intros Hm. unfold on_the_wire. by rewrite decide_False. Qed.

Lemma write_products_facts r :
  Proxy.status (write_products r) = Api.code r ∧
  Proxy.body (write_products r) = Encode (json_of (Api.payload r)) ∧
  Proxy.header_get (Proxy.header (write_products r)) "Cache-Control" = "".
Proof. by destruct r as [c [[]|] b]. Qed.

Lemma handle_put_row T now id req s ca' t resp :
  Api.ca_inv T (ApiServer.products s) →
  Api.handle_put now id req (ApiServer.products s) = Some (ca', t, resp) →
  (200 ≤ Api.code resp < 300)%Z →
  Api.code resp = 200%Z ∧ ∃ p, Api.row ca' id = Some p ∧ Api.payload resp = Api.BProduct p.
Proof.
  intros [Hinv _]. unfold Api.handle_put. destruct req as [req|err]; [|intros [= <- <- <-]; simpl; lia].
  unfold Api.UpdateProduct. set (ca := ApiServer.products s) in *.
  destruct (Api.UpdateProduct_write_spec id req ca) as (d & [p|e] & -> & Hrow); bind.
  - destruct (Api.UpdateProduct_notify_frame now id p (Api.with_db ca d)) as (c & t' & -> & _); [done|]. bind.
    intros [= <- <- <-] _. split; [done|]. exists p. split; [|done]. by apply Hrow.
  - destruct e; intros [= <- <- <-]; simpl; lia.
Qed.

(** The API's answer on the page of a product: never with [Cache-Control], and a
    success is a 200 with the row as the request leaves it. *)
Lemma respond_product T now order r s id :
  ApiServer.server_ok T s → id_ok id → Proxy.req_uri r = product_uri id → Proxy.req_method r ≠ "HEAD" →
  ∃ s' a resp, respond decode_update decode_create fetch now order r s = Some (s', a, resp) ∧
    ((200 ≤ Proxy.status resp < 300)%Z →
     Proxy.status resp = 200%Z ∧ Proxy.header_get (Proxy.header resp) "Cache-Control" = "" ∧
     (id ∉ T → shows s' id (Proxy.body resp))).
Proof.
  intros (Hinv & Hst & _) Hid Huri Hm. destruct (product_uri_path id Hid) as [_ Hpath].
  unfold respond, request_of. rewrite Huri, Hpath. unfold ApiServer.serve.
  cbn [ApiServer.method ApiServer.path ApiServer.now ApiServer.update_body].
  rewrite (route_product _ id) by (done || apply Hid).
  destruct (decide (Proxy.req_method r = "GET")).
  - unfold Api.handle_get.
    destruct (Api.GetProduct_coherent T now id _ Hinv) as (ca' & r' & -> & _ & _ & Ht & Hr). bind.
    eexists _, _, _. split; [done|]. rewrite on_the_wire_id by done. cbn [render]. intros Hcode.
    destruct (write_products_facts (match r' with
      | inl (p, st) => Api.mk_http 200 (Some st) (Api.BProduct p)
      | inr Api.NotFound => Api.writeError 404 "product not found"
      | inr Api.Unavailable => Api.writeError 503 "service temporarily unavailable" end)) as (Hs & Hb & Hh).
    rewrite Hs, Hb, Hh in *. destruct r' as [[p c]|[]]; simpl in Hcode; try lia.
    split; [done|]. split; [done|]. intros HT. exists p. split; [|done].
    simpl. unfold Api.row. rewrite Ht. destruct c; [by apply Hr|exact Hr].
  - destruct (decide (Proxy.req_method r = "PUT")).
    + destruct (Api.serve_coherent T (Api.RPut now id (decode_update (Proxy.req_body r))) _ Hinv Hst)
        as (ca' & resp & Hr & _). simpl in Hr.
      destruct (Api.handle_put _ _ _ _) as [[[ca1 t] resp1]|] eqn:Hput; [|done]. bind.
      eexists _, _, _. split; [done|]. rewrite on_the_wire_id by done. cbn [render]. intros Hcode.
      destruct (write_products_facts resp1) as (Hs & Hb & Hh). rewrite Hs, Hb, Hh in *.
      destruct (handle_put_row T _ _ _ _ _ _ _ Hinv Hput Hcode) as (Hc & p & Hp & Hpay).
      split; [done|]. split; [done|]. intros _. exists p. split; [done|]. by rewrite Hpay.
    + eexists _, _, _. split; [done|]. rewrite on_the_wire_id by done. simpl. lia.
Qed.

(** A page seen at [x] is the one the API had after some exchange of [hist], at
    most five minutes before. *)
Definition recent (hist : list (exchange * event D)) (x : exchange) (id : string) (text : bytes) : Prop :=
  ∃ y f, (y, f) ∈ hist ∧ shows (ev_back f) id text ∧ (e_now x 0 ≤ e_now y 3 + Proxy.defaultCacheTTL)%Z.

(** Every stored page of a product outside [T] comes from an exchange of [hist]
    and expires five minutes after it. *)
Definition pages_ok T (hist : list (exchange * event D)) (store : gmap string Proxy.CachedHTTPResponse) : Prop :=
  ∀ id c, id_ok id → id ∉ T → store !! product_uri id = Some c →
    ∃ y f, (y, f) ∈ hist ∧ shows (ev_back f) id (Proxy.Body c) ∧ (0 ≤ e_now y 3)%Z ∧
           Proxy.ExpiresAt c = Add (e_now y 3) Proxy.defaultCacheTTL.

Definition clock_ok (x : exchange) : Prop := monotone (e_now x) ∧ (0 ≤ e_now x 0)%Z.

Lemma pages_ok_mono T hist hist' store store' :
  pages_ok T hist store → hist ⊆ hist' → (∀ k c, store' !! k = Some c → store !! k = Some c) →
  pages_ok T hist' store'.
Proof.
  intros Hp Hh Hsub id c Hid HT Hc. destruct (Hp id c Hid HT (Hsub _ _ Hc)) as (y & f & Hin & ?).
  exists y, f. split; [by apply Hh|done].
Qed.

Lemma upstream_ok T x r s :
  ApiServer.server_ok T s →
  ∃ s' a out, upstream decode_update decode_create fetch x r s = Some (s', a, out) ∧
    ApiServer.server_ok (from_option (ApiServer.in_doubt (req_of x r)) ∅ a ∪ T) s'.
Proof.
  intros Hok. unfold upstream.
  destruct (respond_ok T (e_api x) (e_order x) r s Hok) as (s' & a & resp & Hr & Hok').
  destruct (e_net x); [|by eexists _, _, _; split; [done|]; simpl; autorewrite with go|..];
    rewrite Hr; bind; by eexists _, _, _.
Qed.

(** The outcome of a call for the page of a product. *)
Lemma upstream_product T x r s s' a u id :
  ApiServer.server_ok T s → id_ok id → Proxy.req_uri r = product_uri id → Proxy.req_method r ≠ "HEAD" →
  upstream decode_update decode_create fetch x r s = Some (s', a, Proxy.Responded u) →
  (200 ≤ Proxy.status u < 300)%Z →
  Proxy.status u = 200%Z ∧ Proxy.header_get (Proxy.header u) "Cache-Control" = "" ∧
  (id ∉ T → shows s' id (Proxy.body u)).
Proof.
  intros Hok Hid Huri Hm. unfold upstream.
  destruct (respond_product T (e_api x) (e_order x) r s id Hok Hid Huri Hm) as (s1 & a1 & resp & Hr & Hpage).
  destruct (e_net x); rewrite ?Hr; bind; intros [=]; subst. by apply Hpage.
Qed.

(** An exchange the proxy does not answer on its own. *)
Lemma stack_step_event T0 x st p' src resp s' a out :
  ApiServer.server_ok T0 (back st) →
  upstream decode_update decode_create fetch x (Proxy.forwardToUpstream (front st) (e_req x)).2 (back st) =
    Some (s', a, out) →
  Proxy.Handler dashboardHTML (e_now x) (λ _, out) (e_req x) (front st) = (p', (src, resp)) →
  ∃ e, stack_step decode_update decode_create fetch dashboardHTML x st = Some (mk_stack p' (ev_back e), e) ∧
    ev_resp e = resp ∧ ApiServer.server_ok (event_doubt decode_update decode_create x e ∪ T0) (ev_back e) ∧
    (asked src = true → ev_back e = s').
Proof.
  intros Hok Hup Hh. destruct (upstream_ok T0 x (Proxy.forwardToUpstream (front st) (e_req x)).2 (back st) Hok) as (s1 & a1 & out1 & Hup1 & Hok1).
  rewrite Hup in Hup1. injection Hup1 as <- <- <-.
  unfold stack_step. rewrite Hup. cbn [from_option snd]. rewrite Hh. destruct (asked src); bind.
  - exists (mk_event s' a src resp). by split_and!.
  - exists (mk_event (back st) None src resp). split_and!; try done.
    cbn [event_doubt ev_api ev_back]. by autorewrite with go.
Qed.

(** A page served from the store. *)
Lemma stored_recent T hist x id c i store :
  pages_ok T hist store → clock_ok x → id_ok id → id ∉ T → store !! product_uri id = Some c →
  Proxy.IsExpired c (e_now x i) = false → recent hist x id (Proxy.body (Proxy.serveCached c)).
Proof.
  intros Hpages [Hmono Hpos] Hid HT Hc Hex.
  destruct (Hpages id c Hid HT Hc) as (y & f & Hin & Hshow & Hy & Hexp).
  exists y, f. split; [done|]. split; [done|]. pose proof (Hmono 0 i).
  unfold Proxy.IsExpired, IsZero, After, time_zero in Hex. rewrite Hexp in Hex.
  unfold Add, Proxy.defaultCacheTTL, Minute, Second in *. lia.
Qed.

Lemma recent_mono hist hist' x id text : hist ⊆ hist' → recent hist x id text → recent hist' x id text.
Proof. intros Hh (y & f & Hin & ?). exists y, f. split; [by apply Hh|done]. Qed.

Lemma stack_step_recent T T0 hist x st :
  ApiServer.server_ok T0 (back st) → clock_ok x → Proxy.req_method (e_req x) ≠ "HEAD" →
  ∃ st' e, stack_step decode_update decode_create fetch dashboardHTML x st = Some (st', e) ∧
    ApiServer.server_ok (event_doubt decode_update decode_create x e ∪ T0) (back st') ∧
    (T0 ⊆ T → pages_ok T hist (Proxy.store (front st)) →
     pages_ok T (hist ++ [(x, e)]) (Proxy.store (front st')) ∧
      ∀ id, Proxy.req_uri (e_req x) = product_uri id → id_ok id → id ∉ T →
            Proxy.status (ev_resp e) = 200%Z → recent (hist ++ [(x, e)]) x id (Proxy.body (ev_resp e))).
Proof.
  intros Hok Hclock Hm. pose proof Hclock as [Hmono Hpos].
  destruct (upstream_ok T0 x (Proxy.forwardToUpstream (front st) (e_req x)).2 (back st) Hok)
    as (s' & a & out & Hup & _).
  destruct (Proxy.Handler dashboardHTML (e_now x) (λ _, out) (e_req x) (front st)) as [p' [src resp]] eqn:Hh.
  destruct (stack_step_event T0 x st p' src resp s' a out Hok Hup Hh) as (e & Hstep & Her & Hoke & Hback).
  eexists _, e. split; [exact Hstep|]. split; [exact Hoke|]. intros HT Hpages. rewrite Her.
  assert (hist ⊆ hist ++ [(x, e)]) as Hsub by set_solver.
  destruct (Handler_cases dashboardHTML (e_now x) out (e_req x) (front st)) as [(resp' & E & Hno)|E]; rewrite Hh in E.
  { injection E as -> -> ->. split; [by eapply pages_ok_mono|]. intros id Hu Hid. by destruct (Hno id Hid). }
  pose proof (ServeHTTP_cases (e_now x) out (e_req x) (front st)) as Hserve. rewrite <-E in Hserve.
  destruct Hserve as [Hstore Hsrc].
  assert (Hpage : ∀ id u, out = Proxy.Responded u → src = Proxy.FromUpstream →
    Proxy.req_uri (e_req x) = product_uri id → id_ok id → id ∉ T → (200 ≤ Proxy.status u < 300)%Z →
    shows (ev_back e) id (Proxy.body u) ∧ Proxy.header_get (Proxy.header u) "Cache-Control" = "").
  { intros id u -> -> Huri Hid Hnot Hcode.
    destruct (upstream_product T0 x _ (back st) s' a u id Hok Hid Huri Hm Hup Hcode) as (_ & Hcc & Hshow).
    rewrite Hback by done. split; [apply Hshow; set_solver|done]. }
  split.
  - intros id c Hid Hnot Hc. destruct (Hstore _ _ Hc) as [Hold|(Huri & Hsrc' & u & Hu & Hcache & ->)].
    { eapply (pages_ok_mono T hist _ (Proxy.store (front st))); eauto. }
    unfold Proxy.cacheable in Hcache. apply andb_prop in Hcache as [_ Hcode].
    destruct (Hpage id u Hu Hsrc' (eq_sym Huri) Hid Hnot) as [Hshow Hcc]; [lia|].
    exists x, e. split; [set_solver|]. split; [exact Hshow|]. split; [pose proof (Hmono 0 3); lia|].
    unfold Proxy.cached_of. by rewrite Hcc.
  - intros id Huri Hid Hnot Hstatus. rewrite Huri in Hsrc.
    destruct src; [|destruct Hsrc as (u & Hu & Hs & ->)| |done|done];
      try (destruct Hsrc as (i & c & _ & Hc & Hex & ->); eapply recent_mono; [exact Hsub|];
           by eapply (stored_recent T hist x id c i)).
    destruct (Hpage id u Hu eq_refl Huri Hid Hnot) as [Hshow _]; [lia|].
    exists x, e. split; [set_solver|]. split; [done|]. pose proof (Hmono 0 3).
    unfold Proxy.defaultCacheTTL, Minute, Second. lia.
Qed.

Lemma stack_run_recent T xs : ∀ hist T0 st,
  ApiServer.server_ok T0 (back st) → (T0 ⊆ T → pages_ok T hist (Proxy.store (front st))) →
  (∀ x, x ∈ xs → clock_ok x ∧ Proxy.req_method (e_req x) ≠ "HEAD") →
  ∃ es, stack_run decode_update decode_create fetch dashboardHTML st xs = Some es ∧
    length es = length xs ∧
    (doubts decode_update decode_create xs es ∪ T0 ⊆ T →
     ∀ i x e id, zip xs es !! i = Some (x, e) → Proxy.req_uri (e_req x) = product_uri id → id_ok id →
       id ∉ T → Proxy.status (ev_resp e) = 200%Z →
       recent (hist ++ take (S i) (zip xs es)) x id (Proxy.body (ev_resp e))).
Proof.
  induction xs as [|x xs IH]; intros hist T0 st Hok Hpages Hxs; [by exists []|].
  destruct (Hxs x) as [Hclock Hm]; [by left|].
  destruct (stack_step_recent T T0 hist x st Hok Hclock Hm) as (st' & e & Hstep & Hok' & Hrec).
  destruct (IH (hist ++ [(x, e)]) _ st' Hok') as (es & Hrun & Hlen & Hes).
  { intros HT. apply Hrec; [set_solver|]. apply Hpages. set_solver. }
  { intros y Hy. apply Hxs. by right. }
  exists (e :: es). cbn [stack_run]. rewrite Hstep. bind. rewrite Hrun. split; [done|].
  split; [simpl; congruence|]. cbn [doubts zip_with]. intros HT [|i] x' e' id Hi; simpl in Hi.
  - injection Hi as <- <-. apply Hrec; [set_solver|]. apply Hpages. set_solver.
  - change (hist ++ take (S (S i)) ((x, e) :: zip xs es)) with (hist ++ [(x, e)] ++ take (S i) (zip xs es)).
    rewrite (assoc_L (++)). apply Hes; [set_solver|done].
Qed.
End Recent.

(** C17: what a client of the proxy sees is at most five minutes old, as long as
    nobody sends a [HEAD] request. Let the API process start with any environment
    that selects write-through, behind a proxy with an empty store, and let requests
    come in one after another, on any URIs and with any methods but [HEAD], whose
    empty answer the proxy would store as the page ([other_methods_poison_pages]),
    while the network between the two loses what it likes and the clock does not run
    backwards during a request. No request panics, and whenever the page of a
    product, whose identifier is a path segment without escapes, is answered with
    200, by the API or from the proxy's store, its body is the product's row as the
    database had it after this exchange or after an earlier one at most five minutes
    before. Not promised of products an update of which was answered with 503 by the
    API. *)
Theorem proxied_reads_recent {D : Type} `{!Db.Postgres D, !Db.PostgresSpec D, !DbSetup.PgServer D, !Api.JSON}
    (decode_update : bytes → Db.ProductUpdateRequest + string) (decode_create : bytes → Api.Product + string)
    (fetch : string → Debug.reply) (dashboardHTML : string)
    (env : string → string) (base : string) (d d' : D) (s0 : ApiServer.Server D) (xs : list exchange)
    (Hmain : ApiServer.main env d = (d', inl s0))
    (Hs : Api.strategy (ApiServer.products s0) = Invalidation.WriteThrough)
    (Hxs : ∀ x, x ∈ xs → clock_ok x ∧ Proxy.req_method (e_req x) ≠ "HEAD") :
  ∃ es, stack_run decode_update decode_create fetch dashboardHTML (mk_stack (Proxy.NewProxy base) s0) xs = Some es ∧
    length es = length xs ∧
    ∀ i x e id, zip xs es !! i = Some (x, e) → Proxy.req_uri (e_req x) = product_uri id → id_ok id →
      id ∉ doubts decode_update decode_create xs es → Proxy.status (ev_resp e) = 200%Z →
      ∃ y f p, (y, f) ∈ take (S i) (zip xs es) ∧
        Api.row (ApiServer.products (ev_back f)) id = Some p ∧
        Proxy.body (ev_resp e) = Encode (Marshal_text p) ∧
        (e_now x 0 ≤ e_now y 3 + 300 * Second)%Z.
Proof.
  destruct (ApiServer.main_ok env d d' s0 Hmain Hs) as [Hok _].
  assert (∀ T, ∃ es, stack_run decode_update decode_create fetch dashboardHTML (mk_stack (Proxy.NewProxy base) s0) xs = Some es ∧
    length es = length xs ∧ (doubts decode_update decode_create xs es ∪ ∅ ⊆ T →
     ∀ i x e id, zip xs es !! i = Some (x, e) → Proxy.req_uri (e_req x) = product_uri id → id_ok id →
       id ∉ T → Proxy.status (ev_resp e) = 200%Z →
       recent ([] ++ take (S i) (zip xs es)) x id (Proxy.body (ev_resp e)))) as Hrun.
  { intros T. apply stack_run_recent; [done| |done]. intros _ id c _ _ Hc.
    cbn [front Proxy.store Proxy.NewProxy] in Hc. unfold Proxy.NewResponseStore in Hc. by rewrite lookup_empty in Hc. }
  destruct (Hrun ∅) as (es & Hes & Hlen & _). exists es. split; [done|]. split; [done|].
  intros i x e id Hi Huri Hid Hnot Hst.
  destruct (Hrun (doubts decode_update decode_create xs es)) as (es' & Hes' & _ & Hrec).
  rewrite Hes in Hes'. injection Hes' as <-.
  destruct (Hrec ltac:(set_solver) i x e id Hi Huri Hid Hnot Hst) as (y & f & Hin & (p & Hp & Hb) & Ht).
  exists y, f, p. done.
Qed.

(** A page in the store answers whatever is asked of its URI, and the API is left
    alone. *)
Lemma stack_step_hit {D : Type} `{!Db.Postgres D, !DbSetup.PgServer D, !Api.JSON}
    decode_update decode_create fetch dashboardHTML x (st : stack D) id c :
  id_ok id → Proxy.req_uri (e_req x) = product_uri id →
  Proxy.store (front st) !! product_uri id = Some c → Proxy.IsExpired c (e_now x 0) = false →
  stack_step decode_update decode_create fetch dashboardHTML x st =
    Some (st, mk_event (back st) None Proxy.FromCache (Proxy.serveCached c)).
Proof.
  intros Hid Huri Hc Hx. unfold stack_step. set (out := from_option snd _ _).
  destruct (Handler_cases dashboardHTML (e_now x) out (e_req x) (front st)) as [(r & _ & Hno)| ->].
  { by destruct (Hno id Hid). }
  rewrite (Proxy.ServeHTTP_hit _ _ _ _ c) by (rewrite ?Huri; done). simpl. by destruct st.
Qed.

(** ** Concrete histories *)

(** Every update renames the product to [Earbuds]; creations are of one product. *)
Definition any_update (b : bytes) : Db.ProductUpdateRequest + string := inl (Api.rename "Earbuds").
Definition any_create (b : bytes) : Api.Product + string :=
  inl (Api.mk_Product "prod-011" "Lamp" "" 20 "decor" 0 0).

Definition visit (m uri : string) (t : Time) (net : network) : exchange :=
  mk_exchange (λ _, t) (λ _, t) net ["node-1"] (Proxy.mk_request m uri ∅ []).

(** A page is read and stored, the product is renamed under a URI that is not
    stored, one reply is lost, and the page is read again twice. *)
Definition visits : list exchange :=
  [visit "GET" "/products/prod-001" Second Delivered;
   visit "PUT" "/products/prod-001?v=2" (2 * Second) Delivered;
   visit "GET" "/products/prod-002" (3 * Second) ReplyLost;
   visit "GET" "/products/prod-001" (240 * Second) Delivered;
   visit "GET" "/products/prod-001" (302 * Second) Delivered].

Definition run_visits (xs : list exchange) : option (list (event Db.MemPg)) :=
  match ApiServer.main ApiServer.api_env (∅ : Db.MemPg) with
  | (_, inl s) =>
      stack_run any_update any_create ApiServer.no_network "" (mk_stack (Proxy.NewProxy "http://api:8081") s) xs
  | _ => None
  end.

Definition summary (es : list (event Db.MemPg)) : list (Proxy.source * Z * option string) :=
  (λ e, (ev_source e, Proxy.status (ev_resp e),
         Api.Name <$> Api.row (ApiServer.products (ev_back e)) "prod-001")) <$> es.

Definition text_of (e : event Db.MemPg) : string := String.string_of_list_byte (Proxy.body (ev_resp e)).

Lemma visits_facts :
  (λ es, (summary es, doubts any_update any_create visits es,
          bool_decide ((text_of <$> es) !! 0 = (text_of <$> es) !! 3),
          bool_decide ((text_of <$> es) !! 1 = (text_of <$> es) !! 4)))
  <$> run_visits visits =
  Some ([(Proxy.FromUpstream, 200%Z, Some "Wireless Headphones"); (Proxy.FromUpstream, 200%Z, Some "Earbuds");
         (Proxy.Failed, 503%Z, Some "Earbuds"); (Proxy.FromCache, 200%Z, Some "Earbuds");
         (Proxy.FromUpstream, 200%Z, Some "Earbuds")], ∅, true, true).
Proof. vm_compute. reflexivity. Qed.

Lemma prod_001_ok : id_ok "prod-001".
Proof.
  split; [done|]. intros a Ha. apply (bool_decide_eq_true_1 (a ∉ _)).
  repeat (apply elem_of_cons in Ha as [->|Ha]; [reflexivity|]). by apply elem_of_nil in Ha.
Qed.

Lemma proxied_reads_recent_witness :
  ∃ es e y f p, run_visits visits = Some es ∧ es !! 3 = Some e ∧ ev_source e = Proxy.FromCache ∧
    (y, f) ∈ take 4 (zip visits es) ∧ Api.row (ApiServer.products (ev_back f)) "prod-001" = Some p ∧
    Proxy.body (ev_resp e) = Encode (Marshal_text p) ∧ (240 * Second ≤ e_now y 3 + 300 * Second)%Z.
Proof.
  pose proof visits_facts as H. unfold run_visits in *.
  destruct (ApiServer.main ApiServer.api_env (∅ : Db.MemPg)) as [d' [s0|err]] eqn:Hmain; [|discriminate H].
  assert (Hs : Api.strategy (ApiServer.products s0) = Invalidation.WriteThrough).
  { pose proof ApiServer.session_facts as H1. rewrite Hmain in H1. cbn [mbind option_bind] in H1.
    destruct (ApiServer.serve_all _ s0 _) as [[s' l]|]; [|discriminate H1]. cbn [mbind option_bind] in H1.
    exact (f_equal (λ x, default Invalidation.TTL (fst ∘ fst ∘ fst <$> x)) H1). }
  destruct (proxied_reads_recent any_update any_create ApiServer.no_network "" ApiServer.api_env
    "http://api:8081" ∅ d' s0 visits Hmain Hs) as (es & Hes & Hlen & Hrec).
  { apply Forall_forall. repeat constructor; unfold e_now, visit, Second; try lia; done. }
  rewrite Hes in *. cbn [fmap option_fmap option_map] in H. apply (inj Some) in H.
  destruct es as [|e0 [|e1 [|e2 [|e3 [|e4 [|]]]]]]; try discriminate Hlen.
  pose proof (f_equal (λ x, x.1.1.1 !! 3) H) as H3. cbn in H3. injection H3 as Hsrc Hst _.
  pose proof (f_equal (λ x, x.1.1.2) H) as Hd. cbn [fst snd] in Hd.
  destruct (Hrec 3 (visit "GET" "/products/prod-001" (240 * Second) Delivered) e3 "prod-001")
    as (y & f & p & Hin & Hp & Hb & Ht); [reflexivity|reflexivity| | |exact Hst|].
  - exact prod_001_ok.
  - rewrite Hd. apply not_elem_of_empty.
  - eexists _, e3, y, f, p. split; [reflexivity|]. split; [reflexivity|]. split; [exact Hsrc|].
    split; [exact Hin|]. split; [exact Hp|]. split; [exact Hb|exact Ht].
Defined.

(** The store does not know methods. The answer to a [HEAD] is stored without a
    body and then served, as a 200, to readers of the page; and the answer to a
    [POST] is served to readers of the product list. *)
Theorem other_methods_poison_pages :
  (λ es : list (event Db.MemPg), (λ e, (ev_source e, Proxy.status (ev_resp e), text_of e)) <$> drop 1 es) <$>
    run_visits [visit "HEAD" "/products/prod-001" Second Delivered;
                visit "GET" "/products/prod-001" (2 * Second) Delivered] =
    Some [(Proxy.FromCache, 200%Z, "")] ∧
  (λ es : list (event Db.MemPg), (ev_source <$> es, (λ e, Proxy.status (ev_resp e)) <$> es,
          bool_decide ((text_of <$> es) !! 0 = (text_of <$> es) !! 1))) <$>
    run_visits [visit "POST" "/products" Second Delivered; visit "GET" "/products" (2 * Second) Delivered] =
    Some ([Proxy.FromUpstream; Proxy.FromCache], [201; 201]%Z, true).
Proof. split; vm_compute; reflexivity. Qed.
End Stack.
