(* ===== verification/GoNumbers.v ===== *)
(** The parts of Go's numeric standard library the simulators use: [float64]
    arithmetic, decimal formatting, and the SHA-256 digest of
    [crypto/sha256]. *)
From S2P Require Import Prelude.
From Stdlib Require Import SpecFloat Ascii.

(** ** float64 *)

(** IEEE 754 binary64 with rounding to nearest even, by the standard library's
    executable specification. *)
Abbreviation float64 := spec_float (only parsing).

Definition float_of_int (z : Z) : float64 := binary_normalize 53 1024 z 0 false.
Definition fmul : float64 → float64 → float64 := SFmul 53 1024.
Definition fdiv : float64 → float64 → float64 := SFdiv 53 1024.
Definition fadd : float64 → float64 → float64 := SFadd 53 1024.
Definition fsub : float64 → float64 → float64 := SFsub 53 1024.

(** The decimal constant [n / 10^k]: both numbers are exact, so the division is
    the correct rounding. *)
Definition decimal (n : Z) (k : nat) : float64 := fdiv (float_of_int n) (float_of_int (10 ^ Z.of_nat k)).

Definition fzero : float64 := S754_zero false.

(** An integer as a mantissa of any size, the operand of a correctly rounded
    quotient. *)
Definition unrounded (z : Z) : float64 :=
  match z with
  | Z0 => S754_zero false
  | Zpos p => S754_finite false p 0
  | Zneg p => S754_finite true p 0
  end.

(** [int64(v)]: truncation; what it gives out of range, and on NaN, depends on
    the machine. *)
Definition int_of_float (v : float64) : option Z :=
  match v with
  | S754_zero _ => Some 0%Z
  | S754_finite s m e =>
      let z := if (0 <=? e)%Z then (Z.pos m * 2 ^ e)%Z else (Z.pos m / 2 ^ (- e))%Z in
      let z := if s then (- z)%Z else z in
      if ((int64_min <=? z) && (z <=? int64_max))%Z then Some z else None
  | _ => None
  end.

(** ** Decimal text *)

(** [fmt.Sprintf("%0wd", z)] for [0 ≤ z]. *)
Definition pad_zeros (w : nat) (s : string) : string :=
  String.string_of_list_ascii (replicate (w - String.length s) "0"%char) +:+ s.

(** The nearest integer to [num / den], ties to the even one. *)
Definition round_half_even (num den : Z) : Z :=
  let q := (num / den)%Z in
  let r := (num mod den)%Z in
  if (2 * r <? den)%Z then q
  else if (den <? 2 * r)%Z then (q + 1)%Z
  else if Z.even q then q else (q + 1)%Z.

(** [m * 2^e * 10^prec] as a fraction. *)
Definition scaled (prec : nat) (m : positive) (e : Z) : Z * Z :=
  if (0 <=? e)%Z then (Z.pos m * 2 ^ e * 10 ^ Z.of_nat prec, 1)%Z
  else (Z.pos m * 10 ^ Z.of_nat prec, 2 ^ (- e))%Z.

(** The decimal [n / 10^prec] for [0 ≤ n]. *)
Definition fixed_text (prec : nat) (n : Z) : string :=
  let p := (10 ^ Z.of_nat prec)%Z in
  pretty (n / p)%Z +:+
  match prec with 0 => "" | _ => "." +:+ pad_zeros prec (pretty (n mod p)%Z) end.

(** [fmt.Sprintf("%.<prec>f", v)]: the exact value, correctly rounded. *)
Definition format_fixed (prec : nat) (v : float64) : string :=
  let sign (s : bool) := if s then "-" else "" in
  match v with
  | S754_nan => "NaN"
  | S754_infinity s => if s then "-Inf" else "+Inf"
  | S754_zero s => sign s +:+ fixed_text prec 0
  | S754_finite s m e =>
      let '(num, den) := scaled prec m e in sign s +:+ fixed_text prec (round_half_even num den)
  end.

(** *** What is printed is within half a unit of the last place *)

Lemma round_half_even_spec num den :
  (0 < den)%Z → (2 * Z.abs (round_half_even num den * den - num) ≤ den)%Z.
Proof.
  intros Hd. unfold round_half_even.
  pose proof (Z.div_mod num den ltac:(lia)) as Hdm. pose proof (Z.mod_pos_bound num den Hd) as Hr.
  set (q := (num / den)%Z) in *. set (r := (num mod den)%Z) in *. clearbody q r.
  destruct (Z.ltb_spec (2 * r) den); [rewrite Hdm; nia|].
  destruct (Z.ltb_spec den (2 * r)); [rewrite Hdm; nia|].
  destruct (Z.even q); rewrite Hdm; nia.
Qed.

Lemma scaled_den prec m e : (0 < (scaled prec m e).2)%Z.
Proof. unfold scaled. destruct (Z.leb_spec 0 e); simpl; [lia|]. apply Z.pow_pos_nonneg; lia. Qed.

(** ** SHA-256 *)

Module Sha256.
Local Open Scope Z_scope.

Definition add32 (x y : Z) : Z := (x + y) `mod` 2 ^ 32.
Definition rotr (n x : Z) : Z := Z.lor (Z.shiftr x n) ((Z.shiftl x (32 - n)) `mod` 2 ^ 32).
Definition xor3 (x y z : Z) : Z := Z.lxor x (Z.lxor y z).
Definition not32 (x : Z) : Z := 2 ^ 32 - 1 - x.

(** The constants as the standard introduces them: the first 32 bits of the
    fractional parts of the cube roots of the first 64 primes, and of the square
    roots of the first eight. *)
Definition is_prime (n : nat) : bool := forallb (λ d, negb (n `mod` d =? 0)%nat) (seq 2 (n - 2)).
Definition primes : list Z := map Z.of_nat (List.filter is_prime (seq 2 310)).

(** The integer part of the cube root, bit by bit from [2^b]. *)
Fixpoint cube_root (b : nat) (n r : Z) : Z :=
  let r' := r + 2 ^ Z.of_nat b in
  let r := if r' ^ 3 <=? n then r' else r in
  match b with O => r | S b => cube_root b n r end.

Definition K : list Z :=
  Eval vm_compute in map (λ p, cube_root 35 (p * 2 ^ 96) 0 `mod` 2 ^ 32) primes.

Definition H0 : list Z :=
  Eval vm_compute in map (λ p, Z.sqrt (p * 2 ^ 64) `mod` 2 ^ 32) (take 8 primes).

(** The message schedule, newest word first. *)
Fixpoint schedule (n : nat) (w : list Z) : list Z :=
  match n with
  | O => w
  | S n =>
      let at_ i := nth i w 0 in
      let s0 := xor3 (rotr 7 (at_ 14%nat)) (rotr 18 (at_ 14%nat)) (Z.shiftr (at_ 14%nat) 3) in
      let s1 := xor3 (rotr 17 (at_ 1%nat)) (rotr 19 (at_ 1%nat)) (Z.shiftr (at_ 1%nat) 10) in
      schedule n (add32 (add32 (at_ 15%nat) s0) (add32 (at_ 6%nat) s1) :: w)
  end.

Definition round (v : list Z) (kw : Z * Z) : list Z :=
  match v with
  | [a; b; c; d; e; f; g; h] =>
      let S1 := xor3 (rotr 6 e) (rotr 11 e) (rotr 25 e) in
      let ch := Z.lxor (Z.land e f) (Z.land (not32 e) g) in
      let t1 := add32 (add32 h S1) (add32 ch (add32 kw.1 kw.2)) in
      let S0 := xor3 (rotr 2 a) (rotr 13 a) (rotr 22 a) in
      let maj := xor3 (Z.land a b) (Z.land a c) (Z.land b c) in
      [add32 t1 (add32 S0 maj); a; b; c; add32 d t1; e; f; g]
  | _ => v
  end.

Definition compress (h block : list Z) : list Z :=
  zip_with add32 h (foldl round h (zip K (rev (schedule 48 (rev block))))).

(** Big-endian words of a byte list. *)
Fixpoint words (l : list Z) : list Z :=
  match l with
  | a :: b :: c :: d :: l => (a * 2 ^ 24 + b * 2 ^ 16 + c * 2 ^ 8 + d) :: words l
  | _ => []
  end.

Definition be_bytes (n : nat) (z : Z) : list Z :=
  rev (map (λ i, Z.shiftr z (8 * Z.of_nat i) `mod` 256) (seq 0 n)).

(** The padded message: a one bit, zeros up to 56 bytes modulo 64, the length in
    bits. *)
Definition padded (l : list Z) : list Z :=
  let n := Z.of_nat (length l) in
  l ++ [128] ++ replicate (Z.to_nat ((55 - n) `mod` 64)) 0 ++ be_bytes 8 (8 * n).

Fixpoint blocks (n : nat) (h : list Z) (w : list Z) : list Z :=
  match n with
  | O => h
  | S n => blocks n (compress h (take 16 w)) (drop 16 w)
  end.

Definition bytes_of (s : string) : list Z :=
  map (λ a, Z.of_N (N_of_ascii a)) (String.list_ascii_of_string s).

(** [sha256.Sum256]. *)
Definition Sum256 (s : string) : list Z :=
  let w := words (padded (bytes_of s)) in
  concat (map (be_bytes 4) (blocks (length w / 16)%nat H0 w)).
End Sha256.

(** [hex.EncodeToString]. *)
Definition hex_digit (d : Z) : ascii :=
  ascii_of_N (Z.to_N (if (d <? 10)%Z then 48 + d else 87 + d)).

Fixpoint hex_string (l : list Z) : string :=
  match l with
  | [] => ""
  | b :: l => String (hex_digit (b / 16)) (String (hex_digit (b `mod` 16)) (hex_string l))
  end.

(** The digest of the standard's one-block example. *)
Example sha256_abc :
  hex_string (Sha256.Sum256 "abc") = "ba7816bf8f01cfea414140de5dae2223b00361a396177a9cb410ff61f20015ad".
Proof. vm_compute. reflexivity. Qed.

(** Two blocks. *)
Example sha256_two_blocks :
  hex_string (Sha256.Sum256 "abcdbcdecdefdefgefghfghighijhijkijkljklmklmnlmnomnopnopq") =
  "248d6a61d20638b8e5c026930c3e6039a33ce45964ff2167f6ecedd419db06c1".
Proof. vm_compute. reflexivity. Qed.

(** 0.1 + 0.2 in binary64. *)
Example float_sum : fadd (decimal 1 1) (decimal 2 1) = S754_finite false 5404319552844596 (-54).
Proof. vm_compute. reflexivity. Qed.
