(* ===== verification/FloatExact.v ===== *)
(** When binary64 arithmetic is exact: products of integers that need at most 53
    significant bits. *)
From S2P Require Import Prelude GoNumbers.
From Stdlib Require Import SpecFloat.
Local Open Scope Z_scope.

(** An integer that binary64 represents. *)
Definition fits (z : Z) : Prop := ∃ c k, z = c * 2 ^ k ∧ 0 ≤ k ∧ 0 ≤ c < 2 ^ 53 ∧ z < 2 ^ 1000.

(** [x] is the normalised float of value [z], for [0 < z]. Both sides are scaled
    so that the exponents are not negative. *)
Definition denotes (x : float64) (z : Z) : Prop :=
  ∃ c e, x = S754_finite false c e ∧ Z.log2 (Z.pos c) = 52 ∧ -52 ≤ e ≤ 971 ∧
         Z.pos c * 2 ^ (e + 1100) = z * 2 ^ 1100.

Lemma digits2_log2 p : Z.pos (digits2_pos p) = Z.log2 (Z.pos p) + 1.
Proof.
  induction p as [p IH|p IH|]; [..|done]; cbn [digits2_pos]; rewrite Pos2Z.inj_succ, IH.
  - rewrite (Pos2Z.inj_xI p), Z.log2_succ_double by lia. lia.
  - rewrite (Pos2Z.inj_xO p), Z.log2_double by lia. lia.
Qed.

Lemma iter_pos_nat {A} (f : A → A) n : ∀ x, iter_pos f n x = Nat.iter (Pos.to_nat n) f x.
Proof.
  induction n as [n IH|n IH|]; intros x; cbn [iter_pos]; [..|done]; rewrite !IH.
  - rewrite Pos2Nat.inj_xI, <- Nat.iter_add, <- Nat.iter_succ_r. f_equal. lia.
  - rewrite Pos2Nat.inj_xO, <- Nat.iter_add. f_equal. lia.
Qed.

Lemma shr_exact n : ∀ (c m : positive), Z.pos m = Z.pos c * 2 ^ Z.of_nat n →
  Nat.iter n shr_1 {| shr_m := Z.pos m; shr_r := false; shr_s := false |} =
  {| shr_m := Z.pos c; shr_r := false; shr_s := false |}.
Proof.
  induction n as [|n IH]; intros c m Hm.
  - rewrite Z.mul_1_r in Hm. by injection Hm as ->.
  - rewrite Nat2Z.inj_succ, Z.pow_succ_r in Hm by lia.
    rewrite Nat.iter_succ, (IH (c~0)%positive m); [done|]. rewrite Pos2Z.inj_xO. lia.
Qed.

(** Rounding does nothing to a mantissa that only has zeros to lose. *)
Lemma round_exact s (m c : positive) e n :
  Z.pos m = Z.pos c * 2 ^ n → 0 ≤ n → Z.log2 (Z.pos c) = 52 → -1074 ≤ e + n ≤ 971 →
  binary_round_aux 53 1024 s (Z.pos m) e loc_Exact = S754_finite s c (e + n).
Proof.
  intros Hm Hn Hc He. unfold binary_round_aux, shr_fexp, fexp, emin.
  cbn [Zdigits2]. rewrite digits2_log2, Hm, Z.log2_mul_pow2, Hc by lia.
  replace (Z.max (n + 52 + 1 + e - 53) (3 - 1024 - 53) - e) with n by lia.
  rewrite <- Hm.
  assert (shr (shr_record_of_loc (Z.pos m) loc_Exact) e n =
          ({| shr_m := Z.pos c; shr_r := false; shr_s := false |}, e + n)) as ->.
  { cbn [shr_record_of_loc]. destruct n as [|n|]; [|cbn [shr]|lia].
    - rewrite Z.mul_1_r in Hm. injection Hm as ->. cbn [shr]. f_equal. lia.
    - f_equal. rewrite iter_pos_nat. apply shr_exact. by rewrite positive_nat_Z. }
  cbn [shr_m shr_r shr_s loc_of_shr_record round_nearest_even Zdigits2 shr_record_of_loc].
  rewrite digits2_log2, Hc.
  replace (Z.max (52 + 1 + (e + n) - 53) (3 - 1024 - 53) - (e + n)) with 0 by lia.
  cbn [shr shr_m]. by rewrite (proj2 (Z.leb_le _ _)) by lia.
Qed.

Lemma pow2_inj c c' a b :
  0 < c → 0 < c' → 0 ≤ a → 0 ≤ b → Z.log2 c = Z.log2 c' → c * 2 ^ a = c' * 2 ^ b → a = b ∧ c = c'.
Proof.
  intros Hc Hc' Ha Hb Hl Heq.
  assert (a = b) as <-.
  { pose proof (f_equal Z.log2 Heq) as H. rewrite !Z.log2_mul_pow2 in H by lia. lia. }
  split; [done|]. apply (Z.mul_reg_r _ _ (2 ^ a)); [|done]. pose proof (Z.pow_pos_nonneg 2 a). lia.
Qed.

Lemma denotes_unique x y z : denotes x z → denotes y z → x = y.
Proof.
  intros (c & e & -> & Hc & He & Hv) (c' & e' & -> & Hc' & He' & Hv').
  destruct (pow2_inj (Z.pos c) (Z.pos c') (e + 1100) (e' + 1100)) as [? [= <-]]; try lia.
  f_equal. lia.
Qed.

(** The normalised mantissa of an integer that fits. *)
Lemma fits_mantissa z : fits z → 0 < z →
  ∃ c, Z.log2 (Z.pos c) = 52 ∧ Z.log2 z < 1000 ∧
       Z.pos c * 2 ^ (Z.log2 z - 52 + 1100) = z * 2 ^ 1100.
Proof.
  intros (c & k & Hz & Hk & Hc & Hmax) Hpos.
  assert (0 < c) as Hc0 by (subst; pose proof (Z.pow_pos_nonneg 2 k); nia).
  assert (Z.log2 c ≤ 52) as Hl by (apply Z.lt_succ_r, Z.log2_lt_pow2; lia).
  pose proof (Z.log2_nonneg c).
  assert (0 < c * 2 ^ (52 - Z.log2 c)) as Hp by (pose proof (Z.pow_pos_nonneg 2 (52 - Z.log2 c)); nia).
  exists (Z.to_pos (c * 2 ^ (52 - Z.log2 c))). rewrite Z2Pos.id by done.
  rewrite Z.log2_mul_pow2 by lia. split; [lia|]. split; [by apply Z.log2_lt_pow2|].
  rewrite Hz, Z.log2_mul_pow2, <- !Z.mul_assoc, <- !Z.pow_add_r by lia. do 2 f_equal. lia.
Qed.

Lemma float_of_int_denotes z : fits z → 0 < z → denotes (float_of_int z) z.
Proof.
  intros Hf Hz. destruct (fits_mantissa z Hf Hz) as (c & Hc & Hmax & Hv).
  pose proof (Z.log2_nonneg z). exists c, (Z.log2 z - 52).
  split; [|split; [done|split; [lia|done]]].
  destruct z as [|p|]; try lia. unfold float_of_int, binary_normalize, binary_round, shl_align, fexp, emin.
  rewrite digits2_log2.
  replace (Z.max (Z.log2 (Z.pos p) + 1 + 0 - 53) (3 - 1024 - 53) - 0) with (Z.log2 (Z.pos p) - 52) by lia.
  destruct (Z.log2 (Z.pos p) - 52) as [|n|n] eqn:En.
  - rewrite (round_exact false p c 0 0); try done; lia.
  - rewrite (round_exact false p c 0 (Z.pos n)); try done; try lia.
    apply (Z.mul_reg_r _ _ (2 ^ 1100)); [done|]. rewrite <- Hv, Z.pow_add_r by lia. lia.
  - replace (Z.max (Z.log2 (Z.pos p) + 1 + 0 - 53) (3 - 1024 - 53)) with (Z.neg n) by lia.
    rewrite (round_exact false (Pos.iter xO p n) c (Z.neg n) 0); [f_equal; lia| |lia|done|lia].
    rewrite Z.mul_1_r.
    assert (∀ q, Z.pos (Pos.iter xO p q) = Z.pos p * 2 ^ Z.pos q) as Hit.
    { intros q. induction q using Pos.peano_ind; [simpl; lia|].
      rewrite Pos.iter_succ, (Pos2Z.inj_xO _), IHq, Pos2Z.inj_succ, Z.pow_succ_r by lia. lia. }
    rewrite Hit. apply (Z.mul_reg_r _ _ (2 ^ (Z.neg n + 1100))).
    { pose proof (Z.pow_pos_nonneg 2 (Z.neg n + 1100)). lia. }
    rewrite Hv, <- Z.mul_assoc, <- Z.pow_add_r by lia. do 2 f_equal. lia.
Qed.

Lemma fmul_denotes x y a b :
  denotes x a → denotes y b → fits (a * b) → 0 < a → 0 < b → denotes (fmul x y) (a * b).
Proof.
  intros (cx & ex & -> & Hcx & Hex & Hx) (cy & ey & -> & Hcy & Hey & Hy) Hf Ha Hb.
  destruct (fits_mantissa (a * b) Hf) as (c & Hc & Hmax & Hv); [nia|].
  pose proof (Z.log2_nonneg (a * b)).
  exists c, (Z.log2 (a * b) - 52). split; [|split; [done|split; [lia|done]]].
  cbn [fmul SFmul xorb].
  assert (Z.pos (cx * cy) * 2 ^ (ex + ey + 2200) = a * b * 2 ^ 2200) as Hm.
  { replace (ex + ey + 2200) with ((ex + 1100) + (ey + 1100)) by lia.
    rewrite Pos2Z.inj_mul, Z.pow_add_r by lia. change 2200 with (1100 + 1100). rewrite (Z.pow_add_r 2 1100 1100) by lia.
    rewrite Z.mul_shuffle1, Hx, Hy. ring. }
  assert (Z.log2 (Z.pos (cx * cy)) + (ex + ey) = Z.log2 (a * b)) as Hlog.
  { pose proof (f_equal Z.log2 Hm) as H'. rewrite !Z.log2_mul_pow2 in H' by lia. lia. }
  assert (52 + 52 ≤ Z.log2 (Z.pos (cx * cy))) as Hge.
  { rewrite Pos2Z.inj_mul. pose proof (Z.log2_mul_below (Z.pos cx) (Z.pos cy)). lia. }
  rewrite (round_exact false (cx * cy) c (ex + ey) (Z.log2 (Z.pos (cx * cy)) - 52));
    [f_equal; lia| |lia|done|lia].
  apply (Z.mul_reg_r _ _ (2 ^ (ex + ey + 2200))).
  { pose proof (Z.pow_pos_nonneg 2 (ex + ey + 2200)). lia. }
  rewrite Hm. change 2200 with (1100 + 1100) at 1. rewrite (Z.pow_add_r 2 1100 1100), Z.mul_assoc, <- Hv by lia.
  rewrite <- !Z.mul_assoc, <- !Z.pow_add_r by lia. do 2 f_equal. lia.
Qed.

(** Integer factors, integer product: the multiplication is exact. *)
Lemma fmul_int a b :
  fits a → fits b → fits (a * b) → 0 ≤ a → 0 ≤ b →
  fmul (float_of_int a) (float_of_int b) = float_of_int (a * b).
Proof.
  intros Ha Hb Hab H0a H0b.
  assert (∀ z, fits z → 0 < z → ∃ c e, float_of_int z = S754_finite false c e) as Hfin.
  { intros z Hz Hp. destruct (float_of_int_denotes z Hz Hp) as (c & e & -> & _). eauto. }
  destruct (decide (a = 0)) as [->|Hna].
  { destruct (decide (b = 0)) as [->|?]; [done|]. by destruct (Hfin b Hb) as (c & e & ->); [lia|]. }
  destruct (decide (b = 0)) as [->|Hnb].
  { rewrite Z.mul_0_r. by destruct (Hfin a Ha) as (c & e & ->); [lia|]. }
  apply (denotes_unique _ _ (a * b)); [|apply float_of_int_denotes; [done|nia]].
  apply fmul_denotes; try lia; [apply float_of_int_denotes; [done|lia]..|done].
Qed.

Lemma fits_pow2 c k : 0 ≤ c < 2 ^ 53 → 0 ≤ k ≤ 900 → fits (c * 2 ^ k).
Proof.
  intros Hc Hk. exists c, k. split_and!; try done; try lia.
  pose proof (Z.pow_le_mono_r 2 k 900 ltac:(lia) ltac:(lia)).
  assert (c * 2 ^ k < 2 ^ 53 * 2 ^ 900) by nia. change (2 ^ 1000) with (2 ^ 53 * 2 ^ 900 * 2 ^ 47). lia.
Qed.

Lemma fits_small c : 0 ≤ c < 2 ^ 53 → fits c.
Proof. intros Hc. rewrite <- (Z.mul_1_r c). by apply (fits_pow2 c 0). Qed.

(** *** Commutativity *)

Lemma fmul_comm x y : fmul x y = fmul y x.
Proof.
  destruct x as [s| s| |s m e], y as [s'|s'| |s' m' e']; cbn [fmul SFmul]; rewrite ?(xorb_comm s s'); try done.
  by rewrite Pos.mul_comm, Z.add_comm.
Qed.

(** *** No NaN from numbers *)

Lemma shr_nonneg mrs e n : 0 ≤ shr_m mrs → 0 ≤ shr_m (shr mrs e n).1.
Proof.
  intros H. destruct n as [|n|n]; [done| |done]. cbn [shr fst]. rewrite iter_pos_nat.
  induction (Pos.to_nat n) as [|k IH]; [done|]. rewrite Nat.iter_succ.
  destruct (Nat.iter k shr_1 mrs) as [m r s]. cbn in IH. by destruct m as [|[]|].
Qed.

Lemma round_aux_not_nan s m e l : 0 ≤ m → binary_round_aux 53 1024 s m e l ≠ S754_nan.
Proof.
  intros Hm. unfold binary_round_aux.
  assert (∀ m e l, 0 ≤ m → 0 ≤ shr_m (shr_fexp 53 1024 m e l).1) as Hs.
  { intros m' e' l' Hm'. apply shr_nonneg. by destruct l' as [|[]]. }
  pose proof (Hs m e l Hm) as H1. destruct (shr_fexp 53 1024 m e l) as [mrs e1]. cbn [fst] in H1.
  set (m2 := round_nearest_even _ _).
  assert (0 ≤ m2) as H2 by (unfold m2, round_nearest_even; destruct (loc_of_shr_record mrs) as [|[]]; try lia; destruct (Z.even _); lia).
  pose proof (Hs m2 e1 loc_Exact H2) as H3. destruct (shr_fexp 53 1024 m2 e1 loc_Exact) as [mrs2 e2].
  cbn [fst] in H3. destruct (shr_m mrs2); [done|destruct (_ <=? _); done|lia].
Qed.

Lemma fmul_not_nan x s m e : x ≠ S754_nan → fmul x (S754_finite s m e) ≠ S754_nan.
Proof. destruct x; try done. intros _. by apply round_aux_not_nan. Qed.

Lemma fdiv_not_nan x s m e : x ≠ S754_nan → fdiv x (S754_finite s m e) ≠ S754_nan.
Proof.
  destruct x as [| | |s' m' e']; try done. intros _. cbn [fdiv SFdiv].
  destruct (SFdiv_core_binary 53 1024 (Z.pos m') e' (Z.pos m) e) as [[q e2] l] eqn:E.
  apply round_aux_not_nan. unfold SFdiv_core_binary in E.
  set (num := match _ with Z0 => Z.pos m' | Zpos _ => _ | Zneg _ => 0 end) in E.
  assert (0 ≤ num) as Hnum by (unfold num; destruct (_ - _ - _); [lia|by apply Z.shiftl_nonneg|lia]).
  clearbody num.
  pose proof (Z.div_pos num (Z.pos m) Hnum ltac:(lia)) as Hq. unfold Z.div in Hq.
  destruct (Z.div_eucl num (Z.pos m)) as [q' r]. by injection E as <- _ _.
Qed.
