(* ===== verification/Rounding.v ===== *)
(** When binary64 arithmetic rounds to a given number: a quotient, or an integer,
    that is nearer to a number of the format than to the middle between it and
    its neighbours is rounded to it. *)
From S2P Require Import Prelude GoNumbers FloatExact.
From Stdlib Require Import SpecFloat.
Local Open Scope Z_scope.

(** The record of a shift holds the fraction [p / q]: its integer part, whether
    the rest is at least a half, and whether it is neither zero nor a half. *)
Definition records (mrs : shr_record) (p q : Z) : Prop :=
  shr_m mrs = p / q ∧ shr_r mrs = (q <=? 2 * (p mod q)) ∧
  shr_s mrs = negb ((2 * (p mod q) =? 0) || (2 * (p mod q) =? q)).

Lemma records_step mrs p q : 0 ≤ p → 0 < q → records mrs p q → records (shr_1 mrs) p (2 * q).
Proof.
  intros Hp Hq (Hm & Hr & Hs). destruct mrs as [m r s]. cbn [shr_m shr_r shr_s] in *.
  assert (0 ≤ m) as Hm0 by (subst m; apply Z.div_pos; lia).
  assert (p = q * m + p mod q) as E by (subst m; apply Z.div_mod; lia).
  pose proof (Z.mod_pos_bound p q Hq) as Hb. set (t := p mod q) in *. clearbody t. clear Hm.
  assert (r || s = negb (t =? 0)) as Hrs.
  { subst r s. destruct (Z.leb_spec q (2 * t)), (Z.eqb_spec (2 * t) 0), (Z.eqb_spec (2 * t) q), (Z.eqb_spec t 0);
      simpl; lia || done. }
  assert (∀ h b, m = 2 * h + Z.b2z b → records {| shr_m := h; shr_r := b; shr_s := r || s |} p (2 * q)) as Hstep.
  { intros h b Eh.
    assert (p mod (2 * q) = Z.b2z b * q + t) as Emod.
    { symmetry. apply (Z.mod_unique_pos _ _ h); destruct b; simpl in *; nia. }
    assert (p / (2 * q) = h) as Ediv.
    { symmetry. apply (Z.div_unique_pos _ _ _ (Z.b2z b * q + t)); destruct b; simpl in *; nia. }
    unfold records. cbn [shr_m shr_r shr_s]. rewrite Ediv, Emod, Hrs. split; [done|].
    split; destruct b; simpl Z.b2z.
    - symmetry. apply Z.leb_le. lia.
    - symmetry. apply Z.leb_gt. lia.
    - f_equal. destruct (Z.eqb_spec t 0), (Z.eqb_spec (2 * (1 * q + t)) 0), (Z.eqb_spec (2 * (1 * q + t)) (2 * q));
        simpl; lia || done.
    - f_equal. destruct (Z.eqb_spec t 0), (Z.eqb_spec (2 * (0 * q + t)) 0), (Z.eqb_spec (2 * (0 * q + t)) (2 * q));
        simpl; lia || done. }
  unfold shr_1. destruct m as [|[h|h|]|]; [apply Hstep; done..|lia].
Qed.

Lemma records_iter n mrs p q : 0 ≤ p → 0 < q → records mrs p q →
  records (Nat.iter n shr_1 mrs) p (2 ^ Z.of_nat n * q).
Proof.
  intros Hp Hq H. induction n as [|n IH]; [simpl Z.of_nat; rewrite Z.pow_0_r, Z.mul_1_l; exact H|].
  rewrite Nat.iter_succ, Nat2Z.inj_succ, Z.pow_succ_r, <-Z.mul_assoc by lia. apply records_step; [done| |done].
  pose proof (Z.pow_pos_nonneg 2 (Z.of_nat n)). nia.
Qed.

(** Rounding takes the nearest integer when it is strictly nearest. *)
Lemma records_round mrs p q z : 0 < q → records mrs p q → 2 * Z.abs (p - z * q) < q →
  round_nearest_even (shr_m mrs) (loc_of_shr_record mrs) = z.
Proof.
  intros Hq (Hm & Hr & Hs) Hz. destruct mrs as [m r s]. cbn [shr_m shr_r shr_s] in *.
  pose proof (Z.div_mod p q ltac:(lia)) as E. rewrite <-Hm in E. pose proof (Z.mod_pos_bound p q Hq) as Hb.
  set (t := p mod q) in *. clearbody t. clear Hm.
  assert (z = m ∧ 2 * t < q ∨ z = m + 1 ∧ q < 2 * t) as [[-> Ht]|[-> Ht]].
  { assert (z = m ∨ z = m + 1) as [->| ->] by nia; [left|right]; nia. }
  - rewrite (proj2 (Z.leb_gt q (2 * t))) in Hr by lia. subst r. by destruct s.
  - rewrite (proj2 (Z.leb_le q (2 * t))) in Hr by lia. subst r.
    rewrite (proj2 (Z.eqb_neq (2 * t) 0)), (proj2 (Z.eqb_neq (2 * t) q)) in Hs by lia. by subst s.
Qed.

(** [v = p / q * 2^ex], for numbers [m * 2^e] of the format and [ex <= e], lies nearer to
    [m * 2^e] than half the gap to the next number on its side. *)
Definition near (p q : Z) (ex : Z) (m : positive) (e : Z) : Prop :=
  let u := 2 ^ (e - ex) * q in
  2 * Z.abs (p - Z.pos m * u) < u ∧
  (Z.pos m = 2 ^ 52 → -1074 < e → p < Z.pos m * u → ex < e ∧ 4 * (Z.pos m * u - p) < u).

Definition canonical (m : positive) (e : Z) : Prop :=
  Z.log2 (Z.pos m) ≤ 52 ∧ -1074 ≤ e ≤ 971 ∧ (Z.log2 (Z.pos m) = 52 ∨ e = -1074).

Lemma Zdigits2_log2 z : 0 < z → Zdigits2 z = Z.log2 z + 1.
Proof. destruct z; [lia| |lia]. intros _. apply digits2_log2. Qed.

Lemma Zdigits2_bounds z lo hi : 0 ≤ lo → 0 ≤ hi → 2 ^ lo ≤ z < 2 ^ hi → lo < Zdigits2 z ≤ hi.
Proof.
  intros Hlo Hhi Hz. pose proof (Z.pow_pos_nonneg 2 lo). rewrite Zdigits2_log2 by lia.
  pose proof (Z.log2_le_mono _ _ (proj1 Hz)) as H1. rewrite Z.log2_pow2 in H1 by lia.
  assert (Z.log2 z < hi) by (apply Z.log2_lt_pow2; lia). lia.
Qed.

Lemma Zdigits2_upper z hi : 0 ≤ hi → 0 ≤ z < 2 ^ hi → 0 ≤ Zdigits2 z ≤ hi.
Proof.
  intros Hhi Hz. destruct (decide (z = 0)) as [->|Hne]; [simpl; lia|].
  destruct (Zdigits2_bounds z 0 hi); simpl; lia.
Qed.

Lemma canonical_range m e : canonical m e → 1 ≤ Z.pos m < 2 ^ 53 ∧ (e = -1074 ∨ 2 ^ 52 ≤ Z.pos m).
Proof.
  intros (Hl & He & Hc). split.
  - split; [lia|]. apply Z.log2_lt_pow2; lia.
  - destruct Hc as [Hc|Hc]; [right|by left]. rewrite <-Hc. apply Z.log2_spec. lia.
Qed.

(** The exponent of what lies near a number is that of the number, or one less
    just below a power of two. *)
Lemma near_exponent p q ex m e : 0 ≤ p → 0 < q → ex ≤ e → canonical m e → near p q ex m e →
  let e1 := fexp 53 1024 (Zdigits2 (p / q) + ex) in
  e1 = e ∨ e1 = e - 1 ∧ ex < e ∧ Z.pos m = 2 ^ 52 ∧ 4 * Z.abs (p - Z.pos m * (2 ^ (e - ex) * q)) < 2 ^ (e - ex) * q.
Proof.
  intros Hp Hq He Hc [Hn Hb]. destruct (canonical_range m e Hc) as [Hm Hnorm]. destruct Hc as (_ & Her & _).
  set (n := e - ex) in *. assert (0 ≤ n) as Hn0 by lia.
  pose proof (Z.pow_pos_nonneg 2 n ltac:(lia) Hn0) as Hu. set (u := 2 ^ n) in *.
  assert (0 < u * q) as Huq by nia. unfold fexp, emin. cbn zeta.
  assert (p / q < 2 ^ (53 + n)) as Hup.
  { rewrite Z.pow_add_r by lia. fold u. apply Z.div_lt_upper_bound; [lia|]. nia. }
  destruct (Zdigits2_upper (p / q) (53 + n)) as [_ Hd1]; [lia|split; [apply Z.div_pos; lia|done]|].
  destruct Hnorm as [Hden|H52]; [left; lia|].
  destruct (decide (2 ^ 52 * (u * q) ≤ p)) as [Hge|Hlt].
  - left. assert (2 ^ (52 + n) ≤ p / q) as Hlo.
    { rewrite Z.pow_add_r by lia. fold u. apply Z.div_le_lower_bound; [lia|]. nia. }
    destruct (Zdigits2_bounds (p / q) (52 + n) (53 + n)); lia.
  - assert (Z.pos m = 2 ^ 52) as Em by nia. destruct (decide (e = -1074)) as [->|Hne]; [left; lia|].
    destruct (Hb Em) as [Hex H4]; [lia|nia|]. right.
    assert (2 ^ (51 + n) ≤ p / q) as Hlo.
    { rewrite Z.pow_add_r by lia. fold u. apply Z.div_le_lower_bound; [lia|]. nia. }
    assert (p / q < 2 ^ (52 + n)) as Hup'.
    { rewrite Z.pow_add_r by lia. fold u. apply Z.div_lt_upper_bound; [lia|]. nia. }
    destruct (Zdigits2_bounds (p / q) (51 + n) (52 + n)); [lia..|]. split; [lia|]. split; [done|]. split; [done|]. lia.
Qed.

Lemma shr_fexp_records mx ex lx p q : 0 ≤ p → 0 < q → records (shr_record_of_loc mx lx) p q →
  ex ≤ fexp 53 1024 (Zdigits2 (p / q) + ex) →
  ∃ mrs, shr_fexp 53 1024 mx ex lx = (mrs, fexp 53 1024 (Zdigits2 (p / q) + ex)) ∧
    records mrs p (2 ^ (fexp 53 1024 (Zdigits2 (p / q) + ex) - ex) * q).
Proof.
  intros Hp Hq Hr Hle. assert (mx = p / q) as Em by (destruct Hr as [<- _]; by destruct lx as [|[]]).
  unfold shr_fexp. rewrite <-Em in Hle |- *. set (e1 := fexp _ _ _) in *. clearbody e1.
  destruct (e1 - ex) as [|n|n] eqn:En; [| |lia]; cbn [shr].
  - exists (shr_record_of_loc mx lx). split; [f_equal; lia|]. by rewrite Z.pow_0_r, Z.mul_1_l.
  - eexists. split; [f_equal; lia|]. rewrite iter_pos_nat, <-(positive_nat_Z n). by apply records_iter.
Qed.

(** A canonical number survives the second normalisation, and so does its double
    one exponent below. *)
Lemma renormalise m e :
  Z.log2 (Z.pos m) ≤ 52 → -1074 ≤ e → (Z.log2 (Z.pos m) = 52 ∨ e = -1074) →
  shr_fexp 53 1024 (Z.pos m) e loc_Exact = ({| shr_m := Z.pos m; shr_r := false; shr_s := false |}, e).
Proof.
  intros Hl He Hc. unfold shr_fexp, fexp, emin. rewrite Zdigits2_log2 by lia.
  replace (Z.max (Z.log2 (Z.pos m) + 1 + e - 53) (3 - 1024 - 53) - e) with 0 by lia. done.
Qed.

Lemma renormalise_double m e : canonical m e → Z.pos m = 2 ^ 52 →
  shr_fexp 53 1024 (2 * Z.pos m) (e - 1) loc_Exact = ({| shr_m := Z.pos m; shr_r := false; shr_s := false |}, e).
Proof.
  intros (Hl & He & Hc) Em. unfold shr_fexp, fexp, emin.
  assert (Zdigits2 (2 * Z.pos m) = 54) as -> by (rewrite Em; reflexivity).
  replace (Z.max (54 + (e - 1) - 53) (3 - 1024 - 53) - (e - 1)) with 1 by lia.
  cbn [shr iter_pos shr_record_of_loc shr_1 Z.mul]. f_equal. lia.
Qed.

Lemma round_near s mx ex lx p q m e :
  0 ≤ p → 0 < q → ex ≤ e → records (shr_record_of_loc mx lx) p q → canonical m e → near p q ex m e →
  ex ≤ fexp 53 1024 (Zdigits2 (p / q) + ex) →
  binary_round_aux 53 1024 s mx ex lx = S754_finite s m e.
Proof.
  intros Hp Hq He Hr Hc Hn Hle. destruct (shr_fexp_records mx ex lx p q Hp Hq Hr Hle) as (mrs & Hs & Hm).
  unfold binary_round_aux. rewrite Hs. pose proof Hc as (_ & Her & _).
  pose proof (near_exponent p q ex m e Hp Hq He Hc Hn) as Hx. cbn zeta in Hx.
  set (e1 := fexp _ _ _) in *. clearbody e1. clear Hs.
  pose proof (Z.pow_pos_nonneg 2 (e1 - ex) ltac:(lia) ltac:(lia)) as Hu.
  destruct Hx as [->|(-> & Hex & Em & H4)].
  - rewrite (records_round mrs p (2 ^ (e - ex) * q) (Z.pos m)); [|nia|done|apply Hn].
    rewrite renormalise by (destruct Hc as (? & ? & ?); done || lia). cbn [shr_m]. by rewrite (proj2 (Z.leb_le _ _)) by lia.
  - rewrite (records_round mrs p (2 ^ (e - 1 - ex) * q) (2 * Z.pos m)); [|nia|done|].
    + rewrite renormalise_double by done. cbn [shr_m]. by rewrite (proj2 (Z.leb_le _ _)) by lia.
    + replace (e - ex) with (Z.succ (e - 1 - ex)) in H4 by lia. rewrite Z.pow_succ_r in H4 by lia. lia.
Qed.

(** ** Quotients and integers *)

(** [num / den] is near to [m * 2^e]. *)
Definition near_quotient (num den : Z) (m : positive) (e : Z) : Prop := near (num * 2 ^ 1076) den (-1076) m e.

Lemma near_scale p q ex j m e : 0 ≤ j → ex ≤ e →
  (Z.pos m = 2 ^ 52 → -1074 < e → p < Z.pos m * (2 ^ (e - ex) * q) → ex < e) →
  near (p * 2 ^ j) q (ex - j) m e → near p q ex m e.
Proof.
  intros Hj He Hex [Hn Hb]. unfold near. pose proof (Z.pow_pos_nonneg 2 j ltac:(lia) Hj) as Hw.
  replace (e - (ex - j)) with (e - ex + j) in Hn, Hb by lia. rewrite Z.pow_add_r in Hn, Hb by lia.
  set (w := 2 ^ j) in *. set (u := 2 ^ (e - ex)) in *. split.
  - replace (p * w - Z.pos m * (u * w * q)) with ((p - Z.pos m * (u * q)) * w) in Hn by lia.
    rewrite Z.abs_mul, (Z.abs_eq w) in Hn by lia. nia.
  - intros Em Hlo Hlt. split; [by apply Hex|]. destruct Hb as [_ Hb]; [done|done|nia|nia].
Qed.

(** [2^(d-1)] is at most [num / den]. *)
Definition at_least (d num den : Z) : Prop := den * 2 ^ Z.max (d - 1) 0 ≤ num * 2 ^ Z.max (1 - d) 0.

(** Rounding starts at the exponent this bound gives, and not above the units; that
    is not above where it ends. *)
Lemma start_below num den d : 0 < num → 0 < den →
  let ex := Z.min (fexp 53 1024 d) 0 in
  at_least d num den →
  ex ≤ fexp 53 1024 (Zdigits2 (num * 2 ^ (- ex) / den) + ex).
Proof.
  intros Hnum Hden. unfold fexp, emin. cbn zeta. set (ex := Z.min _ 0). unfold at_least. intros Hlow.
  assert (-1074 ≤ ex ≤ 0) as Hex by lia. destruct (decide (d - ex - 1 < 0)); [lia|].
  assert (2 ^ (d - ex - 1) ≤ num * 2 ^ (- ex) / den) as Hq.
  { apply Z.div_le_lower_bound; [done|].
    pose proof (Z.pow_pos_nonneg 2 (Z.max (1 - d) 0) ltac:(lia) ltac:(lia)) as Hw.
    apply (Z.mul_le_mono_pos_r _ _ _ Hw). rewrite <-Z.mul_assoc, <-Z.pow_add_r by lia.
    replace (d - ex - 1 + Z.max (1 - d) 0) with (Z.max (d - 1) 0 + - ex) by lia.
    rewrite Z.pow_add_r by lia. pose proof (Z.pow_pos_nonneg 2 (- ex) ltac:(lia) ltac:(lia)). nia. }
  pose proof (Z.pow_pos_nonneg 2 (d - ex - 1)). rewrite Zdigits2_log2 by lia.
  apply Z.log2_le_mono in Hq. rewrite Z.log2_pow2 in Hq by lia. lia.
Qed.

Lemma near_start num den d m e :
  0 < num → 0 < den → 0 ≤ d + 1075 → at_least d num den → canonical m e → near_quotient num den m e →
  let ex := Z.min (fexp 53 1024 d) 0 in ex ≤ e ∧ near (num * 2 ^ (- ex)) den ex m e.
Proof.
  intros Hnum Hden Hd Hlow Hc Hn. destruct (canonical_range m e Hc) as [Hm _]. pose proof Hc as (_ & Her & _).
  assert (den * 2 ^ (d + 1075) ≤ num * 2 ^ 1076) as Hscaled.
  { replace (d + 1075) with (Z.max (d - 1) 0 + (1076 - Z.max (1 - d) 0)) by lia.
    replace 1076 with (Z.max (1 - d) 0 + (1076 - Z.max (1 - d) 0)) at 2 by lia. rewrite !Z.pow_add_r by lia.
    unfold at_least in Hlow. pose proof (Z.pow_pos_nonneg 2 (1076 - Z.max (1 - d) 0)). nia. }
  unfold fexp, emin. cbn zeta. set (ex := Z.min (Z.max (d - 53) (3 - 1024 - 53)) 0).
  assert (-1074 ≤ ex ≤ 0) as Hex by lia.
  pose proof (Z.pow_pos_nonneg 2 (d + 1075) ltac:(lia) Hd) as Hpd.
  assert (∀ k, 0 ≤ k → num * 2 ^ 1076 < 2 ^ k * (2 ^ (e + 1076) * den) → d < k + e + 1) as Hup.
  { intros k Hk Hlt. rewrite Z.mul_assoc, <-Z.pow_add_r in Hlt by lia.
    assert (2 ^ (d + 1075) < 2 ^ (k + (e + 1076))) as Hp by nia. apply Z.pow_lt_mono_r_iff in Hp; lia. }
  pose proof Hn as [Hn1 Hn2]. replace (e - -1076) with (e + 1076) in Hn1, Hn2 by lia.
  pose proof (Z.pow_pos_nonneg 2 (e + 1076) ltac:(lia) ltac:(lia)) as Hpe.
  assert (ex ≤ e) as He by (specialize (Hup 53 ltac:(lia) ltac:(nia)); lia).
  assert (num * 2 ^ 1076 = num * 2 ^ (- ex) * 2 ^ (1076 + ex)) as Esc.
  { rewrite <-Z.mul_assoc, <-Z.pow_add_r by lia. do 2 f_equal. lia. }
  split; [done|].
  apply (near_scale _ _ _ (1076 + ex)); [lia|done| |by rewrite <-Esc; replace (ex - (1076 + ex)) with (-1076) by lia].
  intros Em Hlo Hlt. specialize (Hup 52 ltac:(lia)).
  assert (d < 52 + e + 1); [apply Hup|lia]. rewrite <-Em, Esc.
  replace (e + 1076) with (e - ex + (1076 + ex)) by lia. rewrite (Z.pow_add_r 2 (e - ex)) by lia.
  pose proof (Z.pow_pos_nonneg 2 (1076 + ex) ltac:(lia) ltac:(lia)). nia.
Qed.

Lemma new_location_compare q t : 0 ≤ t < q →
  new_location q t = if t =? 0 then loc_Exact else loc_Inexact (2 * t ?= q).
Proof.
  intros Ht. unfold new_location. destruct (Z.even q) eqn:Ev; [done|]. unfold new_location_odd.
  assert (2 * t ≠ q) by (intros <-; by rewrite Z.even_mul in Ev).
  destruct (t =? 0); [done|]. f_equal.
  destruct (Z.compare_spec (2 * t + 1) q), (Z.compare_spec (2 * t) q); try done; lia.
Qed.

Lemma records_location p q : 0 ≤ p → 0 < q → records (shr_record_of_loc (p / q) (new_location q (p mod q))) p q.
Proof.
  intros Hp Hq. pose proof (Z.mod_pos_bound p q Hq) as Hb. rewrite new_location_compare by done.
  unfold records. set (t := p mod q) in *. clearbody t. set (m := p / q). clearbody m.
  destruct (Z.eqb_spec t 0), (Z.eqb_spec (2 * t) 0), (Z.compare_spec (2 * t) q), (Z.eqb_spec (2 * t) q),
    (Z.leb_spec q (2 * t)); try lia; done.
Qed.

Lemma log2_ge_pow z : 0 < z → 2 ^ Z.log2 z ≤ z < 2 ^ (Z.log2 z + 1).
Proof. intros Hz. pose proof (Z.log2_spec z Hz). lia. Qed.

Definition quotient_bound (a b : Z) : Z := Z.log2 a - Z.log2 b.

Lemma quotient_at_least a b : 0 < a → 0 < b → at_least (quotient_bound a b) a b.
Proof.
  intros Ha Hb. unfold at_least, quotient_bound. destruct (log2_ge_pow a Ha) as [H1 _].
  destruct (log2_ge_pow b Hb) as [_ H2]. pose proof (Z.log2_nonneg a). pose proof (Z.log2_nonneg b).
  set (d := Z.log2 a - Z.log2 b).
  assert (2 ^ (Z.log2 b + 1) * 2 ^ Z.max (d - 1) 0 = 2 ^ Z.log2 a * 2 ^ Z.max (1 - d) 0) as E
    by (rewrite <-!Z.pow_add_r by lia; f_equal; lia).
  pose proof (Z.pow_pos_nonneg 2 (Z.max (d - 1) 0) ltac:(lia) ltac:(lia)).
  pose proof (Z.pow_pos_nonneg 2 (Z.max (1 - d) 0) ltac:(lia) ltac:(lia)). nia.
Qed.

Lemma int_at_least a : 0 < a → at_least (Z.log2 a + 1) a 1.
Proof.
  intros Ha. unfold at_least. destruct (log2_ge_pow a Ha) as [H1 _]. pose proof (Z.log2_nonneg a).
  rewrite Z.max_l, Z.max_r by lia. replace (Z.log2 a + 1 - 1) with (Z.log2 a) by lia. lia.
Qed.

(** What the two operations round: the fraction they start from. *)
Lemma div_starts s s' (a b : positive) :
  let ex := Z.min (fexp 53 1024 (quotient_bound (Z.pos a) (Z.pos b))) 0 in
  let p := Z.pos a * 2 ^ (- ex) in
  0 ≤ p ∧ ∃ q l, records (shr_record_of_loc q l) p (Z.pos b) ∧
    SFdiv 53 1024 (S754_finite s a 0) (S754_finite s' b 0) = binary_round_aux 53 1024 (xorb s s') q ex l.
Proof.
  cbn [SFdiv]. unfold SFdiv_core_binary, quotient_bound. rewrite !Zdigits2_log2, !Z.add_0_r, Z.sub_diag by lia.
  replace (Z.log2 (Z.pos a) + 1 - (Z.log2 (Z.pos b) + 1)) with (Z.log2 (Z.pos a) - Z.log2 (Z.pos b)) by lia.
  set (ex := Z.min _ 0). cbn zeta. assert (ex ≤ 0) as Hex0 by lia. clearbody ex.
  assert (match 0 - ex with Z0 => Z.pos a | Zpos _ => Z.shiftl (Z.pos a) (0 - ex) | Zneg _ => 0 end
          = Z.pos a * 2 ^ (- ex)) as ->.
  { destruct (0 - ex) as [|k|k] eqn:Ek; [|rewrite Z.shiftl_mul_pow2 by lia; do 2 f_equal; lia|lia].
    replace (- ex) with 0 by lia. lia. }
  set (p := Z.pos a * 2 ^ (- ex)).
  assert (0 ≤ p) as Hp by (unfold p; pose proof (Z.pow_pos_nonneg 2 (- ex)); nia). split; [done|].
  pose proof (records_location p (Z.pos b) Hp ltac:(lia)) as Hr. unfold Z.div, Z.modulo in Hr.
  destruct (Z.div_eucl p (Z.pos b)) as [q r]. by exists q, (new_location (Z.pos b) r).
Qed.

Lemma iter_xO (p q : positive) : Z.pos (Pos.iter xO p q) = Z.pos p * 2 ^ Z.pos q.
Proof.
  induction q using Pos.peano_ind; [simpl; lia|].
  rewrite Pos.iter_succ, (Pos2Z.inj_xO _), IHq, Pos2Z.inj_succ, Z.pow_succ_r by lia. lia.
Qed.

Lemma round_starts s (a : positive) :
  let ex := Z.min (fexp 53 1024 (Z.log2 (Z.pos a) + 1)) 0 in
  let p := Z.pos a * 2 ^ (- ex) in
  0 ≤ p ∧ ∃ q, records (shr_record_of_loc q loc_Exact) p 1 ∧
    binary_round 53 1024 s a 0 = binary_round_aux 53 1024 s q ex loc_Exact.
Proof.
  unfold binary_round, shl_align. rewrite digits2_log2, !Z.add_0_r, Z.sub_0_r.
  set (f := fexp 53 1024 (Z.log2 (Z.pos a) + 1)). clearbody f. cbn zeta. pose proof (Z.pow_pos_nonneg 2 (- Z.min f 0) ltac:(lia) ltac:(lia)). split; [nia|].
  assert (∃ mz, (match f with Zneg d0 => (Pos.iter xO a d0, f) | _ => (a, 0) end) = (mz, Z.min f 0) ∧
    Z.pos mz = Z.pos a * 2 ^ (- Z.min f 0)) as (mz & -> & Emz).
  { destruct f as [|k|k]; [exists a; split; [done|by rewrite Z.mul_1_r]..|]. exists (Pos.iter xO a k). split; [done|]. apply iter_xO. }
  exists (Z.pos mz). split; [|done]. rewrite <-Emz. unfold records. cbn [shr_record_of_loc shr_m shr_r shr_s].
  by rewrite Z.div_1_r, Z.mod_1_r.
Qed.

(** A quotient of integers is rounded to the number it is near to. *)
Lemma div_near (a b m : positive) e : canonical m e → near_quotient (Z.pos a) (Z.pos b) m e →
  SFdiv 53 1024 (S754_finite false a 0) (S754_finite false b 0) = S754_finite false m e.
Proof.
  intros Hc Hn. destruct (div_starts false false a b) as (Hp & q & l & Hr & ->).
  pose proof (quotient_at_least (Z.pos a) (Z.pos b) ltac:(lia) ltac:(lia)) as Hlow.
  assert (0 ≤ quotient_bound (Z.pos a) (Z.pos b) + 1075) as Hd.
  { destruct (canonical_range m e Hc) as [Hm _]. destruct Hc as (_ & Her & _). destruct Hn as [Hn _].
    replace (e - -1076) with (e + 1074 + 2) in Hn by lia. rewrite Z.pow_add_r in Hn by lia.
    pose proof (Z.pow_pos_nonneg 2 (e + 1074) ltac:(lia) ltac:(lia)).
    assert (2 ^ 1 * Z.pos b ≤ Z.pos a * 2 ^ 1076) as Hab by nia.
    apply Z.log2_le_mono in Hab. rewrite Z.mul_comm, !Z.log2_mul_pow2 in Hab by lia. unfold quotient_bound. lia. }
  destruct (near_start (Z.pos a) (Z.pos b) _ m e ltac:(lia) ltac:(lia) Hd Hlow Hc Hn) as [He Hne].
  apply (round_near false q _ l _ (Z.pos b) m e Hp ltac:(lia) He Hr Hc Hne). by apply start_below.
Qed.

(** So is an integer. *)
Lemma normalize_near (a m : positive) e : canonical m e → near_quotient (Z.pos a) 1 m e →
  binary_normalize 53 1024 (Z.pos a) 0 false = S754_finite false m e.
Proof.
  intros Hc Hn. cbn [binary_normalize]. destruct (round_starts false a) as (Hp & q & Hr & ->).
  pose proof (int_at_least (Z.pos a) ltac:(lia)) as Hlow. pose proof (Z.log2_nonneg (Z.pos a)).
  destruct (near_start (Z.pos a) 1 (Z.log2 (Z.pos a) + 1) m e ltac:(lia) ltac:(lia) ltac:(lia) Hlow Hc Hn) as [He Hne].
  apply (round_near false q _ loc_Exact _ 1 m e Hp ltac:(lia) He Hr Hc Hne). by apply start_below.
Qed.

(** ** What rounding gives is a number of the format *)

Definition in_format (x : float64) : Prop :=
  match x with S754_finite _ m e => canonical m e | S754_nan => False | _ => True end.

Lemma in_format_opp x : in_format x → in_format (SFopp x).
Proof. by destruct x. Qed.

Lemma canonical_intro m e : Z.pos m < 2 ^ 53 → -1074 ≤ e ≤ 971 → (e = -1074 ∨ 2 ^ 52 ≤ Z.pos m) → canonical m e.
Proof.
  intros Hm He Hc. assert (Z.log2 (Z.pos m) ≤ 52) as Hl by (apply Z.lt_succ_r, Z.log2_lt_pow2; lia).
  split; [done|]. split; [done|]. destruct Hc as [Hc|Hc]; [by right|left].
  apply Z.log2_le_mono in Hc. rewrite Z.log2_pow2 in Hc by lia. lia.
Qed.

(** The mantissa after the first shift. *)
Lemma shifted_range z ex : 0 ≤ z → ex ≤ fexp 53 1024 (Zdigits2 z + ex) →
  let e1 := fexp 53 1024 (Zdigits2 z + ex) in
  0 ≤ z / 2 ^ (e1 - ex) < 2 ^ 53 ∧ -1074 ≤ e1 ∧ (e1 = -1074 ∨ 2 ^ 52 ≤ z / 2 ^ (e1 - ex)).
Proof.
  intros Hz. unfold fexp, emin. cbn zeta.
  destruct (decide (z = 0)) as [->|Hne].
  { cbn [Zdigits2]. intros Hle. set (e1 := Z.max _ _) in *.
    pose proof (Z.pow_pos_nonneg 2 (e1 - ex) ltac:(lia) ltac:(lia)) as Hu. rewrite Z.div_0_l by lia. simpl. lia. }
  destruct (log2_ge_pow z) as [H1 H2]; [lia|]. pose proof (Z.log2_nonneg z).
  rewrite Zdigits2_log2 by lia. intros Hle. set (e1 := Z.max _ _) in *.
  pose proof (Z.pow_pos_nonneg 2 (e1 - ex) ltac:(lia) ltac:(lia)) as Hu. split; [split|].
  - apply Z.div_pos; lia.
  - apply Z.div_lt_upper_bound; [lia|]. rewrite Z.mul_comm, <-Z.pow_add_r by lia.
    eapply Z.lt_le_trans; [exact H2|]. apply Z.pow_le_mono_r; lia.
  - split; [lia|]. destruct (decide (e1 = -1074)); [by left|right].
    apply Z.div_le_lower_bound; [lia|]. rewrite Z.mul_comm, <-Z.pow_add_r by lia.
    replace (52 + (e1 - ex)) with (Z.log2 z) by lia. done.
Qed.

Lemma round_in_format s mx ex lx p q :
  0 ≤ p → 0 < q → records (shr_record_of_loc mx lx) p q →
  ex ≤ fexp 53 1024 (Zdigits2 (p / q) + ex) →
  in_format (binary_round_aux 53 1024 s mx ex lx).
Proof.
  intros Hp Hq Hr Hle. destruct (shr_fexp_records mx ex lx p q Hp Hq Hr Hle) as (mrs & Hs & Hm).
  destruct (shifted_range (p / q) ex) as (Hz & He1 & Hnorm); [apply Z.div_pos; lia|done|].
  unfold binary_round_aux. rewrite Hs. clear Hs. set (e1 := fexp _ _ _) in *. clearbody e1.
  pose proof (Z.pow_pos_nonneg 2 (e1 - ex) ltac:(lia) ltac:(lia)) as Hu.
  rewrite Z.div_div, (Z.mul_comm q) in Hz, Hnorm by lia. destruct Hm as [Hm _]. rewrite <-Hm in Hz, Hnorm.
  assert (∃ m, round_nearest_even (shr_m mrs) (loc_of_shr_record mrs) = m ∧ shr_m mrs ≤ m ≤ shr_m mrs + 1)
    as (m & -> & Hmr).
  { eexists. split; [done|]. unfold round_nearest_even. repeat case_match; lia. }
  destruct (decide (m = 2 ^ 53)) as [->|Hne].
  - unfold shr_fexp, fexp, emin. change (Zdigits2 (2 ^ 53)) with 54.
    replace (Z.max (54 + e1 - 53) (3 - 1024 - 53) - e1) with 1 by lia. cbn [shr iter_pos shr_record_of_loc].
    change (shr_m (shr_1 {| shr_m := 2 ^ 53; shr_r := false; shr_s := false |})) with (Z.pos (2 ^ 52)).
    cbn match. destruct (Z.leb_spec (e1 + 1) (1024 - 53)); [|done]. apply canonical_intro; simpl; lia.
  - destruct m as [|m|m]; [|rewrite renormalise|lia].
    + unfold shr_fexp, fexp, emin. destruct Hnorm as [->|?]; [done|lia].
    + cbn [shr_m]. destruct (Z.leb_spec e1 (1024 - 53)); [|done]. apply canonical_intro; lia.
    + apply Z.lt_succ_r, Z.log2_lt_pow2; lia.
    + done.
    + destruct Hnorm as [?|Hnorm]; [by right|left].
      pose proof (Z.log2_le_mono (2 ^ 52) (Z.pos m) ltac:(lia)) as Hl. rewrite Z.log2_pow2 in Hl by lia.
      assert (Z.log2 (Z.pos m) < 53) by (apply Z.log2_lt_pow2; lia). lia.
Qed.

Lemma div_in_format s s' (a b : positive) :
  in_format (SFdiv 53 1024 (S754_finite s a 0) (S754_finite s' b 0)).
Proof.
  destruct (div_starts s s' a b) as (Hp & q & l & Hr & ->). eapply round_in_format; [exact Hp| |exact Hr|]; [done|].
  by apply start_below, quotient_at_least.
Qed.

Lemma normalize_in_format z : in_format (binary_normalize 53 1024 z 0 false).
Proof.
  destruct z as [|a|a]; cbn [binary_normalize]; [done|destruct (round_starts false a) as (Hp & q & Hr & ->)|
    destruct (round_starts true a) as (Hp & q & Hr & ->)];
    (eapply round_in_format; [exact Hp| |exact Hr|]; [done|]; by apply start_below, int_at_least).
Qed.
