(* ===== verification/Decimal.v ===== *)
(** Binary64 numbers as decimal text: the shortest text that is read back as the
    number, in the layout JavaScript and Go's [encoding/json] share, the reading
    of decimal numerals, and that the one undoes the other. *)
From S2P Require Import Prelude GoStrings Json GoNumbers Rounding.
From Stdlib Require Import SpecFloat Ascii.

Module Decimal.
Import Json.

(** ** Text of a number *)

(** [n * 10^e], correctly rounded; beyond the range of the format it is known
    without computing the power. *)
Definition power10 (n e : Z) : float64 :=
  let digits := Z.of_nat (String.length (pretty (Z.abs n))) in
  if (n =? 0)%Z then S754_zero false
  else if (310 <? digits + e)%Z then S754_infinity (n <? 0)%Z
  else if (digits + e <? -330)%Z then S754_zero (n <? 0)%Z
  else if (0 <=? e)%Z then binary_normalize 53 1024 (n * 10 ^ e) 0 false
  else SFdiv 53 1024 (unrounded n) (unrounded (10 ^ (- e))).

(** The value of a finite positive number as a fraction. *)
Definition fraction (m : positive) (e : Z) : Z * Z :=
  if (0 <=? e)%Z then (Z.pos m * 2 ^ e, 1)%Z else (Z.pos m, 2 ^ (- e))%Z.

(** The [n] with [10^(n-1) <= num/den < 10^n]; no positive number is under
    [10^-330]. *)
Definition magnitude (num den : Z) : Z :=
  (Z.of_nat (String.length (pretty (num * 10 ^ 330 / den))) - 330)%Z.

(** The two numbers of [k] digits around [num/den], the nearer one first. *)
Definition neighbours (num den n : Z) (k : Z) : list Z :=
  let '(num, den) := if (n <=? k)%Z then (num * 10 ^ (k - n), den)%Z else (num, den * 10 ^ (n - k))%Z in
  let lo := (num / den)%Z in
  let r := (num mod den)%Z in
  if (r =? 0)%Z then [lo]
  else if (2 * r <? den)%Z || ((2 * r =? den)%Z && Z.even lo) then [lo; lo + 1]%Z
  else [lo + 1; lo]%Z.

(** Of [k] digits, one more than the largest is a power of ten. *)
Definition carried (k n s : Z) : Z * Z := if (s =? 10 ^ k)%Z then (1, n + 1)%Z else (s, n).

(** The digits [d] with the point after the [n]th, as a number. *)
Definition pointed (d n : Z) : float64 := power10 d (n - Z.of_nat (String.length (pretty d))).

(** The fewest digits that read back as [x], and where the point goes: the least
    [k], and among [k] digits the nearest. Seventeen digits are enough for
    binary64. *)
Fixpoint shortest (fuel : nat) (k n num den : Z) (x : float64) : option (Z * Z) :=
  match fuel with
  | 0 => None
  | S fuel =>
      let reads c := match SFcompare (pointed c.1 c.2) x with Some Eq => true | _ => false end in
      match List.find reads (map (carried k n) (neighbours num den n k)) with
      | Some c => Some c
      | None => shortest fuel (k + 1) n num den x
      end
  end.

Definition zeros (n : Z) : string := String.string_of_list_ascii (replicate (Z.to_nat n) "0"%char).

Definition drop_text (n : nat) (s : string) : string := drop_bytes n s.

(** A numeral: the digits before the point, those behind it, and the exponent. *)
Definition numeral : Type := string * string * option Z.

Definition numeral_text (t : numeral) : string :=
  let '(i, f, e) := t in
  i +:+ (if decide (f = "") then "" else String "." f) +:+
  match e with
  | Some e => String "e" ((if (e <? 0)%Z then "-" else "+") +:+ pretty (Z.abs e))
  | None => ""
  end.

(** The digits [s] with the point after the [n]th, with an exponent when the
    number is large or small. *)
Definition layout (s : string) (n : Z) : numeral :=
  let k := Z.of_nat (String.length s) in
  if (k <=? n)%Z && (n <=? 21)%Z then (s +:+ zeros (n - k), "", None)
  else if (0 <? n)%Z && (n <=? 21)%Z then (slice_to s (Z.to_nat n), drop_bytes (Z.to_nat n) s, None)
  else if (-6 <? n)%Z && (n <=? 0)%Z then ("0", zeros (- n) +:+ s, None)
  else (slice_to s 1, drop_bytes 1 s, Some (n - 1)%Z).

Definition place_point (s : string) (n : Z) : string := numeral_text (layout s n).

(** The text of a number in JavaScript, [String(x)]. *)
Definition number_text (x : float64) : string :=
  match x with
  | S754_nan => "NaN"
  | S754_infinity s => if s then "-Infinity" else "Infinity"
  | S754_zero _ => "0"
  | S754_finite s m e =>
      let '(num, den) := fraction m e in
      match shortest 17 1 (magnitude num den) num den (S754_finite false m e) with
      | Some (d, n) => (if s then "-" else "") +:+ place_point (pretty d) n
      | None => ""
      end
  end.

(** ** Number of a text *)

(** A decimal numeral at the front of [s]: sign, digits, fraction, exponent. *)
Definition sign_of (s : string) : bool * string :=
  match expect "-" s, expect "+" s with
  | Some s, _ => (true, s)
  | None, Some s => (false, s)
  | None, None => (false, s)
  end.

Definition exponent_of (s : string) : Z :=
  match s with
  | String e rest =>
      if bool_decide (e = "e"%char) || bool_decide (e = "E"%char) then
        let '(neg, rest) := sign_of rest in
        match digits (digit_run rest).1 with
        | Some z => if neg then (- z)%Z else z
        | None => 0%Z
        end
      else 0%Z
  | EmptyString => 0%Z
  end.

(** The longest numeral at the front; [None] when there is none. *)
Definition numeral_value (s : string) : option float64 :=
  let '(neg, s) := sign_of s in
  let signed x := if neg : bool then SFopp x else x in
  if HasPrefix s "Infinity" then Some (signed (S754_infinity false))
  else
    let '(i, s) := digit_run s in
    let '(f, rest) := match expect "." s with Some s' => digit_run s' | None => ("", s) end in
    if decide (i +:+ f = "") then None
    else
      let n := default 0%Z (digits (i +:+ f)) in
      Some (signed (power10 n (exponent_of rest - Z.of_nat (String.length f)))).

(** ** Reading undoes writing *)

Lemma SFcompare_finite y s m e : SFcompare y (S754_finite s m e) = Some Eq → y = S754_finite s m e.
Proof.
  destruct y as [[]|[]| |[] m' e']; destruct s; try done; unfold SFcompare;
    destruct (Z.compare_spec e' e) as [->| |]; intros [= Hc]; try done;
    change (Pos.compare_cont Eq m' m) with (m' ?= m)%positive in Hc;
    destruct (Pos.compare_spec m' m) as [->| |]; done.
Qed.

Lemma neighbours_nonneg num den n k : (0 < num)%Z → (0 < den)%Z → Forall (Z.le 0) (neighbours num den n k).
Proof.
  intros Hn Hd. unfold neighbours.
  assert (∀ a b, (0 < a)%Z → (0 < b)%Z → (0 ≤ a / b)%Z) as Hdiv by (intros; apply Z.div_pos; lia).
  destruct (Z.leb_spec n k).
  all: match goal with |- context [(?a / ?b)%Z] => assert (0 ≤ a / b)%Z end;
    [apply Hdiv; try apply Z.mul_pos_pos; try apply Z.pow_pos_nonneg; lia|].
  all: repeat case_match; repeat constructor; lia.
Qed.

(** The digits found are those of a positive number and read as [x]. *)
Lemma shortest_reads fuel k n num den m e d n' :
  (0 < num)%Z → (0 < den)%Z →
  shortest fuel k n num den (S754_finite false m e) = Some (d, n') →
  (0 < d)%Z ∧ pointed d n' = S754_finite false m e.
Proof.
  intros Hnum Hden. revert k. induction fuel as [|fuel IH]; intros k; [done|]. cbn [shortest].
  destruct (List.find _ _) as [c|] eqn:E; [|apply IH]. intros [= ->].
  apply List.find_some in E as [Hin Hr]. cbn [fst snd] in Hr.
  assert (pointed d n' = S754_finite false m e) as Hp.
  { apply SFcompare_finite. destruct (SFcompare _ _) as [[]|]; done. }
  split; [|done].
  apply List.in_map_iff in Hin as (s & Hs & Hin). unfold carried in Hs.
  destruct (s =? 10 ^ k)%Z; [by simplify_eq|]. simplify_eq.
  pose proof (neighbours_nonneg num den n' k Hnum Hden) as Hall. rewrite Forall_forall in Hall.
  specialize (Hall d (proj2 (list_elem_of_In _ _) Hin)).
  destruct (decide (d = 0)%Z) as [->|]; [done|lia].
Qed.

Lemma fraction_pos m e : (0 < (fraction m e).1)%Z ∧ (0 < (fraction m e).2)%Z.
Proof.
  unfold fraction. destruct (Z.leb_spec 0 e); simpl; lia.
Qed.

(** *** Digits *)

Definition starts_digit (s : string) : bool :=
  match s with String a _ => bool_decide (is_Some (digit_value a)) | EmptyString => false end.

Lemma digits_from_app acc s t : digits_from acc (s +:+ t) = d ← digits_from acc s; digits_from d t.
Proof.
  revert acc. induction s as [|a s IH]; intros acc; [done|]. rewrite str_app_cons. cbn [digits_from].
  destruct (digit_value a); bind; [apply IH|done].
Qed.

Lemma digits_starts s : starts_digit s = true → digits s = digits_from 0 s.
Proof. by destruct s. Qed.

Lemma all_digits_app s t : all_digits (s +:+ t) = all_digits s && all_digits t.
Proof.
  induction s as [|a s IH]; [done|]. rewrite str_app_cons. cbn [all_digits]. by rewrite IH, andb_assoc.
Qed.

Lemma zeros_succ j : zeros (Z.of_nat (S j)) = String "0" (zeros (Z.of_nat j)).
Proof. unfold zeros. by rewrite !Nat2Z.id. Qed.

Lemma zeros_digits j : all_digits (zeros (Z.of_nat j)) = true.
Proof. induction j as [|j IH]; [done|]. rewrite zeros_succ. cbn [all_digits]. by rewrite IH. Qed.

Lemma zeros_length j : String.length (zeros (Z.of_nat j)) = j.
Proof. induction j as [|j IH]; [done|]. rewrite zeros_succ. simpl. by rewrite IH. Qed.

Lemma digits_from_zeros acc j : digits_from acc (zeros (Z.of_nat j)) = Some (acc * 10 ^ Z.of_nat j)%Z.
Proof.
  revert acc. induction j as [|j IH]; intros acc; [simpl; f_equal; lia|].
  rewrite zeros_succ. cbn [digits_from]. change (digit_value "0") with (Some 0%Z). bind.
  rewrite IH, Nat2Z.inj_succ, Z.pow_succ_r by lia. f_equal. lia.
Qed.

Lemma leading_zeros j s : digits ("0" +:+ zeros (Z.of_nat j) +:+ s) = digits_from 0 s.
Proof.
  change ("0" +:+ ?x) with (String "0" x). rewrite digits_starts by done. cbn [digits_from].
  change (digit_value "0") with (Some 0%Z). bind. by rewrite digits_from_app, digits_from_zeros.
Qed.

Lemma pretty_N_go_ten x s : (0 < x)%N → pretty_N_go (x * 10) s = pretty_N_go x (String "0" s).
Proof.
  intros Hx. rewrite pretty_N_go_step by lia. rewrite N.Div0.mod_mul, N.div_mul by lia. done.
Qed.

Lemma pretty_N_go_app x s t : pretty_N_go x (s +:+ t) = pretty_N_go x s +:+ t.
Proof.
  revert s. induction (N.lt_wf_0 x) as [x _ IH]. intros s.
  destruct (decide (x = 0%N)) as [->|Hx]; [by rewrite !pretty_N_go_0|].
  rewrite !(pretty_N_go_step x) by lia. rewrite <-str_app_cons. apply IH. apply N.div_lt; lia.
Qed.

Lemma pretty_ten (p : positive) : pretty (p * 10)%positive = pretty p +:+ "0".
Proof.
  unfold pretty, pretty_positive, pretty, pretty_N. rewrite !decide_False by done.
  change (N.pos (p * 10)) with (N.pos p * 10)%N. rewrite pretty_N_go_ten by lia.
  change (String "0" "") with ("" +:+ "0"). apply pretty_N_go_app.
Qed.

Lemma pretty_power (p : positive) j :
  ∃ q, Z.pos q = (Z.pos p * 10 ^ Z.of_nat j)%Z ∧ pretty q = pretty p +:+ zeros (Z.of_nat j).
Proof.
  induction j as [|j (q & Hq & IH)].
  - exists p. split; [simpl; lia|]. by rewrite str_app_nil.
  - exists (q * 10)%positive. split; [rewrite Nat2Z.inj_succ, Z.pow_succ_r; lia|].
    rewrite pretty_ten, IH, str_app_assoc. f_equal. clear. induction j as [|j IH]; [done|].
    rewrite zeros_succ, str_app_cons, IH. by rewrite <-zeros_succ.
Qed.

Lemma slice_drop n s : slice_to s n +:+ drop_bytes n s = s.
Proof. revert s. induction n as [|n IH]; intros [|a s]; try done. cbn [slice_to drop_bytes]. by rewrite str_app_cons, IH. Qed.

Lemma drop_bytes_length n s : String.length (drop_bytes n s) = String.length s - n.
Proof. revert s. induction n as [|n IH]; intros [|a s]; try done. apply IH. Qed.

(** *** Numerals *)

(** Digits before the point without a leading zero, and digits behind it. *)
Definition well_formed (t : numeral) : Prop :=
  let '(i, f, _) := t in
  starts_digit i = true ∧ all_digits i = true ∧ (i = "0" ∨ expect "0" i = None) ∧ all_digits f = true.

Lemma digit_run_stop s rest :
  all_digits s = true → starts_digit rest = false → digit_run (s +:+ rest) = (s, rest).
Proof.
  intros Hs Hr. apply digit_run_digits; [done|]. intros a t ->. cbn [starts_digit] in Hr.
  apply bool_decide_eq_false in Hr. by apply eq_None_not_Some.
Qed.

Lemma pretty_abs z : all_digits (pretty (Z.abs z)) = true ∧ starts_digit (pretty (Z.abs z)) = true ∧
  digits (pretty (Z.abs z)) = Some (Z.abs z).
Proof.
  assert (∀ p : positive, all_digits (pretty p) = true ∧ starts_digit (pretty p) = true ∧
    digits (pretty p) = Some (Z.pos p)) as Hp.
  { intros p. destruct (pretty_positive_spec p) as (a & s & E & _ & Ha & Hall & Hd).
    split_and!; [done| |done]. rewrite E. by apply bool_decide_eq_true. }
  destruct z as [|p|p]; [done|apply Hp|apply Hp].
Qed.

(** The text behind the digits of a numeral: it does not go on as one. *)
Definition exponent_text (e : option Z) : string :=
  match e with
  | Some e => String "e" ((if (e <? 0)%Z then "-" else "+") +:+ pretty (Z.abs e))
  | None => ""
  end.

Lemma exponent_text_value e : exponent_of (exponent_text e) = default 0%Z e.
Proof.
  destruct e as [e|]; [|done]. cbn [exponent_text exponent_of].
  destruct (pretty_abs e) as (Hall & _ & Hd).
  assert (digit_run (pretty (Z.abs e)) = (pretty (Z.abs e), "")) as Hrun.
  { rewrite <-(str_app_nil (pretty (Z.abs e))) at 1. by apply digit_run_stop. }
  change (bool_decide ("e"%char = "e"%char) || bool_decide ("e"%char = "E"%char)) with true. cbn match.
  destruct (Z.ltb_spec e 0).
  - change (sign_of ("-" +:+ pretty (Z.abs e))) with (true, pretty (Z.abs e)). cbn match.
    rewrite Hrun. cbn [fst]. rewrite Hd. simpl. lia.
  - change (sign_of ("+" +:+ pretty (Z.abs e))) with (false, pretty (Z.abs e)). cbn match.
    rewrite Hrun. cbn [fst]. rewrite Hd. simpl. lia.
Qed.

Lemma exponent_text_stop e rest : ends_number rest = true →
  starts_digit (exponent_text e +:+ rest) = false ∧ expect "." (exponent_text e +:+ rest) = None ∧
  number_exp (exponent_text e +:+ rest) = Some (exponent_text e, rest).
Proof.
  intros Hr. destruct (ends_number_spec rest Hr) as (Hf & He & Hd).
  destruct e as [e|].
  - split; [done|]. split; [done|]. destruct (pretty_abs e) as (Hall & Hst & _).
    assert (digit_run1 (pretty (Z.abs e) +:+ rest) = Some (pretty (Z.abs e), rest)) as Hrun.
    { unfold digit_run1. rewrite digit_run_digits by done. by destruct (pretty (Z.abs e)). }
    cbn [exponent_text]. rewrite str_app_cons. unfold number_exp.
    change (bool_decide ("e"%char = "e"%char) || bool_decide ("e"%char = "E"%char)) with true. cbn match.
    destruct (e <? 0)%Z; rewrite str_app_assoc, str_app_cons; change ("" +:+ ?x) with x; 
      change (expect "+" (String "+" ?x)) with (Some x); change (expect "+" (String "-" ?x)) with (@None string);
      change (expect "-" (String "-" ?x)) with (Some x); cbn match; rewrite Hrun; done.
  - change (exponent_text None +:+ rest) with rest. split_and!; [..|done].
    + destruct rest as [|a t]; [done|]. simpl. apply bool_decide_eq_false. rewrite (Hd a t) by done.
      by apply is_Some_None.
    + unfold number_frac in Hf. destruct (expect "." rest) as [r|] eqn:E; [|done].
      destruct rest as [|a t]; [done|]. simpl in E, Hr. case_decide; [subst a|done].
      vm_compute in Hr. done.
Qed.

Lemma numeral_text_eq i f e :
  numeral_text (i, f, e) = i +:+ (if decide (f = "") then "" else String "." f) +:+ exponent_text e.
Proof. by destruct e. Qed.

Lemma sign_of_digits s : starts_digit s = true → sign_of s = (false, s).
Proof.
  destruct s as [|a s]; [done|]. intros [d Hd]%bool_decide_eq_true. unfold sign_of. cbn [expect].
  rewrite !decide_False; [done|by intros ->..].
Qed.

Lemma digits_not_infinity s : starts_digit s = true → HasPrefix s "Infinity" = false.
Proof.
  destruct s as [|a s]; [done|]. intros [d Hd]%bool_decide_eq_true. unfold HasPrefix.
  apply bool_decide_eq_false. rewrite after_prefix_ne; [by apply is_Some_None|]. by intros <-.
Qed.

Lemma starts_digit_app s t : starts_digit s = true → starts_digit (s +:+ t) = true.
Proof. by destruct s. Qed.

Lemma numeral_text_value i f e : well_formed (i, f, e) →
  numeral_value (numeral_text (i, f, e)) =
  Some (power10 (default 0%Z (digits (i +:+ f))) (default 0%Z e - Z.of_nat (String.length f))).
Proof.
  intros (Hst & Hi & _ & Hf). rewrite numeral_text_eq. unfold numeral_value.
  rewrite sign_of_digits by (by apply starts_digit_app).
  rewrite digits_not_infinity by (by apply starts_digit_app).
  destruct (exponent_text_stop e "" eq_refl) as (He1 & He2 & _). rewrite str_app_nil in He1, He2.
  assert (i ≠ "") by (by intros ->).
  destruct (decide (f = "")) as [->|Hne].
  - change ("" +:+ exponent_text e) with (exponent_text e). rewrite digit_run_stop by done.
    cbn beta iota. rewrite He2. rewrite str_app_nil, decide_False by done.
    by rewrite exponent_text_value.
  - rewrite str_app_cons, digit_run_stop by done. cbn [expect]. rewrite decide_True by done.
    rewrite digit_run_stop by done. rewrite decide_False by (by destruct i).
    by rewrite exponent_text_value.
Qed.

(** A numeral is a number of JSON. *)
Lemma numeral_text_number i f e rest : well_formed (i, f, e) → ends_number rest = true →
  number_int (numeral_text (i, f, e) +:+ rest) = Some (i, (if decide (f = "") then "" else String "." f) +:+ exponent_text e +:+ rest) ∧
  number_frac ((if decide (f = "") then "" else String "." f) +:+ exponent_text e +:+ rest) =
    Some (if decide (f = "") then "" else String "." f, exponent_text e +:+ rest).
Proof.
  intros (Hst & Hi & Hz & Hf) Hr. destruct (exponent_text_stop e rest Hr) as (H1 & H2 & _).
  rewrite numeral_text_eq, !str_app_assoc. split.
  - set (tail := (if decide (f = "") then "" else String "." f) +:+ exponent_text e +:+ rest).
    assert (starts_digit tail = false) as Ht by (unfold tail; by destruct (decide (f = ""))).
    clearbody tail. unfold number_int. destruct Hz as [->|Hz]; [done|].
    assert (expect "0" (i +:+ tail) = None) as ->.
    { destruct i; [done|]. rewrite str_app_cons. revert Hz. cbn [expect]. by case_decide. }
    unfold digit_run1. rewrite digit_run_stop by done. by destruct i.
  - unfold number_frac. destruct (decide (f = "")) as [->|Hne].
    + change ("" +:+ ?x) with x. by rewrite H2.
    + rewrite str_app_cons. cbn [expect]. rewrite decide_True by done. unfold digit_run1.
      rewrite digit_run_stop by done. by destruct f.
Qed.

(** With or without a minus sign in front. *)
Definition signed (s : bool) (t : string) : string := if s then String "-" t else t.

Lemma reads_numeral s i f e : well_formed (i, f, e) →
  reads (signed s (numeral_text (i, f, e))) (JNumber (signed s (numeral_text (i, f, e)))).
Proof.
  intros Hwf. pose proof Hwf as (Hst & _).
  destruct i as [|a i]; [done|]. cbn [starts_digit] in Hst. apply bool_decide_eq_true in Hst as [d Hd].
  assert (∀ rest, ends_number rest = true →
    number (signed s (numeral_text (String a i, f, e)) +:+ rest) =
    Some (signed s (numeral_text (String a i, f, e)), rest)) as Hnum.
  { intros rest Hr. destruct (numeral_text_number _ _ e rest Hwf Hr) as [H1 H2].
    destruct (exponent_text_stop e rest Hr) as (_ & _ & H3). unfold number.
    assert (expect "-" (numeral_text (String a i, f, e) +:+ rest) = None) as Hm.
    { rewrite numeral_text_eq, !str_app_cons. cbn [expect]. rewrite decide_False; [done|]. by intros ->. }
    destruct s; cbn [signed]; rewrite ?str_app_cons; [cbn [expect]; rewrite decide_True by done|rewrite Hm].
    all: rewrite H1; bind; rewrite H2; bind; rewrite H3; bind; rewrite numeral_text_eq; done. }
  destruct s; eapply reads_number; [reflexivity|by right|exact Hnum|reflexivity|left; by eexists|exact Hnum].
Qed.

Lemma numeral_value_neg t : starts_digit t = true → numeral_value (String "-" t) = SFopp <$> numeral_value t.
Proof.
  intros Hst. unfold numeral_value. rewrite (sign_of_digits t) by done.
  change (sign_of (String "-" t)) with (true, t). cbn beta iota.
  rewrite digits_not_infinity by done.
  destruct (digit_run t) as [i s]. destruct (match expect "." s with Some s' => digit_run s' | None => ("", s) end).
  by case_decide.
Qed.

(** *** The layout of a number *)

Lemma layout_well_formed (p : positive) n : well_formed (layout (pretty p) n).
Proof.
  destruct (pretty_positive_spec p) as (a & s & E & Ha & [d Hd] & Hall & _).
  assert (∀ m, all_digits (slice_to (pretty p) m) = true ∧ all_digits (drop_bytes m (pretty p)) = true) as Hcut.
  { intros m. apply andb_prop. by rewrite <-all_digits_app, slice_drop. }
  assert (∀ x, starts_digit (String a x) = true ∧ expect "0" (String a x) = None) as Hhead.
  { intros x. simpl. rewrite decide_False, Hd by done. done. }
  assert (∀ z, all_digits (zeros z) = true) as Hzeros.
  { intros z. change (zeros z) with (String.string_of_list_ascii (replicate (Z.to_nat z) "0"%char)).
    rewrite <-(Nat2Z.id (Z.to_nat z)). apply zeros_digits. }
  unfold layout, well_formed.
  destruct (Z.leb_spec (Z.of_nat (String.length (pretty p))) n) as [Hk|Hk]; [destruct (Z.leb_spec n 21)|];
    cbn [andb].
  1: { rewrite all_digits_app, Hall, Hzeros, E, str_app_cons. destruct (Hhead (s +:+ zeros (n - Z.of_nat (String.length (String a s))))).
       split_and!; [done..|by right|done]. }
  all: destruct (Z.ltb_spec 0 n) as [H0|H0]; [destruct (Z.leb_spec n 21)|]; cbn [andb]; try lia.
  all: try (destruct (Z.ltb_spec (-6) n), (Z.leb_spec n 0); try lia; cbn [andb]).
  all: try (split_and!; [done|done|by left|by rewrite all_digits_app, Hzeros, Hall]).
  all: match goal with |- context [slice_to _ ?m] =>
    destruct (Hcut m) as [Hc1 Hc2]; rewrite Hc1, Hc2;
    assert (∃ x, slice_to (pretty p) m = String a x) as [x ->]
      by (rewrite E; destruct m eqn:Em; [lia|by eexists]) end.
  all: destruct (Hhead x); split_and!; [done..|by right|done].
Qed.

Lemma power10_shift (p : positive) (j : nat) :
  power10 (Z.pos p * 10 ^ Z.of_nat j) 0 = power10 (Z.pos p) (Z.of_nat j).
Proof.
  destruct (pretty_power p j) as (q & Hq & Hpq). rewrite <-Hq. unfold power10. cbn [Z.abs Z.eqb].
  change (pretty (Z.abs (Z.pos q))) with (pretty q). change (pretty (Z.abs (Z.pos p))) with (pretty p).
  rewrite Hpq, str_app_length, zeros_length, Nat2Z.inj_add, Z.add_0_r.
  change (Z.pos q <? 0)%Z with (Z.pos p <? 0)%Z.
  rewrite (proj2 (Z.leb_le 0 (Z.of_nat j))) by lia. cbn [Z.leb Z.compare]. by rewrite Z.pow_0_r, Z.mul_1_r, Hq.
Qed.

Lemma layout_value (p : positive) n : numeral_value (place_point (pretty p) n) = Some (pointed (Z.pos p) n).
Proof.
  unfold place_point. pose proof (layout_well_formed p n) as Hwf.
  destruct (pretty_positive_spec p) as (c & t & Ec & _ & [dc Hdc] & _ & Hd).
  assert (starts_digit (pretty p) = true) as Hst by (rewrite Ec; simpl; by rewrite Hdc).
  pose proof Hd as Hd'. rewrite digits_starts in Hd' by done.
  destruct (layout (pretty p) n) as [[i f] e] eqn:E. rewrite numeral_text_value by done. f_equal.
  unfold pointed. change (pretty (Z.pos p)) with (pretty p). unfold layout in E.
  set (k := String.length (pretty p)) in *.
  assert (∀ m, Z.of_nat (String.length (drop_bytes m (pretty p))) = Z.of_nat (k - m)) as Hlen
    by (intros m; by rewrite drop_bytes_length).
  destruct (Z.leb_spec (Z.of_nat k) n) as [Hk|Hk]; [destruct (Z.leb_spec n 21)|]; cbn [andb] in E.
  1: { injection E as <- <- <-. rewrite str_app_nil. rewrite digits_starts, digits_from_app, Hd' by (by apply starts_digit_app). bind.
       replace (n - Z.of_nat k)%Z with (Z.of_nat (Z.to_nat (n - Z.of_nat k))) by lia.
       rewrite digits_from_zeros. apply power10_shift. }
  all: destruct (Z.ltb_spec 0 n) as [H0|H0]; [destruct (Z.leb_spec n 21)|]; cbn [andb] in E; try lia.
  all: try (destruct (Z.ltb_spec (-6) n), (Z.leb_spec n 0); try lia; cbn [andb] in E).
  all: injection E as <- <- <-; unfold id; cbn [default from_option].
  all: try change (match pretty p with "" => pretty p | String _ s => s end) with (drop_bytes 1 (pretty p)).
  all: assert (1 ≤ k) by (unfold k; rewrite Ec; simpl; lia).
  all: try (rewrite slice_drop, Hd, Hlen; cbn [default from_option]; f_equal; lia).
  replace (- n)%Z with (Z.of_nat (Z.to_nat (- n))) by lia.
  rewrite str_app_length, zeros_length, leading_zeros, Hd'. cbn [default from_option]. f_equal. fold k. lia.
Qed.

(** The text of a number, when one is found, is a number of JSON that reads as
    it; only the sign of zero is lost. *)
Lemma number_text_reads s m e :
  number_text (S754_finite s m e) ≠ "" →
  reads (number_text (S754_finite s m e)) (JNumber (number_text (S754_finite s m e))) ∧
  numeral_value (number_text (S754_finite s m e)) = Some (S754_finite s m e).
Proof.
  unfold number_text. destruct (fraction_pos m e) as [Hn Hd]. destruct (fraction m e) as [num den].
  cbn [fst snd] in Hn, Hd. destruct (shortest _ _ _ _ _ _) as [[d n]|] eqn:E; [intros _|done].
  apply shortest_reads in E as [Hpos Hp]; [|done..]. destruct d as [|p|p]; [lia| |lia].
  pose proof (layout_well_formed p n) as Hwf. pose proof (layout_value p n) as Hv. rewrite Hp in Hv.
  change (pretty (Z.pos p)) with (pretty p). unfold place_point in *.
  destruct (layout (pretty p) n) as [[i f] x]. pose proof (reads_numeral s _ _ x Hwf) as Hr.
  destruct s; cbn [signed] in Hr; split; try exact Hr; try exact Hv.
  rewrite str_app_cons. change ("" +:+ ?x) with x. rewrite numeral_value_neg, Hv; [done|].
  rewrite numeral_text_eq. apply starts_digit_app, Hwf.
Qed.

(** ** Seventeen digits are enough *)

Section Enough.
Local Open Scope Z_scope.

Lemma pretty_N_go_length x s : (0 < x)%N →
  ∃ l : nat, String.length (pretty_N_go x s) = (S l + String.length s)%nat ∧
    10 ^ Z.of_nat l ≤ Z.of_N x < 10 ^ Z.of_nat (S l).
Proof.
  revert s. induction (N.lt_wf_0 x) as [x _ IH]. intros s Hx. rewrite pretty_N_go_step by done.
  pose proof (N.div_mod x 10 ltac:(lia)) as E. pose proof (N.mod_lt x 10 ltac:(lia)) as Hm.
  destruct (decide (x `div` 10 = 0)%N) as [Hz|Hz].
  - exists 0%nat. rewrite Hz, pretty_N_go_0. split; [done|]. simpl. lia.
  - destruct (IH (x `div` 10)%N (N.div_lt x 10 ltac:(lia) ltac:(lia)) (String (pretty_N_char (x `mod` 10)) s))
      as (l & Hl & Hb); [lia|].
    exists (S l). rewrite Hl. split; [simpl; lia|]. set (q := (x `div` 10)%N) in *. set (r := (x `mod` 10)%N) in *. clearbody q r.
    rewrite !Nat2Z.inj_succ in *. rewrite (Z.pow_succ_r 10 (Z.succ _)), (Z.pow_succ_r 10 (Z.of_nat l)) by lia.
    rewrite (Z.pow_succ_r 10 (Z.of_nat l)) in Hb by lia. lia.
Qed.

Lemma pretty_length z : 0 < z →
  let l := Z.of_nat (String.length (pretty z)) in 1 ≤ l ∧ 10 ^ (l - 1) ≤ z < 10 ^ l.
Proof.
  destruct z as [|p|p]; [lia| |lia]. intros _. change (pretty (Z.pos p)) with (pretty (N.pos p)).
  unfold pretty, pretty_N. rewrite decide_False by done.
  destruct (pretty_N_go_length (N.pos p) "") as (l & Hl & Hb); [lia|]. cbn zeta. rewrite Hl.
  replace (Z.of_nat (S l + String.length "")) with (Z.of_nat (S l)) by (simpl; lia). split; [lia|].
  replace (Z.of_nat (S l) - 1) with (Z.of_nat l) by lia. exact Hb.
Qed.

Lemma pretty_length_unique z k : 10 ^ (k - 1) ≤ z < 10 ^ k → 1 ≤ k → Z.of_nat (String.length (pretty z)) = k.
Proof.
  intros Hz Hk. pose proof (Z.pow_pos_nonneg 10 (k - 1)) as H0.
  destruct (pretty_length z) as (Hl & H1 & H2); [lia|]. set (l := Z.of_nat _) in *. clearbody l.
  assert (10 ^ (k - 1) < 10 ^ l) as Ha by lia. assert (10 ^ (l - 1) < 10 ^ k) as Hb by lia.
  apply Z.pow_lt_mono_r_iff in Ha, Hb; lia.
Qed.

Lemma magnitude_spec num den : 0 < num → 0 < den → den ≤ num * 10 ^ 330 →
  let n := magnitude num den in
  -329 ≤ n ∧ den * 10 ^ (n + 399) ≤ num * 10 ^ 400 < den * 10 ^ (n + 400).
Proof.
  intros Hn Hd Hge. unfold magnitude. set (q := num * 10 ^ 330 / den).
  assert (0 < q) as Hq by (apply Z.div_str_pos; lia).
  destruct (pretty_length q Hq) as (Hl & H1 & H2). set (l := Z.of_nat _) in *. clearbody l. cbn zeta.
  split; [lia|]. replace (l - 330 + 399) with (l - 1 + 70) by lia. replace (l - 330 + 400) with (l + 70) by lia.
  rewrite !Z.pow_add_r by lia. change (10 ^ 400) with (10 ^ 330 * 10 ^ 70). rewrite (Z.mul_assoc num).
  pose proof (Z.div_mod (num * 10 ^ 330) den ltac:(lia)) as E. fold q in E.
  pose proof (Z.mod_pos_bound (num * 10 ^ 330) den Hd) as Hb. set (t := 10 ^ 70). assert (0 < t) by done.
  clearbody t q. set (w := num * 10 ^ 330) in *. clearbody w.
  assert (den * 10 ^ (l - 1) ≤ w) by nia. assert (w < den * 10 ^ l) by nia. nia.
Qed.

Lemma near_quotient_eq a b a' b' m e : 0 < b → 0 < b' → -1074 ≤ e → a * b' = a' * b →
  near_quotient a b m e → near_quotient a' b' m e.
Proof.
  intros Hb Hb' He E [H1 H2]. unfold near_quotient, near in *. replace (e - -1076) with (e + 1076) in * by lia.
  set (r := 2 ^ 1076) in *. set (u := 2 ^ (e + 1076)) in *.
  assert (0 < u) as Hu by (apply Z.pow_pos_nonneg; lia). clearbody u r.
  assert ((a * r - Z.pos m * (u * b)) * b' = (a' * r - Z.pos m * (u * b')) * b) as Ed.
  { transitivity (a * b' * r - Z.pos m * u * b * b'); [ring|]. rewrite E. ring. }
  clear E. set (x := a * r - Z.pos m * (u * b)) in *. set (x' := a' * r - Z.pos m * (u * b')) in *.
  assert (0 < u * b ∧ 0 < u * b') as [] by nia.
  split.
  - apply (f_equal Z.abs) in Ed. rewrite !Z.abs_mul, (Z.abs_eq b), (Z.abs_eq b') in Ed by lia. nia.
  - intros Em Hlo Hlt. split; [lia|]. destruct H2 as [_ H4]; [done|done|nia|]. nia.
Qed.

(** [a / b], within half a unit [t / b] of the value [num / den] of [m * 2^e],
    where the value is at least [10^16] units. *)
Lemma near_digits num den m e a b t :
  Rounding.canonical m e → 0 < den → 0 < b → 0 < t →
  Z.pos m * 2 ^ (e + 1076) * den = num * 2 ^ 1076 →
  2 * Z.abs (a * den - num * b) ≤ den * t → t * 10 ^ 16 * den ≤ num * b →
  near_quotient a b m e.
Proof.
  intros Hc Hd Hb Ht E Hhalf Hunits. destruct (canonical_range m e Hc) as [Hm _]. destruct Hc as (_ & He & _).
  unfold near_quotient, near. replace (e - -1076) with (e + 1076) by lia.
  set (r := 2 ^ 1076) in *. assert (0 < r) as Hr by done. clearbody r.
  set (u := 2 ^ (e + 1076)) in *. assert (0 < u) as Hu by (apply Z.pow_pos_nonneg; lia). clearbody u.
  assert (t * r * 10 ^ 16 ≤ Z.pos m * (u * b)) as Hsmall.
  { apply (Z.mul_le_mono_pos_r _ _ den Hd).
    replace (Z.pos m * (u * b) * den) with (num * r * b) by (rewrite <-E; ring). nia. }
  assert ((a * r - Z.pos m * (u * b)) * den = (a * den - num * b) * r) as Ediff.
  { rewrite Z.mul_sub_distr_r. replace (Z.pos m * (u * b) * den) with (num * r * b) by (rewrite <-E; ring). ring. }
  assert (2 * Z.abs (a * r - Z.pos m * (u * b)) ≤ t * r) as Hclose.
  { apply (Z.mul_le_mono_pos_r _ _ den Hd). apply (f_equal Z.abs) in Ediff.
    rewrite !Z.abs_mul, (Z.abs_eq den), (Z.abs_eq r) in Ediff by lia. nia. }
  assert (0 < u * b) by nia. split; [nia|]. intros Em _ Hlt. split; [lia|]. rewrite Em in *. nia.
Qed.

Lemma power10_near d z m e : (0 < d) → -330 ≤ Z.of_nat (String.length (pretty d)) + z ≤ 310 →
  Rounding.canonical m e → near_quotient (d * 10 ^ Z.max z 0) (10 ^ Z.max (- z) 0) m e →
  power10 d z = S754_finite false m e.
Proof.
  intros Hd Hg Hc Hn. unfold power10. rewrite (Z.abs_eq d) by lia.
  rewrite (proj2 (Z.eqb_neq d 0)), (proj2 (Z.ltb_ge 310 _)), (proj2 (Z.ltb_ge _ (-330))) by lia.
  destruct d as [|d|d]; [lia| |lia]. destruct (Z.leb_spec 0 z) as [Hz|Hz].
  - rewrite Z.max_l, Z.max_r in Hn by lia. pose proof (Z.pow_pos_nonneg 10 z ltac:(lia) Hz).
    assert (0 < Z.pos d * 10 ^ z) as Hp by lia. destruct (Z.pos d * 10 ^ z) as [|a|a]; [lia| |lia].
    by apply normalize_near.
  - rewrite Z.max_r, Z.max_l, Z.mul_1_r in Hn by lia. pose proof (Z.pow_pos_nonneg 10 (- z) ltac:(lia) ltac:(lia)).
    destruct (10 ^ (- z)) as [|b|b]; [lia| |lia]. by apply div_near.
Qed.

Lemma fraction_value m e : -1074 ≤ e →
  Z.pos m * 2 ^ (e + 1076) * (fraction m e).2 = (fraction m e).1 * 2 ^ 1076.
Proof.
  intros He. unfold fraction. destruct (Z.leb_spec 0 e); cbn [fst snd].
  - rewrite Z.pow_add_r by lia. ring.
  - rewrite <-Z.mul_assoc, <-Z.pow_add_r by lia. do 2 f_equal. lia.
Qed.

(** The nearer one of two neighbours is within half a unit. *)
Lemma neighbours_head num den n k : 0 < num → 0 < den →
  let a := num * 10 ^ Z.max (k - n) 0 in
  let b := den * 10 ^ Z.max (n - k) 0 in
  ∃ c l, neighbours num den n k = c :: l ∧ 2 * Z.abs (c * b - a) ≤ b ∧ a / b ≤ c ≤ a / b + 1.
Proof.
  intros Hn Hd. cbn zeta. unfold neighbours.
  assert ((if n <=? k then (num * 10 ^ (k - n), den) else (num, den * 10 ^ (n - k))) =
    (num * 10 ^ Z.max (k - n) 0, den * 10 ^ Z.max (n - k) 0)) as ->.
  { destruct (Z.leb_spec n k); [rewrite Z.max_l, (Z.max_r (n - k)) by lia|rewrite Z.max_r, Z.max_l by lia];
      by rewrite Z.pow_0_r, Z.mul_1_r. }
  set (a := num * _). set (b := den * _).
  assert (0 < b) as Hb by (unfold b; pose proof (Z.pow_pos_nonneg 10 (Z.max (n - k) 0)); nia).
  pose proof (Z.div_mod a b ltac:(lia)) as E. pose proof (Z.mod_pos_bound a b Hb) as Hr.
  set (q := a / b) in *. set (r := a mod b) in *. clearbody q r a b.
  destruct (Z.eqb_spec r 0); [eexists _, _; split; [done|]; split; [nia|lia]|].
  destruct (Z.ltb_spec (2 * r) b), (Z.eqb_spec (2 * r) b), (Z.even q); cbn [orb andb]; try lia;
    eexists _, _; (split; [done|]); (split; [nia|lia]).
Qed.

(** The range of the format, in powers of ten. *)
Lemma magnitude_range m e : Rounding.canonical m e →
  let '(num, den) := fraction m e in
  den ≤ num * 10 ^ 324 ∧ num < den * 10 ^ 309.
Proof.
  intros Hc. destruct (canonical_range m e Hc) as [Hm _]. destruct Hc as (_ & He & _).
  pose proof (fraction_value m e ltac:(lia)) as Hv. destruct (fraction_pos m e) as [Hn Hd].
  destruct (fraction m e) as [num den]. cbn [fst snd] in *.
  pose proof (Z.pow_le_mono_r 2 2 (e + 1076) ltac:(lia) ltac:(lia)) as Hlo.
  pose proof (Z.pow_le_mono_r 2 (e + 1076) 2047 ltac:(lia) ltac:(lia)) as Hhi.
  set (u := 2 ^ (e + 1076)) in *. clearbody u.
  assert (2 ^ 1074 ≤ 10 ^ 324 ∧ 2 ^ 1024 ≤ 10 ^ 309) as [H1 H2] by (split; apply Z.leb_le; vm_compute; reflexivity).
  assert (den ≤ num * 2 ^ 1074 ∧ num < den * 2 ^ 1024) as [H3 H4]; [|nia].
  assert (0 < u * den) by nia. split.
  - apply (Z.mul_le_mono_pos_r _ _ (2 ^ 2)); [done|]. rewrite <-Z.mul_assoc.
    change (2 ^ 1074 * 2 ^ 2) with (2 ^ 1076). rewrite <-Hv. nia.
  - apply (Z.mul_lt_mono_pos_r (2 ^ 1076)); [done|]. rewrite <-Hv, <-(Z.mul_assoc den).
    change (2 ^ 1024 * 2 ^ 1076) with (2 ^ 53 * 2 ^ 2047). set (w := 2 ^ 2047) in *. clearbody w.
    rewrite (Z.mul_comm den). apply Z.mul_lt_mono_pos_r; [done|]. nia.
Qed.

(** Scaled to 17 digits, a number has 17 digits. *)
Lemma scaled_digits num den n : 0 < num → 0 < den → -329 ≤ n →
  den * 10 ^ (n + 399) ≤ num * 10 ^ 400 < den * 10 ^ (n + 400) →
  10 ^ 16 * (den * 10 ^ Z.max (n - 17) 0) ≤ num * 10 ^ Z.max (17 - n) 0 < 10 ^ 17 * (den * 10 ^ Z.max (n - 17) 0).
Proof.
  intros Hn Hd Hn0 [H1 H2].
  assert (10 ^ Z.max (17 - n) 0 * 10 ^ (n + 383) = 10 ^ Z.max (n - 17) 0 * 10 ^ 400) as E
    by (rewrite <-!Z.pow_add_r by lia; f_equal; lia).
  replace (n + 399) with (n + 383 + 16) in H1 by lia. replace (n + 400) with (n + 383 + 17) in H2 by lia.
  rewrite Z.pow_add_r in H1, H2 by lia.
  pose proof (Z.pow_pos_nonneg 10 (Z.max (17 - n) 0) ltac:(lia) ltac:(lia)) as Hx.
  set (x := 10 ^ Z.max (17 - n) 0) in *. set (y := 10 ^ Z.max (n - 17) 0) in *. set (w := 10 ^ (n + 383)) in *.
  set (r := 10 ^ 400) in *. assert (0 < r) as Hr by done. clearbody x y w r. split.
  - apply (Z.mul_le_mono_pos_r _ _ r Hr). replace (10 ^ 16 * (den * y) * r) with (10 ^ 16 * den * (y * r)) by ring.
    rewrite <-E. nia.
  - apply (Z.mul_lt_mono_pos_r r _ _ Hr). replace (10 ^ 17 * (den * y) * r) with (10 ^ 17 * den * (y * r)) by ring.
    rewrite <-E. nia.
Qed.

Lemma seventeen_digits m e : Rounding.canonical m e →
  let '(num, den) := fraction m e in
  let n := magnitude num den in
  ∃ c l, neighbours num den n 17 = c :: l ∧
    pointed (carried 17 n c).1 (carried 17 n c).2 = S754_finite false m e.
Proof.
  intros Hc. pose proof Hc as (_ & He & _). pose proof (magnitude_range m e Hc) as Hrange.
  pose proof (fraction_value m e ltac:(lia)) as Hv. destruct (fraction_pos m e) as [Hn Hd].
  destruct (fraction m e) as [num den]. cbn [fst snd] in *. destruct Hrange as [Hlo Hhi].
  destruct (magnitude_spec num den Hn Hd) as (Hn0 & Hm).
  { change (10 ^ 330) with (10 ^ 324 * 10 ^ 6). nia. }
  set (n := magnitude num den) in *. clearbody n. cbn zeta.
  assert (n ≤ 309) as Hn9.
  { assert (10 ^ (n + 399) < 10 ^ (309 + 400)) as Hp; [|apply Z.pow_lt_mono_r_iff in Hp; lia].
    rewrite (Z.pow_add_r 10 309 400) by lia. apply (Z.mul_lt_mono_pos_l den _ _ Hd).
    eapply Z.le_lt_trans; [apply Hm|]. rewrite Z.mul_assoc. by apply Z.mul_lt_mono_pos_r. }
  destruct (scaled_digits num den n Hn Hd Hn0 Hm) as [Hs1 Hs2].
  destruct (neighbours_head num den n 17 Hn Hd) as (c & l & Hl & Hhalf & Hq). cbn zeta in Hhalf, Hq.
  exists c, l. split; [done|].
  pose proof (Z.pow_pos_nonneg 10 (Z.max (17 - n) 0) ltac:(lia) ltac:(lia)) as Hx.
  pose proof (Z.pow_pos_nonneg 10 (Z.max (n - 17) 0) ltac:(lia) ltac:(lia)) as Hy.
  assert (10 ^ 16 ≤ c ≤ 10 ^ 17) as Hcr.
  { assert (0 < den * 10 ^ Z.max (n - 17) 0) by nia. split.
    - transitivity (num * 10 ^ Z.max (17 - n) 0 / (den * 10 ^ Z.max (n - 17) 0)); [|lia].
      apply Z.div_le_lower_bound; lia.
    - assert (num * 10 ^ Z.max (17 - n) 0 / (den * 10 ^ Z.max (n - 17) 0) < 10 ^ 17); [|lia].
      apply Z.div_lt_upper_bound; lia. }
  assert (near_quotient (c * 10 ^ Z.max (n - 17) 0) (10 ^ Z.max (17 - n) 0) m e) as Hnear.
  { apply (near_digits num den m e _ _ (10 ^ Z.max (n - 17) 0)); try done.
    - rewrite <-(Z.mul_assoc c), (Z.mul_comm _ den). exact Hhalf.
    - lia. }
  unfold carried, pointed. destruct (Z.eqb_spec c (10 ^ 17)) as [->|Hne]; cbn [fst snd].
  - apply power10_near; [lia|simpl; lia|done|].
    eapply near_quotient_eq; [..|exact Hnear]; [done|apply Z.pow_pos_nonneg; lia|lia|].
    change (Z.of_nat (String.length (pretty 1))) with 1. rewrite Z.mul_1_l, <-!Z.pow_add_r by lia. f_equal. lia.
  - rewrite (pretty_length_unique c 17) by (simpl; lia).
    apply power10_near; [lia| |done|].
    + rewrite (pretty_length_unique c 17) by (simpl; lia). lia.
    + by replace (- (n - 17)) with (17 - n) by lia.
Qed.

Lemma SFcompare_refl s m e : SFcompare (S754_finite s m e) (S754_finite s m e) = Some Eq.
Proof.
  unfold SFcompare. rewrite Z.compare_refl. change (Pos.compare_cont Eq m m) with (m ?= m)%positive.
  rewrite Pos.compare_refl. by destruct s.
Qed.

Lemma shortest_found fuel k n num den x j c l :
  k ≤ j < k + Z.of_nat fuel → neighbours num den n j = c :: l →
  SFcompare (pointed (carried j n c).1 (carried j n c).2) x = Some Eq →
  is_Some (shortest fuel k n num den x).
Proof.
  intros Hj Hl Hc. revert k Hj. induction fuel as [|fuel IH]; intros k Hj; [lia|]. cbn [shortest].
  destruct (List.find _ _) as [d|] eqn:E; [by eexists|]. apply IH. split; [|lia].
  destruct (decide (k = j)) as [->|]; [exfalso|lia].
  rewrite Hl in E. cbn [map List.find] in E. by rewrite Hc in E.
Qed.

(** Every number of the format has a text. *)
Lemma number_text_total s m e : Rounding.canonical m e → number_text (S754_finite s m e) ≠ "".
Proof.
  intros Hc. pose proof (seventeen_digits m e Hc) as H. unfold number_text. pose proof (fraction_pos m e) as [Hn Hd].
  destruct (fraction m e) as [num den]. cbn [fst snd] in *. cbn zeta in H. destruct H as (c & l & Hl & Hp).
  destruct (shortest_found 17 1 (magnitude num den) num den (S754_finite false m e) 17 c l) as [[d n] Hs];
    [lia|done|rewrite Hp; apply SFcompare_refl|]. rewrite Hs.
  apply shortest_reads in Hs as [Hpos _]; [|done..]. destruct d as [|p|p]; [lia| |lia].
  pose proof (layout_well_formed p n) as Hwf. change (pretty (Z.pos p)) with (pretty p). unfold place_point.
  destruct (layout (pretty p) n) as [[i f] x]. rewrite numeral_text_eq. destruct Hwf as (Hst & _).
  by destruct s, i.
Qed.

(** What a numeral reads as is a number of the format, or an infinity. *)
Lemma power10_in_format n e : in_format (power10 n e).
Proof.
  unfold power10. destruct (Z.eqb_spec n 0); [done|]. destruct (_ <? _); [done|]. destruct (_ <? _); [done|].
  destruct (Z.leb_spec 0 e) as [He|He]; [apply normalize_in_format|].
  pose proof (Z.pow_pos_nonneg 10 (- e) ltac:(lia) ltac:(lia)) as Hp.
  destruct (10 ^ (- e)) as [|b|b]; [lia| |lia]. destruct n as [|a|a]; [done|apply div_in_format..].
Qed.

Lemma numeral_value_in_format s x : numeral_value s = Some x → in_format x.
Proof.
  unfold numeral_value. destruct (sign_of s) as [neg t]. destruct (HasPrefix _ _); [intros [= <-]; by destruct neg|].
  destruct (digit_run t) as [i r]. destruct (match expect "." r with Some s' => digit_run s' | None => ("", r) end) as [f rest].
  case_decide; [done|]. intros E%(inj Some). subst x. pose proof (power10_in_format) as Hp.
  destruct neg; [apply in_format_opp|]; apply Hp.
Qed.

(** The text of a number of the format is a number of JSON that reads as it. *)
Lemma number_text_exact s m e : Rounding.canonical m e →
  reads (number_text (S754_finite s m e)) (JNumber (number_text (S754_finite s m e))) ∧
  numeral_value (number_text (S754_finite s m e)) = Some (S754_finite s m e).
Proof. intros Hc. apply number_text_reads. by apply number_text_total. Qed.
End Enough.
End Decimal.
