(* ===== verification/Js.v ===== *)
(** The parts of JavaScript the dashboard's script relies on: dynamic values,
    their truthiness and text, numbers as text, and the reading and writing of
    JSON. Strings are kept in UTF-8. *)
From S2P Require Import Prelude GoStrings Json GoNumbers Decimal.
From Stdlib Require Import SpecFloat Ascii.

Module Js.
Import Json.
Export Decimal.

(** ** Values *)

#[warnings="-register-all"]
Inductive val :=
| Undefined
| Null
| Bool (b : bool)
| Num (x : float64)
| Str (s : string)
| Arr (l : list val)
| Obj (fields : list (string * val)).

(** [v.name] for a name that no built-in prototype has: [None] is the
    [TypeError] of [undefined] and [null]. Of fields with one name the last
    counts. *)
Fixpoint field (name : string) (l : list (string * val)) : val :=
  match l with
  | [] => Undefined
  | (k, v) :: l =>
      match field name l with
      | Undefined => if decide (k = name) then v else Undefined
      | w => w
      end
  end.

Definition get (v : val) (name : string) : option val :=
  match v with
  | Undefined | Null => None
  | Obj l => Some (field name l)
  | _ => Some Undefined
  end.

Definition truthy (v : val) : bool :=
  match v with
  | Undefined | Null => false
  | Bool b => b
  | Num x => match x with S754_zero _ | S754_nan => false | _ => true end
  | Str s => negb (bool_decide (s = ""))
  | Arr _ | Obj _ => true
  end.

(** [v || w]. *)
Definition or_else (v w : val) : val := if truthy v then v else w.

(** [v === s] for a string. *)
Definition is_str (v : val) (s : string) : bool :=
  match v with Str t => bool_decide (t = s) | _ => false end.

(** ** Numbers as text *)

(** [x.toFixed(prec)]: the nearest decimal, the larger one of two. *)
Definition toFixed (prec : nat) (x : float64) : string :=
  match x with
  | S754_nan => "NaN"
  | S754_infinity s => if s then "-Infinity" else "Infinity"
  | S754_zero _ => fixed_text prec 0
  | S754_finite s m e =>
      let '(num, den) := fraction m e in
      if (10 ^ 21 * den <=? num)%Z then number_text x
      else (if s then "-" else "") +:+ fixed_text prec ((2 * num * 10 ^ Z.of_nat prec + den) / (2 * den))
  end.

(** [String(v)]. *)
Fixpoint text (v : val) : string :=
  match v with
  | Undefined => "undefined"
  | Null => "null"
  | Bool b => encode_bool b
  | Num x => number_text x
  | Str s => s
  | Arr l =>
      String.concat "," (map (λ v, match v with Undefined | Null => "" | _ => text v end) l)
  | Obj _ => "[object Object]"
  end.

(** ** Text *)

(** White space and line ends of the language. *)
Definition space_encodings : list (list ascii) :=
  Eval vm_compute in map (map byte_of)
    [[9]; [10]; [11]; [12]; [13]; [32]; [194; 160]; [225; 154; 128];
     [226; 128; 128]; [226; 128; 129]; [226; 128; 130]; [226; 128; 131]; [226; 128; 132];
     [226; 128; 133]; [226; 128; 134]; [226; 128; 135]; [226; 128; 136]; [226; 128; 137];
     [226; 128; 138]; [226; 128; 168]; [226; 128; 169]; [226; 128; 175]; [226; 129; 159];
     [227; 128; 128]; [239; 187; 191]]%N.

(** [s.trim()]. *)
Definition trim (s : string) : string :=
  let l := String.list_ascii_of_string s in
  let l := trim_front (length l) space_encodings l in
  let r := trim_front (length l) (map (@rev ascii) space_encodings) (rev l) in
  String.string_of_list_ascii (rev r).

Definition parseFloat (s : string) : float64 :=
  default S754_nan (numeral_value (trim s)).

(** ** JSON *)

(** [JSON.parse]: numbers become binary64. *)
Fixpoint of_json (j : json) : val :=
  match j with
  | JNull => Null
  | JBool b => Bool b
  | JNumber lit => Num (default S754_nan (numeral_value lit))
  | JString s => Str s
  | JArray l => Arr (map of_json l)
  | JObject l => Obj (map (λ kv, (kv.1, of_json kv.2)) l)
  end.

Definition parse (s : string) : option val := of_json <$> whole_value s.

Definition hex (n : N) : ascii :=
  ascii_of_N (if (n <? 10)%N then 48 + n else 87 + n)%N.

(** The escapes of [JSON.stringify]. *)
Definition quote_char (a : ascii) : string :=
  let esc t := String backslash t in
  if bool_decide (a = quote) || bool_decide (a = backslash) then esc (String a "")
  else if (code a =? 8)%N then esc "b"
  else if (code a =? 9)%N then esc "t"
  else if (code a =? 10)%N then esc "n"
  else if (code a =? 12)%N then esc "f"
  else if (code a =? 13)%N then esc "r"
  else if (code a <? 32)%N then
    esc ("u00" +:+ String (hex (code a / 16)) (String (hex (code a mod 16)) ""))
  else String a "".

Fixpoint quote_chars (s : string) : string :=
  match s with
  | EmptyString => ""
  | String a s => quote_char a +:+ quote_chars s
  end.
Definition quoted (s : string) : string := String quote (quote_chars s +:+ String quote "").

Definition finite (x : float64) : bool :=
  match x with S754_zero _ | S754_finite _ _ _ => true | _ => false end.

(** The members of an object that are written: those that are not [undefined]. *)
Definition defined (v : val) : bool := match v with Undefined => false | _ => true end.

Definition newline_indent (indent : nat) : string :=
  String (ascii_of_N 10) (String.string_of_list_ascii (replicate indent " "%char)).

(** [JSON.stringify(v, null, 2)] at an indentation, and [JSON.stringify(v)] for
    [step] 0. *)
Section Stringify.
Context (step : nat).
Definition break (indent : nat) : string := match step with 0 => "" | _ => newline_indent indent end.

Fixpoint stringify (indent : nat) (v : val) : string :=
  match v with
  | Undefined | Null => "null"
  | Bool b => encode_bool b
  | Num x => if finite x then number_text x else "null"
  | Str s => quoted s
  | Arr [] => "[]"
  | Arr l =>
      let inner := (indent + step)%nat in
      "[" +:+ break inner +:+ String.concat ("," +:+ break inner) (map (stringify inner) l) +:+
      break indent +:+ "]"
  | Obj l =>
      let inner := (indent + step)%nat in
      let member kv := quoted (kv.1 : string) +:+ (match step with 0 => ":" | _ => ": " end) +:+ stringify inner kv.2 in
      match omap (λ kv, if defined kv.2 then Some (member kv) else None) l with
      | [] => "{}"
      | ms => "{" +:+ break inner +:+ String.concat ("," +:+ break inner) ms +:+ break indent +:+ "}"
      end
  end.
End Stringify.

(** [encodeURIComponent]. *)
Definition upper_hex (n : N) : ascii := ascii_of_N (if (n <? 10)%N then 48 + n else 55 + n)%N.

Definition unreserved (a : ascii) : bool :=
  let n := code a in
  ((97 <=? n) && (n <=? 122) || (65 <=? n) && (n <=? 90) || (48 <=? n) && (n <=? 57))%N ||
  bool_decide (a ∈ ["-"; "_"; "."; "!"; "~"; "*"; "'"; "("; ")"]%char).

Fixpoint encodeURIComponent (s : string) : string :=
  match s with
  | EmptyString => ""
  | String a s =>
      (if unreserved a then String a ""
       else String "%" (String (upper_hex (code a / 16)) (String (upper_hex (code a mod 16)) ""))) +:+
      encodeURIComponent s
  end.

(** ** Strings are read back *)

Lemma unquote_quote_char a t : (code a < 128)%N →
  unquote 0 0 (quote_char a +:+ t) = '(v, rest) ← unquote 0 0 t; Some (String a v, rest).
Proof.
  intros Ha. destruct a as [[] [] [] [] [] [] [] []]; try (vm_compute in Ha; discriminate Ha);
    reflexivity.
Qed.

Lemma quote_char_high a : (128 ≤ code a)%N → quote_char a = String a "".
Proof.
  intros Ha. unfold quote_char.
  rewrite !bool_decide_false by (intros ->; vm_compute in Ha; done). cbn [orb].
  rewrite !(proj2 (N.eqb_neq _ _)), (proj2 (N.ltb_ge _ _)) by lia. done.
Qed.

Lemma quote_chars_tail rs t s :
  Forall (λ r, 128 ≤ r.1)%N rs → tail_ok rs t = true → String.length t = length rs →
  quote_chars (t +:+ s) = t +:+ quote_chars s.
Proof.
  revert t. induction rs as [|[lo hi] rs IH]; intros [|a t] Hrs Ht Hlen; try done.
  apply Forall_cons in Hrs as [Hlo Hrs]. cbn [tail_ok] in Ht. apply andb_prop in Ht as [[H1 H2]%andb_prop Ht].
  rewrite str_app_cons. cbn [quote_chars]. simpl in Hlo, Hlen. apply N.leb_le in H1.
  rewrite quote_char_high, IH by (done || lia). done.
Qed.

Lemma utf8_tail_high b rs : utf8_tail b = Some rs → Forall (λ r, 128 ≤ r.1)%N rs.
Proof. unfold utf8_tail. repeat case_match; intros [= <-]; repeat constructor; simpl; lia. Qed.

(** What the script writes for a string is read back by Go as it was. *)
Lemma unquote_quoted s rest : ValidString s = true →
  unquote 0 0 (quote_chars s +:+ String quote rest) = Some (s, rest).
Proof.
  unfold ValidString. remember (String.length s) as n eqn:Hn. revert s Hn.
  induction (lt_wf n) as [n _ IH]. intros [|a s] -> Hs; [done|].
  cbn [utf8_scan] in Hs. destruct (utf8_tail (N_of_ascii a)) as [rs|] eqn:Hrs; [|done].
  destruct (scan_tail rs s Hs) as (t & s' & -> & Hs' & Hok & _ & Hunq & Hlen).
  assert (String.length s' < String.length (String a (t +:+ s'))) as Hlt.
  { cbn [String.length]. rewrite str_app_length. lia. }
  specialize (IH _ Hlt s' eq_refl Hs'). cbn [quote_chars]. rewrite str_app_assoc.
  destruct (N.ltb_spec (code a) 128) as [Ha|Ha].
  { assert (rs = []) as ->.
    { unfold code in Ha. unfold utf8_tail in Hrs. destruct (N.leb_spec (N_of_ascii a) 127); [|lia].
      by injection Hrs as <-. }
    destruct t; [|done]. change ("" +:+ s') with s'. by rewrite unquote_quote_char, IH. }
  rewrite quote_char_high, str_app_cons by done. change ("" +:+ ?x) with x.
  rewrite (quote_chars_tail rs), str_app_assoc; [|by eapply utf8_tail_high|by rewrite <-(str_app_nil t)|done].
  cbn [unquote]. rewrite !decide_False by (intros ->; vm_compute in Ha; done).
  rewrite (proj2 (N.ltb_ge (code a) 32)) by lia. unfold rune_tail, code. rewrite Hrs. bind.
  by rewrite Hok, Hunq, IH.
Qed.

Lemma reads_quoted s : ValidString s = true → reads (quoted s) (JString s).
Proof. intros Hs. apply reads_literal. intros rest. by apply unquote_quoted. Qed.
End Js.
