(* ===== verification/Web.v ===== *)
(** What the dashboard needs of a browser: elements and their markup, the
    elements it makes of markup a script inserts, and the request target of a
    URL a script fetches. The parsers of HTML and of URLs are parameters; what is
    asked of them is what the standards say of plain markup and plain paths. *)
From S2P Require Import Prelude GoStrings Json.
From Stdlib Require Import Ascii.

Module Web.
Import Json.

(** ** Elements *)

(** An element with its attributes, or text. *)
#[warnings="-register-all"]
Inductive html :=
| E (tag : string) (attrs : list (string * string)) (kids : list html)
| T (text : string).

Definition attribute (name : string) (attrs : list (string * string)) : option string :=
  '(_, x) ← list_find (λ x : string * string, x.1 = name) attrs; Some x.2.

(** The elements in document order. *)
Fixpoint elements (h : html) : list (string * list (string * string)) :=
  match h with
  | E tag attrs kids => (tag, attrs) :: concat (map elements kids)
  | T _ => []
  end.

Definition attributes (name : string) (l : list html) : list string :=
  omap (λ e, attribute name e.2) (concat (map elements l)).

Definition is_text (h : html) : bool := match h with T _ => true | E _ _ _ => false end.

(** [textContent]. *)
Fixpoint text_content (h : html) : string :=
  match h with
  | T s => s
  | E _ _ kids => String.concat "" (map text_content kids)
  end.

(** The outermost elements with a [class] attribute. *)
Fixpoint with_class (class : string) (h : html) : list html :=
  match h with
  | T _ => []
  | E _ attrs kids =>
      if decide (attribute "class" attrs = Some class) then [h] else concat (map (with_class class) kids)
  end.

(** ** Markup *)

(** Elements without an end tag. *)
Definition void (tag : string) : bool := bool_decide (tag = "input").

Definition attr_text (a : string * string) : string :=
  " " +:+ a.1 +:+ "=" +:+ String quote (a.2 +:+ String quote "").

Fixpoint print (h : html) : string :=
  match h with
  | T s => s
  | E tag attrs kids =>
      "<" +:+ tag +:+ String.concat "" (map attr_text attrs) +:+ ">" +:+
      (if void tag then "" else String.concat "" (map print kids) +:+ "</" +:+ tag +:+ ">")
  end.

Definition print_all (l : list html) : string := String.concat "" (map print l).

Fixpoint all_chars (f : ascii → bool) (s : string) : bool :=
  match s with
  | EmptyString => true
  | String a s => f a && all_chars f s
  end.

(** Characters that stand for themselves in text and in quoted attributes: no tag
    or character reference starts with them, and they are not NUL or a carriage
    return, which the parser drops or replaces. *)
Definition text_char (a : ascii) : bool :=
  bool_decide (a ∉ ["<"; "&"; byte_of 0; byte_of 13]%char).
Definition value_char (a : ascii) : bool :=
  bool_decide (a ∉ [quote; "&"; byte_of 0; byte_of 13]%char).
Definition lower (a : ascii) : bool := ((97 <=? N_of_ascii a) && (N_of_ascii a <=? 122))%N.

Definition attrs_ok (attrs : list (string * string)) : bool :=
  bool_decide (NoDup attrs.*1) &&
  forallb (λ a, negb (bool_decide (a.1 = "")) && all_chars lower a.1 && all_chars value_char a.2) attrs.

(** Plain markup: [div] and [span] elements around each other, buttons with text,
    input fields, and text without tags and references. *)
Fixpoint plain (h : html) : bool :=
  match h with
  | T s => all_chars text_char s
  | E tag attrs kids =>
      attrs_ok attrs && forallb plain kids &&
      (if void tag then match kids with [] => true | _ => false end
       else if decide (tag = "button") then forallb is_text kids
       else bool_decide (tag ∈ ["div"; "span"]))
  end.

(** Texts next to each other are one text node, and no text node is empty. *)
Definition add_text (s : string) (l : list html) : list html :=
  if decide (s = "") then l
  else match l with T t :: l => T (s +:+ t) :: l | _ => T s :: l end.

Fixpoint tidy (h : html) (l : list html) : list html :=
  match h with
  | T s => add_text s l
  | E tag attrs kids => E tag attrs (foldr tidy [] kids) :: l
  end.
Definition tidy_all (l : list html) : list html := foldr tidy [] l.

(** ** Paths *)

(** A path segment of unreserved characters that is no dot segment. *)
Definition path_char (a : ascii) : bool :=
  let n := N_of_ascii a in
  ((97 <=? n) && (n <=? 122) || (65 <=? n) && (n <=? 90) || (48 <=? n) && (n <=? 57))%N ||
  bool_decide (a ∈ ["-"; "_"; "."; "~"]%char).

Definition plain_segment (s : string) : bool :=
  bool_decide (s ∉ [""; "."; ".."]) && all_chars path_char s.

(** An absolute path of such segments. *)
Definition plain_path (u : string) : bool :=
  match Split u "/" with
  | EmptyString :: seg :: segs => forallb plain_segment (seg :: segs)
  | _ => false
  end.

(** ** The browser *)

(** The nodes [innerHTML] makes of markup inside a [div], and the target of the
    request for a URL that a script of the page at [/] fetches. *)
Class Browser := {
  parse_html : string → list html;
  resolve_url : string → string
}.

Class BrowserSpec `{!Browser} : Prop := {
  parse_plain l : forallb plain l = true → parse_html (print_all l) = tidy_all l;
  resolve_plain u : plain_path u = true → resolve_url u = u
}.

(** ** Characters *)

Lemma all_chars_app f s t : all_chars f (s +:+ t) = all_chars f s && all_chars f t.
Proof. induction s as [|a s IH]; [done|]. rewrite Json.str_app_cons. cbn [all_chars]. by rewrite IH, andb_assoc. Qed.

Lemma all_chars_impl (f g : ascii → bool) s : (∀ a, f a = true → g a = true) → all_chars f s = true → all_chars g s = true.
Proof.
  intros Hfg. induction s as [|a s IH]; [done|]. cbn [all_chars]. intros [Ha Hs]%andb_prop. by rewrite Hfg, IH.
Qed.

Lemma all_chars_elem f s a : all_chars f s = true → a ∈ String.list_ascii_of_string s → f a = true.
Proof.
  induction s as [|b s IH]; [by intros _ ?%elem_of_nil|]. cbn [all_chars String.list_ascii_of_string].
  intros [Hb Hs]%andb_prop [->|Ha]%elem_of_cons; auto.
Qed.

Lemma html_induction (P : html → Prop) :
  (∀ s, P (T s)) → (∀ tag attrs kids, Forall P kids → P (E tag attrs kids)) → ∀ h, P h.
Proof.
  intros HT HE. fix IH 1. intros [tag attrs kids|s]; [|apply HT]. apply HE.
  induction kids as [|k kids IHk]; constructor; [apply IH|exact IHk].
Qed.

(** ** Queries do not see the difference between a forest and its tidy form *)

Definition tidied (h : html) : html :=
  match h with T s => T s | E tag attrs kids => E tag attrs (tidy_all kids) end.

Lemma texts_cons (s : string) l : String.concat "" (s :: l) = s +:+ String.concat "" l.
Proof. destruct l; [by rewrite str_app_nil|done]. Qed.

Lemma texts_app (l l' : list string) : String.concat "" (l ++ l') = String.concat "" l +:+ String.concat "" l'.
Proof.
  induction l as [|s l IH]; [done|]. change ((s :: l) ++ l') with (s :: (l ++ l')).
  by rewrite !texts_cons, IH, str_app_assoc.
Qed.

(** A measure of forests that ignores texts. *)
Section Query.
Context {A : Type} (f : html → list A).
Hypothesis Hf : ∀ s, f (T s) = [].

Lemma query_add_text s l : concat (map f (add_text s l)) = concat (map f l).
Proof.
  unfold add_text. destruct (decide (s = "")); [done|]. destruct l as [|[tag attrs kids|t] l]; cbn [map concat];
    rewrite ?Hf; done.
Qed.

Lemma query_tidy_all l : concat (map f (tidy_all l)) = concat (map (f ∘ tidied) l).
Proof.
  induction l as [|[tag attrs kids|s] l IH]; [done| |]; cbn [tidy_all foldr tidy map concat].
  - f_equal. exact IH.
  - unfold compose at 1. cbn [tidied]. rewrite Hf, query_add_text. exact IH.
Qed.
End Query.

Lemma map_eq_Forall {A B} (f g : A → B) l : Forall (λ x, f x = g x) l → map f l = map g l.
Proof. by induction 1 as [|x l Hx _ IH]; [|cbn [map]; rewrite Hx, IH]. Qed.

Lemma elements_tidied h : elements (tidied h) = elements h.
Proof.
  induction h as [s|tag attrs kids IH] using html_induction; [done|]. cbn [tidied elements]. f_equal.
  rewrite query_tidy_all by done. f_equal. by apply map_eq_Forall.
Qed.

Lemma content_add_text s l :
  String.concat "" (map text_content (add_text s l)) = s +:+ String.concat "" (map text_content l).
Proof.
  unfold add_text. destruct (decide (s = "")) as [->|]; [done|].
  destruct l as [|[tag attrs kids|t] l]; cbn [map text_content]; rewrite ?texts_cons; cbn [text_content]; try done.
  by rewrite str_app_assoc.
Qed.

Lemma content_tidied h : text_content (tidied h) = text_content h.
Proof.
  induction h as [s|tag attrs kids IH] using html_induction; [done|]. cbn [tidied text_content].
  induction IH as [|h kids Hh _ IHk]; [done|]. cbn [tidy_all foldr map].
  rewrite texts_cons, <-Hh. destruct h as [tag' attrs' kids'|s]; cbn [tidy].
  - cbn [map]. rewrite texts_cons. f_equal. exact IHk.
  - rewrite content_add_text. f_equal. exact IHk.
Qed.

Lemma class_tidied class h : with_class class (tidied h) = map tidied (with_class class h).
Proof.
  induction h as [s|tag attrs kids IH] using html_induction; [done|]. cbn [tidied with_class].
  destruct (decide _); [done|]. rewrite query_tidy_all by done. rewrite concat_map, map_map. f_equal.
  by apply map_eq_Forall.
Qed.

(** The elements at the top. *)
Definition top_elements (l : list html) : list html := filter (λ h, is_text h = false) l.

Lemma top_add_text s l : top_elements (add_text s l) = top_elements l.
Proof.
  unfold add_text. destruct (decide (s = "")); [done|]. by destruct l as [|[tag attrs kids|t] l].
Qed.

Lemma top_tidy l : top_elements (tidy_all l) = tidied <$> top_elements l.
Proof.
  induction l as [|[tag attrs kids|s] l IH]; [done| |]; cbn [tidy_all foldr tidy].
  - unfold top_elements in *. rewrite !filter_cons_True by done. rewrite fmap_cons. f_equal. exact IH.
  - rewrite top_add_text. etrans; [exact IH|]. done.
Qed.

(** ** A browser for examples *)

(** A tokenizer for tags with quoted attributes that knows no character
    references, and elements closed by their own end tags. *)
Inductive lexeme :=
| Open (tag : string) (attrs : list (string * string))
| Close (tag : string)
| Chars (s : string).

Inductive state :=
| Data (acc : string)
| TagOpen
| EndTag (tag : string)
| TagName (tag : string)
| InTag (tag : string) (attrs : list (string * string))
| AttrName (tag : string) (attrs : list (string * string)) (name : string)
| AttrEq (tag : string) (attrs : list (string * string)) (name : string)
| AttrValue (tag : string) (attrs : list (string * string)) (name v : string).

Definition snoc (s : string) (a : ascii) : string := s +:+ String a "".

Definition chars (acc : string) (ts : list lexeme) : list lexeme := if decide (acc = "") then ts else Chars acc :: ts.

Fixpoint tokens (st : state) (s : string) : list lexeme :=
  match s with
  | EmptyString => match st with Data acc => chars acc [] | _ => [] end
  | String a s =>
      match st with
      | Data acc => if decide (a = "<"%char) then chars acc (tokens TagOpen s) else tokens (Data (snoc acc a)) s
      | TagOpen => if decide (a = "/"%char) then tokens (EndTag "") s else tokens (TagName (String a "")) s
      | EndTag tag => if decide (a = ">"%char) then Close tag :: tokens (Data "") s else tokens (EndTag (snoc tag a)) s
      | TagName tag =>
          if decide (a = ">"%char) then Open tag [] :: tokens (Data "") s
          else if decide (a = " "%char) then tokens (InTag tag []) s
          else tokens (TagName (snoc tag a)) s
      | InTag tag attrs =>
          if decide (a = ">"%char) then Open tag attrs :: tokens (Data "") s
          else if decide (a = " "%char) then tokens (InTag tag attrs) s
          else tokens (AttrName tag attrs (String a "")) s
      | AttrName tag attrs name =>
          if decide (a = "="%char) then tokens (AttrEq tag attrs name) s
          else tokens (AttrName tag attrs (snoc name a)) s
      | AttrEq tag attrs name =>
          if decide (a = quote) then tokens (AttrValue tag attrs name "") s else tokens (InTag tag attrs) s
      | AttrValue tag attrs name v =>
          if decide (a = quote) then tokens (InTag tag (attrs ++ [(name, v)])) s
          else tokens (AttrValue tag attrs name (snoc v a)) s
      end
  end.

(** The open elements, each with the siblings before it, last first, and the last
    siblings [l] of the innermost one. *)
Definition open_element : Type := string * list (string * string) * list html.

Fixpoint build (ts : list lexeme) (opened : list open_element) (l : list html) : list html :=
  match ts with
  | [] => rev (foldl (λ l (o : open_element), E o.1.1 o.1.2 (rev l) :: o.2) l opened)
  | Chars s :: ts => build ts opened (T s :: l)
  | Open tag attrs :: ts =>
      if void tag then build ts opened (E tag attrs [] :: l) else build ts ((tag, attrs, l) :: opened) []
  | Close tag :: ts =>
      match opened with
      | (tag', attrs, before) :: rest =>
          if decide (tag = tag') then build ts rest (E tag' attrs (rev l) :: before) else build ts opened l
      | [] => build ts opened l
      end
  end.

Definition simple_parse (s : string) : list html := build (tokens (Data "") s) [] [].

(** A URL without its fragment. *)
Definition simple_resolve (u : string) : string :=
  match cut u "#" with Some (u, _) => u | None => u end.

Definition simple_browser : Browser := {| parse_html := simple_parse; resolve_url := simple_resolve |}.

(** *** The tokens of printed markup *)

Lemma snoc_app s a t : snoc s a +:+ t = s +:+ String a t.
Proof. unfold snoc. by rewrite str_app_assoc. Qed.

Lemma str_nil_app (s : string) : "" +:+ s = s.
Proof. done. Qed.

Lemma tokens_data acc s rest : all_chars text_char s = true →
  tokens (Data acc) (s +:+ rest) = tokens (Data (acc +:+ s)) rest.
Proof.
  revert acc. induction s as [|a s IH]; intros acc; [by rewrite str_app_nil|]. cbn [all_chars].
  intros [Ha Hs]%andb_prop. rewrite str_app_cons. cbn [tokens].
  rewrite decide_False by (intros ->; discriminate Ha). by rewrite IH, snoc_app.
Qed.

Lemma tokens_end tag s rest : all_chars lower s = true →
  tokens (EndTag tag) (s +:+ ">" +:+ rest) = Close (tag +:+ s) :: tokens (Data "") rest.
Proof.
  revert tag. induction s as [|a s IH]; intros tag; [by rewrite str_app_nil|]. cbn [all_chars].
  intros [Ha Hs]%andb_prop. rewrite str_app_cons. cbn [tokens].
  rewrite decide_False by (intros ->; discriminate Ha). by rewrite IH, snoc_app.
Qed.

Lemma tokens_name tag s rest : all_chars lower s = true →
  tokens (TagName tag) (s +:+ rest) = tokens (TagName (tag +:+ s)) rest.
Proof.
  revert tag. induction s as [|a s IH]; intros tag; [by rewrite str_app_nil|]. cbn [all_chars].
  intros [Ha Hs]%andb_prop. rewrite str_app_cons. cbn [tokens].
  rewrite !decide_False by (intros ->; discriminate Ha). by rewrite IH, snoc_app.
Qed.

Lemma tokens_attr_name tag attrs name s rest : all_chars lower s = true →
  tokens (AttrName tag attrs name) (s +:+ "=" +:+ rest) = tokens (AttrEq tag attrs (name +:+ s)) rest.
Proof.
  revert name. induction s as [|a s IH]; intros name; [by rewrite str_app_nil|]. cbn [all_chars].
  intros [Ha Hs]%andb_prop. rewrite str_app_cons. cbn [tokens].
  rewrite decide_False by (intros ->; discriminate Ha). by rewrite IH, snoc_app.
Qed.

Lemma tokens_attr_value tag attrs name v s rest : all_chars value_char s = true →
  tokens (AttrValue tag attrs name v) (s +:+ String quote rest) = tokens (InTag tag (attrs ++ [(name, v +:+ s)])) rest.
Proof.
  revert v. induction s as [|a s IH]; intros v; [by rewrite str_app_nil|]. cbn [all_chars].
  intros [Ha Hs]%andb_prop. rewrite str_app_cons. cbn [tokens].
  rewrite decide_False by (intros ->; discriminate Ha). by rewrite IH, snoc_app.
Qed.

(** The attributes after the first blank. *)
Lemma tokens_attr tag attrs a rest :
  negb (bool_decide (a.1 = "")) && all_chars lower a.1 && all_chars value_char a.2 = true →
  tokens (InTag tag attrs) (a.1 +:+ "=" +:+ String quote (a.2 +:+ String quote rest)) =
    tokens (InTag tag (attrs ++ [a])) rest.
Proof.
  destruct a as [name v]. cbn [fst snd]. intros [[Hne Hn]%andb_prop Hv]%andb_prop.
  destruct name as [|c name]; [done|]. cbn [all_chars] in Hn. apply andb_prop in Hn as [Hc Hn].
  rewrite str_app_cons. cbn [tokens]. rewrite !decide_False by (intros ->; discriminate Hc).
  rewrite tokens_attr_name by done. cbn [tokens]. rewrite decide_True by done. rewrite tokens_attr_value by done.
  by rewrite str_app_cons, !str_nil_app.
Qed.

Lemma attr_text_app a rest :
  attr_text a +:+ rest = String " " (a.1 +:+ "=" +:+ String quote (a.2 +:+ String quote rest)).
Proof. unfold attr_text. by rewrite !str_app_assoc, !str_app_cons, !str_app_assoc, !str_app_cons. Qed.

Lemma tokens_attrs tag attrs l rest :
  forallb (λ a, negb (bool_decide (a.1 = "")) && all_chars lower a.1 && all_chars value_char a.2) l = true →
  tokens (InTag tag attrs) (String.concat "" (map attr_text l) +:+ ">" +:+ rest) =
    Open tag (attrs ++ l) :: tokens (Data "") rest.
Proof.
  revert attrs. induction l as [|a l IH]; intros attrs; [by rewrite app_nil_r|]. cbn [forallb map].
  intros [Ha Hl]%andb_prop. rewrite texts_cons, str_app_assoc, attr_text_app. cbn [tokens].
  rewrite decide_False, decide_True by done.
  rewrite tokens_attr by done. by rewrite IH, <-app_assoc by done.
Qed.

(** A start tag. *)
Lemma tokens_start tag c name attrs rest : tag = String c name → all_chars lower tag = true → attrs_ok attrs = true →
  tokens TagOpen (tag +:+ String.concat "" (map attr_text attrs) +:+ ">" +:+ rest) = Open tag attrs :: tokens (Data "") rest.
Proof.
  intros -> [Hc Hn]%andb_prop [_ Hl]%andb_prop. rewrite str_app_cons. cbn [tokens].
  rewrite decide_False by (intros ->; discriminate Hc). rewrite tokens_name by done. rewrite str_app_cons, str_nil_app.
  destruct attrs as [|a l]; [done|]. cbn [forallb map] in *. apply andb_prop in Hl as [Ha Hl]. rewrite texts_cons, str_app_assoc, attr_text_app.
  cbn [tokens]. rewrite decide_False, decide_True by done.
  rewrite tokens_attr by done. by rewrite tokens_attrs.
Qed.

(** *** The tree of the tokens *)

Definition text_node (acc : string) (l : list html) : list html := if decide (acc = "") then l else T acc :: l.

Lemma build_chars acc ts opened l : build (chars acc ts) opened l = build ts opened (text_node acc l).
Proof. unfold chars, text_node. by destruct (decide (acc = "")). Qed.

(** Reading a node: the text before it and the siblings so far. *)
Definition read (st : string * list html) (h : html) : string * list html :=
  match h with
  | T s => (st.1 +:+ s, st.2)
  | E tag attrs kids => ("", E tag attrs (tidy_all kids) :: text_node st.1 st.2)
  end.

Definition reads_node (h : html) : Prop := ∀ st rest opened,
  build (tokens (Data st.1) (print h +:+ rest)) opened st.2 =
  build (tokens (Data (read st h).1) rest) opened (read st h).2.

Lemma reads_nodes l st rest opened : Forall reads_node l →
  build (tokens (Data st.1) (print_all l +:+ rest)) opened st.2 =
  build (tokens (Data (foldl read st l).1) rest) opened (foldl read st l).2.
Proof.
  intros Hl. revert st. induction Hl as [|h l Hh _ IH]; intros st; [done|].
  unfold print_all. cbn [map foldl]. rewrite texts_cons, str_app_assoc, Hh. apply IH.
Qed.

Lemma add_text_app s t l : add_text s (add_text t l) = add_text (s +:+ t) l.
Proof.
  unfold add_text. destruct s as [|a s]; [done|]. destruct t as [|b t]; [by rewrite str_app_nil|].
  rewrite str_app_cons. cbn. destruct l as [|[]]; try done. by rewrite <-?str_app_cons, ?str_app_assoc.
Qed.

(** What was read is the forest, tidied. *)
Lemma read_all l acc before :
  rev (text_node (foldl read (acc, before) l).1 (foldl read (acc, before) l).2) = rev before ++ add_text acc (tidy_all l).
Proof.
  revert acc before. induction l as [|[tag attrs kids|s] l IH]; intros acc before; cbn [foldl read fst snd].
  - unfold text_node, add_text. cbn. destruct (decide (acc = "")); [by rewrite app_nil_r|done].
  - rewrite IH. cbn [rev tidy_all foldr tidy]. unfold text_node, add_text. cbn.
    rewrite <-app_assoc. destruct (decide (acc = "")); [done|]. cbn [rev]. by rewrite <-app_assoc.
  - rewrite IH. cbn [tidy_all foldr tidy]. by rewrite add_text_app.
Qed.

Lemma plain_tag tag attrs kids : plain (E tag attrs kids) = true →
  attrs_ok attrs = true ∧ Forall (λ k, plain k = true) kids ∧ (∃ c name, tag = String c name) ∧
  all_chars lower tag = true ∧ (void tag = true → kids = []).
Proof.
  cbn [plain]. intros [[Ha Hk]%andb_prop Ht]%andb_prop. split; [done|]. split.
  { apply Forall_forall. intros k Hin%list_elem_of_In. by eapply forallb_forall in Hk. }
  destruct (void tag) eqn:Hv.
  { apply bool_decide_eq_true in Hv as ->. split; [by eexists _, _|]. split; [done|]. by destruct kids. }
  assert (tag ∈ ["button"; "div"; "span"]) as Hin.
  { destruct (decide (tag = "button")) as [->|_]; [set_solver|]. apply bool_decide_eq_true in Ht. set_solver. }
  repeat (apply elem_of_cons in Hin as [->|Hin]; [split; [by eexists _, _|done]|]). by apply elem_of_nil in Hin.
Qed.

Lemma plain_reads h : plain h = true → reads_node h.
Proof.
  induction h as [s|tag attrs kids IH] using html_induction; intros Hp [acc before] rest opened; cbn [fst snd].
  { cbn [print read fst snd]. by rewrite tokens_data. }
  destruct (plain_tag tag attrs kids Hp) as (Ha & Hk & (c & name & Htag) & Hlow & Hvoid).
  cbn [print]. rewrite !str_app_assoc. change ("<" +:+ ?x) with (String "<" x). cbn [tokens].
  rewrite decide_True by done. rewrite build_chars, (tokens_start tag c name) by done. cbn [build].
  destruct (void tag) eqn:Hv.
  { rewrite (Hvoid eq_refl), str_nil_app. done. }
  fold (print_all kids). rewrite !str_app_assoc.
  assert (Forall reads_node kids) as Hreads.
  { eapply Forall_impl; [apply Forall_and; split; [exact IH|exact Hk]|]. intros k [Hr Hpk]. by apply Hr. }
  rewrite (reads_nodes kids ("", []) _ _ Hreads). change ("</" +:+ ?x) with (String "<" (String "/" x)). cbn [tokens].
  rewrite decide_True by done. rewrite build_chars. cbn [tokens]. rewrite decide_True by done.
  rewrite tokens_end by done. cbn [build]. rewrite str_nil_app, decide_True by done.
  rewrite read_all. cbn [rev app]. done.
Qed.

Lemma split_no_sep s c : c ∉ String.list_ascii_of_string s → cut s c = None.
Proof.
  induction s as [|a s IH]; [done|]. cbn [String.list_ascii_of_string cut]. intros [Hne Hs]%not_elem_of_cons.
  rewrite decide_False by done. by rewrite IH.
Qed.

Lemma Split_chars u sep a : a ∈ String.list_ascii_of_string u →
  a = sep ∨ ∃ s, s ∈ Split u sep ∧ a ∈ String.list_ascii_of_string s.
Proof.
  induction u as [|b u IH]; [by intros ?%elem_of_nil|]. cbn [String.list_ascii_of_string Split].
  intros [->|Ha]%elem_of_cons.
  - destruct (decide (b = sep)) as [->|]; [by left|]. right.
    destruct (Split u sep) as [|s l]; eexists; (split; [left|]); left.
  - destruct (IH Ha) as [->|(s & Hs & Hin)]; [by left|]. right. destruct (decide (b = sep)).
    { exists s. split; [by right|done]. }
    destruct (Split u sep) as [|s' l]; [by apply elem_of_nil in Hs|].
    apply elem_of_cons in Hs as [->|Hs]; [|exists s; split; [by right|done]].
    exists (String b s'). split; [left|]. by right.
Qed.

#[global] Instance simple_browser_spec : @BrowserSpec simple_browser.
Proof.
  split.
  - intros l Hl. cbn [parse_html simple_browser]. unfold simple_parse.
    assert (Forall reads_node l) as Hreads.
    { apply Forall_forall. intros h Hin%list_elem_of_In. apply plain_reads. by eapply forallb_forall in Hl. }
    pose proof (reads_nodes l ("", []) "" [] Hreads) as H. rewrite str_app_nil in H. cbn [fst snd] in H. rewrite H.
    cbn [tokens]. rewrite build_chars. cbn [build foldl]. by rewrite read_all.
  - intros u Hu. cbn [resolve_url simple_browser]. unfold simple_resolve. rewrite split_no_sep; [done|].
    intros Hin. destruct (Split_chars u "/" _ Hin) as [?|(s & Hs & Ha)]; [done|]. unfold plain_path in Hu.
    destruct (Split u "/") as [|[|] [|seg segs]]; try done.
    apply elem_of_cons in Hs as [->|Hs]; [by apply elem_of_nil in Ha|].
    apply list_elem_of_In in Hs. eapply forallb_forall in Hu; [|exact Hs]. apply andb_prop in Hu as [_ Hu].
    by pose proof (all_chars_elem _ _ _ Hu Ha).
Qed.
End Web.
