(* ===== verification/GoTime.v ===== *)
(** The parts of Go's [time] package that [encoding/json] writes and reads
    instants with: the proleptic Gregorian calendar and the layout
    [time.RFC3339Nano], and that an instant is read back from its text. Instants
    are written in UTC. *)
From S2P Require Import Prelude GoStrings Json GoNumbers Decimal.
From Stdlib Require Import Ascii.

Module GoTime.
Import Json Decimal.

(** ** The calendar *)

Section Calendar.
Local Open Scope Z_scope.

(** The days from the first day of year 1 to the first day of year [y]. *)
Definition days_before (y : Z) : Z :=
  365 * (y - 1) + (y - 1) / 4 - (y - 1) / 100 + (y - 1) / 400.

Definition is_leap (y : Z) : bool :=
  (y mod 4 =? 0) && (negb (y mod 100 =? 0) || (y mod 400 =? 0)).

Definition month_lengths (y : Z) : list Z :=
  [31; if is_leap y then 29 else 28; 31; 30; 31; 30; 31; 31; 30; 31; 30; 31].

(** The year of a day: 400 years have 146097 days, and the estimate this gives is
    at most a year off. *)
Definition year_of (day : Z) : Z :=
  let y := 400 * day / 146097 + 1 in
  if day <? days_before y then y - 1
  else if days_before (y + 1) <=? day then y + 1
  else y.

(** The month and day a day of the year falls on, months counted from [m]. *)
Fixpoint month_day (lengths : list Z) (m day : Z) : Z * Z :=
  match lengths with
  | [] => (m, day + 1)
  | n :: lengths => if day <? n then (m, day + 1) else month_day lengths (m + 1) (day - n)
  end.

(** The day of the year of a date; [None] when there is no such date. *)
Fixpoint year_day (lengths : list Z) (m d : Z) : option Z :=
  match lengths with
  | [] => None
  | n :: lengths =>
      if m =? 1 then (if (1 <=? d) && (d <=? n) then Some (d - 1) else None)
      else r ← year_day lengths (m - 1) d; Some (n + r)
  end.

(** *** Dates and days *)

Lemma year_length y : days_before (y + 1) = days_before y + (if is_leap y then 366 else 365).
Proof.
  unfold days_before, is_leap.
  destruct (Z.eqb_spec (y mod 4) 0), (Z.eqb_spec (y mod 100) 0), (Z.eqb_spec (y mod 400) 0); simpl;
    Z.to_euclidean_division_equations; lia.
Qed.

Lemma year_of_spec day : days_before (year_of day) <= day < days_before (year_of day + 1).
Proof.
  unfold year_of. set (y := 400 * day / 146097 + 1).
  assert (days_before (y - 1) <= day < days_before (y + 1 + 1)) as Hest.
  { unfold days_before, y. Z.to_euclidean_division_equations. lia. }
  destruct (Z.ltb_spec day (days_before y)); [replace (y - 1 + 1) with y by lia; lia|].
  destruct (Z.leb_spec (days_before (y + 1)) day); lia.
Qed.

Lemma lengths_sum y : foldr Z.add 0 (month_lengths y) = if is_leap y then 366 else 365.
Proof. unfold month_lengths. destruct (is_leap y); reflexivity. Qed.

Lemma year_day_month_day lengths m day :
  0 <= day < foldr Z.add 0 lengths → Forall (Z.lt 0) lengths →
  let '(m', d) := month_day lengths m day in
  m <= m' < m + Z.of_nat (length lengths) ∧ 1 <= d ∧ (Forall (Z.ge 31) lengths → d <= 31) ∧
  year_day lengths (m' - m + 1) d = Some day.
Proof.
  revert m day. induction lengths as [|n l IH]; intros m day Hday Hpos; [simpl in Hday; lia|].
  cbn [month_day foldr length year_day] in *. inversion Hpos as [|? ? Hn Hl]; subst.
  destruct (Z.ltb_spec day n).
  - rewrite Z.sub_diag. cbn [Z.add Z.eqb Pos.eqb].
    rewrite (proj2 (Z.leb_le 1 (day + 1))), (proj2 (Z.leb_le (day + 1) n)) by lia.
    split_and!; [lia|lia|lia|intros H31; inversion H31; lia|cbn [andb]; f_equal; lia].
  - specialize (IH (m + 1) (day - n) ltac:(lia) Hl).
    destruct (month_day l (m + 1) (day - n)) as [m' d]. destruct IH as (Hm & Hd & H31 & Hy).
    destruct (Z.eqb_spec (m' - m + 1) 1); [lia|].
    replace (m' - m + 1 - 1) with (m' - (m + 1) + 1) by lia. rewrite Hy. bind.
    split_and!; [lia|lia|lia|intros HF; apply H31; by inversion HF|f_equal; lia].
Qed.
End Calendar.

(** ** Fields of digits *)

(** The [w] last decimal digits of [n]. *)
Fixpoint fixed (w : nat) (n : Z) : string :=
  match w with
  | 0 => ""
  | S w => String (pretty_N_char (Z.to_N (n / 10 ^ Z.of_nat w))) (fixed w (n mod 10 ^ Z.of_nat w))
  end.

(** A number of [w] digits in the range from [lo] to [hi], and the text behind. *)
Fixpoint digits_at (w : nat) (acc : Z) (s : string) : option (Z * string) :=
  match w, s with
  | 0, _ => Some (acc, s)
  | S w, String a s => d ← digit_value a; digits_at w (acc * 10 + d)%Z s
  | S _, EmptyString => None
  end.
Definition field (w : nat) (lo hi : Z) (s : string) : option (Z * string) :=
  '(n, rest) ← digits_at w 0 s;
  if ((lo <=? n) && (n <=? hi))%Z then Some (n, rest) else None.

(** The digits without the zeros at their end. *)
Fixpoint trim_zeros (s : string) : string :=
  match s with
  | EmptyString => ""
  | String a s =>
      match trim_zeros s with
      | EmptyString => if decide (a = "0"%char) then "" else String a ""
      | t => String a t
      end
  end.

Lemma digit_char n : (0 ≤ n < 10)%Z → digit_value (pretty_N_char (Z.to_N n)) = Some n.
Proof. intros Hn. rewrite digit_value_char by lia. f_equal. lia. Qed.

Lemma fixed_step w n : (0 ≤ n < 10 ^ Z.of_nat (S w))%Z →
  (0 ≤ n / 10 ^ Z.of_nat w < 10 ∧ 0 ≤ n mod 10 ^ Z.of_nat w < 10 ^ Z.of_nat w ∧
   n = 10 ^ Z.of_nat w * (n / 10 ^ Z.of_nat w) + n mod 10 ^ Z.of_nat w)%Z.
Proof.
  intros Hn. rewrite Nat2Z.inj_succ, Z.pow_succ_r in Hn by lia.
  assert (0 < 10 ^ Z.of_nat w)%Z by (apply Z.pow_pos_nonneg; lia).
  split; [split; [apply Z.div_pos; lia|apply Z.div_lt_upper_bound; lia]|].
  split; [apply Z.mod_pos_bound; lia|apply Z.div_mod; lia].
Qed.

Lemma digits_at_fixed w n acc rest : (0 ≤ n < 10 ^ Z.of_nat w)%Z →
  digits_at w acc (fixed w n +:+ rest) = Some (acc * 10 ^ Z.of_nat w + n, rest)%Z.
Proof.
  revert n acc. induction w as [|w IH]; intros n acc Hn.
  - simpl in Hn. change (fixed 0 n +:+ rest) with rest. cbn [digits_at]. do 2 f_equal. simpl. lia.
  - destruct (fixed_step w n Hn) as (Hq & Hr & E). cbn [fixed]. rewrite str_app_cons. cbn [digits_at].
    rewrite digit_char by done. bind. rewrite IH by done. do 2 f_equal.
    rewrite Nat2Z.inj_succ, Z.pow_succ_r by lia. rewrite E at 3. lia.
Qed.

Lemma field_fixed w lo hi n rest : (0 ≤ n < 10 ^ Z.of_nat w)%Z → (lo ≤ n ≤ hi)%Z →
  field w lo hi (fixed w n +:+ rest) = Some (n, rest).
Proof.
  intros Hn Hr. unfold field. rewrite digits_at_fixed by done. bind. rewrite Z.mul_0_l, Z.add_0_l.
  by rewrite (proj2 (Z.leb_le lo n)), (proj2 (Z.leb_le n hi)) by lia.
Qed.

Lemma fixed_digits w n acc : (0 ≤ n < 10 ^ Z.of_nat w)%Z →
  all_digits (fixed w n) = true ∧ String.length (fixed w n) = w ∧
  digits_from acc (fixed w n) = Some (acc * 10 ^ Z.of_nat w + n)%Z.
Proof.
  revert n acc. induction w as [|w IH]; intros n acc Hn.
  - simpl in Hn. split_and!; [done|done|]. simpl. f_equal. lia.
  - destruct (fixed_step w n Hn) as (Hq & Hr & E). cbn [fixed all_digits String.length digits_from].
    rewrite digit_char by done. bind.
    destruct (IH _ (acc * 10 + n / 10 ^ Z.of_nat w)%Z Hr) as (-> & -> & ->). split_and!; [done|done|].
    f_equal. rewrite Nat2Z.inj_succ, Z.pow_succ_r by lia. rewrite E at 3. lia.
Qed.

Lemma trim_zeros_spec s : ∃ j, s = trim_zeros s +:+ zeros (Z.of_nat j).
Proof.
  induction s as [|a s [j IH]]; [by exists 0|]. cbn [trim_zeros].
  destruct (trim_zeros s) as [|b t] eqn:E.
  - change ("" +:+ ?x) with x in IH. case_decide as Ha.
    + exists (S j). subst a. by rewrite zeros_succ, <-IH.
    + exists j. by rewrite str_app_cons, IH at 1.
  - exists j. rewrite IH at 1. by rewrite !str_app_cons.
Qed.

(** ** RFC 3339 *)

Definition day_nanos : Z := (86400 * Second)%Z.

(** The fraction of a second, without zeros at its end, and not at all when it is
    zero. *)
Definition fraction_text (nanos : Z) : string :=
  match trim_zeros (fixed 9 nanos) with EmptyString => "" | f => String "." f end.

(** [t.MarshalJSON], without the quotes: years beyond four digits are refused. *)
Definition format (t : Time) : option string :=
  let day := (t / day_nanos)%Z in
  let clock := (t mod day_nanos)%Z in
  let y := year_of day in
  let '(m, d) := month_day (month_lengths y) 1 (day - days_before y) in
  let seconds := (clock / Second)%Z in
  if ((y <? 0) || (9999 <? y))%Z then None
  else Some (fixed 4 y +:+ String "-" (fixed 2 m +:+ String "-" (fixed 2 d +:+ String "T"
    (fixed 2 (seconds / 3600) +:+ String ":" (fixed 2 (seconds / 60 mod 60) +:+ String ":"
    (fixed 2 (seconds mod 60) +:+ fraction_text (clock mod Second) +:+ "Z")))))).

(** The fraction, of which nine digits count. *)
Definition fraction_at (s : string) : Z * string :=
  match expect "." s with
  | None => (0%Z, s)
  | Some s' =>
      match digit_run s' with
      | (EmptyString, _) => (0%Z, s)
      | (f, rest) =>
          let f := slice_to f 9 in
          (default 0 (digits f) * 10 ^ (9 - Z.of_nat (String.length f)), rest)%Z
      end
  end.

(** The seconds east of UTC. *)
Definition zone_at (s : string) : option Z :=
  if decide (s = "Z") then Some 0%Z
  else
    match s with
    | String a s =>
        sign ← (if decide (a = "+"%char) then Some 1%Z else if decide (a = "-"%char) then Some (-1)%Z else None);
        '(h, s) ← field 2 0 23 s; s ← expect ":" s; '(m, s) ← field 2 0 59 s;
        if decide (s = "") then Some (sign * (h * 3600 + m * 60))%Z else None
    | EmptyString => None
    end.

(** [t.UnmarshalJSON], without the quotes, on the layout itself. The library lets a
    few other spellings pass, a one-digit hour or a comma before the fraction,
    which are refused here. *)
Definition parse (s : string) : option Time :=
  '(y, s) ← field 4 0 9999 s; s ← expect "-" s;
  '(m, s) ← field 2 1 12 s; s ← expect "-" s;
  '(d, s) ← field 2 1 31 s; s ← expect "T" s;
  '(hour, s) ← field 2 0 23 s; s ← expect ":" s;
  '(minute, s) ← field 2 0 59 s; s ← expect ":" s;
  '(second, s) ← field 2 0 59 s;
  let '(nanos, s) := fraction_at s in
  zone ← zone_at s;
  yday ← year_day (month_lengths y) m d;
  Some ((days_before y + yday) * day_nanos + (hour * 3600 + minute * 60 + second - zone) * Second + nanos)%Z.

(** *** An instant is read back from its text *)

Lemma expect_cons c s : expect c (String c s) = Some s.
Proof. cbn [expect]. by rewrite decide_True. Qed.

Lemma fraction_at_text nanos : (0 ≤ nanos < Second)%Z → fraction_at (fraction_text nanos +:+ "Z") = (nanos, "Z").
Proof.
  intros Hn. destruct (fixed_digits 9 nanos 0 Hn) as (Hall & Hlen & Hval).
  destruct (trim_zeros_spec (fixed 9 nanos)) as [j E]. unfold fraction_text, fraction_at.
  set (f := trim_zeros (fixed 9 nanos)) in *. clearbody f. rewrite E in Hall, Hlen, Hval.
  rewrite all_digits_app in Hall. apply andb_prop in Hall as [Hall _].
  rewrite str_app_length, zeros_length in Hlen. rewrite digits_from_app in Hval.
  destruct f as [|a f].
  - cbn [digits_from mbind option_bind] in Hval. change ("" +:+ "Z") with "Z".
    rewrite digits_from_zeros in Hval. cbn. f_equal. apply (inj Some) in Hval. lia.
  - rewrite str_app_cons, expect_cons, digit_run_stop by done.
    assert (slice_to (String a f) 9 = String a f) as ->.
    { rewrite <-(slice_drop 9 (String a f)) at 2.
      assert (String.length (drop_bytes 9 (String a f)) = 0) as H0 by (rewrite drop_bytes_length; lia).
      destruct (drop_bytes 9 (String a f)); [by rewrite str_app_nil|done]. }
    cbn match. f_equal. rewrite digits_starts by (cbn [all_digits] in Hall; by apply andb_prop in Hall as [? _]).
    destruct (digits_from 0 (String a f)) as [v|]; [|done]. cbn [mbind option_bind] in Hval.
    rewrite digits_from_zeros in Hval. apply (inj Some) in Hval. cbn [default from_option].
    replace (9 - Z.of_nat (String.length (String a f)))%Z with (Z.of_nat j) by lia. unfold id. lia.
Qed.

Lemma clock_parts n : (0 ≤ n < day_nanos)%Z →
  let s := (n / Second)%Z in
  (0 ≤ s / 3600 ≤ 23 ∧ 0 ≤ s / 60 mod 60 ≤ 59 ∧ 0 ≤ s mod 60 ≤ 59 ∧
   n = (s / 3600 * 3600 + s / 60 mod 60 * 60 + s mod 60) * Second + n mod Second)%Z.
Proof.
  unfold day_nanos, Second. intros Hn. cbn zeta. Z.to_euclidean_division_equations. lia.
Qed.

Lemma month_lengths_range y : Forall (Z.lt 0) (month_lengths y) ∧ Forall (Z.ge 31) (month_lengths y).
Proof. unfold month_lengths. destruct (is_leap y); split; repeat constructor; lia. Qed.

Lemma parse_format t s : format t = Some s → parse s = Some t.
Proof.
  unfold format. set (day := (t / day_nanos)%Z). set (n := (t mod day_nanos)%Z).
  assert (0 ≤ n < day_nanos)%Z as Hn by (apply Z.mod_pos_bound; done).
  pose proof (Z.div_mod t day_nanos ltac:(done)) as Et. fold day n in Et. clearbody day n.
  pose proof (year_of_spec day) as Hday. rewrite year_length, <-lengths_sum in Hday.
  set (y := year_of day) in *. clearbody y. destruct (month_lengths_range y) as [Hpos H31].
  pose proof (year_day_month_day (month_lengths y) 1 (day - days_before y) ltac:(lia) Hpos) as Hmd.
  destruct (month_day _ _ _) as [m d]. destruct Hmd as (Hm & Hd & Hd31 & Hy). specialize (Hd31 H31).
  replace (m - 1 + 1)%Z with m in Hy by lia. simpl in Hm.
  destruct (Z.ltb_spec y 0), (Z.ltb_spec 9999 y); cbn [orb]; try done. intros E%(inj Some). subst s.
  destruct (clock_parts n Hn) as (Hh & Hmi & Hs & En). cbn zeta in *.
  set (sec := (n / Second)%Z) in *. clearbody sec.
  pose proof (Z.mod_pos_bound n Second ltac:(done)) as Hns.
  unfold parse.
  rewrite field_fixed by (simpl; lia). bind. rewrite expect_cons. bind.
  do 2 (rewrite field_fixed by (simpl; lia); bind; rewrite expect_cons; bind).
  do 2 (rewrite field_fixed by (simpl; lia); bind; rewrite expect_cons; bind).
  rewrite field_fixed by (simpl; lia). bind. rewrite fraction_at_text by done.
  change (zone_at "Z") with (Some 0%Z). bind. rewrite Hy. bind. f_equal. unfold day_nanos in *. lia.
Qed.

(** The text is ASCII. *)
Fixpoint ascii_text (s : string) : bool :=
  match s with EmptyString => true | String a s => (code a <=? 127)%N && ascii_text s end.

Lemma ascii_valid s : ascii_text s = true → ValidString s = true.
Proof.
  unfold ValidString. induction s as [|a s IH]; [done|]. cbn [ascii_text utf8_scan]. unfold code, utf8_tail.
  intros [-> H]%andb_prop. by apply IH.
Qed.

Lemma ascii_text_app s t : ascii_text (s +:+ t) = ascii_text s && ascii_text t.
Proof.
  induction s as [|a s IH]; [done|]. rewrite str_app_cons. cbn [ascii_text]. by rewrite IH, andb_assoc.
Qed.

Lemma ascii_text_cons a s : (code a <=? 127)%N = true → ascii_text (String a s) = ascii_text s.
Proof. intros Ha. cbn [ascii_text]. by rewrite Ha. Qed.

Lemma fixed_ascii w n : ascii_text (fixed w n) = true.
Proof.
  revert n. induction w as [|w IH]; intros n; [done|]. cbn [fixed ascii_text]. rewrite IH, andb_true_r.
  generalize (Z.to_N (n / 10 ^ Z.of_nat w)). intros [|p]; [done|].
  by do 4 (destruct p as [p|p|]; try done).
Qed.

Lemma trim_zeros_ascii s : ascii_text s = true → ascii_text (trim_zeros s) = true.
Proof.
  destruct (trim_zeros_spec s) as [j E]. rewrite E at 1. rewrite ascii_text_app. by intros [? _]%andb_prop.
Qed.

Lemma format_valid t s : format t = Some s → ValidString s = true.
Proof.
  intros H. apply ascii_valid. revert H. unfold format. destruct (month_day _ _ _) as [m d].
  destruct (_ || _); [done|]. intros E%(inj Some). subst s.
  assert (∀ n, ascii_text (fraction_text n) = true) as Hf.
  { intros n. unfold fraction_text. pose proof (trim_zeros_ascii _ (fixed_ascii 9 n)) as H.
    by destruct (trim_zeros (fixed 9 n)). }
  repeat (rewrite ascii_text_app, ?fixed_ascii, ?Hf, ?andb_true_l, ?ascii_text_cons by done).
  reflexivity.
Qed.

(** The year of an instant. *)
Definition Year (t : Time) : Z := year_of (t / day_nanos)%Z.

Lemma format_total t : (0 ≤ Year t ≤ 9999)%Z → is_Some (format t).
Proof.
  unfold Year, format. intros Hy. destruct (month_day _ _ _) as [m d].
  rewrite (proj2 (Z.ltb_ge _ 0)), (proj2 (Z.ltb_ge 9999 _)) by lia. by eexists.
Qed.
End GoTime.
