(* ===== verification/ProductJson.v ===== *)
(** The JSON of products: what [encoding/json] makes of the structs of
    [src/internal/api/model.go], as the cache stores it, the handlers write it
    and request bodies are read. Prices are binary64 numbers, known by their bit
    patterns; instants are written in RFC 3339. *)
From S2P Require Import Prelude GoStrings Json Db Api GoNumbers Rounding Decimal GoTime.
From Stdlib Require Import SpecFloat Ascii.

Module ProductJson.
Import Json Decimal.

(** ** Bit patterns *)

(** [math.Float64frombits], of a pattern of 64 bits. *)
Definition float_of_bits (b : Z) : float64 :=
  let sign := (2 ^ 63 <=? b)%Z in
  let exponent := (b / 2 ^ 52 mod 2 ^ 11)%Z in
  let mantissa := (b mod 2 ^ 52)%Z in
  if (exponent =? 2047)%Z then (if (mantissa =? 0)%Z then S754_infinity sign else S754_nan)
  else if (exponent =? 0)%Z then
    match mantissa with Zpos m => S754_finite sign m (-1074) | _ => S754_zero sign end
  else S754_finite sign (Z.to_pos (mantissa + 2 ^ 52)) (exponent - 1075).

(** [math.Float64bits]. *)
Definition bits_of_float (x : float64) : Z :=
  let sign (s : bool) := (if s then 2 ^ 63 else 0)%Z in
  match x with
  | S754_zero s => sign s
  | S754_infinity s => (sign s + 2047 * 2 ^ 52)%Z
  | S754_nan => (2047 * 2 ^ 52 + 2 ^ 51 + 1)%Z
  | S754_finite s m e =>
      if (Z.pos m <? 2 ^ 52)%Z then (sign s + Z.pos m)%Z
      else (sign s + (e + 1075) * 2 ^ 52 + (Z.pos m - 2 ^ 52))%Z
  end.

Section Bits.
Local Open Scope Z_scope.

Lemma float_of_bits_format b : 0 ≤ b < 2 ^ 64 → float_of_bits b ≠ S754_nan → in_format (float_of_bits b).
Proof.
  intros Hb Hnan. unfold float_of_bits in *.
  pose proof (Z.mod_pos_bound b (2 ^ 52) ltac:(lia)) as Hm. set (m := b mod 2 ^ 52) in *. clearbody m.
  pose proof (Z.mod_pos_bound (b / 2 ^ 52) (2 ^ 11) ltac:(lia)) as He. set (e := (b / 2 ^ 52) mod 2 ^ 11) in *. clearbody e.
  destruct (Z.eqb_spec e 2047); [by destruct (m =? 0)|]. destruct (Z.eqb_spec e 0).
  - destruct m as [|m|m]; [done| |done]. apply canonical_intro; lia.
  - apply canonical_intro; rewrite ?Z2Pos.id; lia.
Qed.

Lemma bits_of_float_of_bits b : 0 ≤ b < 2 ^ 64 → float_of_bits b ≠ S754_nan → bits_of_float (float_of_bits b) = b.
Proof.
  intros Hb. unfold float_of_bits.
  assert (b = (if 2 ^ 63 <=? b then 2 ^ 63 else 0) + (b / 2 ^ 52 mod 2 ^ 11) * 2 ^ 52 + b mod 2 ^ 52) as E.
  { destruct (Z.leb_spec (2 ^ 63) b); Z.to_euclidean_division_equations; lia. }
  pose proof (Z.mod_pos_bound b (2 ^ 52) ltac:(lia)) as Hm. set (m := b mod 2 ^ 52) in *. clearbody m.
  pose proof (Z.mod_pos_bound (b / 2 ^ 52) (2 ^ 11) ltac:(lia)) as He. set (e := (b / 2 ^ 52) mod 2 ^ 11) in *. clearbody e.
  set (s := 2 ^ 63 <=? b) in *. clearbody s.
  destruct (Z.eqb_spec e 2047); [destruct (Z.eqb_spec m 0); [intros _; simpl; lia|done]|]. intros _.
  destruct (Z.eqb_spec e 0) as [->|].
  - destruct m as [|m|m]; cbn [bits_of_float]; [lia| |lia]. rewrite (proj2 (Z.ltb_lt _ _)) by lia. lia.
  - cbn [bits_of_float]. rewrite Z2Pos.id by lia. rewrite (proj2 (Z.ltb_ge _ _)) by lia. lia.
Qed.

Lemma float_of_bits_of_float x : in_format x → float_of_bits (bits_of_float x) = x ∧ 0 ≤ bits_of_float x < 2 ^ 64.
Proof.
  assert (∀ (s : bool) e m, 0 ≤ e < 2 ^ 11 → 0 ≤ m < 2 ^ 52 →
    let b := (if s then 2 ^ 63 else 0) + e * 2 ^ 52 + m in
    0 ≤ b < 2 ^ 64 ∧ (2 ^ 63 <=? b) = s ∧ b / 2 ^ 52 mod 2 ^ 11 = e ∧ b mod 2 ^ 52 = m) as Hparts.
  { intros s e m He Hm. cbn zeta. split; [destruct s; lia|].
    split; [destruct s; [apply Z.leb_le|apply Z.leb_gt]; lia|].
    destruct s; split; Z.to_euclidean_division_equations; lia. }
  destruct x as [s|s| |s m e]; cbn [in_format].
  - intros _. destruct s; split; (reflexivity || (simpl; lia)).
  - intros _. destruct s; split; (reflexivity || (simpl; lia)).
  - done.
  - intros Hc. destruct (canonical_range m e Hc) as [Hm Hn]. destruct Hc as (_ & He & _). cbn [bits_of_float].
    destruct (Z.ltb_spec (Z.pos m) (2 ^ 52)) as [Hlt|Hge].
    + destruct Hn as [->|?]; [|lia]. destruct (Hparts s 0 (Z.pos m)) as (Hb & H1 & H2 & H3); [lia|lia|].
      rewrite Z.mul_0_l, Z.add_0_r in Hb, H1, H2, H3. split; [|done]. unfold float_of_bits. by rewrite H1, H2, H3.
    + destruct (Hparts s (e + 1075) (Z.pos m - 2 ^ 52)) as (Hb & H1 & H2 & H3); [lia|lia|]. split; [|done].
      unfold float_of_bits. rewrite H1, H2, H3. rewrite !(proj2 (Z.eqb_neq _ _)) by lia.
      f_equal; [|lia]. by replace (Z.pos m - 2 ^ 52 + 2 ^ 52) with (Z.pos m) by lia.
Qed.
End Bits.

(** ** Encoding *)

(** A [float64]: what is no number is refused. *)
Definition price_text (bits : Z) : option string :=
  if ((0 <=? bits) && (bits <? 2 ^ 64))%Z then
    match float_of_bits bits with
    | S754_nan | S754_infinity _ => None
    | S754_zero s => Some (signed s "0")
    | x => Some (number_text x)
    end
  else None.

(** [json.Marshal] of a [Product]. *)
Definition marshal (p : Api.Product) : option string :=
  price ← price_text (Api.PriceUSD p);
  created ← GoTime.format (Api.CreatedAt p);
  updated ← GoTime.format (Api.UpdatedAt p);
  Some (encode_object
    [("id", encode_string (Api.ID p)); ("name", encode_string (Api.Name p));
     ("description", encode_string (Api.Description p)); ("price_usd", price);
     ("category", encode_string (Api.Category p)); ("created_at", encode_string created);
     ("updated_at", encode_string updated)]).

(** ** Decoding *)

(** A number beyond the range of [float64] is refused. *)
Definition number_bits (literal : string) : option Z :=
  x ← numeral_value literal;
  match x with S754_infinity _ => None | _ => Some (bits_of_float x) end.

Definition to_float64 (v : json) (old : Z) : option Z :=
  match v with JNumber n => number_bits n | JNull => Some old | _ => None end.

(** The instant is taken from the text of the string; the library looks at it before
    escapes are resolved. *)
Definition to_time (v : json) (old : Time) : option Time :=
  match v with JString s => GoTime.parse s | JNull => Some old | _ => None end.

Definition set_product (key : string) (v : json) (p : Api.Product) : option Api.Product :=
  let '(Api.mk_Product id name description price category created updated) := p in
  if same_name key "id" then
    id ← to_string v id; Some (Api.mk_Product id name description price category created updated)
  else if same_name key "name" then
    name ← to_string v name; Some (Api.mk_Product id name description price category created updated)
  else if same_name key "description" then
    description ← to_string v description;
    Some (Api.mk_Product id name description price category created updated)
  else if same_name key "price_usd" then
    price ← to_float64 v price; Some (Api.mk_Product id name description price category created updated)
  else if same_name key "category" then
    category ← to_string v category; Some (Api.mk_Product id name description price category created updated)
  else if same_name key "created_at" then
    created ← to_time v created; Some (Api.mk_Product id name description price category created updated)
  else if same_name key "updated_at" then
    updated ← to_time v updated; Some (Api.mk_Product id name description price category created updated)
  else Some p.

Definition zero_product : Api.Product := Api.mk_Product "" "" "" 0 "" time_zero time_zero.

Definition of_json (v : json) : option Api.Product := to_struct set_product v zero_product.

(** [json.Unmarshal] into a new [Product]. *)
Definition unmarshal (s : string) : option Api.Product := v ← whole_value s; of_json v.

(** A field behind a pointer: [null] is the nil pointer. *)
Definition to_pointer {A} (get : json → option A) (v : json) : option (option A) :=
  match v with JNull => Some None | _ => Some <$> get v end.

Definition get_string (v : json) : option string := match v with JString s => Some s | _ => None end.
Definition get_float64 (v : json) : option Z := match v with JNumber n => number_bits n | _ => None end.

Definition set_update (key : string) (v : json) (u : Db.ProductUpdateRequest) : option Db.ProductUpdateRequest :=
  let '(Db.mk_Update name description price category) := u in
  if same_name key "name" then
    name ← to_pointer get_string v; Some (Db.mk_Update name description price category)
  else if same_name key "description" then
    description ← to_pointer get_string v; Some (Db.mk_Update name description price category)
  else if same_name key "price_usd" then
    price ← to_pointer get_float64 v; Some (Db.mk_Update name description price category)
  else if same_name key "category" then
    category ← to_pointer get_string v; Some (Db.mk_Update name description price category)
  else Some u.

(** The body of a request, as the handlers decode it: the first value in it. The
    text of an error is the decoder's. *)
Section Bodies.
Context (decode_error : bytes → string).

Definition decode_create (body : bytes) : Api.Product + string :=
  match v ← first_value (String.string_of_list_byte body); of_json v with
  | Some p => inl p
  | None => inr (decode_error body)
  end.

Definition decode_update (body : bytes) : Db.ProductUpdateRequest + string :=
  match v ← first_value (String.string_of_list_byte body); to_struct set_update v (Db.mk_Update None None None None) with
  | Some u => inl u
  | None => inr (decode_error body)
  end.
End Bodies.

(** ** A product is read back from its text *)

(** Prices that are numbers and years of at most four digits. *)
Definition encodable (p : Api.Product) : Prop :=
  is_Some (price_text (Api.PriceUSD p)) ∧ is_Some (GoTime.format (Api.CreatedAt p)) ∧
  is_Some (GoTime.format (Api.UpdatedAt p)).

Lemma price_text_spec bits t : price_text bits = Some t →
  reads t (JNumber t) ∧ numeral_value t = Some (float_of_bits bits) ∧ number_bits t = Some bits.
Proof.
  unfold price_text. destruct (Z.leb_spec 0 bits), (Z.ltb_spec bits (2 ^ 64)); cbn [andb]; try done.
  pose proof (bits_of_float_of_bits bits ltac:(lia)) as Hb. pose proof (float_of_bits_format bits ltac:(lia)) as Hf.
  unfold number_bits. destruct (float_of_bits bits) as [s|s| |s m e]; try done; intros E%(inj Some); subst t.
  - assert (numeral_value (signed s "0") = Some (S754_zero s)) as Hz by (by destruct s).
    rewrite Hz. bind. rewrite Hb by done. split; [|done].
    exact (reads_numeral s "0" "" None ltac:(split_and!; [done|done|by left|done])).
  - destruct (number_text_exact s m e) as [Hr Hv]; [by apply Hf|]. rewrite Hv. bind. by rewrite Hb.
Qed.

(** A price has a text exactly when it is the pattern of a number. *)
Lemma price_text_total bits : (0 ≤ bits < 2 ^ 64)%Z →
  is_Some (price_text bits) ↔ ∃ x, float_of_bits bits = x ∧ match x with S754_zero _ | S754_finite _ _ _ => True | _ => False end.
Proof.
  intros Hb. unfold price_text. rewrite (proj2 (Z.leb_le _ _)), (proj2 (Z.ltb_lt _ _)) by lia. cbn [andb].
  split.
  - intros [t Ht]. eexists. split; [done|]. by destruct (float_of_bits bits).
  - intros (x & -> & Hx). destruct x; try done; by eexists.
Qed.

Lemma marshal_encodes p t : Api.valid_text p → marshal p = Some t →
  ∃ price created updated,
    price_text (Api.PriceUSD p) = Some price ∧ GoTime.format (Api.CreatedAt p) = Some created ∧
    GoTime.format (Api.UpdatedAt p) = Some updated ∧
    encodes 1 t (JObject
      [("id", JString (Api.ID p)); ("name", JString (Api.Name p)); ("description", JString (Api.Description p));
       ("price_usd", JNumber price); ("category", JString (Api.Category p));
       ("created_at", JString created); ("updated_at", JString updated)]).
Proof.
  intros (Hi & Hn & Hd & Hc) H. unfold marshal in H.
  destruct (price_text _) as [price|] eqn:Hp; [|done]. cbn [mbind option_bind] in H.
  destruct (GoTime.format (Api.CreatedAt p)) as [created|] eqn:Hcr; [|done]. cbn [mbind option_bind] in H.
  destruct (GoTime.format (Api.UpdatedAt p)) as [updated|] eqn:Hup; [|done]. cbn [mbind option_bind] in H.
  apply (inj Some) in H as <-. exists price, created, updated. split_and!; [done..|].
  apply object_encodes; [|done].
  pose proof (GoTime.format_valid _ _ Hcr). pose proof (GoTime.format_valid _ _ Hup).
  repeat constructor; try done; (by apply reads_string) || apply (price_text_spec _ _ Hp).
Qed.

Lemma of_json_fields p price created updated :
  price_text (Api.PriceUSD p) = Some price → GoTime.format (Api.CreatedAt p) = Some created →
  GoTime.format (Api.UpdatedAt p) = Some updated →
  of_json (JObject
    [("id", JString (Api.ID p)); ("name", JString (Api.Name p)); ("description", JString (Api.Description p));
     ("price_usd", JNumber price); ("category", JString (Api.Category p));
     ("created_at", JString created); ("updated_at", JString updated)]) = Some p.
Proof.
  intros Hp%price_text_spec Hc%GoTime.parse_format Hu%GoTime.parse_format. destruct Hp as (_ & _ & Hp).
  unfold of_json, to_struct, zero_product. cbn [foldl fst snd mbind option_bind].
  unfold set_product.
  repeat match goal with |- context [same_name ?a ?b] =>
    let c := eval vm_compute in (same_name a b) in change (same_name a b) with c end.
  cbn match. cbn [to_string to_float64 to_time mbind option_bind]. rewrite Hp. cbn [mbind option_bind].
  rewrite Hc. cbn [mbind option_bind]. rewrite Hu. by destruct p.
Qed.

Lemma product_read_back p t : Api.valid_text p → marshal p = Some t → unmarshal t = Some p.
Proof.
  intros Hv Hm. destruct (marshal_encodes p t Hv Hm) as (price & created & updated & Hp & Hc & Hu & He).
  unfold unmarshal. rewrite <-(str_app_nil t), (encodes_whole 1 t _ "" He) by done. bind. by apply of_json_fields.
Qed.

Lemma marshal_total p : encodable p → is_Some (marshal p).
Proof. intros ([a Ha] & [b Hb] & [c Hc]). unfold marshal. rewrite Ha, Hb, Hc. by eexists. Qed.

(** [encoding/json] on products meets what the API asks of it. *)
Program Definition encoding_json : Api.JSON := {|
  Api.Marshal p := String.list_byte_of_string <$> marshal p;
  Api.Unmarshal b := unmarshal (String.string_of_list_byte b)
|}.
Next Obligation.
  intros p b Hv (t & E & ->)%fmap_Some.
  rewrite String.string_of_list_byte_of_string. by apply product_read_back.
Qed.
Next Obligation. reflexivity. Qed.

(** A price that is a number, of the 64 bits of a [float64]. *)
Definition is_number (bits : Z) : Prop :=
  (0 ≤ bits < 2 ^ 64)%Z ∧ match float_of_bits bits with S754_zero _ | S754_finite _ _ _ => True | _ => False end.

Lemma number_encodable p :
  is_number (Api.PriceUSD p) → (0 ≤ GoTime.Year (Api.CreatedAt p) ≤ 9999)%Z →
  (0 ≤ GoTime.Year (Api.UpdatedAt p) ≤ 9999)%Z → encodable p.
Proof.
  intros [Hb Hn] Hc Hu. split_and!; [|by apply GoTime.format_total..]. apply price_text_total; [done|]. by eexists.
Qed.

(** C22: a product survives its JSON. Every product whose text is UTF-8, whose price
    is a number and whose years have four digits is marshalled, and what is made of
    it decodes to that very product: the strings byte for byte, the price bit for
    bit, down to the sign of zero and the subnormal numbers, and the instants to the
    nanosecond. It decodes so from the cache, and as the body of a request whatever
    follows it there, a newline for instance. *)
Theorem product_survives_json (decode_error : bytes → string) (p : Api.Product) (rest : string)
    (Htext : Api.valid_text p) (Hprice : is_number (Api.PriceUSD p))
    (Hcreated : (0 ≤ GoTime.Year (Api.CreatedAt p) ≤ 9999)%Z)
    (Hupdated : (0 ≤ GoTime.Year (Api.UpdatedAt p) ≤ 9999)%Z) (Hrest : ends_number rest = true) :
  ∃ t, marshal p = Some t ∧ unmarshal t = Some p ∧
    decode_create decode_error (String.list_byte_of_string (t +:+ rest)) = inl p.
Proof.
  destruct (marshal_total p) as [t Ht]; [by apply number_encodable|]. exists t. split; [done|].
  split; [by apply product_read_back|].
  destruct (marshal_encodes p t Htext Ht) as (price & created & updated & Hp & Hc & Hu & He).
  unfold decode_create. rewrite String.string_of_list_byte_of_string, (encodes_first 1 t _ rest He) by done.
  cbn [mbind option_bind]. by rewrite (of_json_fields p price created updated).
Qed.

(** The smallest price, and a time with a fraction. *)
Definition tiny : Api.Product :=
  Api.mk_Product "p-1" "naïve" "" 1 "a/b" 63871286340000000000 63871286340000000001.

Lemma product_survives_json_witness :
  ∃ t, marshal tiny = Some t ∧ unmarshal t = Some tiny ∧ Contains t ":5e-324," = true.
Proof.
  destruct (product_survives_json (λ _, "") tiny "") as (t & Ht & Hu & _).
  - split_and!; reflexivity.
  - split; [vm_compute; split; [discriminate|reflexivity]|exact I].
  - vm_compute. split; discriminate.
  - vm_compute. split; discriminate.
  - reflexivity.
  - exists t. split; [exact Ht|]. split; [exact Hu|].
    assert ((λ t, Contains t ":5e-324,") <$> marshal tiny = Some true) as Hc by (vm_compute; reflexivity).
    rewrite Ht in Hc. by injection Hc.
Defined.
End ProductJson.
