(* ===== verification/Dashboard.v ===== *)
(** The dashboard, the page the proxy serves at its root: the script of
    [src/internal/proxy/dashboard.go] as tasks of the browser's event loop over
    the state of the page. Each function runs until it waits for the network or a
    timer; what waits may go on in any order. Markup the script inserts is parsed by
    the browser, a parameter. The document around the script is in
    [DashboardPage.v]. *)
From S2P Require Import Prelude GoStrings Json GoNumbers Debug Invalidation Db DbSetup Api ApiServer Proxy ApiHttp Stack Js Web.
From Stdlib Require Import SpecFloat Ascii.

Module Dashboard.
Import Js Web.

(** ** The page *)

(** What the script puts into an element: text, or markup for the browser to
    parse. *)
Inductive content := Text (s : string) | Html (s : string).

(** The script's variables and what it changes of the document, by the identifier
    of the element: contents, class names, fields and tabs; and of the cards in the
    grid, by product, what is typed into their price field and which edit rows are
    open. *)
Record page := mk_page {
  hits : Z;
  misses : Z;
  clusterState : val;
  shown : gmap string content;
  classes : gmap string string;
  inputs : gmap string string;
  tabs : list (string * bool);
  prices : gmap string string;
  open_edits : gset string
}.

Definition tab_names : list string := ["list"; "fetch"; "add"].

(** The document as it is delivered. *)
Definition fresh_page : page :=
  mk_page 0 0 (Obj [("nodes", Arr []); ("coordinator", Str "")]) ∅ ∅ ∅
    [("list", true); ("fetch", false); ("add", false)] ∅ ∅.

Definition set_counts (h m : Z) (p : page) : page :=
  mk_page h m (clusterState p) (shown p) (classes p) (inputs p) (tabs p) (prices p) (open_edits p).
Definition set_cluster (v : val) (p : page) : page :=
  mk_page (hits p) (misses p) v (shown p) (classes p) (inputs p) (tabs p) (prices p) (open_edits p).
Definition show (id : string) (c : content) (p : page) : page :=
  mk_page (hits p) (misses p) (clusterState p) (<[id := c]> (shown p)) (classes p) (inputs p) (tabs p)
    (prices p) (open_edits p).
Definition set_class (id c : string) (p : page) : page :=
  mk_page (hits p) (misses p) (clusterState p) (shown p) (<[id := c]> (classes p)) (inputs p) (tabs p)
    (prices p) (open_edits p).
Definition set_input (id v : string) (p : page) : page :=
  mk_page (hits p) (misses p) (clusterState p) (shown p) (classes p) (<[id := v]> (inputs p)) (tabs p)
    (prices p) (open_edits p).
Definition set_tabs (l : list (string * bool)) (p : page) : page :=
  mk_page (hits p) (misses p) (clusterState p) (shown p) (classes p) (inputs p) l (prices p) (open_edits p).
Definition set_edits (e : gset string) (p : page) : page :=
  mk_page (hits p) (misses p) (clusterState p) (shown p) (classes p) (inputs p) (tabs p) (prices p) e.
Definition set_price (id v : string) (p : page) : page :=
  mk_page (hits p) (misses p) (clusterState p) (shown p) (classes p) (inputs p) (tabs p)
    (<[id := v]> (prices p)) (open_edits p).

(** New markup in the grid: new elements, with nothing typed and no row open. *)
Definition set_grid (html : string) (p : page) : page :=
  mk_page (hits p) (misses p) (clusterState p) (<["product-grid" := Html html]> (shown p)) (classes p) (inputs p)
    (tabs p) ∅ ∅.

Definition input_value (id : string) (p : page) : string := default "" (inputs p !! id).

(** The nodes of the grid: what the browser made of the markup. *)
Definition grid `{!Browser} (p : page) : list html :=
  match shown p !! "product-grid" with Some (Html s) => parse_html s | _ => [] end.

(** The elements of the cards the script can find. Identifiers in other markup
    that it inserts, which follows the grid in the document, are left out. *)
Definition grid_ids `{!Browser} (p : page) : list string := attributes "id" (grid p).

(** ** Tasks *)

Record http_call := mk_call { call_method : string; call_url : string; call_body : string }.

(** A response: its status, the [X-Cache] header if it has one, and the body, or
    [None] when it breaks off. *)
Record reply := mk_reply { reply_status : Z; reply_x_cache : option string; reply_body : option string }.

Inductive task :=
| Done
| Throw (msg : string)
| Read (k : page → task)
| Write (f : page → page) (k : task)
| Spawn (t k : task)                             (* call an async function without awaiting it *)
| Fetch (r : http_call) (k : reply + string → task)  (* [await fetch]: a response or an error *)
| Body (r : reply) (k : val + string → task)         (* [await r.json()] *)
| Sleep (ms : Z) (k : task).

(** [await t] and then [u]. *)
Fixpoint then_ (t u : task) : task :=
  match t with
  | Done => u
  | Throw msg => Throw msg
  | Read k => Read (λ p, then_ (k p) u)
  | Write f k => Write f (then_ k u)
  | Spawn t k => Spawn t (then_ k u)
  | Fetch r k => Fetch r (λ o, then_ (k o) u)
  | Body r k => Body r (λ o, then_ (k o) u)
  | Sleep ms k => Sleep ms (then_ k u)
  end.

(** [try { t } catch(e) { h(e) }]. *)
Fixpoint catch (t : task) (h : string → task) : task :=
  match t with
  | Done => Done
  | Throw msg => h msg
  | Read k => Read (λ p, catch (k p) h)
  | Write f k => Write f (catch k h)
  | Spawn t k => Spawn t (catch k h)
  | Fetch r k => Fetch r (λ o, catch (k o) h)
  | Body r k => Body r (λ o, catch (k o) h)
  | Sleep ms k => Sleep ms (catch k h)
  end.

Definition fetch_get (url : string) (k : reply → task) : task :=
  Fetch (mk_call "GET" url "") (λ o, match o with inl r => k r | inr e => Throw e end).
Definition fetch_send (method url body : string) (k : reply → task) : task :=
  Fetch (mk_call method url body) (λ o, match o with inl r => k r | inr e => Throw e end).
Definition json (r : reply) (k : val → task) : task :=
  Body r (λ o, match o with inl v => k v | inr e => Throw e end).

(** ** The script *)

Section Script.
Context `{!Browser}.
(** The messages of the engine's errors. *)
Context (type_error syntax_error network_error : string).

(** [v.name], which throws on [undefined] and [null]. *)
Definition prop (v : val) (name : string) (k : val → task) : task :=
  match get v name with Some w => k w | None => Throw type_error end.

(** Backquotes stand for double quotes. *)
Fixpoint q (s : string) : string :=
  match s with
  | EmptyString => ""
  | String a s => String (if decide (a = "`"%char) then Json.quote else a) (q s)
  end.

Definition nl : string := String (ascii_of_N 10) "".

Definition updateHitStats : page → page :=
  λ p, show "stat-misses" (Text (pretty (misses p))) (show "stat-hits" (Text (pretty (hits p))) p).

Definition toast (msg type : string) (k : task) : task :=
  Write (show "toast" (Text msg))
    (Write (set_class "toast" ("show " +:+ type))
      (Spawn (Sleep 2500 (Write (set_class "toast" "") Done)) k)).

(** *** Products *)

Definition ownerNode (cluster : val) : option string :=
  c ← get cluster "coordinator"; Some ("~" +:+ text (or_else c (Str "?"))).

(** The markup of a product; [None] is a [TypeError]. *)
Definition productCard (cluster p : val) : option string :=
  id ← get p "id"; category ← get p "category"; owner ← ownerNode cluster; name ← get p "name";
  description ← get p "description"; price ← get p "price_usd";
  fixed ← match price with Num x => Some (toFixed 2 x) | _ => None end;
  let id := text id in
  Some (nl +:+ q "  <div class=`product-card` id=`card-" +:+ id +:+ q "`>" +:+ nl +:+
    q "    <div class=`meta`>" +:+ nl +:+
    q "      <span class=`category`>" +:+ text category +:+ "</span>" +:+ nl +:+
    q "      <span class=`badge badge-node`>" +:+ owner +:+ "</span>" +:+ nl +:+
    "    </div>" +:+ nl +:+
    q "    <div class=`name`>" +:+ text name +:+ "</div>" +:+ nl +:+
    q "    <div class=`desc`>" +:+ text (or_else description (Str "—")) +:+ "</div>" +:+ nl +:+
    q "    <div class=`price`>$" +:+ fixed +:+ "</div>" +:+ nl +:+
    q "    <div class=`actions`>" +:+ nl +:+
    q "      <button class=`btn btn-secondary btn-sm` onclick=`inspectProduct('" +:+ id +:+ q "')`>🔍 Inspect</button>" +:+ nl +:+
    q "      <button class=`btn btn-secondary btn-sm` onclick=`toggleEdit('" +:+ id +:+ q "')`>✏️ Edit Price</button>" +:+ nl +:+
    "    </div>" +:+ nl +:+
    q "    <div class=`inline-edit` id=`edit-" +:+ id +:+ q "`>" +:+ nl +:+
    q "      <input type=`number` step=`0.01` id=`price-" +:+ id +:+ q "` placeholder=`" +:+ text price +:+ q "` style=`width:90px;`>" +:+ nl +:+
    q "      <button class=`btn btn-green btn-sm` onclick=`updatePrice('" +:+ id +:+ q "')`>Save</button>" +:+ nl +:+
    q "      <button class=`btn btn-secondary btn-sm` onclick=`toggleEdit('" +:+ id +:+ q "')`>✕</button>" +:+ nl +:+
    "    </div>" +:+ nl +:+ "  </div>" +:+ nl +:+ "  ").

Definition loadProducts : task :=
  catch
    (fetch_get "/products?pageSize=50" (λ r,
     json r (λ data,
     prop data "total_count" (λ total,
     Write (show "stat-total" (Text (text (or_else total (Num fzero)))))
     (Write (show "product-count" (Text (text total +:+ " products total")))
     (prop data "products" (λ products,
      match products with
      | Arr ((_ :: _) as l) =>
          Read (λ p,
            match mapM (productCard (clusterState p)) l with
            | Some html => Write (set_grid (String.concat "" html)) Done
            | None => Throw type_error
            end)
      | Arr [] => Write (set_grid (q "<div class=`loading`>No products found. Add one!</div>")) Done
      | _ => if truthy products then Throw type_error
             else Write (set_grid (q "<div class=`loading`>No products found. Add one!</div>")) Done
      end)))))))
    (λ msg, Write (set_grid (q "<div class=`loading` style=`color:var(--red)`>Failed to load: " +:+ msg +:+ "</div>")) Done).

Definition showTab (name : string) (k : task) : task :=
  Write (set_tabs ((λ t, (t, bool_decide (t = name))) <$> tab_names))
    (if decide (name = "list") then Spawn loadProducts k else k).

Definition toggleEdit (id : string) (k : task) : task :=
  Read (λ p,
    if decide (("edit-" +:+ id) ∈ grid_ids p) then
      Write (set_edits (if decide (id ∈ open_edits p) then open_edits p ∖ {[id]} else {[id]} ∪ open_edits p)) k
    else Throw type_error).

Definition badge (status : string) : string :=
  if decide (status = "HIT") then "badge-hit" else if decide (status = "MISS") then "badge-miss" else "badge-new".

Definition fetch_result (status : string) (shown_data owner in_cache : val) : string :=
  nl +:+ q "    <div class=`fetch-result`>" +:+ nl +:+
  q "      <div class=`header`>" +:+ nl +:+
  q "        <span class=`badge " +:+ badge status +:+ q "`>" +:+ status +:+ "</span>" +:+ nl +:+
  "        " +:+ (if truthy owner then q "<span class=`badge badge-node`>Node: " +:+ text owner +:+ "</span>" else "") +:+ nl +:+
  "        " +:+ (match in_cache with
                  | Undefined => ""
                  | v => q "<span style=`color:var(--muted); font-size:12px;`>" +:+
                         (if truthy v then "✓ In cache" else "○ Not in cache") +:+ "</span>"
                  end) +:+ nl +:+
  "      </div>" +:+ nl +:+
  q "      <div class=`json`>" +:+ stringify 2 0 shown_data +:+ "</div>" +:+ nl +:+
  "    </div>" +:+ nl +:+ "  ".

(** The counters and their display, in one go. *)
Definition count_status (status : string) (p : page) : page :=
  updateHitStats
    (if decide (status = "HIT") then set_counts (hits p + 1) (misses p) p
     else if decide (status = "MISS") then set_counts (hits p) (misses p + 1) p else p).

Definition cache_status_of (r : reply) : string :=
  match reply_x_cache r with
  | Some s => if decide (s = "") then "UNKNOWN" else s
  | None => "UNKNOWN"
  end.

(** [fetchProduct] after the debug information is in. *)
Definition fetchProduct_show (r : reply) (data debugInfo : val) : task :=
  prop debugInfo "owner_node" (λ owner, prop debugInfo "in_cache" (λ in_cache,
  let write v := Write (show "fetch-result" (Html (fetch_result (cache_status_of r) v owner in_cache))) Done in
  if (reply_status r =? 200)%Z then write data
  else prop data "error" (λ e, write (Obj [("error", e)])))).

Definition fetchProduct : task :=
  Read (λ p,
  let id := trim (input_value "fetch-id" p) in
  if decide (id = "") then Done
  else
    fetch_get ("/products/" +:+ id) (λ r,
    json r (λ data,
    Write (count_status (cache_status_of r))
    (let rest := fetchProduct_show r data in
     Fetch (mk_call "GET" ("/cache/debug/product:" +:+ id) "") (λ o,
       match o with
       | inl dr => Body dr (λ v, match v with inl d => rest d | inr _ => rest (Obj []) end)
       | inr _ => rest (Obj [])
       end))))).

Definition inspectProduct (id : string) : task :=
  showTab "fetch" (Write (set_input "fetch-id" id) (then_ fetchProduct Done)).

(** *** The cluster *)

(** The sum of two counts; a count that is missing is not a number. *)
Definition number_of (v : val) : float64 := match v with Num x => x | Null => fzero | _ => S754_nan end.

Definition hit_rate (hit miss : val) : string :=
  let total := fadd (number_of hit) (number_of miss) in
  if SFltb fzero total
  then toFixed 1 (fmul (fdiv (number_of hit) total) (float_of_int 100)) +:+ "% hit"
  else "no traffic".

Definition same (v w : val) : bool :=
  match v, w with
  | Undefined, Undefined | Null, Null => true
  | Str s, Str t => bool_decide (s = t)
  | Bool a, Bool b => Bool.eqb a b
  | Num x, Num y => SFeqb x y
  | _, _ => false
  end.

(** One node of the list: the class of its dot, its name and role, and the two
    lines below them. *)
Definition node_html (dotClass name role stats error : string) : string :=
  nl +:+ q "        <div class=`node-item`>" +:+ nl +:+
  q "          <div class=`node-dot " +:+ dotClass +:+ q "`></div>" +:+ nl +:+
  q "          <div class=`node-info`>" +:+ nl +:+
  q "            <div class=`node-name`>" +:+ name +:+ role +:+ "</div>" +:+ nl +:+
  q "            <div class=`node-stats`>" +:+ nl +:+
  "              " +:+ stats +:+ nl +:+
  "              " +:+ error +:+ nl +:+
  "            </div>" +:+ nl +:+ "          </div>" +:+ nl +:+ "        </div>" +:+ nl +:+ "      ".

Definition unreachable_html : string := q "<span style=`color:var(--red)`>unreachable</span>".

Definition node_item (coordinator n : val) : option string :=
  id ← get n "node_id"; healthy ← get n "healthy"; hit ← get n "hit_count"; miss ← get n "miss_count";
  entries ← get n "entry_count"; error ← get n "error";
  let isCoord := same id coordinator in
  let dotClass := if negb (truthy healthy) then "unhealthy" else if isCoord then "coordinator" else "healthy" in
  let role := if isCoord then " 👑 Coordinator" else "" in
  Some (node_html dotClass (text id) role
    (if truthy healthy then text entries +:+ " entries · " +:+ hit_rate hit miss else unreachable_html)
    (if truthy error then " · " +:+ text error else "")).

(** [(data.nodes || [])] as an array; other values have no [filter]. *)
Definition node_list (nodes : val) : option (list val) :=
  match nodes with
  | Arr l => Some l
  | v => if truthy v then None else Some []
  end.

Definition is_healthy (n : val) : option bool := truthy <$> get n "healthy".

Definition count_true (l : list bool) : Z := Z.of_nat (length (filter (λ b, b = true) l)).

Definition refreshCluster : task :=
  catch
    (fetch_get "/cluster/status" (λ r,
     json r (λ data,
     Write (set_cluster data)
     (prop data "nodes" (λ nodes,
      match node_list nodes with
      | None => Throw type_error
      | Some l =>
          match mapM is_healthy l with
          | None => Throw type_error
          | Some hs =>
              Write (show "stat-nodes" (Text (pretty (count_true hs) +:+ "/" +:+ pretty (Z.of_nat (length l)))))
              (prop data "coordinator" (λ coordinator,
               match mapM (node_item coordinator) l with
               | Some html => Write (show "cluster-nodes" (Html (String.concat "" html))) Done
               | None => Throw type_error
               end))
          end
      end)))))
    (λ _, Write (show "cluster-nodes" (Html (q "<div class=`loading` style=`color:var(--red)`>Cluster unreachable</div>"))) Done).

(** *** Cache debug *)

Definition debugKey : task :=
  Read (λ p,
  let key := trim (input_value "debug-key" p) in
  if decide (key = "") then Done
  else
    catch
      (fetch_get ("/cache/debug/" +:+ encodeURIComponent key) (λ r,
       json r (λ data,
       prop data "in_cache" (λ in_cache, prop data "key" (λ k, prop data "owner_node" (λ owner,
       prop data "cache_status" (λ status, prop data "is_coordinator" (λ coord,
       let label s := q "<span style=`color:var(--muted)`>" +:+ s +:+ ":</span>" in
       let cacheColor := if truthy in_cache then "var(--green)" else "var(--yellow)" in
       Write (show "debug-result" (Html
         (label "key" +:+ "          " +:+ text k +:+ nl +:+
          label "owner_node" +:+ "   <strong>" +:+ text owner +:+ "</strong>" +:+ nl +:+
          label "cache_status" +:+ q " <span style=`color:" +:+ cacheColor +:+ q "`>" +:+ text status +:+ "</span>" +:+ nl +:+
          label "in_cache" +:+ "     " +:+ text in_cache +:+ nl +:+
          label "is_coordinator" +:+ " " +:+ text coord))) Done)))))))) 
      (λ msg, Write (show "debug-result" (Text ("Error: " +:+ msg))) Done)).

(** *** Updates *)

Definition ok (r : reply) : bool := ((200 <=? reply_status r) && (reply_status r <? 300))%Z.

Definition updatePrice (id : string) : task :=
  Read (λ p,
  if decide (("price-" +:+ id) ∈ grid_ids p) then
    let price := parseFloat (default "" (prices p !! id)) in
    if match price with S754_nan => true | _ => SFltb price fzero end then toast "Invalid price" "error" Done
    else
      fetch_send "PUT" ("/products/" +:+ id) (stringify 0 0 (Obj [("price_usd", Num price)])) (λ r,
      json r (λ data,
      if ok r then
        toast ("Price updated → $" +:+ toFixed 2 price) "success"
        (toggleEdit id
        (Spawn loadProducts
        (Write (set_input "debug-key" ("product:" +:+ id)) debugKey)))
      else prop data "error" (λ e, toast (text (or_else e (Str "Update failed"))) "error" Done)))
  else Throw type_error).

Definition form_fields : list string := ["new-id"; "new-name"; "new-desc"; "new-price"; "new-cat"].

Definition clearForm : page → page :=
  λ p, show "add-result" (Html "") (foldl (λ p id, set_input id "" p) p form_fields).

Definition addProduct : task :=
  Read (λ p,
  let id := trim (input_value "new-id" p) in
  let name := trim (input_value "new-name" p) in
  if decide (id = "" ∨ name = "") then toast "ID and name are required" "error" Done
  else
    let category := trim (input_value "new-cat" p) in
    let body := Obj [("id", Str id); ("name", Str name); ("description", Str (trim (input_value "new-desc" p)));
                     ("price_usd", or_else (Num (parseFloat (input_value "new-price" p))) (Num fzero));
                     ("category", or_else (Str category) (Str "general"))] in
    fetch_send "POST" "/products" (stringify 0 0 body) (λ r,
    json r (λ data,
    if ok r then
      toast ("Product created: " +:+ name) "success"
      (Write clearForm
      (Write (show "add-result" (Html (q "<div style=`color:var(--green); font-size:13px;`>✓ Created: " +:+ name +:+ " (ID: " +:+ id +:+ ")</div>"))) Done))
    else
      prop data "error" (λ e,
      Write (show "add-result" (Html (q "<div style=`color:var(--red); font-size:13px;`>✗ " +:+ text (or_else e (Str "Failed")) +:+ "</div>")))
      (toast (text (or_else e (Str "Failed to create"))) "error" Done))))).

(** What runs when the script is loaded. *)
Definition init_script : task := Spawn loadProducts (Spawn refreshCluster Done).

(** ** The event loop *)

(** Runs a task until it waits: the page, and what waits then. An error nobody
    catches ends its task. *)
Fixpoint exec (t : task) (p : page) : page * list task :=
  match t with
  | Done | Throw _ => (p, [])
  | Read k => exec (k p) p
  | Write f k => exec k (f p)
  | Spawn t k =>
      let '(p1, w1) := exec t p in
      let '(p2, w2) := exec k p1 in
      (p2, w1 ++ w2)
  | Fetch _ _ | Body _ _ | Sleep _ _ => (p, [t])
  end.

(** The body of a response as [r.json()] gives it. *)
Definition read_body (r : reply) : val + string :=
  match reply_body r with
  | None => inr network_error
  | Some t => match parse t with Some v => inl v | None => inr syntax_error end
  end.

(** What a waiting task goes on with; [o] is the outcome of a fetch. *)
Definition resume (o : reply + string) (t : task) : option task :=
  match t with
  | Fetch _ k => Some (k o)
  | Body r k => Some (k (read_body r))
  | Sleep _ k => Some k
  | _ => None
  end.

Record browser := mk_browser { the_page : page; waiting : list task }.

(** What the user and the environment do: a click on one of the page's handlers,
    typing into a field, the interval of the script, or the end of a wait. *)
Inductive action :=
| ClickTab (name : string)
| ClickRefresh
| ClickFetch
| ClickInspect (id : string)
| ClickEdit (id : string)
| ClickSave (id : string)
| ClickAdd
| ClickClear
| ClickDebug
| TypeInput (id v : string)
| TypePrice (id v : string)
| Interval
| Resume (i : nat) (o : reply + string).

Definition handler (a : action) : task :=
  match a with
  | ClickTab name => showTab name Done
  | ClickRefresh => loadProducts
  | ClickFetch => fetchProduct
  | ClickInspect id => inspectProduct id
  | ClickEdit id => toggleEdit id Done
  | ClickSave id => updatePrice id
  | ClickAdd => addProduct
  | ClickClear => Write clearForm Done
  | ClickDebug => debugKey
  | TypeInput id v => Write (set_input id v) Done
  | TypePrice id v => Write (set_price id v) Done
  | Interval => refreshCluster
  | Resume _ _ => Done
  end.

Definition act (a : action) (b : browser) : option browser :=
  match a with
  | Resume i o =>
      t ← waiting b !! i;
      t' ← resume o t;
      let '(p, w) := exec t' (the_page b) in
      Some (mk_browser p (delete i (waiting b) ++ w))
  | _ =>
      let '(p, w) := exec (handler a) (the_page b) in
      Some (mk_browser p (waiting b ++ w))
  end.

Fixpoint acts (l : list action) (b : browser) : option browser :=
  match l with
  | [] => Some b
  | a :: l => b' ← act a b; acts l b'
  end.

Definition load : browser := let '(p, w) := exec init_script fresh_page in mk_browser p w.
End Script.
End Dashboard.
