(* ===== verification/DashboardTheorems.v ===== *)
(** What the dashboard shows and does: its counters under every interleaving of
    the event loop, the cluster list it makes of the API's status, and what the
    caching proxy between it and the API does to reads and updates. *)
From S2P Require Import Prelude GoStrings Json GoNumbers Ring Cluster Debug Invalidation Db DbSetup Api ApiServer Proxy ApiHttp Stack Js Web Dashboard.
From Stdlib Require Import SpecFloat Ascii.

Module DashboardTheorems.
Import ApiHttp Stack Js Web Dashboard.

(** ** Invariants of the event loop *)

Section Invariant.
Context `{!Browser} (type_error syntax_error network_error : string) (I : page → Prop).

(** Running [t] on [p] now, and whatever waits of it later on a page with [I],
    leaves a page with [I] whenever it stops. *)
Fixpoint safe (t : task) (p : page) : Prop :=
  match t with
  | Done | Throw _ => I p
  | Read k => safe (k p) p
  | Write f k => safe k (f p)
  | Spawn t k => safe t p ∧ safe k (exec t p).1
  | Fetch _ k => I p ∧ ∀ o p', I p' → safe (k o) p'
  | Body _ k => I p ∧ ∀ o p', I p' → safe (k o) p'
  | Sleep _ k => I p ∧ ∀ p', I p' → safe k p'
  end.

(** A waiting task whose continuation is safe. *)
Definition patient (t : task) : Prop := ∀ o t' p, resume syntax_error network_error o t = Some t' → I p → safe t' p.

Lemma exec_safe t : ∀ p, safe t p → I (exec t p).1 ∧ Forall patient (exec t p).2.
Proof.
  induction t as [|msg|k IH|f k IH|t IHt k IHk|r k IH|r k IH|ms k IH]; intros p Hs; simpl in Hs |- *; auto.
  - destruct Hs as [H1 H2]. destruct (IHt p H1) as [_ Hw1]. destruct (exec t p) as [p1 w1]; simpl in *.
    destruct (IHk p1 H2) as [Hp2 Hw2]. destruct (exec k p1) as [p2 w2]; simpl in *.
    split; [done|]. by apply Forall_app.
  - destruct Hs as [Hp Hk]. split; [done|]. apply Forall_singleton. intros o t' p' [= <-] Hp'. by apply Hk.
  - destruct Hs as [Hp Hk]. split; [done|]. apply Forall_singleton. intros o t' p' [= <-] Hp'. by apply Hk.
  - destruct Hs as [Hp Hk]. split; [done|]. apply Forall_singleton. intros o t' p' [= <-] Hp'. by apply Hk.
Qed.

Lemma safe_then t u : ∀ p, safe t p → (∀ p', I p' → safe u p') → safe (then_ t u) p.
Proof.
  induction t as [|msg|k IH|f k IH|t IHt k IHk|r k IH|r k IH|ms k IH]; intros p Hs Hu; simpl in *; auto.
  - destruct Hs. auto.
  - destruct Hs as [? Hk]. split; [done|]. intros o p' Hp'. by apply IH; [apply Hk|].
  - destruct Hs as [? Hk]. split; [done|]. intros o p' Hp'. by apply IH; [apply Hk|].
  - destruct Hs as [? Hk]. split; [done|]. intros p' Hp'. by apply IH; [apply Hk|].
Qed.

Lemma safe_catch t h : ∀ p, safe t p → (∀ msg p', I p' → safe (h msg) p') → safe (catch t h) p.
Proof.
  induction t as [|msg|k IH|f k IH|t IHt k IHk|r k IH|r k IH|ms k IH]; intros p Hs Hh; simpl in *; auto.
  - destruct Hs. auto.
  - destruct Hs as [? Hk]. split; [done|]. intros o p' Hp'. by apply IH; [apply Hk|].
  - destruct Hs as [? Hk]. split; [done|]. intros o p' Hp'. by apply IH; [apply Hk|].
  - destruct Hs as [? Hk]. split; [done|]. intros p' Hp'. by apply IH; [apply Hk|].
Qed.

Lemma exec_inv t : ∀ p, safe t p → I (exec t p).1.
Proof.
  induction t as [|msg|k IH|f k IH|t IHt k IHk|r k IH|r k IH|ms k IH]; intros p Hs; simpl in Hs |- *; auto;
    try by destruct Hs.
  destruct Hs as [H1 H2]. destruct (exec t p) as [p1 w1]. specialize (IHk p1 H2). by destruct (exec k p1).
Qed.

Lemma safe_spawn t k p : safe t p → (∀ p', I p' → safe k p') → safe (Spawn t k) p.
Proof. intros Ht Hk. split; [done|]. apply Hk. by apply exec_inv. Qed.

Lemma safe_prop v name k p : I p → (∀ w, safe (k w) p) → safe (prop type_error v name k) p.
Proof. intros Hp Hk. unfold prop. by destruct (get v name). Qed.

Lemma safe_get url k p : I p → (∀ r p', I p' → safe (k r) p') → safe (fetch_get url k) p.
Proof. intros Hp Hk. split; [done|]. intros [r|e] p' Hp'; [by apply Hk|done]. Qed.

Lemma safe_send m url body k p : I p → (∀ r p', I p' → safe (k r) p') → safe (fetch_send m url body k) p.
Proof. intros Hp Hk. split; [done|]. intros [r|e] p' Hp'; [by apply Hk|done]. Qed.

Lemma safe_json r k p : I p → (∀ v p', I p' → safe (k v) p') → safe (json r k) p.
Proof. intros Hp Hk. split; [done|]. intros [v|e] p' Hp'; [by apply Hk|done]. Qed.

(** An action runs a handler, or what waited. *)
Lemma act_runs a b b' :
  act type_error syntax_error network_error a b = Some b' →
  ∃ t rest, (∀ w, w ∈ rest → w ∈ waiting b) ∧
    b' = mk_browser (exec t (the_page b)).1 (rest ++ (exec t (the_page b)).2) ∧
    (t = handler type_error a ∨
     ∃ w o, w ∈ waiting b ∧ resume syntax_error network_error o w = Some t).
Proof.
  assert ((let '(p, w) := exec (handler type_error a) (the_page b) in Some (mk_browser p (waiting b ++ w))) = Some b' →
    ∃ t rest, (∀ w, w ∈ rest → w ∈ waiting b) ∧
    b' = mk_browser (exec t (the_page b)).1 (rest ++ (exec t (the_page b)).2) ∧
    (t = handler type_error a ∨ ∃ w o, w ∈ waiting b ∧ resume syntax_error network_error o w = Some t)) as Hh.
  { intros E. exists (handler type_error a), (waiting b). split; [done|].
    destruct (exec _ _) as [p w]. injection E as <-. by split; [|left]. }
  unfold act. destruct a as [| | | | | | | | | | | |i o]; try exact Hh.
  destruct (waiting b !! i) as [w|] eqn:Hw; [|done]. bind.
  destruct (resume syntax_error network_error o w) as [t|] eqn:Ht; [|done]. bind. intros E.
  exists t, (delete i (waiting b)). destruct (exec t (the_page b)) as [p ws]. injection E as <-. split; [|split; [done|]].
  - intros x. apply list_elem_of_delete_inv.
  - right. exists w, o. split; [by eapply list_elem_of_lookup_2|done].
Qed.

(** Every action keeps the invariant if every handler is safe. *)
Lemma acts_safe (A : action → Prop) (Hh : ∀ a p, A a → I p → safe (handler type_error a) p) l : ∀ b b',
  Forall A l → I (the_page b) → Forall patient (waiting b) → acts type_error syntax_error network_error l b = Some b' →
  I (the_page b') ∧ Forall patient (waiting b').
Proof.
  induction l as [|a l IH]; intros b b' HA Hp Hw; [by intros [= <-]|]. cbn [acts].
  apply Forall_cons in HA as [HAa HA].
  destruct (act type_error syntax_error network_error a b) as [b1|] eqn:Hact; [|done]. bind.
  destruct (act_runs a b b1 Hact) as (t & rest & Hrest & -> & Ht).
  assert (safe t (the_page b)) as Hs.
  { destruct Ht as [->|(w & o & Hin & Hr)]; [by apply Hh|].
    eapply Forall_forall in Hw; [|exact Hin]. by eapply Hw. }
  destruct (exec_safe t _ Hs) as [Hp1 Hw1]. apply IH; [done|done|]. simpl. apply Forall_app. split; [|done].
  apply Forall_forall. intros w Hin%Hrest. by eapply Forall_forall in Hw.
Qed.
End Invariant.

(** ** The handlers *)

(** The elements the script writes into, the counters apart, and the fields it
    writes. *)
Definition script_elements : list string :=
  ["stat-total"; "product-count"; "fetch-result"; "stat-nodes"; "cluster-nodes"; "debug-result"; "add-result";
   "toast"].
Definition script_fields : list string := "fetch-id" :: "debug-key" :: form_fields.

(** An invariant that every write of the script keeps; [F] are the fields the
    user may type into and [T] the tabs there are. *)
Record kept (F T : string → Prop) (I : page → Prop) : Prop := {
  kept_fresh : I fresh_page;
  kept_show id c p : id ∈ script_elements → I p → I (show id c p);
  kept_count status p : I p → I (count_status status p);
  kept_grid html p : I p → I (set_grid html p);
  kept_input id v p : F id → I p → I (set_input id v p);
  kept_cluster v p : I p → I (set_cluster v p);
  kept_tabs name p : T name → I p → I (set_tabs ((λ t, (t, bool_decide (t = name))) <$> tab_names) p);
  kept_edits e p : I p → I (set_edits e p);
  kept_price id v p : I p → I (set_price id v p);
  kept_class c p : I p → I (set_class "toast" c p)
}.

Definition offered (F T : string → Prop) (a : action) : Prop :=
  match a with TypeInput id _ => F id | ClickTab name => T name | _ => True end.

Section Handlers.
Context `{!Browser} (type_error : string) (F T : string → Prop) (I : page → Prop).
Hypothesis HI : kept F T I.
Hypothesis HF : ∀ id, id ∈ script_fields → F id.
Hypothesis HT : T "fetch".
Local Abbreviation safe := (safe I).

Lemma kept_clear p : I p → I (clearForm p).
Proof.
  intros Hp. apply (kept_show _ _ _ HI); [set_solver|].
  unfold form_fields. cbn [foldl]. do 5 (apply (kept_input _ _ _ HI); [apply HF; set_solver|]). done.
Qed.

Ltac safe_step :=
  match goal with
  | |- safe (Write ?f ?k) ?p => change (safe k (f p))
  | |- safe (Read ?k) ?p => change (safe (k p) p); cbv beta
  | |- safe Done ?p => change (I p)
  | |- safe (Throw _) ?p => change (I p)
  | |- safe (catch _ _) _ => apply safe_catch
  | |- safe (then_ _ _) _ => apply safe_then
  | |- safe (prop _ _ _ _) _ => apply safe_prop
  | |- safe (fetch_get _ _) _ => apply safe_get
  | |- safe (fetch_send _ _ _ _) _ => apply safe_send
  | |- safe (json _ _) _ => apply safe_json
  | |- safe (Spawn _ _) _ => apply safe_spawn
  | |- safe (Sleep _ _) _ => split
  | |- I (show _ _ _) => apply (kept_show _ _ _ HI)
  | |- I (set_grid _ _) => apply (kept_grid _ _ _ HI)
  | |- I (count_status _ _) => apply (kept_count _ _ _ HI)
  | |- I (clearForm _) => apply kept_clear
  | |- I (set_input _ _ _) => apply (kept_input _ _ _ HI)
  | |- I (set_cluster _ _) => apply (kept_cluster _ _ _ HI)
  | |- I (set_tabs _ _) => apply (kept_tabs _ _ _ HI)
  | |- I (set_edits _ _) => apply (kept_edits _ _ _ HI)
  | |- I (set_price _ _ _) => apply (kept_price _ _ _ HI)
  | |- I (set_class _ _ _) => apply (kept_class _ _ _ HI)
  | |- I _ => done
  | |- _ ∈ script_elements => apply (bool_decide_eq_true_1 (_ ∈ _)); reflexivity
  | |- F _ => apply HF, (bool_decide_eq_true_1 (_ ∈ _)); reflexivity
  | |- safe (match ?x with _ => _ end) _ => destruct x
  | |- ∀ _, _ => intros ?
  end.

Lemma loadProducts_safe p : I p → safe (loadProducts type_error) p.
Proof. intros Hp. unfold loadProducts. repeat safe_step. Qed.

Lemma refreshCluster_safe p : I p → safe (refreshCluster type_error) p.
Proof. intros Hp. unfold refreshCluster. repeat safe_step. Qed.

Lemma debugKey_safe p : I p → safe (debugKey type_error) p.
Proof. intros Hp. unfold debugKey. repeat safe_step. Qed.

Lemma toast_safe m c k p : I p → (∀ p', I p' → safe k p') → safe (toast m c k) p.
Proof. intros Hp Hk. unfold toast. repeat safe_step; auto. Qed.

Lemma fetchProduct_safe p : I p → safe (fetchProduct type_error) p.
Proof.
  intros Hp. unfold fetchProduct. do 2 safe_step; [done|].
  assert (∀ r data d p', I p' → safe (fetchProduct_show type_error r data d) p') as Hshow.
  { intros r data d p' Hp'. unfold fetchProduct_show. repeat safe_step. }
  repeat safe_step. split; [by apply (kept_count _ _ _ HI)|]. intros [dr|e] p2 Hp2; [|by apply Hshow].
  split; [done|]. intros [d|e] p3 Hp3; by apply Hshow.
Qed.

Lemma showTab_safe name k p : T name → I p → (∀ p', I p' → safe k p') → safe (showTab type_error name k) p.
Proof.
  intros Ht Hp Hk. unfold showTab. safe_step. destruct (decide _); [|by apply Hk; safe_step].
  safe_step; [by apply loadProducts_safe; safe_step|done].
Qed.

Lemma handler_safe a p : offered F T a → I p → safe (handler type_error a) p.
Proof.
  intros Ha Hp. destruct a as [name| | |id|id|id| | | |id v| | |]; cbn [handler];
    auto using loadProducts_safe, refreshCluster_safe, debugKey_safe, fetchProduct_safe;
    try (by repeat safe_step).
  - by apply showTab_safe.
  - apply showTab_safe; [done|done|]. intros p' Hp'. repeat safe_step. apply fetchProduct_safe. repeat safe_step.
  - unfold toggleEdit. repeat safe_step.
  - unfold updatePrice. safe_step. destruct (decide _); [|by repeat safe_step].
    destruct (match parseFloat _ with S754_nan => _ | _ => _ end); [by apply toast_safe|].
    repeat safe_step; (apply toast_safe; [done|]); [|done]. unfold toggleEdit.
    repeat safe_step; first [apply loadProducts_safe|apply debugKey_safe]; repeat safe_step.
  - unfold addProduct. safe_step. destruct (decide _); [by apply toast_safe|].
    repeat safe_step; (apply toast_safe; [by repeat safe_step|]); repeat safe_step.
Qed.

(** What every write keeps holds between any two events. *)
Lemma kept_always syntax_error network_error l b :
  Forall (offered F T) l → acts type_error syntax_error network_error l (load type_error) = Some b →
  I (the_page b).
Proof.
  intros Hl Hrun.
  assert (safe (init_script type_error) fresh_page) as Hinit.
  { apply safe_spawn; [apply loadProducts_safe, (kept_fresh _ _ _ HI)|]. intros p Hp.
    by apply safe_spawn; [apply refreshCluster_safe|]. }
  destruct (exec_safe syntax_error network_error I _ _ Hinit) as [Hp Hw].
  exact (proj1 (acts_safe type_error syntax_error network_error I (offered F T) handler_safe l
    (load type_error) b Hl Hp Hw Hrun)).
Qed.
End Handlers.

(** ** The counters *)

(** The two counters on the page show the numbers counted. *)
Definition counters_shown (p : page) : Prop :=
  (∀ c, shown p !! "stat-hits" = Some c → c = Text (pretty (hits p))) ∧
  (∀ c, shown p !! "stat-misses" = Some c → c = Text (pretty (misses p))).

Lemma counters_kept : kept (λ _, True) (λ _, True) counters_shown.
Proof.
  constructor; try done.
  - intros id c0 p Hid [Hh Hm]. unfold script_elements in Hid.
    split; simpl; intros c1; (rewrite lookup_insert_ne by (intros ->; set_solver)); auto.
  - intros status p _. split; intros c; simpl.
    + rewrite lookup_insert_ne, lookup_insert_eq by done. by intros [= <-].
    + rewrite lookup_insert_eq. by intros [= <-].
  - intros html p [Hh Hm]. split; simpl; intros c; rewrite lookup_insert_ne by done; auto.
Qed.

(** The counters on the page are current. Whatever the user clicks and types, and
    in whatever order answers and timers come back, between two events of the
    browser the hits and misses displayed are the hits and misses counted. *)
Theorem counters_always_current `{!Browser} (type_error syntax_error network_error : string) (l : list action) (b : browser)
    (Hrun : acts type_error syntax_error network_error l (load type_error) = Some b) :
  counters_shown (the_page b).
Proof.
  apply (kept_always type_error (λ _, True) (λ _, True) counters_shown counters_kept (λ _ _, I) I syntax_error network_error l);
    [|done]. apply Forall_forall. by intros [] _.
Qed.

(** The examples run in the simple browser. *)
#[local] Existing Instance simple_browser.

Definition a_miss : reply := mk_reply 200 (Some "MISS") (Some "{}").

Definition one_miss : list action :=
  [TypeInput "fetch-id" " prod-001 "; ClickFetch; Resume 0 (inr "offline"); Resume 1 (inl a_miss); Resume 1 (inr "")].

Lemma counters_always_current_witness :
  ∃ b, acts "TypeError" "SyntaxError" "NetworkError" one_miss (load "TypeError") = Some b ∧
    misses (the_page b) = 1%Z ∧ shown (the_page b) !! "stat-misses" = Some (Text "1") ∧
    counters_shown (the_page b).
Proof.
  assert ((λ b, (misses (the_page b), shown (the_page b) !! "stat-misses")) <$>
    acts "TypeError" "SyntaxError" "NetworkError" one_miss (load "TypeError") = Some (1%Z, Some (Text "1")))
    as H by (vm_compute; reflexivity).
  destruct (acts "TypeError" "SyntaxError" "NetworkError" one_miss (load "TypeError")) as [b|] eqn:E; [|discriminate H].
  cbn [fmap option_fmap option_map] in H. injection H as Hm Hs.
  exists b. split; [reflexivity|]. split; [exact Hm|]. split; [exact Hs|].
  exact (counters_always_current "TypeError" "SyntaxError" "NetworkError" one_miss b E).
Defined.

(** ** The cluster list *)

(** The JSON value of a status, as the API writes it and as the script sees it. *)
Definition json_status (n : Debug.NodeStatus) : Json.json :=
  Json.JObject
    ([("node_id", Json.JString (Debug.NodeID n)); ("healthy", Json.JBool (Debug.Healthy n));
      ("is_coordinator", Json.JBool (Debug.IsCoordinator n)); ("entry_count", Json.JNumber (pretty (Debug.EntryCount n)));
      ("hit_count", Json.JNumber (pretty (Debug.HitCount n))); ("miss_count", Json.JNumber (pretty (Debug.MissCount n)));
      ("eviction_count", Json.JNumber (pretty (Debug.EvictionCount n)))] ++
     (if decide (Debug.Error n = "") then [] else [("error", Json.JString (Debug.Error n))])).

Definition status_text (n : Debug.NodeStatus) : Prop :=
  ValidString (Debug.NodeID n) = true ∧ ValidString (Debug.Error n) = true.

Lemma encode_status_encodes n : status_text n → Json.encodes 1 (encode_status n) (json_status n).
Proof.
  intros [Hid Herr]. apply Json.object_encodes; [|done].
  repeat (constructor; [split_and!; [done|done|];
    first [by apply Json.reads_string|apply Json.reads_bool|apply Json.reads_int]|]).
  destruct (decide _); [constructor|]. constructor; [|constructor].
  split_and!; [done|done|by apply Json.reads_string].
Qed.

(** What the script reads of the API's status. *)
Lemma parse_cluster ns c :
  Forall status_text ns → ValidString c = true →
  parse (encode_cluster (ns, c) +:+ GoFmt.GoFmt.nl) =
    Some (Obj [("nodes", Arr (of_json ∘ json_status <$> ns)); ("coordinator", Str c)]).
Proof.
  intros Hns Hc. unfold parse, encode_cluster. cbn [fst snd].
  rewrite (Json.encodes_whole 3 _ (Json.JObject [("nodes", Json.JArray (json_status <$> ns)); ("coordinator", Json.JString c)]));
    [|apply (Json.encodes_object 2); [done| |done]|done..].
  - cbn [fmap option_fmap option_map of_json map fst snd]. by rewrite list_fmap_compose.
  - constructor; [|constructor; [|constructor]]; (split_and!; [done|done|]); cbn [fst snd].
    + apply (Json.encodes_array 1); [done|]. clear Hc. induction Hns as [|n ns Hn Hns IH]; simpl; constructor; [|done].
      by apply encode_status_encodes.
    + apply (Json.encodes_mono 0); [done|]. by apply Json.reads_encodes, Json.reads_string.
Qed.

(** A count, as the script has it. *)
Definition count_val (z : Z) : val := Num (default S754_nan (numeral_value (pretty z))).

(** The entry of a node in the list. *)
Definition node_entry (c : string) (n : Debug.NodeStatus) : string :=
  node_html
    (if Debug.Healthy n then if decide (Debug.NodeID n = c) then "coordinator" else "healthy" else "unhealthy")
    (Debug.NodeID n) (if decide (Debug.NodeID n = c) then " 👑 Coordinator" else "")
    (if Debug.Healthy n
     then text (count_val (Debug.EntryCount n)) +:+ " entries · " +:+
          hit_rate (count_val (Debug.HitCount n)) (count_val (Debug.MissCount n))
     else unreachable_html)
    (if decide (Debug.Error n = "") then "" else " · " +:+ Debug.Error n).

Lemma status_fields n :
  let v := of_json (json_status n) in
  get v "node_id" = Some (Str (Debug.NodeID n)) ∧ get v "healthy" = Some (Bool (Debug.Healthy n)) ∧
  get v "hit_count" = Some (count_val (Debug.HitCount n)) ∧
  get v "miss_count" = Some (count_val (Debug.MissCount n)) ∧
  get v "entry_count" = Some (count_val (Debug.EntryCount n)) ∧
  get v "error" = Some (if decide (Debug.Error n = "") then Undefined else Str (Debug.Error n)).
Proof. unfold json_status. destruct (decide (Debug.Error n = "")); split_and!; reflexivity. Qed.

Lemma node_item_status c n : node_item (Str c) (of_json (json_status n)) = Some (node_entry c n).
Proof.
  destruct (status_fields n) as (H1 & H2 & H3 & H4 & H5 & H6). unfold node_item, node_entry.
  rewrite H1. bind. rewrite H2. bind. rewrite H3. bind. rewrite H4. bind. rewrite H5. bind. rewrite H6. bind.
  cbn [same truthy text]. f_equal. f_equal.
  - destruct (Debug.Healthy n); [|done]. simpl. by destruct (decide (Debug.NodeID n = c)) as [E|E];
      [rewrite bool_decide_true by done|rewrite bool_decide_false by done].
  - by destruct (decide (Debug.NodeID n = c)) as [E|E]; [rewrite bool_decide_true by done|rewrite bool_decide_false by done].
  - destruct (decide (Debug.Error n = "")); [done|]. simpl. by rewrite bool_decide_false.
Qed.

Lemma mapM_Some_fmap {A B C} (f : B → option C) (g : A → B) (h : A → C) (l : list A) :
  (∀ x, f (g x) = Some (h x)) → mapM f (g <$> l) = Some (h <$> l).
Proof.
  intros Hf. induction l as [|x l IH]; [done|].
  change (mapM f (g <$> x :: l)) with (y ← f (g x); ys ← mapM f (g <$> l); Some (y :: ys)).
  rewrite Hf. bind. by rewrite IH.
Qed.

Lemma filter_healthy (ns : list Debug.NodeStatus) :
  count_true (Debug.Healthy <$> ns) = Z.of_nat (length (filter (λ n, Debug.Healthy n = true) ns)).
Proof.
  unfold count_true. induction ns as [|n ns IH]; [done|]. rewrite fmap_cons, !filter_cons.
  destruct (decide (Debug.Healthy n = true)); simpl; lia.
Qed.

(** The reply of the API to a request for the status. *)
Definition status_reply (ns : list Debug.NodeStatus) (c : string) : reply :=
  mk_reply 200 None (Some (encode_cluster (ns, c) +:+ GoFmt.GoFmt.nl)).


Definition two_nodes : list Debug.NodeStatus :=
  [Debug.mk_NodeStatus "node-1" true true 3 1 3 0 ""; Debug.mk_NodeStatus "node-2" false false 0 0 0 0 "unreachable"].


(** ** Behind the proxy *)

(** A response as the browser gives it to the script. *)
Definition reply_of (r : Proxy.response) : reply :=
  mk_reply (Proxy.status r) (head (default [] (Proxy.header r !! "X-Cache")))
    (Some (String.string_of_list_byte (Proxy.body r))).

(** A call of the script as the proxy receives it: the browser makes the target of
    the request from the URL. *)
Definition request_of_call `{!Browser} (c : http_call) : Proxy.request :=
  Proxy.mk_request (call_method c) (resolve_url (call_url c))
    (if decide (call_method c = "GET") then ∅ else {[ "Content-Type" := ["application/json"] ]})
    (String.list_byte_of_string (call_body c)).

(** Identifiers that are plain path segments reach the API as they are. *)
Lemma plain_id_ok id : plain_segment id = true → id_ok id.
Proof.
  intros [Hne Hc]%andb_prop. split.
  - intros ->. discriminate Hne.
  - intros a Ha Hin. pose proof (all_chars_elem _ _ _ Hc Ha) as Hp.
    repeat (apply elem_of_cons in Hin as [->|Hin]; [discriminate Hp|]). by apply elem_of_nil in Hin.
Qed.

Lemma plain_product_uri id : plain_segment id = true → plain_path (product_uri id) = true.
Proof.
  intros Hid. destruct (plain_id_ok id Hid) as [_ Hc]. unfold plain_path.
  change (Split (product_uri id) "/") with ("" :: (Split ("products/" +:+ id) "/")).
  change (Split ("products/" +:+ id) "/") with ("products" :: Split id "/").
  rewrite Proxy.Split_none by (intros Ha; apply (Hc _ Ha); left). cbn [forallb]. by rewrite Hid.
Qed.

Lemma grid_show `{!Browser} id c p : id ≠ "product-grid" → grid_ids (show id c p) = grid_ids p.
Proof. intros Hne. unfold grid_ids, grid. cbn [shown show]. by rewrite lookup_insert_ne. Qed.

Definition valid_price (x : float64) : bool :=
  negb (match x with S754_nan => true | _ => SFltb x fzero end).

Lemma exec_loadProducts type_error p : ∃ w, exec (loadProducts type_error) p = (p, w).
Proof. eexists. reflexivity. Qed.

Lemma exec_debugKey type_error p : ∃ w, exec (debugKey type_error) p = (p, w).
Proof. unfold debugKey. cbn [exec]. destruct (decide _); eexists; reflexivity. Qed.

Lemma exec_updatePrice `{!Browser} type_error p id :
  ("price-" +:+ id) ∈ grid_ids p → valid_price (parseFloat (default "" (prices p !! id))) = true →
  ∃ call k, exec (updatePrice type_error id) p = (p, [Fetch call k]).
Proof.
  intros Hid Hprice. unfold updatePrice. cbn [exec]. rewrite decide_True by done.
  unfold valid_price in Hprice. set (price := parseFloat _) in *.
  destruct (match price with S754_nan => true | _ => SFltb price fzero end); [done|]. eauto.
Qed.

Lemma exec_fetchProduct type_error p :
  trim (input_value "fetch-id" p) ≠ "" → ∃ call k, exec (fetchProduct type_error) p = (p, [Fetch call k]).
Proof. intros Hid. unfold fetchProduct. cbn [exec]. rewrite decide_False by done. cbn [exec fetch_get]. eauto. Qed.

Section Proxied.
Context {D : Type} `{!Db.Postgres D, !DbSetup.PgServer D, !Api.JSON, !Browser, !BrowserSpec}.
Context (decode_update : bytes → Db.ProductUpdateRequest + string)
        (decode_create : bytes → Api.Product + string)
        (fetch : string → Debug.reply) (dashboardHTML : string)
        (type_error syntax_error network_error : string).

(** A saved price can be lost without a trace. While the proxy holds the page
    of a product, as it does for five minutes after the page was inspected, saving
    a new price in the dashboard sends a [PUT] that the proxy answers with the
    stored page: the API and its database stay as they are, and the dashboard
    reports the price as updated. *)
Theorem saved_price_is_lost (st : stack D) (x : exchange) (p : page) (w : list task)
    (id : string) (c : Proxy.CachedHTTPResponse) (v : val) (call : http_call) (k : reply + string → task)
    (Hid : plain_segment id = true) (Hedit : ("edit-" +:+ id) ∈ grid_ids p) (Hcard : ("price-" +:+ id) ∈ grid_ids p)
    (Hprice : valid_price (parseFloat (default "" (prices p !! id))) = true)
    (Hc : Proxy.store (front st) !! product_uri id = Some c) (Hlive : Proxy.IsExpired c (e_now x 0) = false)
    (Hstatus : Proxy.StatusCode c = 200%Z)
    (Hbody : parse (String.string_of_list_byte (Proxy.Body c)) = Some v)
    (Hcall : exec (updatePrice type_error id) p = (p, [Fetch call k])) (Hx : e_req x = request_of_call call) :
  call_method call = "PUT" ∧ call_url call = product_uri id ∧
  ∃ e, stack_step decode_update decode_create fetch dashboardHTML x st = Some (st, e) ∧
    ev_source e = Proxy.FromCache ∧
    ∃ b', acts type_error syntax_error network_error
            [Resume 0 (inl (reply_of (ev_resp e))); Resume (length w) (inr "")]
            (mk_browser p (Fetch call k :: w)) = Some b' ∧
      classes (the_page b') !! "toast" = Some "show success" ∧
      shown (the_page b') !! "toast" =
        Some (Text ("Price updated → $" +:+ toFixed 2 (parseFloat (default "" (prices p !! id))))).
Proof.
  unfold updatePrice in Hcall. cbn [exec] in Hcall. rewrite decide_True in Hcall by done.
  unfold valid_price in Hprice. set (price := parseFloat _) in *.
  destruct (match price with S754_nan => true | _ => SFltb price fzero end); [done|]. clear Hprice.
  unfold fetch_send in Hcall. cbn [exec] in Hcall. injection Hcall as <- <-.
  split; [done|]. split; [done|].
  exists (mk_event (back st) None Proxy.FromCache (Proxy.serveCached c)).
  split.
  { apply (stack_step_hit _ _ _ _ x st id c); [by apply plain_id_ok| |done..].
    rewrite Hx. by apply resolve_plain, plain_product_uri. }
  split; [done|].
  cbn [ev_resp acts act waiting the_page lookup list_lookup mbind option_bind resume exec delete list_delete].
  unfold json. cbn [exec mbind option_bind waiting the_page]. rewrite list_lookup_middle by done.
  cbn [mbind option_bind resume]. unfold read_body, reply_of. cbn [reply_body Proxy.body Proxy.serveCached].
  rewrite Hbody. unfold ok. cbn [reply_status Proxy.status Proxy.serveCached]. rewrite Hstatus.
  change ((200 <=? 200)%Z && (200 <? 300)%Z) with true. cbn match.
  unfold toast, toggleEdit. cbn [exec].
  change (grid_ids (set_class ?i ?c ?pg)) with (grid_ids pg). rewrite grid_show, decide_True by done. cbn [exec].
  match goal with |- context [exec (loadProducts type_error) ?pg] => destruct (exec_loadProducts type_error pg) as [w1 ->] end.
  match goal with |- context [exec (debugKey type_error) ?pg] => destruct (exec_debugKey type_error pg) as [w2 ->] end.
  eexists. split; [reflexivity|]. cbn [the_page shown classes set_input set_edits set_class show].
  by rewrite !lookup_insert_eq.
Qed.

(** A product page served from the store counts as what it was when it was stored:
    a page the API had to fetch from its database, which the proxy then serves
    from memory for five minutes, is a miss each time it is looked at. *)
Theorem stored_page_counts_as_miss (st : stack D) (x : exchange) (p : page)
    (id : string) (c : Proxy.CachedHTTPResponse) (v : val) (call : http_call) (k : reply + string → task)
    (Hid : plain_segment id = true) (Htrim : trim (input_value "fetch-id" p) = id)
    (Hc : Proxy.store (front st) !! product_uri id = Some c) (Hlive : Proxy.IsExpired c (e_now x 0) = false)
    (Hmiss : Proxy.Headers c !! "X-Cache" = Some ["MISS"])
    (Hbody : parse (String.string_of_list_byte (Proxy.Body c)) = Some v)
    (Hcall : exec (fetchProduct type_error) p = (p, [Fetch call k])) (Hx : e_req x = request_of_call call) :
  ∃ e, stack_step decode_update decode_create fetch dashboardHTML x st = Some (st, e) ∧
    ev_source e = Proxy.FromCache ∧
    ∃ b', acts type_error syntax_error network_error
            [Resume 0 (inl (reply_of (ev_resp e))); Resume 0 (inr "")] (mk_browser p [Fetch call k]) = Some b' ∧
      hits (the_page b') = hits p ∧ misses (the_page b') = (misses p + 1)%Z.
Proof.
  unfold fetchProduct in Hcall. cbn [exec] in Hcall. rewrite Htrim in Hcall.
  rewrite decide_False in Hcall by apply (plain_id_ok _ Hid). unfold fetch_get in Hcall. cbn [exec] in Hcall.
  injection Hcall as <- <-.
  exists (mk_event (back st) None Proxy.FromCache (Proxy.serveCached c)).
  split.
  { apply (stack_step_hit _ _ _ _ x st id c); [by apply plain_id_ok| |done..].
    rewrite Hx. by apply resolve_plain, plain_product_uri. }
  split; [done|].
  cbn [ev_resp acts act waiting the_page lookup list_lookup mbind option_bind resume exec delete list_delete app].
  unfold json. cbn [exec mbind option_bind waiting the_page app lookup list_lookup resume].
  unfold read_body. cbn [reply_body reply_of Proxy.body Proxy.serveCached]. rewrite Hbody.
  assert (cache_status_of (reply_of (Proxy.serveCached c)) = "MISS") as Hs.
  { unfold cache_status_of, reply_of. cbn [reply_x_cache Proxy.header Proxy.serveCached].
    rewrite lookup_insert_ne, Proxy.copyHeaders_empty, Hmiss by done. done. }
  cbn [exec]. rewrite Hs. eexists. split; [reflexivity|]. done.
Qed.
End Proxied.

(** A page that was inspected a second ago, in front of an API process. *)
Definition inspected : Proxy.CachedHTTPResponse :=
  Proxy.mk_cached 200 {[ "X-Cache" := ["MISS"] ]} (String.list_byte_of_string "{}") Second (301 * Second).
Definition behind : stack Db.MemPg :=
  mk_stack (Proxy.mk_Proxy {[ "/products/prod-001" := inspected ]} "http://api:8081")
    (ApiServer.mk_Server (Api.server Invalidation.WriteThrough) Ring.NewRing (Cluster.NewCoordinator Ring.NewRing ∅) ∅ 8081).
Definition headphones : string :=
  default "" (productCard (clusterState fresh_page)
    (Obj [("id", Str "prod-001"); ("name", Str "Wireless Headphones"); ("description", Str "");
          ("price_usd", Num (float_of_int 80)); ("category", Str "electronics")])).
Definition editing : page :=
  set_input "fetch-id" "prod-001" (set_price "prod-001" "19.5" (set_grid headphones fresh_page)).

Lemma editing_card : ("edit-" +:+ "prod-001") ∈ grid_ids editing ∧ ("price-" +:+ "prod-001") ∈ grid_ids editing.
Proof. split; apply (bool_decide_eq_true_1 (_ ∈ _)); vm_compute; reflexivity. Qed.

Lemma saved_price_is_lost_witness :
  ∃ x call k e b',
    exec (updatePrice "TypeError" "prod-001") editing = (editing, [Fetch call k]) ∧
    stack_step any_update any_create ApiServer.no_network "" x behind = Some (behind, e) ∧
    acts "TypeError" "SyntaxError" "NetworkError" [Resume 0 (inl (reply_of (ev_resp e))); Resume 0 (inr "")]
      (mk_browser editing [Fetch call k]) = Some b' ∧
    shown (the_page b') !! "toast" = Some (Text "Price updated → $19.50").
Proof.
  assert (valid_price (parseFloat (default "" (prices editing !! "prod-001"))) = true) as Hprice
    by (vm_compute; reflexivity).
  destruct (exec_updatePrice "TypeError" editing "prod-001") as (call & k & Hcall);
    [apply editing_card|exact Hprice|].
  set (x := mk_exchange (λ _, 2 * Second)%Z (λ _, 0%Z) Delivered [] (request_of_call call)).
  destruct (saved_price_is_lost any_update any_create ApiServer.no_network "" "TypeError" "SyntaxError" "NetworkError"
    behind x editing [] "prod-001" inspected (Obj []) call k)
    as (_ & _ & e & Hstep & _ & b' & Hrun & _ & Ht);
    [reflexivity|apply editing_card|apply editing_card|exact Hprice|reflexivity|vm_compute; reflexivity|reflexivity|
     vm_compute; reflexivity|exact Hcall|reflexivity|].
  exists x, call, k, e, b'. split; [exact Hcall|]. split; [exact Hstep|]. split; [exact Hrun|].
  rewrite Ht. vm_compute. reflexivity.
Defined.

Lemma stored_page_counts_as_miss_witness :
  ∃ x call k e b',
    stack_step any_update any_create ApiServer.no_network "" x behind = Some (behind, e) ∧
    ev_source e = Proxy.FromCache ∧
    acts "TypeError" "SyntaxError" "NetworkError" [Resume 0 (inl (reply_of (ev_resp e))); Resume 0 (inr "")]
      (mk_browser editing [Fetch call k]) = Some b' ∧
    misses (the_page b') = 1%Z.
Proof.
  assert (trim (input_value "fetch-id" editing) = "prod-001") as Htrim by (vm_compute; reflexivity).
  destruct (exec_fetchProduct "TypeError" editing) as (call & k & Hcall); [rewrite Htrim; discriminate|].
  set (x := mk_exchange (λ _, 2 * Second)%Z (λ _, 0%Z) Delivered [] (request_of_call call)).
  destruct (stored_page_counts_as_miss any_update any_create ApiServer.no_network "" "TypeError" "SyntaxError" "NetworkError"
    behind x editing "prod-001" inspected (Obj []) call k) as (e & Hstep & Hsrc & b' & Hrun & _ & Hm);
    [reflexivity|exact Htrim|reflexivity|vm_compute; reflexivity|reflexivity|vm_compute; reflexivity|exact Hcall|reflexivity|].
  exists x, call, k, e, b'. split; [exact Hstep|]. split; [exact Hsrc|]. split; [exact Hrun|exact Hm].
Defined.

(** ** Markup *)

Definition within (sub s : string) : Prop := ∃ before after, s = before +:+ sub +:+ after.

Lemma within_here sub rest : within sub (sub +:+ rest).
Proof. by exists "", rest. Qed.

Lemma within_skip sub x rest : within sub rest → within sub (x +:+ rest).
Proof. intros (b & a & ->). exists (x +:+ b), a. by rewrite Json.str_app_assoc. Qed.

(** Names, descriptions, categories and identifiers go into the page as they are:
    the card of a product contains the name verbatim, so a name with markup in it
    is markup of the page. *)
Theorem name_is_markup (cluster : val) (id name description category : string) (price : float64) (html : string)
    (Hcard : productCard cluster
      (Obj [("id", Str id); ("name", Str name); ("description", Str description); ("price_usd", Num price);
            ("category", Str category)]) = Some html) :
  within name html.
Proof.
  unfold productCard in Hcard.
  change (get (Obj ?l) ?n) with (Some (field n l)) in Hcard. cbn [mbind option_bind] in Hcard.
  destruct (ownerNode cluster) as [owner|]; [|done]. cbn [mbind option_bind] in Hcard.
  match type of Hcard with context [field "price_usd" ?l] =>
    change (field "price_usd" l) with (Num price) in Hcard; change (field "name" l) with (Str name) in Hcard end.
  cbn [mbind option_bind text] in Hcard. injection Hcard as <-. repeat first [apply within_here|apply within_skip].
Qed.

Lemma name_is_markup_witness :
  ∃ html, productCard (Obj []) (Obj [("id", Str "x"); ("name", Str "<img src=x onerror=alert(1)>");
      ("description", Str ""); ("price_usd", Num fzero); ("category", Str "")]) = Some html ∧
    within "<img src=x onerror=alert(1)>" html.
Proof.
  destruct (productCard (Obj []) (Obj [("id", Str "x"); ("name", Str "<img src=x onerror=alert(1)>");
      ("description", Str ""); ("price_usd", Num fzero); ("category", Str "")])) as [html|] eqn:E.
  - exists html. split; [reflexivity|].
    exact (name_is_markup (Obj []) "x" "<img src=x onerror=alert(1)>" "" "" fzero html E).
  - vm_compute in E. discriminate E.
Defined.

(** An API that is down looks like an empty catalogue. When the list is answered
    with the API's 503, the page says that there are no products, and that there
    are "undefined products total". *)
Theorem api_failure_shown_as_empty `{!Browser} (type_error syntax_error network_error : string) (o : reply + string) (p : page) :
  ∃ b', acts type_error syntax_error network_error
          [ClickRefresh; Resume 0 (inl (reply_of (writeError 503 "service temporarily unavailable"))); Resume 0 o]
          (mk_browser p []) = Some b' ∧
    shown (the_page b') !! "product-grid" = Some (Html (q "<div class=`loading`>No products found. Add one!</div>")) ∧
    shown (the_page b') !! "product-count" = Some (Text "undefined products total") ∧
    shown (the_page b') !! "stat-total" = Some (Text "0").
Proof.
  cbn [acts act handler]. unfold loadProducts, fetch_get, json.
  cbn [catch exec mbind option_bind waiting the_page app lookup list_lookup resume delete list_delete].
  assert (read_body syntax_error network_error (reply_of (writeError 503 "service temporarily unavailable")) =
    inl (Obj [("error", Str "service temporarily unavailable")])) as -> by (vm_compute; reflexivity).
  eexists. split; [reflexivity|]. cbn -[lookup insert]. by rewrite !lookup_insert.
Qed.
End DashboardTheorems.
