(* ===== verification/DashboardPage.v ===== *)
(** The document around the script of [src/internal/proxy/dashboard.go]: the
    elements of the page, the fields the user can type into and the functions its
    buttons call; and that the script only ever asks for elements that are there.
    The style sheet is left out. *)
From S2P Require Import Prelude GoStrings Js Web Dashboard DashboardTheorems.
From Stdlib Require Import Ascii.

Module DashboardPage.
Import Web Dashboard DashboardTheorems.

(** ** The document *)

(** Spaces that the browser collapses are left out. *)

(** The title. *)
Definition header : html :=
  E "header" [] [
    E "div" [("class", "dot")] [];
    E "div" [] [
      E "h1" [] [T "Distributed Cache Dashboard"];
      E "div" [("class", "subtitle")] [T "Product catalog · Cache cluster · Real-time metrics"]]].

(** The numbers at the top. *)
Definition stats_bar : html :=
  E "div" [("class", "stats-bar")] [
    E "div" [("class", "stat")] [
      E "div" [("class", "value"); ("id", "stat-total")] [T "—"];
      E "div" [("class", "label")] [T "Products"]];
    E "div" [("class", "stat")] [
      E "div" [("class", "value"); ("style", "color:var(--green)"); ("id", "stat-hits")] [T "—"];
      E "div" [("class", "label")] [T "Cache Hits"]];
    E "div" [("class", "stat")] [
      E "div" [("class", "value"); ("style", "color:var(--yellow)"); ("id", "stat-misses")] [T "—"];
      E "div" [("class", "label")] [T "Cache Misses"]];
    E "div" [("class", "stat")] [
      E "div" [("class", "value"); ("style", "color:var(--purple)"); ("id", "stat-nodes")] [T "—"];
      E "div" [("class", "label")] [T "Nodes Online"]]].

(** The tabs. *)
Definition tab_bar : html :=
  E "div" [("class", "tabs")] [
    E "div" [("class", "tab active"); ("onclick", "showTab('list')")] [T "Product List"];
    E "div" [("class", "tab"); ("onclick", "showTab('fetch')")] [T "Fetch by ID"];
    E "div" [("class", "tab"); ("onclick", "showTab('add')")] [T "Add Product"]].

(** The product list. *)
Definition tab_list : html :=
  E "div" [("id", "tab-list")] [
    E "div" [("style", "display:flex; justify-content:space-between; align-items:center; margin-bottom:12px;")] [
      E "span" [("id", "product-count"); ("style", "color:var(--muted); font-size:13px;")] [];
      E "button" [("class", "btn btn-secondary btn-sm"); ("onclick", "loadProducts()")] [T "↺ Refresh"]];
    E "div" [("id", "product-grid"); ("class", "product-grid")] [
      E "div" [("class", "loading")] [T "Loading products…"]]].

(** Fetching one product. *)
Definition tab_fetch : html :=
  E "div" [("id", "tab-fetch"); ("style", "display:none;")] [
    E "div" [("class", "card")] [
      E "div" [("class", "card-title")] [T "Fetch Product by ID"];
      E "div" [("style", "display:flex; gap:8px; align-items:center;")] [
        E "input" [("id", "fetch-id"); ("placeholder", "e.g. prod-001"); ("style", "max-width:200px;"); ("onkeydown", "if(event.key==='Enter') fetchProduct()")] [];
        E "button" [("class", "btn btn-primary"); ("onclick", "fetchProduct()")] [T "Fetch"]];
      E "div" [("id", "fetch-result")] []]].

(** Adding a product. *)
Definition tab_add : html :=
  E "div" [("id", "tab-add"); ("style", "display:none;")] [
    E "div" [("class", "card")] [
      E "div" [("class", "card-title")] [T "Add New Product"];
      E "div" [("class", "form-grid")] [
        E "div" [("class", "form-group")] [
          E "label" [] [T "Product ID *"];
          E "input" [("id", "new-id"); ("placeholder", "prod-011")] []];
        E "div" [("class", "form-group")] [
          E "label" [] [T "Name *"];
          E "input" [("id", "new-name"); ("placeholder", "Product name")] []];
        E "div" [("class", "form-group full")] [
          E "label" [] [T "Description"];
          E "input" [("id", "new-desc"); ("placeholder", "Short description")] []];
        E "div" [("class", "form-group")] [
          E "label" [] [T "Price (USD)"];
          E "input" [("id", "new-price"); ("type", "number"); ("step", "0.01"); ("placeholder", "29.99")] []];
        E "div" [("class", "form-group")] [
          E "label" [] [T "Category"];
          E "input" [("id", "new-cat"); ("placeholder", "electronics")] []]];
      E "div" [("style", "margin-top:12px; display:flex; gap:8px;")] [
        E "button" [("class", "btn btn-green"); ("onclick", "addProduct()")] [T "Add Product"];
        E "button" [("class", "btn btn-secondary"); ("onclick", "clearForm()")] [T "Clear"]];
      E "div" [("id", "add-result"); ("style", "margin-top:10px;")] []]].

(** The cluster, the cache debugger and the links. *)
Definition sidebar : html :=
  E "div" [("class", "sidebar")] [
    E "div" [("class", "card")] [
      E "div" [("class", "card-title"); ("style", "display:flex; justify-content:space-between; align-items:center;")] [
        T "Cluster Status";
        E "span" [("style", "font-size:11px; color:var(--muted); font-weight:400; text-transform:none; letter-spacing:0;")] [T "auto-refresh 2s"]];
      E "div" [("id", "cluster-nodes"); ("class", "node-list")] [
        E "div" [("class", "loading")] [T "Loading…"]]];
    E "div" [("class", "card")] [
      E "div" [("class", "card-title")] [T "Cache Debug"];
      E "div" [("style", "display:flex; gap:6px; margin-bottom:10px;")] [
        E "input" [("id", "debug-key"); ("placeholder", "product:prod-001"); ("style", "font-family:monospace; font-size:12px;")] [];
        E "button" [("class", "btn btn-secondary btn-sm"); ("onclick", "debugKey()")] [T "Debug"]];
      E "div" [("id", "debug-result"); ("class", "debug-box")] [T "Enter a cache key above to inspect routing…"]];
    E "div" [("class", "card")] [
      E "div" [("class", "card-title")] [T "Observability"];
      E "div" [("style", "display:flex; flex-direction:column; gap:8px;")] [
        E "a" [("href", "http://localhost:3000"); ("target", "_blank"); ("class", "btn btn-secondary"); ("style", "justify-content:center;")] [T "📊 Grafana Dashboards"];
        E "a" [("href", "http://localhost:9090"); ("target", "_blank"); ("class", "btn btn-secondary"); ("style", "justify-content:center;")] [T "📈 Prometheus"]]]].

Definition document : html :=
  E "body" [] [
    header;
    E "div" [("class", "layout")] [
      E "div" [("class", "main")] [stats_bar; tab_bar; tab_list; tab_fetch; tab_add];
      sidebar];
    E "div" [("id", "toast")] []].

(** ** What the script finds *)

Definition ids : list string := attributes "id" [document].
Definition fields : list string :=
  omap (λ e, if decide (e.1 = "input") then attribute "id" e.2 else None) (elements document).
Definition onclicks : list string := attributes "onclick" [document].

(** The elements [querySelectorAll('.tab')] finds. *)
Definition tab_elements : list (string * list (string * string)) :=
  filter (λ e, attribute "class" e.2 ∈ [Some "tab"; Some "tab active"]) (elements document).

(** The code of a handler, a call without an argument or with a string literal:
    the function and the argument. *)
Definition literal_char (a : ascii) : bool := bool_decide (a ∉ ["'"; Json.Json.backslash; byte_of 10; byte_of 13]%char).

Definition call_of (code : string) : option (string * option string) :=
  '(f, rest) ← cut code "(";
  if decide (rest = ")") then Some (f, None)
  else
    rest ← after_prefix "'" rest;
    '(arg, rest) ← cut rest "'";
    if decide (rest = ")" ∧ all_chars literal_char arg = true) then Some (f, Some arg) else None.

(** What a click on an element with this handler does, if the script has the
    function. *)
Definition action_of (onclick : string) : option action :=
  c ← call_of onclick;
  match c with
  | (f, None) =>
      if decide (f = "loadProducts") then Some ClickRefresh
      else if decide (f = "fetchProduct") then Some ClickFetch
      else if decide (f = "addProduct") then Some ClickAdd
      else if decide (f = "clearForm") then Some ClickClear
      else if decide (f = "debugKey") then Some ClickDebug
      else None
  | (f, Some arg) =>
      if decide (f = "showTab") then Some (ClickTab arg)
      else if decide (f = "inspectProduct") then Some (ClickInspect arg)
      else if decide (f = "toggleEdit") then Some (ClickEdit arg)
      else if decide (f = "updatePrice") then Some (ClickSave arg)
      else None
  end.

(** ** The script and the document fit *)

(** What the script has put on the page is in elements of the document, and so are
    the classes it has set; what the fields hold is in its fields, and one tab is
    active. *)
Record fits_document (p : page) : Prop := {
  fits_shown : dom (shown p) ⊆ list_to_set ids;
  fits_classes : dom (classes p) ⊆ list_to_set ids;
  fits_inputs : dom (inputs p) ⊆ list_to_set fields;
  fits_tabs : (tabs p).*1 = tab_names ∧ length (filter (λ t, t.2 = true) (tabs p)) = 1
}.

Lemma ids_eq : ids = ["stat-total"; "stat-hits"; "stat-misses"; "stat-nodes"; "tab-list"; "product-count";
  "product-grid"; "tab-fetch"; "fetch-id"; "fetch-result"; "tab-add"; "new-id"; "new-name"; "new-desc"; "new-price";
  "new-cat"; "add-result"; "cluster-nodes"; "debug-key"; "debug-result"; "toast"].
Proof. vm_compute. reflexivity. Qed.

Lemma fields_eq : fields = ["fetch-id"; "new-id"; "new-name"; "new-desc"; "new-price"; "new-cat"; "debug-key"].
Proof. vm_compute. reflexivity. Qed.

Lemma in_ids id : bool_decide (id ∈ ids) = true → id ∈ ids.
Proof. apply bool_decide_eq_true. Qed.

Lemma dom_insert_in {A} (m : gmap string A) (l : list string) i x :
  i ∈ l → dom m ⊆ (list_to_set l : gset string) → dom (<[i := x]> m) ⊆ (list_to_set l : gset string).
Proof.
  intros Hi Hm. rewrite dom_insert_L. apply union_subseteq. split; [|done].
  intros y ->%elem_of_singleton. by apply elem_of_list_to_set.
Qed.

Lemma fits_show id c p : id ∈ ids → fits_document p → fits_document (show id c p).
Proof. intros Hid [H1 H2 H3 H4]. constructor; [|done..]. by apply dom_insert_in. Qed.

Lemma document_kept : kept (λ id, id ∈ fields) (λ name, name ∈ tab_names) fits_document.
Proof.
  constructor.
  - constructor; [..|done]; cbn [fresh_page shown classes inputs]; rewrite dom_empty_L; apply empty_subseteq.
  - intros id c p Hid Hp. apply fits_show; [|done]. rewrite ids_eq.
    unfold script_elements in Hid. set_solver.
  - intros status p Hp. unfold count_status, updateHitStats.
    apply fits_show; [by apply in_ids|]. apply fits_show; [by apply in_ids|].
    destruct Hp. destruct (decide _); [done|]. by destruct (decide _).
  - intros html p [H1 H2 H3 H4]. constructor; [|done..]. apply dom_insert_in; [by apply in_ids|done].
  - intros id v p Hid [H1 H2 H3 H4]. constructor; [done..| |done]. by apply dom_insert_in.
  - intros v p [H1 H2 H3 H4]. by constructor.
  - intros name p Hname [H1 H2 H3 H4]. constructor; [done..|]. cbn [tabs set_tabs].
    unfold tab_names in Hname |- *.
    repeat (apply elem_of_cons in Hname as [->|Hname]; [done|]). by apply elem_of_nil in Hname.
  - intros e p [H1 H2 H3 H4]. by constructor.
  - intros id v p [H1 H2 H3 H4]. by constructor.
  - intros c p [H1 H2 H3 H4]. constructor; [done| |done..]. apply dom_insert_in; [by apply in_ids|done].
Qed.

(** C35: the script never misses an element of its document. The identifiers of
    the document are distinct, its buttons call functions the script has, its three
    tabs and their panels are there, and however the user clicks what the page
    offers and types into its fields, and in whatever order answers and timers come
    back, every element the script writes by a fixed identifier, the toast
    included, every field it fills and every element whose class it sets is one of
    the document, and exactly one tab is active. The elements inside the cards of
    the products are not part of the document. *)
Theorem script_finds_its_elements `{!Browser} (type_error syntax_error network_error : string) (l : list action) (b : browser)
    (Hoffered : Forall (offered (λ id, id ∈ fields) (λ name, name ∈ tab_names)) l)
    (Hrun : acts type_error syntax_error network_error l (load type_error) = Some b) :
  NoDup ids ∧ Forall (λ c, is_Some (action_of c)) onclicks ∧
  length tab_elements = length tab_names ∧ Forall (λ t, ("tab-" +:+ t) ∈ ids) tab_names ∧
  (∀ id, id ∈ script_fields → id ∈ fields) ∧
  fits_document (the_page b).
Proof.
  assert (∀ id, id ∈ script_fields → id ∈ fields) as HF.
  { intros id Hid. rewrite fields_eq. unfold script_fields, form_fields in Hid. set_solver. }
  split_and!.
  - rewrite ids_eq. apply (bool_decide_eq_true_1 (NoDup _)). reflexivity.
  - apply (bool_decide_eq_true_1 (Forall _ _)). vm_compute. reflexivity.
  - vm_compute. reflexivity.
  - rewrite ids_eq. apply (bool_decide_eq_true_1 (Forall _ _)). vm_compute. reflexivity.
  - exact HF.
  - apply (kept_always type_error (λ id, id ∈ fields) (λ name, name ∈ tab_names) fits_document document_kept HF
      ltac:(unfold tab_names; set_solver) syntax_error network_error l b Hoffered Hrun).
Qed.

(** *** Witnesses *)

#[local] Existing Instance simple_browser.

Definition tab_session : list action := [ClickTab "add"; TypeInput "new-id" "prod-011"; ClickAdd; ClickTab "list"].

Lemma script_finds_its_elements_witness :
  ∃ b, acts "TypeError" "SyntaxError" "NetworkError" tab_session (load "TypeError") = Some b ∧
    fits_document (the_page b).
Proof.
  assert ((λ _, tt) <$> acts "TypeError" "SyntaxError" "NetworkError" tab_session (load "TypeError") = Some tt) as H
    by (vm_compute; reflexivity).
  destruct (acts "TypeError" "SyntaxError" "NetworkError" tab_session (load "TypeError")) as [b|] eqn:Hrun;
    [|discriminate H].
  exists b. split; [reflexivity|].
  apply (script_finds_its_elements "TypeError" "SyntaxError" "NetworkError" tab_session b); [|exact Hrun].
  repeat constructor; cbn [offered]; apply (bool_decide_eq_true_1 (_ ∈ _)); vm_compute; reflexivity.
Defined.
End DashboardPage.
