(* ===== verification/Cards.v ===== *)
(** The cards of the dashboard as elements: the markup of [productCard] of
    [src/internal/proxy/dashboard.go] is the print of a tree, plain when the texts
    of the product are, and what the page finds in the tree the browser makes of
    it. *)
From S2P Require Import Prelude GoStrings Json GoNumbers Flags Decimal Js Web Dashboard DashboardPage.
From Stdlib Require Import SpecFloat Ascii.

Module Cards.
Import Js Web Dashboard DashboardPage.

(** ** The characters of numbers *)

Definition number_char (a : ascii) : bool := path_char a || bool_decide (a = "+"%char).
Local Abbreviation numeric := (all_chars number_char).

Lemma number_is_plain s : numeric s = true → all_chars text_char s = true ∧ all_chars value_char s = true.
Proof.
  intros Hs. split; (eapply all_chars_impl; [|exact Hs]);
    intros [[] [] [] [] [] [] [] []] Ha; first [vm_compute; reflexivity|vm_compute in Ha; discriminate Ha].
Qed.

Lemma numeric_digits s : Json.all_digits s = true → numeric s = true.
Proof.
  induction s as [|a s IH]; [done|]. cbn [Json.all_digits all_chars]. intros [Ha Hs]%andb_prop. rewrite (IH Hs).
  destruct a as [[] [] [] [] [] [] [] []]; first [reflexivity|vm_compute in Ha; discriminate Ha].
Qed.

Lemma numeric_pretty (z : Z) : numeric (pretty z) = true.
Proof.
  destruct z as [|p|p]; [done| |].
  - apply numeric_digits, (pretty_abs (Z.pos p)).
  - change (pretty (Z.neg p)) with (String "-" (pretty p)). cbn [all_chars].
    by rewrite (numeric_digits (pretty p)) by apply (pretty_abs (Z.pos p)).
Qed.

Lemma numeric_replicate n : numeric (String.string_of_list_ascii (replicate n "0"%char)) = true.
Proof. induction n as [|n IH]; [done|]. cbn. exact IH. Qed.

Lemma numeric_slice s n : numeric s = true → numeric (slice_to s n) = true ∧ numeric (Json.drop_bytes n s) = true.
Proof.
  revert n. induction s as [|a s IH]; intros [|n] Hs; try done. cbn [all_chars] in Hs.
  apply andb_prop in Hs as [Ha Hs]. destruct (IH n Hs) as [H1 H2]. split; [|exact H2].
  cbn [slice_to all_chars]. by rewrite Ha, H1.
Qed.

Lemma numeric_layout s n : numeric s = true → numeric (place_point s n) = true.
Proof.
  intros Hs. unfold place_point, numeral_text, layout, zeros.
  destruct (_ && _); [|destruct (_ && _); [|destruct (_ && _)]];
    destruct (decide _); rewrite ?all_chars_app; cbn [all_chars];
    rewrite ?all_chars_app, ?numeric_replicate, ?Hs, ?(proj1 (numeric_slice _ _ Hs)), ?(proj2 (numeric_slice _ _ Hs)),
      ?numeric_pretty; try done; by destruct (_ <? _)%Z.
Qed.

Lemma numeric_number_text x : numeric (number_text x) = true.
Proof.
  destruct x as [s|[]| |s m e]; try done. unfold number_text. destruct (fraction m e) as [num den].
  destruct (shortest _ _ _ _ _ _) as [[d n]|]; [|done].
  rewrite all_chars_app, (numeric_layout (pretty d) n (numeric_pretty d)). by destruct s.
Qed.

Lemma numeric_fixed prec n : numeric (fixed_text prec n) = true.
Proof.
  unfold fixed_text, pad_zeros. rewrite all_chars_app, numeric_pretty. destruct prec as [|prec]; [done|].
  by rewrite all_chars_app, all_chars_app, numeric_replicate, numeric_pretty.
Qed.

Lemma numeric_toFixed prec x : numeric (toFixed prec x) = true.
Proof.
  destruct x as [s|[]| |s m e]; try done; [apply numeric_fixed|]. unfold toFixed.
  destruct (fraction m e) as [num den]. destruct (_ <=? _)%Z; [apply numeric_number_text|].
  rewrite all_chars_app, numeric_fixed. by destruct s.
Qed.

(** ** The card *)

Definition gap (n : nat) : html := T (nl +:+ String.string_of_list_ascii (replicate n " "%char)).

Definition button (class onclick label : string) : html := E "button" [("class", class); ("onclick", onclick)] [T label].

(** The element of a product. *)
Definition card (id category owner name description fixed price : string) : html :=
  E "div" [("class", "product-card"); ("id", "card-" +:+ id)] [
    gap 4;
    E "div" [("class", "meta")] [
      gap 6; E "span" [("class", "category")] [T category];
      gap 6; E "span" [("class", "badge badge-node")] [T owner]; gap 4];
    gap 4; E "div" [("class", "name")] [T name];
    gap 4; E "div" [("class", "desc")] [T description];
    gap 4; E "div" [("class", "price")] [T ("$" +:+ fixed)];
    gap 4;
    E "div" [("class", "actions")] [
      gap 6; button "btn btn-secondary btn-sm" ("inspectProduct('" +:+ id +:+ "')") "🔍 Inspect";
      gap 6; button "btn btn-secondary btn-sm" ("toggleEdit('" +:+ id +:+ "')") "✏️ Edit Price"; gap 4];
    gap 4;
    E "div" [("class", "inline-edit"); ("id", "edit-" +:+ id)] [
      gap 6; E "input" [("type", "number"); ("step", "0.01"); ("id", "price-" +:+ id); ("placeholder", price);
                        ("style", "width:90px;")] [];
      gap 6; button "btn btn-green btn-sm" ("updatePrice('" +:+ id +:+ "')") "Save";
      gap 6; button "btn btn-secondary btn-sm" ("toggleEdit('" +:+ id +:+ "')") "✕"; gap 4];
    gap 2].

(** The markup of a product is the print of its card between two breaks. *)
Lemma productCard_print cluster v owner id category name description price :
  ownerNode cluster = Some owner → get v "id" = Some (Str id) → get v "category" = Some (Str category) →
  get v "name" = Some (Str name) → get v "description" = Some (Str description) → get v "price_usd" = Some (Num price) →
  productCard cluster v =
    Some (print_all [gap 2; card id category owner name (text (or_else (Str description) (Str "—"))) (toFixed 2 price)
                       (number_text price); gap 2]).
Proof.
  intros Ho H1 H2 H3 H4 H5. unfold productCard. rewrite H1, H2, Ho, H3, H4, H5. bind. f_equal.
  set (desc := text (or_else _ _)). set (fixed := toFixed 2 price). cbn [text]. set (num := number_text price).
  clearbody desc fixed num. unfold print_all, card, gap, button.
  cbn [map print String.concat]. unfold attr_text. cbn [fst snd map String.concat].
  change (void "div") with false. change (void "span") with false. change (void "button") with false.
  change (void "input") with true. cbn match.
  repeat (rewrite ?Json.str_app_assoc, ?(Json.str_app_cons Json.quote)). reflexivity.
Qed.

(** ** Plain cards *)

(** An identifier that stands for itself in a quoted attribute and in a string
    literal of a handler. *)
Definition id_text (id : string) : bool := all_chars value_char id && all_chars literal_char id.

Lemma plain_text tag class s : tag ∈ ["div"; "span"] → all_chars value_char class = true → all_chars text_char s = true →
  plain (E tag [("class", class)] [T s]) = true.
Proof.
  intros Ht Hc Hs. cbn [plain forallb]. rewrite Hs. unfold attrs_ok. cbn [forallb fst snd]. rewrite Hc.
  repeat (apply elem_of_cons in Ht as [->|Ht]; [reflexivity|]). by apply elem_of_nil in Ht.
Qed.

Lemma plain_button class f id label : all_chars value_char class = true → all_chars value_char f = true →
  id_text id = true → all_chars text_char label = true → plain (button class (f +:+ id +:+ "')") label) = true.
Proof.
  intros Hc Hf [Hid _]%andb_prop Hl. unfold button. cbn [plain forallb]. rewrite Hl. unfold attrs_ok. cbn [forallb fst snd].
  by rewrite Hc, !all_chars_app, Hf, Hid.
Qed.

Lemma plain_div attrs kids : attrs_ok attrs = true → Forall (λ h, plain h = true) kids → plain (E "div" attrs kids) = true.
Proof.
  intros Ha Hk. assert (forallb plain kids = true) as Hk'.
  { apply forallb_forall. intros h Hin%list_elem_of_In. by eapply Forall_forall in Hk. }
  cbn [plain]. by rewrite Ha, Hk'.
Qed.

Lemma plain_gap n : plain (gap n) = true.
Proof. unfold gap. cbn [plain]. rewrite all_chars_app. induction n as [|n IH]; [done|exact IH]. Qed.

(** A call with a string literal. *)
Lemma call_of_literal f id : Forall (λ a, a ≠ "("%char) (String.list_ascii_of_string f) → id_text id = true →
  call_of (f +:+ "('" +:+ id +:+ "')") = Some (f, Some id).
Proof.
  intros Hf [_ Hid]%andb_prop. unfold call_of.
  change ("('" +:+ ?x) with (String "(" (String "'" x)). rewrite Flags.Flags.cut_after by done. bind.
  rewrite decide_False by done. change (after_prefix "'" (String "'" ?x)) with (Some x). bind.
  change ("')") with (String "'" ")"). rewrite Flags.Flags.cut_after; [bind|].
  - by rewrite decide_True.
  - apply Forall_forall. intros a Ha ->. by pose proof (all_chars_elem _ _ _ Hid Ha).
Qed.

Section Card.
Context (id category owner name description fixed price : string).
Hypothesis Hid : id_text id = true.
Hypothesis Htexts : forallb (all_chars text_char) [category; owner; name; description; fixed] = true.
Hypothesis Hprice : all_chars value_char price = true.
Local Abbreviation the_card := (card id category owner name description fixed price).

Lemma card_plain : plain the_card = true.
Proof.
  pose proof Hid as [Hv _]%andb_prop. cbn [forallb] in Htexts.
  apply andb_prop in Htexts as [Hc [Ho [Hn [Hd [Hf _]%andb_prop]%andb_prop]%andb_prop]%andb_prop].
  assert (attrs_ok [("class", "product-card"); ("id", "card-" +:+ id)] = true ∧
          attrs_ok [("class", "inline-edit"); ("id", "edit-" +:+ id)] = true ∧
          attrs_ok [("type", "number"); ("step", "0.01"); ("id", "price-" +:+ id); ("placeholder", price);
                    ("style", "width:90px;")] = true) as (A1 & A2 & A3).
  { unfold attrs_ok. cbn [forallb fst snd]. by rewrite !all_chars_app, Hv, Hprice. }
  assert (∀ class, all_chars value_char class = true → attrs_ok [("class", class)] = true) as A4.
  { intros class Hcl. unfold attrs_ok. cbn [forallb fst snd]. by rewrite Hcl. }
  unfold card. repeat match goal with
  | |- plain (gap _) = true => apply plain_gap
  | |- plain (button _ _ _) = true => apply plain_button; [reflexivity|reflexivity|exact Hid|reflexivity]
  | |- plain (E "input" _ []) = true => unfold plain; rewrite A3; reflexivity
  | |- plain (E _ _ [T _]) = true => apply plain_text; [set_solver|reflexivity|by rewrite ?all_chars_app]
  | |- plain (E "div" _ _) = true => apply plain_div; [first [exact A1|exact A2|by apply A4]|]
  | |- Forall _ (_ :: _) => apply Forall_cons; split
  | |- Forall _ [] => constructor
  end.
Qed.

Lemma card_ids : attributes "id" [tidied the_card] = ["card-" +:+ id; "edit-" +:+ id; "price-" +:+ id].
Proof. unfold attributes. cbn [map]. rewrite elements_tidied. reflexivity. Qed.

Lemma card_buttons : action_of <$> attributes "onclick" [tidied the_card] =
  [Some (ClickInspect id); Some (ClickEdit id); Some (ClickSave id); Some (ClickEdit id)].
Proof.
  unfold attributes. cbn [map]. rewrite elements_tidied.
  change (omap _ _) with [("inspectProduct" +:+ "('" +:+ id +:+ "')"); ("toggleEdit" +:+ "('" +:+ id +:+ "')");
    ("updatePrice" +:+ "('" +:+ id +:+ "')"); ("toggleEdit" +:+ "('" +:+ id +:+ "')")].
  cbn [fmap list_fmap]. unfold action_of.
  rewrite !call_of_literal by (exact Hid || (repeat constructor; discriminate)). reflexivity.
Qed.

(** The text of the one element with a class. *)
Lemma card_texts :
  let texts class := text_content <$> with_class class (tidied the_card) in
  texts "name" = [name] ∧ texts "desc" = [description] ∧ texts "price" = ["$" +:+ fixed] ∧
  texts "category" = [category] ∧ texts "badge badge-node" = [owner].
Proof.
  cbv beta zeta.
  assert (∀ class, text_content <$> with_class class (tidied the_card) = text_content <$> with_class class the_card) as H.
  { intros class. rewrite class_tidied. change (map tidied ?l) with (tidied <$> l). rewrite <-list_fmap_compose.
    apply list_fmap_ext. intros i h _. apply content_tidied. }
  rewrite !H. split_and!; reflexivity.
Qed.
End Card.
End Cards.
