(* ===== verification/Catalogue.v ===== *)
(** Products from the database to the dashboard and back: the list the API
    writes, as the script of the dashboard reads and shows it, and the price the
    script sends, as the API reads and stores it. *)
From S2P Require Import Prelude GoStrings Json GoNumbers Rounding Decimal GoTime Ring Cluster Debug Invalidation Db DbSetup Api ApiServer Proxy ApiHttp Stack Js Web Dashboard DashboardTheorems DashboardPage Cards ProductJson.
From Stdlib Require Import SpecFloat Ascii.

Module Catalogue.
Import ApiHttp Stack Js Web Dashboard DashboardTheorems DashboardPage Cards ProductJson.
#[local] Existing Instance encoding_json.

(** ** The list *)

(** A product as the script has it. *)
Definition product_val (p : Api.Product) : val :=
  Obj [("id", Str (Api.ID p)); ("name", Str (Api.Name p)); ("description", Str (Api.Description p));
       ("price_usd", Num (float_of_bits (Api.PriceUSD p))); ("category", Str (Api.Category p));
       ("created_at", Str (default "" (GoTime.format (Api.CreatedAt p))));
       ("updated_at", Str (default "" (GoTime.format (Api.UpdatedAt p))))].

(** A product the API can write. *)
Definition listable (p : Api.Product) : Prop := Api.valid_text p ∧ encodable p.

Lemma Marshal_text_eq p : Marshal_text p = marshal p.
Proof.
  unfold Marshal_text. cbn [Api.Marshal encoding_json]. destruct (marshal p) as [t|]; [|done].
  cbn [fmap option_fmap option_map]. by rewrite String.string_of_list_byte_of_string.
Qed.

Lemma listable_encodes p : listable p →
  ∃ t v, Marshal_text p = Some t ∧ Json.encodes 1 t v ∧ Js.of_json v = product_val p.
Proof.
  intros [Hv He]. destruct (marshal_total p He) as [t Ht]. rewrite Marshal_text_eq.
  destruct (marshal_encodes p t Hv Ht) as (price & created & updated & Hp & Hc & Hu & Henc).
  exists t. eexists. split; [done|]. split; [exact Henc|].
  destruct (price_text_spec _ _ Hp) as (_ & Hn & _).
  cbn [Js.of_json map fst snd]. rewrite Hn. unfold product_val. rewrite Hc, Hu. done.
Qed.

Lemma listable_all ps : Forall listable ps →
  ∃ ts vs, mapM Marshal_text ps = Some ts ∧ Forall2 (Json.encodes 1) ts vs ∧ Js.of_json <$> vs = product_val <$> ps.
Proof.
  induction 1 as [|p ps Hp _ (ts & vs & Hm & Hf & Ho)]; [by exists [], []|].
  destruct (listable_encodes p Hp) as (t & v & Ht & Hv & E).
  exists (t :: ts), (v :: vs).
  change (mapM Marshal_text (p :: ps)) with (y ← Marshal_text p; ys ← mapM Marshal_text ps; Some (y :: ys)).
  rewrite Ht, Hm. split; [done|]. split; [by constructor|]. by rewrite !fmap_cons, E, Ho.
Qed.

(** What the script reads of the API's list. *)
Lemma parse_list ps page size total : Forall listable ps →
  parse (String.string_of_list_byte (Proxy.body (write_products (Api.mk_http 200 None (Api.BList ps page size total))))) =
  Some (Obj [("products", Arr (product_val <$> ps)); ("page", count_val page); ("page_size", count_val size);
             ("total_count", count_val total)]).
Proof.
  intros Hps. destruct (listable_all ps Hps) as (ts & vs & Hm & Hf & Ho).
  cbn [write_products Api.x_cache Api.code Api.payload json_of Proxy.body writeJSON]. rewrite Hm.
  cbn [mbind option_bind Encode from_option]. unfold Proxy.text_body.
  rewrite String.string_of_list_byte_of_string. unfold parse.
  rewrite (Json.encodes_whole 3 _ (Json.JObject
    [("products", Json.JArray vs); ("page", Json.JNumber (pretty page)); ("page_size", Json.JNumber (pretty size));
     ("total_count", Json.JNumber (pretty total))]));
    [|apply (Json.encodes_object 2); [done| |done]|done..].
  - cbn [fmap option_fmap option_map Js.of_json map fst snd]. change (map Js.of_json vs) with (Js.of_json <$> vs).
    by rewrite Ho.
  - constructor; [split_and!; [done|done|by apply (Json.encodes_array 1)]|].
    repeat (constructor; [split_and!; [done|done|
      apply (Json.encodes_mono 0); [done|]; apply Json.reads_encodes, Json.reads_int]|]).
    constructor.
Qed.

(** A product whose texts stand for themselves in markup, and its identifier in
    the code of a button as well. *)
Definition showable (p : Api.Product) : Prop :=
  id_text (Api.ID p) = true ∧ forallb (all_chars text_char) [Api.Category p; Api.Name p; Api.Description p] = true.

Definition card_of (owner : string) (p : Api.Product) : html :=
  card (Api.ID p) (Api.Category p) owner (Api.Name p) (text (or_else (Str (Api.Description p)) (Str "—")))
    (toFixed 2 (float_of_bits (Api.PriceUSD p))) (number_text (float_of_bits (Api.PriceUSD p))).

(** The markup of the cards. *)
Definition nodes_of (owner : string) (ps : list Api.Product) : list html :=
  concat ((λ p, [gap 2; card_of owner p; gap 2]) <$> ps).

Lemma cards_of_products cluster owner ps : ownerNode cluster = Some owner →
  ∃ cards, mapM (productCard cluster) (product_val <$> ps) = Some cards ∧
    String.concat "" cards = print_all (nodes_of owner ps).
Proof.
  intros Ho. exists ((λ p, print_all [gap 2; card_of owner p; gap 2]) <$> ps). split.
  - apply mapM_Some_fmap. intros p. by apply productCard_print.
  - induction ps as [|p ps IH]; [done|]. unfold nodes_of in *. rewrite !fmap_cons, texts_cons, IH.
    cbn [concat]. unfold print_all at 3. by rewrite map_app, texts_app.
Qed.

Lemma nodes_plain owner ps : Forall showable ps → all_chars text_char owner = true →
  forallb plain (nodes_of owner ps) = true.
Proof.
  intros Hps Ho. induction Hps as [|p ps [Hid Ht] _ IH]; [done|]. unfold nodes_of in *.
  rewrite fmap_cons. cbn [concat]. rewrite forallb_app, IH, andb_true_r. cbn [forallb]. rewrite !plain_gap.
  unfold card_of. rewrite card_plain; [done|done| |apply number_is_plain, numeric_number_text].
  cbn [forallb] in *. apply andb_prop in Ht as [Hc [Hn [Hd _]%andb_prop]%andb_prop].
  rewrite Hc, Ho, Hn, (proj1 (number_is_plain _ (numeric_toFixed 2 _))).
  unfold or_else. destruct (truthy _); [by cbn [text]; rewrite Hd|reflexivity].
Qed.

Lemma nodes_elements owner ps : top_elements (nodes_of owner ps) = card_of owner <$> ps.
Proof.
  induction ps as [|p ps IH]; [done|]. unfold nodes_of, top_elements in *. rewrite !fmap_cons. cbn [concat].
  rewrite filter_app, IH. done.
Qed.

(** The identifiers of the elements of a product. *)
Definition card_id_names (p : Api.Product) : list string :=
  ["card-" +:+ Api.ID p; "edit-" +:+ Api.ID p; "price-" +:+ Api.ID p].

Lemma nodes_ids owner ps : attributes "id" (tidy_all (nodes_of owner ps)) = concat (card_id_names <$> ps).
Proof.
  unfold attributes. rewrite query_tidy_all by done.
  rewrite (map_eq_Forall (elements ∘ tidied) elements) by (apply Forall_forall; intros h _; apply elements_tidied).
  induction ps as [|p ps IH]; [done|]. unfold nodes_of in *. rewrite !fmap_cons. cbn [concat].
  rewrite map_app, concat_app, omap_app, IH. done.
Qed.

(** The element of a product: its parts carry the product's identifier, its
    buttons inspect the product, edit and save its price, and its texts are the
    name, the description or a dash, the price to the cent and the category. *)
Definition card_shows (p : Api.Product) (h : html) : Prop :=
  attributes "id" [h] = card_id_names p ∧
  action_of <$> attributes "onclick" [h] =
    [Some (ClickInspect (Api.ID p)); Some (ClickEdit (Api.ID p)); Some (ClickSave (Api.ID p)); Some (ClickEdit (Api.ID p))] ∧
  text_content <$> with_class "name" h = [Api.Name p] ∧
  text_content <$> with_class "desc" h = [if decide (Api.Description p = "") then "—" else Api.Description p] ∧
  text_content <$> with_class "price" h = ["$" +:+ toFixed 2 (float_of_bits (Api.PriceUSD p))] ∧
  text_content <$> with_class "category" h = [Api.Category p].

Lemma card_of_shows owner p : showable p → card_shows p (tidied (card_of owner p)).
Proof.
  intros [Hid _]. unfold card_of, card_shows. split; [apply card_ids|]. split; [by apply card_buttons|].
  match goal with |- context [card ?i ?c ?o ?n ?d ?f ?q] => destruct (card_texts i c o n d f q) as (H1 & H2 & H3 & H4 & _) end.
  split; [exact H1|]. split; [|by split]. rewrite H2. unfold or_else. cbn [truthy].
  by destruct (decide (Api.Description p = "")) as [->|Hne]; [|rewrite bool_decide_false].
Qed.

(** The reply of the API to a request for the list. *)
Definition list_reply (ps : list Api.Product) (page size total : Z) : reply :=
  reply_of (write_products (Api.mk_http 200 None (Api.BList ps page size total))).

(** C23: the dashboard lists the products as the API has them. Let a refresh be
    answered with a page of at least one product that the API wrote, whatever else
    is going on in the browser, as long as the script holds some cluster state; and
    let the names, descriptions and categories, and the coordinator of the cluster
    state, be free of markup, and the identifiers of what ends a quoted attribute
    or a string literal. Then the browser has one element per product in the grid,
    in the order of the page: its texts are the product's name, description,
    category and price rounded to cents, its parts carry the product's identifier,
    so that the script finds its edit row and its price field, and its buttons
    inspect the product, open its edit row and save its price; nothing is typed
    into the price fields yet; and the number of products is the total the API
    reported. The prices the script shows are the numbers the database holds, bit
    for bit. *)
Theorem dashboard_lists_products `{!Browser, !BrowserSpec} (type_error syntax_error network_error : string) (b : browser)
    (ps : list Api.Product) (page size total : Z) (owner : string) (o : reply + string)
    (Hps : Forall listable ps) (Hplain : Forall showable ps) (Hne : ps ≠ [])
    (Hown : ownerNode (clusterState (the_page b)) = Some owner) (Howner : all_chars text_char owner = true) :
  let k := length (waiting b) in
  ∃ b', acts type_error syntax_error network_error
          [ClickRefresh; Resume k (inl (list_reply ps page size total)); Resume k o] b = Some b' ∧
    waiting b' = waiting b ∧
    Forall2 card_shows ps (top_elements (grid (the_page b'))) ∧
    grid_ids (the_page b') = concat (card_id_names <$> ps) ∧
    prices (the_page b') = ∅ ∧
    shown (the_page b') !! "product-count" = Some (Text (text (count_val total) +:+ " products total")).
Proof.
  destruct b as [p w]. cbn [waiting the_page] in *. set (k := length w).
  assert (∀ t : task, (w ++ [t]) !! k = Some t) as Hlast by (intros t; by rewrite list_lookup_middle).
  assert (∀ t : task, delete k (w ++ [t]) = w) as Hdel
    by (intros t; unfold k; rewrite delete_middle; by rewrite app_nil_r).
  cbn [acts act handler the_page waiting]. unfold loadProducts, fetch_get, json.
  cbn [catch exec mbind option_bind waiting the_page]. rewrite Hlast. cbn [mbind option_bind resume catch exec].
  rewrite Hdel. cbn [waiting the_page]. rewrite Hlast. cbn [mbind option_bind resume catch].
  unfold read_body, list_reply, reply_of. cbn [reply_body]. rewrite (parse_list ps page size total Hps).
  destruct (cards_of_products _ owner ps Hown) as (cards & Hm & Hcat).
  assert (parse_html (print_all (nodes_of owner ps)) = tidy_all (nodes_of owner ps)) as Hparse
    by (by apply parse_plain, nodes_plain).
  assert (Forall2 card_shows ps (top_elements (tidy_all (nodes_of owner ps)))) as Hshows.
  { rewrite top_tidy, nodes_elements. clear -Hplain.
    induction Hplain as [|p0 ps Hp _ IH]; constructor; [by apply card_of_shows|exact IH]. }
  pose proof (nodes_ids owner ps) as Hids. destruct ps as [|p0 ps]; [done|].
  match goal with |- context [prop type_error ?d "total_count" ?f] =>
    change (prop type_error d "total_count" f) with (f (count_val total)) end.
  cbn [catch exec].
  match goal with |- context [prop type_error ?d "products" ?f] =>
    change (prop type_error d "products" f) with (f (Arr (product_val <$> p0 :: ps))) end.
  cbn beta iota. rewrite fmap_cons in *. cbn [catch exec clusterState show]. rewrite Hm.
  cbn [catch exec]. eexists. split; [reflexivity|]. rewrite Hdel, app_nil_r. split; [done|].
  unfold grid_ids, grid. cbn [the_page shown show set_grid prices].
  rewrite lookup_insert_eq, Hcat, Hparse. split; [done|]. split; [exact Hids|]. split; [done|].
  rewrite lookup_insert_ne, lookup_insert_eq by done. done.
Qed.

(** ** What the script sends *)

(** A number as the script sends it: zero has no sign. *)
Definition sent (x : float64) : float64 := match x with S754_zero _ => fzero | _ => x end.

Lemma number_sent x : in_format x → Js.finite x = true →
  Json.reads (stringify 0 0 (Num x)) (Json.JNumber (stringify 0 0 (Num x))) ∧
  number_bits (stringify 0 0 (Num x)) = Some (bits_of_float (sent x)).
Proof.
  intros Hf Hfin. cbn [stringify]. rewrite Hfin. destruct x as [s|s| |s m e]; try done.
  - split; [apply (Json.reads_int 0)|reflexivity].
  - destruct (number_text_exact s m e Hf) as [Hr Hv]. split; [done|]. unfold number_bits. by rewrite Hv.
Qed.

Lemma parseFloat_format s : valid_price (parseFloat s) = true → in_format (parseFloat s).
Proof.
  unfold parseFloat. destruct (numeral_value _) as [x|] eqn:E; [|done]. intros _. by eapply numeral_value_in_format.
Qed.

(** The body of a save. *)
Lemma update_body_read decode_error x : in_format x → Js.finite x = true →
  decode_update decode_error (String.list_byte_of_string (stringify 0 0 (Obj [("price_usd", Num x)]))) =
  inl (Db.mk_Update None None (Some (bits_of_float (sent x))) None).
Proof.
  intros Hf Hfin. destruct (number_sent x Hf Hfin) as [Hr Hb]. unfold decode_update.
  rewrite String.string_of_list_byte_of_string.
  assert (stringify 0 0 (Obj [("price_usd", Num x)]) = Json.encode_object [("price_usd", stringify 0 0 (Num x))]) as ->
    by reflexivity.
  rewrite <-(Json.str_app_nil (Json.encode_object _)).
  rewrite (Json.first_value_object _ [("price_usd", Json.JNumber (stringify 0 0 (Num x)))]); [|by repeat constructor|done..].
  cbn [Json.to_struct foldl fst snd mbind option_bind]. unfold set_update.
  change (Json.same_name "price_usd" "name") with false. change (Json.same_name "price_usd" "description") with false.
  change (Json.same_name "price_usd" "price_usd") with true. cbn match. cbn [to_pointer get_float64]. rewrite Hb. done.
Qed.

(** The body of a creation. *)
Definition create_val (id name description category : string) (price : float64) : val :=
  Obj [("id", Str id); ("name", Str name); ("description", Str description); ("price_usd", Num price);
       ("category", Str category)].

Lemma create_body_read decode_error id name description category x :
  ValidString id = true → ValidString name = true → ValidString description = true → ValidString category = true →
  in_format x → Js.finite x = true →
  decode_create decode_error (String.list_byte_of_string (stringify 0 0 (create_val id name description category x))) =
  inl (Api.mk_Product id name description (bits_of_float (sent x)) category time_zero time_zero).
Proof.
  intros Hi Hn Hd Hc Hf Hfin. destruct (number_sent x Hf Hfin) as [Hr Hb]. unfold decode_create.
  rewrite String.string_of_list_byte_of_string.
  assert (stringify 0 0 (create_val id name description category x) =
    Json.encode_object [("id", quoted id); ("name", quoted name); ("description", quoted description);
      ("price_usd", stringify 0 0 (Num x)); ("category", quoted category)]) as ->.
  { unfold create_val, Json.encode_object. cbn [stringify defined omap list_omap snd fst String.concat Json.encode_fields].
    unfold break. by rewrite !Json.str_app_assoc. }
  rewrite <-(Json.str_app_nil (Json.encode_object _)).
  rewrite (Json.first_value_object _ [("id", Json.JString id); ("name", Json.JString name);
    ("description", Json.JString description); ("price_usd", Json.JNumber (stringify 0 0 (Num x)));
    ("category", Json.JString category)]); [|repeat constructor; try done; by apply reads_quoted|done..].
  cbn [mbind option_bind]. unfold of_json, Json.to_struct, zero_product. cbn [foldl fst snd mbind option_bind].
  unfold set_product.
  repeat match goal with |- context [Json.same_name ?a ?b] =>
    let c := eval vm_compute in (Json.same_name a b) in change (Json.same_name a b) with c end.
  cbn match. cbn [Json.to_string to_float64 mbind option_bind]. by rewrite Hb.
Qed.

(** ** What arrives in the database *)

Section Arrives.
Context {D : Type} `{!Db.Postgres D, !Db.PostgresSpec D, !DbSetup.PgServer D, !Browser, !BrowserSpec}.
Context (decode_error : bytes → string) (fetch : string → Debug.reply) (dashboardHTML type_error : string).
Implicit Types (s : ApiServer.Server D) (st : stack D) (ca : Api.CacheAside Lru.LRU.LRU D).
Local Abbreviation step := (stack_step (decode_update decode_error) (decode_create decode_error) fetch dashboardHTML).

Definition rows s : gmap string Db.Product := Db.table (Api.db (ApiServer.products s)).

(** A forwarded request whose page is not stored. *)
Lemma stack_step_forward x st s' a resp :
  Proxy.uri_path (Proxy.req_uri (e_req x)) ∉ ["/health"; "/metrics"; "/"; ""] →
  e_net x = Delivered → Proxy.store (front st) !! Proxy.req_uri (e_req x) = None →
  respond (decode_update decode_error) (decode_create decode_error) fetch (e_api x) (e_order x)
    (Proxy.forwardToUpstream (front st) (e_req x)).2 (back st) = Some (s', a, resp) →
  ∃ st' e, step x st = Some (st', e) ∧ back st' = s' ∧ ev_source e = Proxy.FromUpstream ∧
    Proxy.status (ev_resp e) = Proxy.status resp ∧ Proxy.body (ev_resp e) = Proxy.body resp.
Proof.
  intros Hpath Hnet Hstore Hresp. unfold stack_step, upstream. rewrite Hnet, Hresp. cbn [mbind option_bind from_option snd].
  unfold Proxy.Handler.
  rewrite !(bool_decide_false (Proxy.uri_path _ = _)) by set_solver. rewrite !andb_false_r. cbn [orb].
  unfold Proxy.ServeHTTP, Proxy.store_Get. rewrite Hstore. cbn [asked]. eauto 10.
Qed.

(** An update that decodes: the other rows stay, and the row has the given fields
    or was not found; or the database failed. *)
Lemma handle_put_rows now id req ca : Cache.Cache.cache_inv (Api.cache ca) →
  ∃ ca' t resp, Api.handle_put now id (inl req) ca = Some (ca', t, resp) ∧
    (∀ id', id' ≠ id → Db.table (Api.db ca') !! id' = Db.table (Api.db ca) !! id') ∧
    let updated := Db.apply_update Db.numeric req (Db.server_now (Api.db ca)) in
    ((∃ q0, Db.table (Api.db ca) !! id = Some q0 ∧
        Db.table (Api.db ca') !! id = Some (updated q0) ∧
        resp = Api.mk_http 200 None (Api.BProduct (Api.dbToAPIProduct (updated q0)))) ∨
     (Db.table (Api.db ca) !! id = None ∧ Db.table (Api.db ca') !! id = None ∧ Api.code resp = 404%Z) ∨
     (Api.code resp = 503%Z ∧
      (Db.table (Api.db ca') !! id = Db.table (Api.db ca) !! id ∨
       ∃ q0, Db.table (Api.db ca) !! id = Some q0 ∧ Db.table (Api.db ca') !! id = Some (updated q0)))).
Proof.
  intros Hinv. unfold Api.handle_put, Api.UpdateProduct, Api.UpdateProduct_write.
  pose proof (Db.UpdateProduct_exact id req (Api.db ca)) as Hu. cbv zeta in Hu.
  destruct (Db.UpdateProduct id req (Api.db ca)) as [d [q|[|e]]].
  - destruct Hu as (q0 & Hq0 & -> & Ht).
    destruct (Api.UpdateProduct_notify_frame now id
      (Api.dbToAPIProduct (Db.apply_update Db.numeric req (Db.server_now (Api.db ca)) q0))
      (Api.with_db ca d) Hinv) as (c & t & -> & _). cbn [mbind option_bind].
    eexists _, _, _. split; [reflexivity|]. cbn [Api.with_cache Api.with_db Api.db]. rewrite Ht. split.
    + intros id' Hne. by rewrite lookup_insert_ne.
    + left. exists q0. by rewrite lookup_insert_eq.
  - destruct Hu as [Ht Hnone]. cbn [mbind option_bind]. eexists _, _, _. split; [reflexivity|].
    cbn [Api.with_db Api.db]. rewrite Ht. split; [done|]. right; left. done.
  - cbn [mbind option_bind]. eexists _, _, _. split; [reflexivity|]. cbn [Api.with_db Api.db].
    destruct Hu as [->|(q0 & Hq0 & ->)]; [by split; [|right; right; split; [|left]]|]. split.
    + intros id' Hne. by rewrite lookup_insert_ne.
    + right; right. split; [done|]. right. exists q0. by rewrite lookup_insert_eq.
Qed.

(** The price typed into the card of a product, and the request that saves it. *)
Definition typed_price (p : page) (id : string) : float64 := parseFloat (default "" (prices p !! id)).

Lemma updatePrice_call p id : ("price-" +:+ id) ∈ grid_ids p → valid_price (typed_price p id) = true →
  ∃ k, exec (updatePrice type_error id) p =
    (p, [Fetch (mk_call "PUT" (product_uri id) (stringify 0 0 (Obj [("price_usd", Num (typed_price p id))]))) k]).
Proof.
  intros Hid Hv. unfold updatePrice. cbn [exec]. rewrite decide_True by done. fold (typed_price p id).
  unfold valid_price in Hv. destruct (match typed_price p id with S754_nan => true | _ => _ end); [done|]. by eexists.
Qed.

(** C24: a price saved in the dashboard arrives in the database. Let the
    identifier of the product be a plain path segment, the price field of its card
    be in the grid and hold a number that is not negative or infinite, the request
    the script sends reach the proxy and the API, and the proxy have no page of the
    product. Then the request is never refused as malformed: the API decodes it to
    exactly the number the script parsed, the row of the product gets that price,
    as its column stores it, and the server's time as the time of its update, keeps
    every other field, every other row stays as it is, and the answer is the new
    row; or there is no such product; or the database reports an error, and the row
    is as it was or has just that update. *)
Theorem saved_price_arrives (T : gset string) (st : stack D) (x : exchange) (p : page)
    (id : string) (call : http_call) (k : reply + string → task)
    (Hok : ApiServer.server_ok T (back st)) (Hid : plain_segment id = true) (Hcard : ("price-" +:+ id) ∈ grid_ids p)
    (Hprice : valid_price (typed_price p id) = true) (Hfin : Js.finite (typed_price p id) = true)
    (Hcall : exec (updatePrice type_error id) p = (p, [Fetch call k])) (Hx : e_req x = request_of_call call)
    (Hnet : e_net x = Delivered) (Hstore : Proxy.store (front st) !! product_uri id = None) :
  let price := bits_of_float (sent (typed_price p id)) in
  let repriced q0 q := Db.PriceUSD q = Db.numeric price ∧
    Db.UpdatedAt q = Db.server_now (Api.db (ApiServer.products (back st))) ∧ Db.ID q = Db.ID q0 ∧
    Db.Name q = Db.Name q0 ∧ Db.Description q = Db.Description q0 ∧ Db.Category q = Db.Category q0 ∧
    Db.CreatedAt q = Db.CreatedAt q0 in
  ∃ st' e, step x st = Some (st', e) ∧
    (∀ id', id' ≠ id → rows (back st') !! id' = rows (back st) !! id') ∧
    ((Proxy.status (ev_resp e) = 200%Z ∧ ∃ q0 q, rows (back st) !! id = Some q0 ∧ rows (back st') !! id = Some q ∧
        repriced q0 q ∧ Proxy.body (ev_resp e) = Encode (marshal (Api.dbToAPIProduct q))) ∨
     (Proxy.status (ev_resp e) = 404%Z ∧ rows (back st) !! id = None ∧ rows (back st') !! id = None) ∨
     (Proxy.status (ev_resp e) = 503%Z ∧
      (rows (back st') !! id = rows (back st) !! id ∨
       ∃ q0 q, rows (back st) !! id = Some q0 ∧ rows (back st') !! id = Some q ∧ repriced q0 q))).
Proof.
  pose proof (parseFloat_format _ Hprice) as Hfmt.
  pose proof (update_body_read decode_error _ Hfmt Hfin) as Hdec. fold (typed_price p id) in Hdec.
  destruct (updatePrice_call p id Hcard Hprice) as [k' Hcall']. set (v := typed_price p id) in *.
  set (body := stringify 0 0 _) in *. clearbody body. rewrite Hcall in Hcall'. injection Hcall' as -> _. cbn zeta.
  pose proof (plain_id_ok id Hid) as Hidok. destruct (product_uri_path id Hidok) as [Hpath Hseg].
  assert (resolve_url (product_uri id) = product_uri id) as Hurl by (by apply resolve_plain, plain_product_uri).
  destruct Hok as ([Hinv _] & _ & _).
  destruct (handle_put_rows (e_api x) id (Db.mk_Update None None (Some (bits_of_float (sent v))) None)
    (ApiServer.products (back st)) Hinv) as (ca' & t & resp & Hput & Hothers & Hcases).
  destruct (stack_step_forward x st (ApiServer.with_products (back st) ca') (ApiServer.Products resp)
    (write_products resp)) as (st' & e & Hstep & Hback & _ & Hst & Hbody).
  - rewrite Hx. cbn [request_of_call Proxy.req_uri call_url]. rewrite Hurl, Hpath.
    repeat (apply not_elem_of_cons; split; [discriminate|]). apply not_elem_of_nil.
  - done.
  - rewrite Hx. cbn [request_of_call Proxy.req_uri call_url]. by rewrite Hurl.
  - rewrite Hx. unfold respond, request_of. cbn [Proxy.forwardToUpstream snd Proxy.req_uri Proxy.req_method Proxy.req_body
      request_of_call call_url call_method call_body]. rewrite Hurl, Hseg.
    unfold ApiServer.serve. cbn [ApiServer.method ApiServer.path ApiServer.now ApiServer.update_body].
    rewrite route_product by (done || apply Hidok). rewrite decide_False, decide_True by done.
    rewrite Hdec, Hput. done.
  - exists st', e. split; [done|]. rewrite Hback. unfold rows. cbn [ApiServer.with_products ApiServer.products].
    split; [done|]. destruct (write_products_facts resp) as (Hcode & Hb & _). rewrite Hst, Hbody, Hcode, Hb.
    destruct Hcases as [(q0 & Hq0 & Hq & ->)|[(Hn0 & Hn1 & ->)|[-> Hrow]]]; [left|by right; left|right; right].
    + split; [done|]. eexists q0, _. split; [done|]. split; [exact Hq|]. split; [by split_and!|].
      cbn [Api.payload json_of]. by rewrite Marshal_text_eq.
    + split; [done|]. destruct Hrow as [?|(q0 & Hq0 & Hq)]; [by left|]. right.
      eexists q0, _. split; [done|]. split; [exact Hq|]. by split_and!.
Qed.

(** A creation that decodes and has an identifier and a name. *)
Lemma handle_post_rows p ca : Api.ID p ≠ "" → Api.Name p ≠ "" →
  ∃ ca' resp, Api.handle_post (inl p) ca = (ca', resp) ∧
    (∀ id', id' ≠ Api.ID p → Db.table (Api.db ca') !! id' = Db.table (Api.db ca) !! id') ∧
    ((∃ u, Db.table (Api.db ca) !! Api.ID p = None ∧
        let q := Db.mk_Product (Api.ID p) (Api.Name p) (Api.Description p) (Db.numeric (Api.PriceUSD p)) (Api.Category p) u u in
        Db.table (Api.db ca') !! Api.ID p = Some q ∧
        resp = Api.mk_http 201 None (Api.BProduct (Api.dbToAPIProduct q))) ∨
     Api.code resp ∈ [409; 503]%Z).
Proof.
  intros Hid Hname. unfold Api.handle_post. rewrite decide_False by (by intros [|]).
  match goal with |- context [Db.CreateProduct ?r _] => pose proof (Db.CreateProduct_spec r (Api.db ca)) as Hc end.
  cbn [Db.ID Db.Name Db.Description Db.PriceUSD Db.Category] in Hc. cbn zeta in Hc.
  destruct (Db.CreateProduct _ (Api.db ca)) as [d [q|[|e]]].
  - destruct Hc as (u & -> & Hnone & Ht). eexists _, _. split; [reflexivity|]. cbn [Api.with_db Api.db]. rewrite Ht.
    split; [intros id' Hne; by rewrite lookup_insert_ne|]. left. exists u. by rewrite lookup_insert_eq.
  - done.
  - eexists _, _. split; [reflexivity|]. cbn [Api.with_db Api.db]. split.
    + intros id' Hne. destruct Hc as [->|(u & _ & ->)]; [done|]. by rewrite lookup_insert_ne.
    + right. destruct (Api.isUniqueViolation _); set_solver.
Qed.

(** The fields of the form. *)
Definition new_id (p : page) : string := trim (input_value "new-id" p).
Definition new_name (p : page) : string := trim (input_value "new-name" p).
Definition new_description (p : page) : string := trim (input_value "new-desc" p).
Definition new_category (p : page) : string :=
  if decide (trim (input_value "new-cat" p) = "") then "general" else trim (input_value "new-cat" p).
Definition new_price (p : page) : float64 :=
  if truthy (Num (parseFloat (input_value "new-price" p))) then parseFloat (input_value "new-price" p) else fzero.

Lemma new_price_format p : in_format (new_price p).
Proof.
  unfold new_price. destruct (truthy _) eqn:E; [|done]. unfold parseFloat in *.
  destruct (numeral_value _) as [x|] eqn:Ex; [|done]. by eapply numeral_value_in_format.
Qed.

Lemma addProduct_call p : new_id p ≠ "" → new_name p ≠ "" →
  ∃ k, exec (addProduct type_error) p = (p, [Fetch (mk_call "POST" "/products"
    (stringify 0 0 (create_val (new_id p) (new_name p) (new_description p) (new_category p) (new_price p)))) k]).
Proof.
  intros Hid Hname. unfold addProduct. cbn [exec]. fold (new_id p) (new_name p) (new_description p).
  rewrite decide_False by (by intros [|]).
  assert (or_else (Num (parseFloat (input_value "new-price" p))) (Num fzero) = Num (new_price p)) as ->.
  { unfold or_else, new_price. by destruct (truthy _). }
  assert (or_else (Str (trim (input_value "new-cat" p))) (Str "general") = Str (new_category p)) as ->.
  { unfold or_else, new_category. cbn [truthy]. destruct (decide (_ = "")) as [->|Hne]; [done|].
    by rewrite bool_decide_false. }
  eexists. reflexivity.
Qed.

(** C25: a product added in the dashboard arrives in the database. Let the form
    have an identifier and a name, its texts be UTF-8 and its price not infinite,
    the request the script sends reach the proxy and the API, and the proxy have
    nothing stored for the path [/products], where it keeps the answer to an
    earlier creation for five minutes. Then the request is never refused as
    malformed or incomplete: the API decodes it to exactly the trimmed fields and
    the number the script parsed, zero for a price that is none, and the table gets
    a row with these under the new identifier, and no other row changes; or it
    answers that the product exists or that the database failed. *)
Theorem added_product_arrives (st : stack D) (x : exchange) (p : page) (call : http_call) (k : reply + string → task)
    (Hid : new_id p ≠ "") (Hname : new_name p ≠ "")
    (Htext : ValidString (new_id p) = true ∧ ValidString (new_name p) = true ∧
             ValidString (new_description p) = true ∧ ValidString (new_category p) = true)
    (Hfin : Js.finite (new_price p) = true)
    (Hcall : exec (addProduct type_error) p = (p, [Fetch call k])) (Hx : e_req x = request_of_call call)
    (Hnet : e_net x = Delivered) (Hstore : Proxy.store (front st) !! "/products" = None) :
  ∃ st' e, step x st = Some (st', e) ∧
    (∀ id', id' ≠ new_id p → rows (back st') !! id' = rows (back st) !! id') ∧
    ((Proxy.status (ev_resp e) = 201%Z ∧ rows (back st) !! new_id p = None ∧
      ∃ u, rows (back st') !! new_id p =
        Some (Db.mk_Product (new_id p) (new_name p) (new_description p)
                (Db.numeric (bits_of_float (sent (new_price p)))) (new_category p) u u)) ∨
     Proxy.status (ev_resp e) ∈ [409; 503]%Z).
Proof.
  destruct Htext as (Ht1 & Ht2 & Ht3 & Ht4).
  pose proof (create_body_read decode_error _ _ _ _ _ Ht1 Ht2 Ht3 Ht4 (new_price_format p) Hfin) as Hdec.
  destruct (addProduct_call p Hid Hname) as [k' Hcall']. set (body := stringify 0 0 _) in *. clearbody body.
  rewrite Hcall in Hcall'. injection Hcall' as -> _.
  destruct (handle_post_rows (Api.mk_Product (new_id p) (new_name p) (new_description p)
    (bits_of_float (sent (new_price p))) (new_category p) time_zero time_zero) (ApiServer.products (back st)) Hid Hname)
    as (ca' & resp & Hpost & Hothers & Hcases).
  assert (resolve_url "/products" = "/products") as Hurl by (by apply resolve_plain).
  destruct (stack_step_forward x st (ApiServer.with_products (back st) ca') (ApiServer.Products resp)
    (write_products resp)) as (st' & e & Hstep & Hback & _ & Hst & Hbody).
  - rewrite Hx. cbn [request_of_call Proxy.req_uri call_url]. rewrite Hurl. repeat (apply not_elem_of_cons; split; [discriminate|]). apply not_elem_of_nil.
  - done.
  - rewrite Hx. cbn [request_of_call Proxy.req_uri call_url]. by rewrite Hurl.
  - rewrite Hx. unfold respond, request_of. cbn [Proxy.forwardToUpstream snd Proxy.req_uri Proxy.req_method Proxy.req_body
      request_of_call call_url call_method call_body]. rewrite Hurl.
    change (path_segments "/products") with ["products"].
    unfold ApiServer.serve. cbn [ApiServer.method ApiServer.path ApiServer.create_body].
    change (ApiServer.route_of "POST" ["products"]) with ApiServer.RouteCreateProduct. cbn match.
    rewrite Hdec, Hpost. done.
  - exists st', e. split; [done|]. rewrite Hback. unfold rows. cbn [ApiServer.with_products ApiServer.products].
    split; [done|]. destruct (write_products_facts resp) as (Hcode & _). rewrite Hst, Hcode.
    destruct Hcases as [(u & Hnone & Hq & ->)|Hc]; [left|by right]. split; [done|]. split; [done|]. by exists u.
Qed.
End Arrives.

(** ** Concrete runs *)

#[local] Existing Instance simple_browser.

(** Two products a minute before the year 2025, one without a description. *)
Definition shelf : list Api.Product :=
  [Api.mk_Product "prod-001" "Wireless Headphones" "Noise cancelling" (bits_of_float (decimal 7999 2)) "electronics"
     63871286340000000000 63871286340000000000;
   Api.mk_Product "prod-002" "Desk Lamp > 40 cm" "" (bits_of_float (decimal 245 1)) "home" 63871286340000000000 63871286340500000000].

Lemma shelf_listable : Forall listable shelf.
Proof. repeat constructor; try reflexivity; vm_compute; by eexists. Qed.

Lemma shelf_showable : Forall showable shelf.
Proof. repeat constructor. Qed.

(** What the cache stores and the API writes for the second one. *)
Lemma shelf_text :
  (λ t, Contains t "Desk Lamp \u003e 40 cm" && Contains t ":24.5," && Contains t "2024-12-31T23:59:00.5Z")
    <$> (p ← shelf !! 1; marshal p) = Some true.
Proof. vm_compute. reflexivity. Qed.

Lemma dashboard_lists_products_witness :
  ∃ b', acts "TypeError" "SyntaxError" "NetworkError"
      [ClickRefresh; Resume 2 (inl (list_reply shelf 1 50 2)); Resume 2 (inr "")] (load "TypeError") = Some b' ∧
    Forall2 card_shows shelf (top_elements (grid (the_page b'))) ∧
    grid_ids (the_page b') = ["card-prod-001"; "edit-prod-001"; "price-prod-001";
                              "card-prod-002"; "edit-prod-002"; "price-prod-002"] ∧
    shown (the_page b') !! "product-count" = Some (Text "2 products total").
Proof.
  destruct (dashboard_lists_products "TypeError" "SyntaxError" "NetworkError" (load "TypeError") shelf 1 50 2 "~?" (inr ""))
    as (b' & Hrun & _ & Hc & Hids & _ & Hcount);
    [exact shelf_listable|exact shelf_showable|discriminate|reflexivity|reflexivity|].
  exists b'. split; [exact Hrun|]. split; [exact Hc|]. split; [exact Hids|].
  rewrite Hcount. vm_compute. reflexivity.
Defined.

(** The API with one product behind a proxy that has no page yet. *)
Definition open_stack : stack Db.MemPg :=
  mk_stack (Proxy.NewProxy "http://api:8081") (back behind).

Lemma open_stack_ok : ApiServer.server_ok ∅ (back open_stack).
Proof.
  split; [|split; [reflexivity|exact Ring.wf_new]].
  apply Api.ca_inv_new; [exists []; apply Lru.LRU.recency_new|reflexivity|lia].
Qed.

Definition bad_body (b : bytes) : string := "invalid character".
Definition run_open (call : http_call) : option (stack Db.MemPg * event Db.MemPg) :=
  stack_step (decode_update bad_body) (decode_create bad_body) ApiServer.no_network ""
    (mk_exchange (λ _, Second) (λ _, Second) Delivered [] (request_of_call call)) open_stack.

Lemma saved_price_arrives_witness :
  ∃ call k st' e q, exec (updatePrice "TypeError" "prod-001") editing = (editing, [Fetch call k]) ∧
    run_open call = Some (st', e) ∧ Proxy.status (ev_resp e) = 200%Z ∧
    rows (back st') !! "prod-001" = Some q ∧ float_of_bits (Db.PriceUSD q) = decimal 195 1.
Proof.
  assert (valid_price (typed_price editing "prod-001") = true) as Hprice by (vm_compute; reflexivity).
  destruct (updatePrice_call "TypeError" editing "prod-001") as [k Hcall]; [apply editing_card|exact Hprice|].
  set (call := mk_call _ _ _) in Hcall.
  set (x := mk_exchange (λ _, Second) (λ _, Second) Delivered [] (request_of_call call)).
  destruct (saved_price_arrives bad_body ApiServer.no_network "" "TypeError" ∅ open_stack x editing "prod-001" call k
    open_stack_ok) as (st' & e & Hstep & _ & Hcases);
    [reflexivity|apply editing_card|exact Hprice|vm_compute; reflexivity|exact Hcall|reflexivity|reflexivity|reflexivity|].
  assert ((λ r, Proxy.status (ev_resp r.2)) <$> run_open call = Some 200%Z) as Hok by (vm_compute; reflexivity).
  unfold run_open in Hok. fold x in Hok. rewrite Hstep in Hok. apply (inj Some) in Hok. cbn [snd] in Hok.
  destruct Hcases as [(Hs & q0 & q & _ & Hq & [Hp _] & _)|[[Hs _]|[Hs _]]]; [|congruence..].
  exists call, k, st', e, q. split; [exact Hcall|]. split; [exact Hstep|]. split; [exact Hs|]. split; [exact Hq|].
  rewrite Hp. vm_compute. reflexivity.
Defined.

Definition form : page :=
  foldl (λ p iv, set_input iv.1 iv.2 p) fresh_page
    [("new-id", " prod-011"); ("new-name", "Lamp "); ("new-price", "24.5"); ("new-cat", " ")].

Lemma added_product_arrives_witness :
  ∃ call k st' e u, exec (addProduct "TypeError") form = (form, [Fetch call k]) ∧
    run_open call = Some (st', e) ∧ Proxy.status (ev_resp e) = 201%Z ∧
    rows (back st') !! "prod-011" =
      Some (Db.mk_Product "prod-011" "Lamp" "" (bits_of_float (decimal 245 1)) "general" u u).
Proof.
  destruct (addProduct_call "TypeError" form) as [k Hcall]; [vm_compute; discriminate..|].
  set (call := mk_call _ _ _) in Hcall.
  set (x := mk_exchange (λ _, Second) (λ _, Second) Delivered [] (request_of_call call)).
  destruct (added_product_arrives bad_body ApiServer.no_network "" "TypeError" open_stack x form call k)
    as (st' & e & Hstep & _ & Hcases).
  1,2: vm_compute; discriminate.
  { split_and!; vm_compute; reflexivity. }
  { vm_compute. reflexivity. }
  { exact Hcall. }
  1,2,3: reflexivity.
  assert ((λ r, Proxy.status (ev_resp r.2)) <$> run_open call = Some 201%Z) as Hok by (vm_compute; reflexivity).
  unfold run_open in Hok. fold x in Hok. rewrite Hstep in Hok. apply (inj Some) in Hok. cbn [snd] in Hok.
  destruct Hcases as [(Hs & _ & u & Hq)|Hs]; [|exfalso; rewrite Hok in Hs].
  2:{ repeat (apply elem_of_cons in Hs as [Hs|Hs]; [discriminate Hs|]). by apply elem_of_nil in Hs. }
  exists call, k, st', e, u. split; [exact Hcall|]. split; [exact Hstep|]. split; [exact Hs|].
  assert (new_id form = "prod-011" ∧ new_name form = "Lamp" ∧ new_description form = "" ∧
    sent (new_price form) = decimal 245 1 ∧ new_category form = "general") as (E1 & E2 & E3 & E4 & E5)
    by (split_and!; vm_compute; reflexivity).
  rewrite E1, E2, E3, E4, E5 in Hq. exact Hq.
Defined.
(** The second product within five minutes is lost: the proxy keeps the answer to
    the first creation and gives it for the second request, so the dashboard reports
    the product as created, and the table never gets it. *)
Definition second_form : page := set_input "new-id" "prod-012" form.

Definition add_call (p : page) : option http_call :=
  match (exec (addProduct "TypeError") p).2 with [Fetch call _] => Some call | _ => None end.

Theorem second_add_is_lost :
  (call ← add_call form; '(st, _) ← run_open call; call' ← add_call second_form;
   '(st', e) ← stack_step (decode_update bad_body) (decode_create bad_body) ApiServer.no_network ""
     (mk_exchange (λ _, 60 * Second)%Z (λ _, 60 * Second)%Z Delivered [] (request_of_call call')) st;
   Some (ev_source e, Proxy.status (ev_resp e), bool_decide (is_Some (rows (back st') !! "prod-011")),
         rows (back st') !! "prod-012")) =
  Some (Proxy.FromCache, 201%Z, true, None).
Proof. vm_compute. reflexivity. Qed.

(** An apostrophe in an identifier ends the string literals of the handlers: none
    of the buttons of the card is a call any more. *)
Theorem quote_breaks_buttons :
  (λ markup, action_of <$> attributes "onclick" (parse_html markup)) <$>
    productCard (clusterState fresh_page) (product_val (Api.mk_Product "o'1" "Lamp" "" 0 "home" 0 0)) =
  Some [None; None; None; None].
Proof. vm_compute. reflexivity. Qed.
End Catalogue.
