(* ===== verification/Llm.v ===== *)
(** The LLM prefix-cache simulator, [src/internal/llm]: the cost model of
    [models.go], the prefix cache of [prefix_cache.go], and the two workloads of
    [simulator.go] and [rag.go] that run against it. *)
From S2P Require Import Prelude GoNumbers.
From Stdlib Require Import SpecFloat Ascii.

Module Llm.

(** ** Models *)

Record ModelConfig := mk_Model {
  Name : string;
  NumLayers : Z;
  NumKVHeads : Z;
  NumQHeads : Z;
  HeadDim : Z;
  MaxContextLen : Z;
  ParamsBillion : float64
}.

Definition KVCacheSizePerToken (m : ModelConfig) : Z :=
  wrap64 (2 * NumKVHeads m * HeadDim m * 2 * NumLayers m).

Definition AttentionFLOPs (m : ModelConfig) (seqLen : Z) : float64 :=
  let flopsPerLayer :=
    fmul (fmul (fmul (fmul (float_of_int 4) (float_of_int (NumQHeads m))) (float_of_int (HeadDim m)))
            (float_of_int seqLen)) (float_of_int seqLen) in
  fmul flopsPerLayer (float_of_int (NumLayers m)).

Definition AttentionTFLOPs (m : ModelConfig) (seqLen : Z) : float64 :=
  fdiv (AttentionFLOPs m seqLen) (float_of_int (10 ^ 12)).

Definition CostUSD_of (m : ModelConfig) (seqLen : Z) : float64 :=
  let tflops := AttentionTFLOPs m seqLen in
  let secondsCost := fdiv tflops (float_of_int 312) in
  let hourlyCost := fdiv secondsCost (float_of_int 3600) in
  fmul hourlyCost (decimal 25 1).

Definition Llama3_8B : ModelConfig := mk_Model "Llama-3-8B" 32 8 32 128 8192 (float_of_int 8).
Definition Llama3_70B : ModelConfig := mk_Model "Llama-3-70B" 80 8 64 128 8192 (float_of_int 70).
Definition Mistral7B : ModelConfig := mk_Model "Mistral-7B" 32 8 32 128 32768 (float_of_int 7).
Definition Mixtral8x7B : ModelConfig := mk_Model "Mixtral-8x7B" 32 8 32 128 32768 (decimal 467 1).
Definition Qwen2_5_72B : ModelConfig := mk_Model "Qwen2.5-72B" 80 8 64 128 131072 (float_of_int 72).
Definition DeepSeekR1 : ModelConfig :=
  mk_Model "DeepSeek-R1-671B" 61 128 128 128 131072 (float_of_int 671).

Definition AllModels : list ModelConfig :=
  [Llama3_8B; Llama3_70B; Mistral7B; Mixtral8x7B; Qwen2_5_72B; DeepSeekR1].

(** ** The prefix cache *)

Record PrefixCacheEntry := mk_Entry {
  PrefixHash : string;
  Model : string;
  TokenCount : Z;
  TFLOPsCost : float64;
  CostUSD : float64;
  HitCount : Z;
  CachedAt : Time;
  LastAccessedAt : Time
}.

Definition SavedTFLOPs (e : PrefixCacheEntry) : float64 := fmul (TFLOPsCost e) (float_of_int (HitCount e)).
Definition SavedUSD (e : PrefixCacheEntry) : float64 := fmul (CostUSD e) (float_of_int (HitCount e)).

(** The entries are only reached through the map, so they are kept by value. *)
Record PrefixCache := mk_PrefixCache {
  entries : gmap string PrefixCacheEntry;
  maxSize : Z;
  totalRequests : Z;
  cacheHits : Z;
  totalSavedTFLOPs : float64;
  totalSavedUSD : float64
}.

Definition NewPrefixCache (maxSize : Z) : PrefixCache := mk_PrefixCache ∅ maxSize 0 0 fzero fzero.

(** [json.Marshal] of a slice of [int]: the elements, separated by commas. *)
Fixpoint json_tail (l : list Z) : string :=
  match l with
  | [] => "]"
  | z :: l => "," +:+ pretty z +:+ json_tail l
  end.

Definition json_ints (l : list Z) : string :=
  match l with [] => "[]" | z :: l => "[" +:+ pretty z +:+ json_tail l end.

Definition HashPrefix (tokens : list Z) : string := hex_string (take 16 (Sha256.Sum256 (json_ints tokens))).

(** The returned entry is the one the map now holds. *)
Definition Lookup (now : Time) (prefixHash : string) (pc : PrefixCache)
    : PrefixCache * option PrefixCacheEntry :=
  let requests := wrap64 (totalRequests pc + 1) in
  match entries pc !! prefixHash with
  | None =>
      (mk_PrefixCache (entries pc) (maxSize pc) requests (cacheHits pc) (totalSavedTFLOPs pc)
         (totalSavedUSD pc), None)
  | Some e =>
      let e' := mk_Entry (PrefixHash e) (Model e) (TokenCount e) (TFLOPsCost e) (CostUSD e)
                  (HitCount e +₆₄ 1)%go (CachedAt e) now in
      (mk_PrefixCache (<[prefixHash := e']> (entries pc)) (maxSize pc) requests
         (cacheHits pc +₆₄ 1)%go (fadd (totalSavedTFLOPs pc) (TFLOPsCost e))
         (fadd (totalSavedUSD pc) (CostUSD e)), Some e')
  end.

(** [for k, e := range pc.entries]: the map is visited in an order of the
    runtime's choosing. *)
Definition iteration : Type := gmap string PrefixCacheEntry → list (string * PrefixCacheEntry).

Definition older (o : string * Time) (ke : string * PrefixCacheEntry) : string * Time :=
  if bool_decide (o.1 = "") || Before (LastAccessedAt ke.2) o.2
  then (ke.1, LastAccessedAt ke.2) else o.

Definition oldest_key (order : list (string * PrefixCacheEntry)) : string :=
  (foldl older ("", time_zero) order).1.

Definition Store (iter : iteration) (entry : PrefixCacheEntry) (pc : PrefixCache) : PrefixCache :=
  let es := if (maxSize pc <=? Z.of_nat (size (entries pc)))%Z
            then delete (oldest_key (iter (entries pc))) (entries pc) else entries pc in
  mk_PrefixCache (<[PrefixHash entry := entry]> es) (maxSize pc) (totalRequests pc) (cacheHits pc)
    (totalSavedTFLOPs pc) (totalSavedUSD pc).

Record CacheStats := mk_Stats {
  TotalRequests : Z;
  CacheHits : Z;
  CacheMisses : Z;
  HitRate : float64;
  EntriesStored : Z;
  st_TotalSavedTFLOPs : float64;
  st_TotalSavedUSD : float64
}.

Definition Stats (pc : PrefixCache) : CacheStats :=
  let hitRate :=
    if (0 <? totalRequests pc)%Z then
      fmul (fdiv (float_of_int (cacheHits pc)) (float_of_int (totalRequests pc))) (float_of_int 100)
    else fzero in
  mk_Stats (totalRequests pc) (cacheHits pc) (wrap64 (totalRequests pc - cacheHits pc)) hitRate
    (Z.of_nat (size (entries pc))) (totalSavedTFLOPs pc) (totalSavedUSD pc).

(** Two clock readings, [CachedAt] first. *)
Definition NewEntryForPrefix (now : Clock) (tokens : list Z) (model : ModelConfig) : PrefixCacheEntry :=
  let n := Z.of_nat (length tokens) in
  mk_Entry (HashPrefix tokens) (Name model) n (AttentionTFLOPs model n) (CostUSD_of model n) 0
    (now 0) (now 1).

(** ** The scenario simulator *)

Record Scenario := mk_Scenario {
  sc_Name : string;
  Description : string;
  Company : string;
  SystemPromptLen : Z;
  UserMessageLen : Z;
  NumRequests : Z;
  PrefixReuseRate : float64;
  sc_Model : ModelConfig
}.

Record ScenarioResult := mk_Result {
  res_Scenario : Scenario;
  res_Stats : CacheStats;
  WithoutCacheCost : float64;
  WithCacheCost : float64;
  SavingsUSD : float64;
  SavingsPct : float64;
  Duration_ : Duration
}.

Definition DefaultScenarios : list Scenario := [
  mk_Scenario "Customer Service Bot"
    "500 users share the same 512-token system prompt. User messages vary."
    "SaaS companies (Salesforce, HubSpot, Zendesk)" 512 64 500 (float_of_int 1) Llama3_70B;
  mk_Scenario "Code Assistant (RAG)"
    "200 developers, same 1024-token codebase context prepended to each query."
    "AI coding tools (Cursor, GitHub Copilot, Sourcegraph)" 1024 128 1000 (decimal 85 2) Llama3_70B;
  mk_Scenario "RAG Pipeline (Document QA)"
    "1000 queries over the same 2048-token retrieved document. Maximum prefix reuse."
    "Enterprise AI (Glean, Notion AI, Perplexity Enterprise)" 2048 96 1000 (decimal 92 2) Llama3_70B;
  mk_Scenario "Legal Document Analysis"
    "500 queries over the same 3000-token legal context. Fixed domain knowledge prefix."
    "Vertical AI (Harvey, Lexion, ContractPodAi)" 3000 128 500 (decimal 99 2) Qwen2_5_72B;
  mk_Scenario "Open Source Model Comparison"
    "1000 requests across all 6 open-source models with 1024-token shared prefix."
    "LLM API providers (Groq, Together.ai, Fireworks.ai)" 1024 64 1000 (decimal 90 2) Llama3_8B
].

(** What a request takes from its environment: the random numbers it draws, the
    readings of the clock and the order of a map iteration. *)
Record env := mk_env {
  coin : float64;             (* rng.Float64() *)
  intn : nat → Z;             (* the j-th rng.Intn(100000) *)
  clock : Clock;
  iter : iteration
}.

(** [sharedPrefix] and [uniquePrefix], of [n] tokens. *)
Definition shared_prefix (n : nat) : list Z := map (λ i, wrap64 (Z.of_nat i + 1000)) (seq 0 n).
Definition unique_prefix (e : env) (n : nat) : list Z := map (λ j, (intn e j + 200000)%Z) (seq 0 n).

Definition prefix_of_request (s : Scenario) (e : env) : list Z :=
  let n := Z.to_nat (SystemPromptLen s) in
  if SFltb (coin e) (PrefixReuseRate s) then shared_prefix n else unique_prefix e n.

(** The tail of both loops: look the hash up, on a miss build an entry and store
    it. *)
Definition lookup_or_store (e : env) (hash : string) (new : Clock → PrefixCacheEntry) (pc : PrefixCache)
    : PrefixCache :=
  match Lookup (clock e 0) hash pc with
  | (pc', Some _) => pc'
  | (pc', None) => Store (iter e) (new (λ i, clock e (S i))) pc'
  end.

Definition scenario_request (s : Scenario) (pc : PrefixCache) (e : env) : PrefixCache :=
  let prefixTokens := prefix_of_request s e in
  lookup_or_store e (HashPrefix prefixTokens) (λ now, NewEntryForPrefix now prefixTokens (sc_Model s)) pc.

(** The environments of the requests, in order, and that of the warm-up, whose
    clock is also read for [start] and [duration]. [make] panics on a negative
    length. *)
Definition RunScenario (warmup : env) (requests : nat → env) (s : Scenario) : option ScenarioResult :=
  if (SystemPromptLen s <? 0)%Z then None
  else
    let sharedPrefix := shared_prefix (Z.to_nat (SystemPromptLen s)) in
    let cache := Store (iter warmup) (NewEntryForPrefix (clock warmup) sharedPrefix (sc_Model s))
                   (NewPrefixCache 10000) in
    let cache := foldl (scenario_request s) cache (map requests (seq 0 (Z.to_nat (NumRequests s)))) in
    let stats := Stats cache in
    let prefixCostPerRequest := CostUSD_of (sc_Model s) (SystemPromptLen s) in
    let withoutCacheCost := fmul prefixCostPerRequest (float_of_int (NumRequests s)) in
    let withCacheCost := fmul prefixCostPerRequest (float_of_int (CacheMisses stats)) in
    let savingsUSD := fsub withoutCacheCost withCacheCost in
    let savingsPct :=
      if SFltb fzero withoutCacheCost
      then fmul (fdiv savingsUSD withoutCacheCost) (float_of_int 100) else fzero in
    Some (mk_Result s stats withoutCacheCost withCacheCost savingsUSD savingsPct
            (clock warmup 3 - clock warmup 2)%Z).

(** One run per model, each with an environment of its own. *)
Definition RunAllModelsComparison (warmup : nat → env) (requests : nat → nat → env)
    (prefixLen numRequests : Z) (reuseRate : float64) : option (list ScenarioResult) :=
  mapM (λ im, RunScenario (warmup im.1) (requests im.1)
          (mk_Scenario (Name im.2) "" "" prefixLen 0 numRequests reuseRate im.2))
    (imap pair AllModels).

(** ** The RAG simulator *)

Record Document := mk_Document { doc_ID : string; doc_TokenCount : Z }.

Definition DocumentStore : Type := list Document.

(** [fmt.Sprintf("doc-%03d", i+1)]. *)
Definition doc_id (i : nat) : string := "doc-" +:+ pad_zeros 3 (pretty (S i)).

Definition NewDocumentStore (numDocs tokensPerDoc : Z) : option DocumentStore :=
  if (numDocs <? 0)%Z then None
  else Some (map (λ i, mk_Document (doc_id i) tokensPerDoc) (seq 0 (Z.to_nat numDocs))).

Definition Retrieve (s : DocumentStore) (docIndices : list Z) : list Document :=
  omap (λ idx, if (0 <=? idx)%Z then s !! Z.to_nat idx else None) docIndices.

Record RAGConfig := mk_RAG {
  rag_Model : ModelConfig;
  NumDocuments : Z;
  TokensPerDoc : Z;
  TopK : Z;
  QueryTokens : Z;
  rag_NumRequests : Z;
  ZipfExponent : float64;
  RequestsPerDay : Z
}.

Definition DefaultRAGConfig : RAGConfig :=
  mk_RAG Llama3_70B 200 512 3 64 5000 (decimal 12 1) 1000000.

Record RAGResult := mk_RAGResult {
  rr_Config : RAGConfig;
  rr_Stats : CacheStats;
  PrefixTokens : Z;
  CostPerMissUSD : float64;
  WithoutCacheUSD : float64;
  WithCacheUSD : float64;
  rr_SavingsUSD : float64;
  rr_SavingsPct : float64;
  MonthlyWithout : float64;
  MonthlyWith : float64;
  MonthlySavings : float64;
  rr_Duration : Duration
}.

(** The capacity of the slice must not be negative. *)
Definition buildPrefixTokens (docs : list Document) (queryTokens : Z) (docIndices : list Z)
    : option (list Z) :=
  if (wrap64 (Z.of_nat (length docs) * 8 + queryTokens) <? 0)%Z then None
  else Some (concat (map (λ idx, replicate 8 (wrap64 (500000 + idx))) docIndices) ++
             map (λ j, wrap64 (900000 + Z.of_nat j)) (seq 0 (Z.to_nat queryTokens))).

Definition newEntryForTokenCount (now : Clock) (hash : string) (tokenCount : Z) (model : ModelConfig)
    : PrefixCacheEntry :=
  mk_Entry hash (Name model) tokenCount (AttentionTFLOPs model tokenCount) (CostUSD_of model tokenCount) 0
    (now 0) (now 1).

(** The document indices of a request: [TopK] Zipf draws, sorted. *)
Definition doc_indices (cfg : RAGConfig) (e : env) : list Z :=
  merge_sort Z.le (map (intn e) (seq 0 (Z.to_nat (TopK cfg)))).

Definition rag_request (cfg : RAGConfig) (store : DocumentStore) (prefixTokens : Z)
    (pc : option PrefixCache) (e : env) : option PrefixCache :=
  pc ← pc;
  let docIndices := doc_indices cfg e in
  prefix ← buildPrefixTokens (Retrieve store docIndices) (QueryTokens cfg) docIndices;
  let hash := HashPrefix prefix in
  Some (lookup_or_store e hash (λ now, newEntryForTokenCount now hash prefixTokens (rag_Model cfg)) pc).

(** [intn] of an environment are here the draws of the Zipf generator, which is
    nil, and panics when drawn from, for an exponent of zero or less; a negative
    [TopK] makes [make] panic. *)
Definition RunRAGSimulation (start : Clock) (requests : nat → env) (cfg : RAGConfig) : option RAGResult :=
  store ← NewDocumentStore (NumDocuments cfg) (TokensPerDoc cfg);
  let nil_zipf := SFleb (fadd (ZipfExponent cfg) (float_of_int 1)) (float_of_int 1) in
  let prefixTokens := wrap64 (TopK cfg * TokensPerDoc cfg + QueryTokens cfg) in
  if (0 <? rag_NumRequests cfg)%Z && ((TopK cfg <? 0)%Z || nil_zipf && (0 <? TopK cfg)%Z) then None
  else
    cache ← foldl (rag_request cfg store prefixTokens) (Some (NewPrefixCache 100000))
              (map requests (seq 0 (Z.to_nat (rag_NumRequests cfg))));
    let stats := Stats cache in
    let costPerMiss := CostUSD_of (rag_Model cfg) prefixTokens in
    let n := float_of_int (rag_NumRequests cfg) in
    let withoutCache := fmul costPerMiss n in
    let withCache := fmul costPerMiss (float_of_int (CacheMisses stats)) in
    let savings := fsub withoutCache withCache in
    let savingsPct :=
      if SFltb fzero withoutCache then fmul (fdiv savings withoutCache) (float_of_int 100) else fzero in
    let monthlyRequests := fmul (float_of_int (RequestsPerDay cfg)) (float_of_int 30) in
    let monthlyWithout := fmul (fdiv withoutCache n) monthlyRequests in
    let monthlyWith := fmul (fdiv withCache n) monthlyRequests in
    Some (mk_RAGResult cfg stats prefixTokens costPerMiss withoutCache withCache savings savingsPct
            monthlyWithout monthlyWith (fsub monthlyWithout monthlyWith) (start 1%nat - start 0%nat)%Z).

(** *** Formatting *)

(** The loop of [formatInt] over the rest [s] of a text of [n] bytes, from
    index [i]. *)
Fixpoint formatInt_loop (n i : nat) (s out : string) : string :=
  match s with
  | EmptyString => out
  | String c s =>
      let out := if decide (0 < i ∧ (n - i) `mod` 3 = 0) then out +:+ "," else out in
      formatInt_loop n (S i) s (out +:+ String c "")
  end.

Definition formatInt (z : Z) : string :=
  let s := pretty z in formatInt_loop (String.length s) 0 s "".

Definition formatMoney (v : float64) : option string :=
  whole ← int_of_float v;
  frac ← int_of_float (fmul (fsub v (float_of_int whole)) (float_of_int 100));
  let frac := if (frac <? 0)%Z then wrap64 (- frac) else frac in
  Some (formatInt whole +:+ "." +:+ pad_zeros 2 (pretty frac)).

(** Tactics are not to compute digests. *)
#[local] Opaque HashPrefix.

(** ** Eviction *)

(** A map iteration visits every entry once. *)
Definition iterates (it : iteration) : Prop := ∀ m, it m ≡ₚ map_to_list m.

Lemma iterates_elem it m k e : iterates it → (k, e) ∈ it m ↔ m !! k = Some e.
Proof. unfold iterates. intros Hit. by rewrite (Hit m), elem_of_map_to_list. Qed.

Lemma older_fold (l : list (string * PrefixCacheEntry)) (o : string * Time) :
  o.1 ≠ "" → (∀ ke, ke ∈ l → ke.1 ≠ "") →
  let r := foldl older o l in
  r.1 ≠ "" ∧ (r.2 ≤ o.2)%Z ∧ (r = o ∨ ∃ ke, ke ∈ l ∧ r = (ke.1, LastAccessedAt ke.2)) ∧
  ∀ ke, ke ∈ l → (r.2 ≤ LastAccessedAt ke.2)%Z.
Proof.
  revert o. induction l as [|ke l IH]; intros o Ho Hl; simpl.
  { split; [done|]. split; [lia|]. split; [by left|]. set_solver. }
  assert (Hk : ke.1 ≠ "") by (apply Hl; set_solver).
  assert (Hs : older o ke = (ke.1, LastAccessedAt ke.2) ∧ (LastAccessedAt ke.2 < o.2)%Z ∨
               older o ke = o ∧ (o.2 ≤ LastAccessedAt ke.2)%Z).
  { unfold older, Before. rewrite bool_decide_eq_false_2 by done. simpl.
    destruct (Z.ltb_spec (LastAccessedAt ke.2) o.2); auto. }
  destruct (IH (older o ke)) as (H1 & H2 & H3 & H4);
    [by destruct Hs as [[-> _]|[-> _]]|intros ke' ?; apply Hl; set_solver|].
  destruct Hs as [[Heq Hlt]|[Heq Hle]]; rewrite Heq in *; simpl in *.
  - split; [done|]. split; [lia|]. split.
    + destruct H3 as [->|(ke' & ? & ->)]; right; [exists ke|exists ke']; (split; [set_solver|done]).
    + intros ke' [->|?]%elem_of_cons; [lia|]. by apply H4.
  - split; [done|]. split; [lia|]. split.
    + destruct H3 as [->|(ke' & ? & ->)]; [by left|right]. exists ke'. split; [set_solver|done].
    + intros ke' [->|?]%elem_of_cons; [lia|]. by apply H4.
Qed.

Lemma oldest_key_spec (l : list (string * PrefixCacheEntry)) :
  l ≠ [] → (∀ ke, ke ∈ l → ke.1 ≠ "") →
  ∃ e, (oldest_key l, e) ∈ l ∧ ∀ ke, ke ∈ l → (LastAccessedAt e ≤ LastAccessedAt ke.2)%Z.
Proof.
  intros Hne Hl. destruct l as [|[k e] l]; [done|]. unfold oldest_key. simpl.
  replace (older ("", time_zero) (k, e)) with (k, LastAccessedAt e) by done.
  destruct (older_fold l (k, LastAccessedAt e)) as (_ & H2 & H3 & H4);
    [apply (Hl (k, e)); set_solver|intros ke ?; apply Hl; set_solver|]. simpl in H2.
  destruct H3 as [Heq|([k' e'] & Hin & Heq)]; rewrite Heq in *; simpl in *.
  - exists e. split; [set_solver|]. intros ke [->|?]%elem_of_cons; [done|]. by apply H4.
  - exists e'. split; [set_solver|]. intros ke [->|?]%elem_of_cons; [done|]. by apply H4.
Qed.

(** Storing an entry in a full prefix cache removes exactly one entry, one
    that no other was accessed before, whatever order the runtime visits the map
    in; in a cache with room it removes none. The new entry is stored either
    way, and the counters do not move. *)
Theorem store_evicts_oldest (it : iteration) (new : PrefixCacheEntry) (pc : PrefixCache) :
  iterates it → entries pc !! "" = None → entries pc ≠ ∅ →
  ∃ es, entries (Store it new pc) = <[PrefixHash new := new]> es ∧
    (if decide (maxSize pc ≤ Z.of_nat (size (entries pc)))%Z then
       ∃ k e, entries pc !! k = Some e ∧ es = delete k (entries pc) ∧
         ∀ k' e', entries pc !! k' = Some e' → (LastAccessedAt e ≤ LastAccessedAt e')%Z
     else es = entries pc) ∧
    totalRequests (Store it new pc) = totalRequests pc ∧ cacheHits (Store it new pc) = cacheHits pc.
Proof.
  intros Hit Hempty Hne. unfold Store. simpl. eexists. split; [done|]. split; [|done].
  destruct (Z.leb_spec (maxSize pc) (Z.of_nat (size (entries pc)))); destruct (decide _); try lia; [|done].
  destruct (oldest_key_spec (it (entries pc))) as (e & Hin & Hmin).
  - intros Hnil. pose proof (Hit (entries pc)) as Hp. rewrite Hnil in Hp.
    apply Permutation_nil_l in Hp. symmetry in Hp. by apply map_to_list_empty_iff in Hp.
  - intros [k e] Hin%(iterates_elem it); [|done]. simpl. intros ->. congruence.
  - apply (iterates_elem it) in Hin; [|done]. eexists _, e. split; [done|]. split; [done|].
    intros k' e' Hk'. apply (Hmin (k', e')). by apply (iterates_elem it).
Qed.

(** ** Counting hits and misses *)

Section Counting.
Context (h : env → string) (new : env → Clock → PrefixCacheEntry).
Context (Hnew : ∀ e c, PrefixHash (new e c) = h e).

Definition serve (pc : PrefixCache) (e : env) : PrefixCache := lookup_or_store e (h e) (new e) pc.

(** The counters stay within an [int64]. *)
Definition counters_ok (pc : PrefixCache) : Prop := (0 ≤ cacheHits pc ≤ totalRequests pc)%Z.

Definition misses (pc : PrefixCache) : Z := (totalRequests pc - cacheHits pc)%Z.

Lemma serve_spec pc e :
  counters_ok pc → (totalRequests pc < int64_max)%Z →
  (Z.of_nat (size (entries pc)) < maxSize pc)%Z →
  let pc' := serve pc e in
  counters_ok pc' ∧ maxSize pc' = maxSize pc ∧ totalRequests pc' = (totalRequests pc + 1)%Z ∧
  dom (entries pc') = {[h e]} ∪ dom (entries pc) ∧
  misses pc' = (misses pc + if decide (h e ∈ dom (entries pc)) then 0 else 1)%Z.
Proof.
  intros [H0 H1] Hmax Hroom. unfold serve, lookup_or_store, Lookup, misses, counters_ok.
  destruct (entries pc !! h e) as [en|] eqn:He; cbn [Store entries maxSize totalRequests cacheHits];
    unwrap64.
  - assert (h e ∈ dom (entries pc)) by (by eapply elem_of_dom_2).
    destruct (decide _); [|done]. rewrite dom_insert_L. split_and!; done || lia.
  - assert (h e ∉ dom (entries pc)) by (by apply not_elem_of_dom).
    destruct (decide _); [done|]. rewrite (proj2 (Z.leb_gt _ _) Hroom), Hnew, dom_insert_L. split_and!; done || lia.
Qed.

Lemma new_hashes_cons (x : string) (X D : gset string) :
  Z.of_nat (size (({[x]} ∪ X) ∖ D)) =
  ((if decide (x ∈ D) then 0 else 1) + Z.of_nat (size (X ∖ ({[x]} ∪ D))))%Z.
Proof.
  destruct (decide (x ∈ D)).
  - replace (({[x]} ∪ X) ∖ D) with (X ∖ ({[x]} ∪ D)) by set_solver. lia.
  - replace (({[x]} ∪ X) ∖ D) with ({[x]} ∪ X ∖ ({[x]} ∪ D)).
    + rewrite size_union, size_singleton by set_solver. lia.
    + apply set_eq. intros y. destruct (decide (y = x)); set_solver.
Qed.

(** A run of requests in a cache with room for all of them: every hash is stored
    once, and the misses are the hashes that were not cached at the start. *)
Lemma serve_run (es : list env) pc :
  counters_ok pc → (totalRequests pc + Z.of_nat (length es) ≤ int64_max)%Z →
  (Z.of_nat (size (entries pc)) + Z.of_nat (length es) ≤ maxSize pc)%Z →
  let pc' := foldl serve pc es in
  let hs : gset string := list_to_set (h <$> es) in
  counters_ok pc' ∧ totalRequests pc' = (totalRequests pc + Z.of_nat (length es))%Z ∧
  dom (entries pc') = hs ∪ dom (entries pc) ∧
  misses pc' = (misses pc + Z.of_nat (size (hs ∖ dom (entries pc))))%Z.
Proof.
  revert pc. induction es as [|e es IH]; intros pc Hc Ht Hs; simpl.
  { split; [done|]. split; [lia|]. split; [set_solver|].
    replace (∅ ∖ dom (entries pc)) with (∅ : gset string) by set_solver. rewrite size_empty. lia. }
  cbn [length] in Ht, Hs.
  destruct (serve_spec pc e) as (Hc1 & Hm1 & Ht1 & Hd1 & Hmis1); [done|lia|lia|].
  assert (Hsize : size (entries (serve pc e)) ≤ S (size (entries pc))).
  { rewrite <-!size_dom, Hd1. destruct (decide (h e ∈ dom (entries pc))).
    - replace ({[h e]} ∪ dom (entries pc)) with (dom (entries pc)) by set_solver. lia.
    - rewrite size_union, size_singleton by set_solver. lia. }
  destruct (IH (serve pc e)) as (Hc2 & Ht2 & Hd2 & Hmis2); [done|lia|lia|].
  split; [done|]. split; [lia|]. split; [rewrite Hd2, Hd1; set_solver|].
  change (list_fmap env string h es) with (h <$> es).
  rewrite Hmis2, Hmis1, Hd1, new_hashes_cons. lia.
Qed.
End Counting.

(** What [Stats] reports, when the counters are in range. *)
Lemma Stats_spec pc :
  counters_ok pc → (totalRequests pc ≤ int64_max)%Z →
  TotalRequests (Stats pc) = totalRequests pc ∧ CacheMisses (Stats pc) = misses pc ∧
  CacheHits (Stats pc) = (totalRequests pc - misses pc)%Z ∧
  EntriesStored (Stats pc) = Z.of_nat (size (dom (entries pc))).
Proof.
  intros [H0 H1] Hmax. unfold Stats, misses. simpl. rewrite size_dom.
  unwrap64. split_and!; done || lia.
Qed.

(** *** Scenarios *)

(** The cache after the warm-up. *)
Definition warm_cache (warmup : env) (s : Scenario) : PrefixCache :=
  Store (iter warmup)
    (NewEntryForPrefix (clock warmup) (shared_prefix (Z.to_nat (SystemPromptLen s))) (sc_Model s))
    (NewPrefixCache 10000).

Definition shared_hash (s : Scenario) : string := HashPrefix (shared_prefix (Z.to_nat (SystemPromptLen s))).

(** The hashes of the requests other than the shared one. *)
Definition other_hashes (requests : nat → env) (s : Scenario) : gset string :=
  list_to_set ((λ i, HashPrefix (prefix_of_request s (requests i))) <$> seq 0 (Z.to_nat (NumRequests s)))
  ∖ {[shared_hash s]}.

Lemma union_singleton_alt (x : string) (X : gset string) : X ∪ {[x]} = {[x]} ∪ X ∖ {[x]}.
Proof. apply set_eq. intros y. destruct (decide (y = x)); set_solver. Qed.

Lemma warm_cache_spec warmup s :
  counters_ok (warm_cache warmup s) ∧ maxSize (warm_cache warmup s) = 10000%Z ∧
  totalRequests (warm_cache warmup s) = 0%Z ∧ misses (warm_cache warmup s) = 0%Z ∧
  dom (entries (warm_cache warmup s)) = {[shared_hash s]}.
Proof.
  unfold warm_cache, shared_hash.
  generalize (shared_prefix (Z.to_nat (SystemPromptLen s))). intros p.
  unfold Store, NewPrefixCache, counters_ok, misses. cbn [entries maxSize totalRequests cacheHits].
  replace (10000 <=? Z.of_nat (size (∅ : gmap string PrefixCacheEntry)))%Z with false by done.
  rewrite dom_insert_L, dom_empty_L. by autorewrite with go.
Qed.

Lemma scenario_run warmup requests s :
  (0 ≤ NumRequests s < 10000)%Z →
  let pc := foldl (scenario_request s) (warm_cache warmup s)
              (map requests (seq 0 (Z.to_nat (NumRequests s)))) in
  counters_ok pc ∧ totalRequests pc = NumRequests s ∧
  misses pc = Z.of_nat (size (other_hashes requests s)) ∧
  dom (entries pc) = {[shared_hash s]} ∪ other_hashes requests s.
Proof.
  intros Hn. destruct (warm_cache_spec warmup s) as (Hc & Hm & Ht & Hmis & Hd).
  set (h := λ e, HashPrefix (prefix_of_request s e)).
  set (new := λ e now, NewEntryForPrefix now (prefix_of_request s e) (sc_Model s)).
  set (es := map requests _).
  assert (Hlen : Z.of_nat (length es) = NumRequests s)
    by (unfold es; rewrite length_map, length_seq; lia).
  assert (Hsize : size (entries (warm_cache warmup s)) = 1)
    by (rewrite <-size_dom, Hd; apply size_singleton).
  assert (Hhs : h <$> es = (λ i, HashPrefix (prefix_of_request s (requests i)))
                             <$> seq 0 (Z.to_nat (NumRequests s)))
    by (unfold es; by rewrite <-list_fmap_compose).
  destruct (serve_run h new (λ _ _, eq_refl) es (warm_cache warmup s)) as (Hc' & Ht' & Hd' & Hmis');
    [done|unfold int64_max; lia|lia|].
  change (foldl (scenario_request s)) with (foldl (serve h new)). cbv zeta.
  rewrite Hhs in *. rewrite Ht', Hd', Hmis', Hd, Ht, Hmis, Hlen.
  split; [done|]. split; [lia|]. split; [done|].
  unfold other_hashes. apply union_singleton_alt.
Qed.

(** A scenario's statistics count prefixes. For any random draws, clock and
    map order, a run of fewer than 10000 requests completes; it counts every
    request, its misses are exactly the distinct prefix hashes other than the
    warmed-up one, all others are hits, and the cache ends with those hashes and
    the warmed-up one: nothing is evicted. *)
Theorem scenario_counts (warmup : env) (requests : nat → env) (s : Scenario) :
  (0 ≤ SystemPromptLen s)%Z → (0 ≤ NumRequests s < 10000)%Z →
  ∃ r, RunScenario warmup requests s = Some r ∧
    let m := Z.of_nat (size (other_hashes requests s)) in
    TotalRequests (res_Stats r) = NumRequests s ∧
    CacheMisses (res_Stats r) = m ∧
    CacheHits (res_Stats r) = (NumRequests s - m)%Z ∧
    EntriesStored (res_Stats r) = (1 + m)%Z ∧
    WithCacheCost r = fmul (CostUSD_of (sc_Model s) (SystemPromptLen s)) (float_of_int m).
Proof.
  intros Hp Hn. destruct (scenario_run warmup requests s Hn) as (Hc & Ht & Hmis & Hd).
  unfold RunScenario. rewrite (proj2 (Z.ltb_ge _ _) Hp). eexists. split; [reflexivity|].
  cbn [res_Stats WithCacheCost]. fold (warm_cache warmup s).
  destruct (Stats_spec _ Hc) as (H1 & H2 & H3 & H4); [rewrite Ht; unfold int64_max; lia|].
  rewrite H1, H2, H3, H4, Ht, Hmis, Hd. cbv zeta. split_and!; try done.
  assert (shared_hash s ∉ other_hashes requests s) by (unfold other_hashes; apply not_elem_of_difference; right; by apply elem_of_singleton).
  rewrite size_union, size_singleton; [lia|]. by apply disjoint_singleton_l.
Qed.

(** *** The first default scenario *)

(** [rng.Float64()] draws below one. *)
Definition coins_below_one (requests : nat → env) : Prop :=
  ∀ i, SFltb (coin (requests i)) (float_of_int 1) = true.

(** A scenario with reuse rate 1.0 reports a saving of exactly 100 percent.
    The customer-service scenario never misses, whatever the draws, so its cost
    with caching is zero dollars: the one computation of the shared prefix, the
    warm-up, is not charged. *)
Theorem full_reuse_saves_everything (warmup : env) (requests : nat → env) (s : Scenario) :
  coins_below_one requests → s ∈ take 1 DefaultScenarios →
  ∃ r, RunScenario warmup requests s = Some r ∧
    CacheMisses (res_Stats r) = 0%Z ∧ CacheHits (res_Stats r) = 500%Z ∧
    WithCacheCost r = fzero ∧ SavingsPct r = float_of_int 100.
Proof.
  intros Hcoin Hs. apply list_elem_of_singleton in Hs.
  destruct (scenario_run warmup requests s) as (Hc & Ht & Hmis & _); [by subst|].
  assert (Hnone : other_hashes requests s = ∅).
  { unfold other_hashes. apply set_eq. intros x. rewrite elem_of_difference, elem_of_list_to_set.
    split; [|by intros ?%elem_of_empty]. intros [(i & -> & _)%list_elem_of_fmap_1 Hne]. exfalso. apply Hne.
    apply elem_of_singleton. unfold prefix_of_request, shared_hash.
    assert (PrefixReuseRate s = float_of_int 1) as -> by by subst.
    by rewrite Hcoin. }
  unfold RunScenario. replace (SystemPromptLen s <? 0)%Z with false by by subst.
  eexists. split; [reflexivity|]. cbn [res_Stats WithCacheCost SavingsPct]. fold (warm_cache warmup s).
  destruct (Stats_spec _ Hc) as (_ & H2 & H3 & _); [rewrite Ht; subst; done|].
  rewrite H2, H3, Ht, Hmis, Hnone. clear -Hs. subst s. split; [done|]. split; [done|].
  split; vm_compute; reflexivity.
Qed.

(** *** Retrieval-augmented generation *)

(** The tokens of a prefix, without the capacity check. *)
Definition prefix_tokens (queryTokens : Z) (docIndices : list Z) : list Z :=
  concat (map (λ idx, replicate 8 (wrap64 (500000 + idx))) docIndices) ++
  map (λ j, wrap64 (900000 + Z.of_nat j)) (seq 0 (Z.to_nat queryTokens)).

Definition index_ok (idx : Z) : Prop := (0 ≤ idx < 2 ^ 62)%Z.

Lemma marker_inj (l l' : list Z) (q q' : list Z) :
  Forall index_ok l → Forall index_ok l' → length l = length l' →
  concat (map (λ idx, replicate 8 (wrap64 (500000 + idx))) l) ++ q =
  concat (map (λ idx, replicate 8 (wrap64 (500000 + idx))) l') ++ q' → l = l'.
Proof.
  intros Hl. revert l'. induction Hl as [|x l Hx Hl IH]; intros [|x' l'] Hl' Hlen; try done.
  apply Forall_cons in Hl' as [Hx' Hl']. unfold index_ok in *. simpl.
  intros [= Hw _ _ _ _ _ _ _ Heq].
  rewrite !wrap64_id in Hw by (unfold int64_min, int64_max; lia).
  f_equal; [lia|]. apply IH; [done| |done]. by injection Hlen.
Qed.

Lemma prefix_tokens_inj n l l' :
  Forall index_ok l → Forall index_ok l' → length l = length l' →
  prefix_tokens n l = prefix_tokens n l' → l = l'.
Proof. apply marker_inj. Qed.

Lemma size_image {A} `{Countable A} (g : A → string) (l : list A) :
  (∀ x y, x ∈ l → y ∈ l → g x = g y → x = y) →
  size (list_to_set (g <$> l) : gset string) = size (list_to_set l : gset A).
Proof.
  induction l as [|x l IH]; intros Hg; [done|]. rewrite fmap_cons, !list_to_set_cons.
  assert (IH' : size (list_to_set (g <$> l) : gset string) = size (list_to_set l : gset A))
    by (apply IH; intros; apply Hg; set_solver).
  destruct (decide (x ∈ l)) as [Hx|Hx].
  - rewrite !subseteq_union_1_L; [done|..].
    + apply singleton_subseteq_l, elem_of_list_to_set. done.
    + apply singleton_subseteq_l, elem_of_list_to_set. by apply list_elem_of_fmap_2.
  - rewrite !size_union, !size_singleton; [lia|..].
    + apply disjoint_singleton_l. by rewrite elem_of_list_to_set.
    + apply disjoint_singleton_l. rewrite elem_of_list_to_set.
      intros (y & Hy & Hin)%list_elem_of_fmap_1. apply Hx.
      rewrite (Hg x y); [done|set_solver|set_solver|done].
Qed.

Lemma length_doc_indices cfg e : length (doc_indices cfg e) = Z.to_nat (TopK cfg).
Proof.
  unfold doc_indices. rewrite (Permutation_length (merge_sort_Permutation Z.le _)).
  by rewrite length_map, length_seq.
Qed.

Lemma length_omap_le {A B} (f : A → option B) (l : list A) : length (omap f l) ≤ length l.
Proof. induction l as [|x l IH]; csimpl; [done|]. destruct (f x); csimpl; lia. Qed.

Lemma buildPrefixTokens_spec cfg store e :
  (0 ≤ TopK cfg)%Z → (0 ≤ QueryTokens cfg)%Z → (TopK cfg * 8 + QueryTokens cfg ≤ int64_max)%Z →
  buildPrefixTokens (Retrieve store (doc_indices cfg e)) (QueryTokens cfg) (doc_indices cfg e)
  = Some (prefix_tokens (QueryTokens cfg) (doc_indices cfg e)).
Proof.
  intros Hk Hq Hmax. unfold buildPrefixTokens.
  assert (Hlen : length (Retrieve store (doc_indices cfg e)) ≤ length (doc_indices cfg e))
    by apply length_omap_le. rewrite length_doc_indices in Hlen.
  rewrite wrap64_id by (unfold int64_min in *; lia). by rewrite (proj2 (Z.ltb_ge _ _)) by lia.
Qed.

Lemma doc_indices_ok cfg e :
  (∀ j, index_ok (intn e j)) → Forall index_ok (doc_indices cfg e).
Proof.
  intros Hok. unfold doc_indices. rewrite (merge_sort_Permutation Z.le). apply Forall_forall.
  intros x (j & -> & _)%list_elem_of_fmap_1. apply Hok.
Qed.

Section Rag.
Context (cfg : RAGConfig) (requests : nat → env).

(** A workload the simulator accepts, with room in the cache for every query. *)
Record rag_ok : Prop := {
  ok_docs : (0 ≤ NumDocuments cfg)%Z;
  ok_topk : (0 ≤ TopK cfg)%Z;
  ok_query : (0 ≤ QueryTokens cfg)%Z;
  ok_size : (TopK cfg * 8 + QueryTokens cfg ≤ int64_max)%Z;
  ok_zipf : SFleb (fadd (ZipfExponent cfg) (float_of_int 1)) (float_of_int 1) = false;
  ok_requests : (0 ≤ rag_NumRequests cfg ≤ 100000)%Z;
  ok_draws : ∀ i j, index_ok (intn (requests i) j)
}.

(** The documents the queries retrieve, each with its repetitions, in order. *)
Definition retrieved_sets : list (list Z) :=
  (λ i, doc_indices cfg (requests i)) <$> seq 0 (Z.to_nat (rag_NumRequests cfg)).

(** No two of the prefixes of this run collide in the truncated digest. *)
Definition no_collision : Prop :=
  ∀ l l', l ∈ retrieved_sets → l' ∈ retrieved_sets →
    HashPrefix (prefix_tokens (QueryTokens cfg) l) = HashPrefix (prefix_tokens (QueryTokens cfg) l') →
    prefix_tokens (QueryTokens cfg) l = prefix_tokens (QueryTokens cfg) l'.

Definition rag_hash (e : env) : string :=
  HashPrefix (prefix_tokens (QueryTokens cfg) (doc_indices cfg e)).

Definition rag_entry (prefixTokens : Z) (e : env) (now : Clock) : PrefixCacheEntry :=
  newEntryForTokenCount now (rag_hash e) prefixTokens (rag_Model cfg).

Lemma rag_fold store n es pc :
  rag_ok → foldl (rag_request cfg store n) (Some pc) es = Some (foldl (serve rag_hash (rag_entry n)) pc es).
Proof.
  intros Hok. revert pc. induction es as [|e es IH]; intros pc; [done|]. cbn [foldl].
  unfold rag_request at 2. bind.
  rewrite (buildPrefixTokens_spec cfg store e) by apply Hok. bind. apply IH.
Qed.

Lemma retrieved_inj l l' :
  rag_ok → no_collision → l ∈ retrieved_sets → l' ∈ retrieved_sets →
  HashPrefix (prefix_tokens (QueryTokens cfg) l) = HashPrefix (prefix_tokens (QueryTokens cfg) l') → l = l'.
Proof.
  intros Hok Hnc Hl Hl' Heq. pose proof (Hnc l l' Hl Hl' Heq) as Htok.
  apply list_elem_of_fmap_1 in Hl as (i & -> & _). apply list_elem_of_fmap_1 in Hl' as (j & -> & _).
  apply (prefix_tokens_inj (QueryTokens cfg)); [apply doc_indices_ok, Hok..| |done].
  by rewrite !length_doc_indices.
Qed.

Lemma rag_run n :
  rag_ok → no_collision →
  let pc := foldl (serve rag_hash (rag_entry n)) (NewPrefixCache 100000)
              (map requests (seq 0 (Z.to_nat (rag_NumRequests cfg)))) in
  counters_ok pc ∧ totalRequests pc = rag_NumRequests cfg ∧
  misses pc = Z.of_nat (size (list_to_set retrieved_sets : gset (list Z))).
Proof.
  intros Hok Hnc. pose proof (ok_requests Hok) as Hn. set (es := map requests _).
  assert (Hlen : Z.of_nat (length es) = rag_NumRequests cfg)
    by (unfold es; rewrite length_map, length_seq; lia).
  destruct (serve_run rag_hash (rag_entry n) (λ _ _, eq_refl) es (NewPrefixCache 100000))
    as (Hc & Ht & _ & Hmis); [done|cbn [NewPrefixCache totalRequests]; unfold int64_max; lia
        |cbn [NewPrefixCache entries maxSize]; rewrite map_size_empty; lia|].
  cbv zeta. split; [done|]. split; [rewrite Ht, Hlen; done|]. rewrite Hmis. cbn [NewPrefixCache misses entries totalRequests cacheHits].
  rewrite dom_empty_L. autorewrite with go.
  assert (Hh : rag_hash <$> es = (λ l, HashPrefix (prefix_tokens (QueryTokens cfg) l)) <$> retrieved_sets).
  { unfold es, retrieved_sets. by rewrite <-list_fmap_compose, <-list_fmap_compose. }
  rewrite Hh, size_image; [done|]. intros l l' Hl Hl'. by apply retrieved_inj.
Qed.

(** The RAG simulation misses once per distinct retrieval. Where the
    digests of the run do not collide, a query misses exactly when the documents
    it retrieved, counted with repetitions but whatever the order of the draws,
    were not retrieved before: the reported misses are the number of distinct
    retrievals, and all other queries are hits. *)
Theorem rag_misses_distinct_sets (start : Clock) :
  rag_ok → no_collision →
  ∃ r, RunRAGSimulation start requests cfg = Some r ∧
    let m := Z.of_nat (size (list_to_set retrieved_sets : gset (list Z))) in
    TotalRequests (rr_Stats r) = rag_NumRequests cfg ∧
    CacheMisses (rr_Stats r) = m ∧
    CacheHits (rr_Stats r) = (rag_NumRequests cfg - m)%Z ∧
    WithCacheUSD r = fmul (CostPerMissUSD r) (float_of_int m).
Proof.
  intros Hok Hnc. unfold RunRAGSimulation, NewDocumentStore.
  rewrite (proj2 (Z.ltb_ge _ _) (ok_docs Hok)). bind.
  rewrite (proj2 (Z.ltb_ge _ _) (ok_topk Hok)), (ok_zipf Hok). rewrite andb_false_l, orb_false_r, andb_false_r.
  rewrite rag_fold by done. bind.
  set (n := wrap64 _). destruct (rag_run n Hok Hnc) as (Hc & Ht & Hmis).
  eexists. split; [reflexivity|]. cbn [rr_Stats WithCacheUSD CostPerMissUSD].
  destruct (Stats_spec _ Hc) as (H1 & H2 & H3 & _);
    [rewrite Ht; pose proof (ok_requests Hok); unfold int64_max; lia|].
  rewrite H1, H2, H3, Ht, Hmis. done.
Qed.
End Rag.

(** ** Concrete runs *)

(** An environment: the coin, the draws, a clock that stands at [t], and the
    order of [map_to_list]. *)
Definition env_at (c : float64) (draws : list Z) (t : Time) : env :=
  mk_env c (λ j, default 0%Z (draws !! j)) (λ _, t) map_to_list.

Definition entry_at (h : string) (t : Time) : PrefixCacheEntry := mk_Entry h "m" 1 fzero fzero 0 t t.

(** Two entries in a cache for two. *)
Definition full_cache : PrefixCache :=
  Store map_to_list (entry_at "b" 5) (Store map_to_list (entry_at "a" 9) (NewPrefixCache 2)).

Lemma store_evicts_oldest_witness :
  ∃ es k e, entries (Store map_to_list (entry_at "c" 10) full_cache) = <["c" := entry_at "c" 10]> es ∧
    entries full_cache !! k = Some e ∧ es = delete k (entries full_cache) ∧
    (LastAccessedAt e ≤ 5)%Z.
Proof.
  destruct (store_evicts_oldest map_to_list (entry_at "c" 10) full_cache) as (es & Hes & Hev & _).
  - intros m. reflexivity.
  - vm_compute. reflexivity.
  - intros Heq. apply (f_equal (lookup "a")) in Heq. vm_compute in Heq. discriminate Heq.
  - destruct (decide _) as [_|Hlt]; [|exfalso; apply Hlt; vm_compute; discriminate].
    destruct Hev as (k & e & Hk & Hdel & Hmin). exists es, k, e.
    split; [exact Hes|]. split; [exact Hk|]. split; [exact Hdel|].
    apply (Hmin "b" (entry_at "b" 5)). vm_compute. reflexivity.
Defined.

(** Storing a prefix that is already cached in a full cache evicts another one:
    the capacity test does not look whether the key is new. *)
Theorem store_evicts_for_cached_prefix :
  map_to_list (PrefixHash <$> entries (Store map_to_list (entry_at "a" 10) full_cache)) = [("a", "a")].
Proof. vm_compute. reflexivity. Qed.

Definition small_scenario : Scenario := mk_Scenario "small" "" "" 2 0 3 (decimal 5 1) Llama3_8B.

(** Shared, unique, and the same unique prefix again. *)
Definition small_requests (i : nat) : env :=
  match i with
  | 0 => env_at (decimal 1 1) [] 10
  | _ => env_at (decimal 9 1) [4; 7]%Z 20
  end.

Lemma scenario_counts_witness :
  ∃ r, RunScenario (env_at fzero [] 0) small_requests small_scenario = Some r ∧
    TotalRequests (res_Stats r) = 3%Z ∧ CacheMisses (res_Stats r) = 1%Z ∧
    CacheHits (res_Stats r) = 2%Z ∧ EntriesStored (res_Stats r) = 2%Z.
Proof.
  destruct (scenario_counts (env_at fzero [] 0) small_requests small_scenario) as (r & Hr & H1 & H2 & H3 & H4 & _).
  - vm_compute. discriminate.
  - split; [vm_compute; discriminate|vm_compute; reflexivity].
  - assert (Hm : size (other_hashes small_requests small_scenario) = 1) by (vm_compute; reflexivity).
    rewrite Hm in *. exists r. split; [exact Hr|]. split; [exact H1|]. split; [exact H2|].
    split; [exact H3|exact H4].
Defined.

Lemma full_reuse_saves_everything_witness :
  ∃ r, RunScenario (env_at fzero [] 0) (λ i, env_at (decimal 5 1) [] (Z.of_nat i))
         (mk_Scenario "Customer Service Bot"
            "500 users share the same 512-token system prompt. User messages vary."
            "SaaS companies (Salesforce, HubSpot, Zendesk)" 512 64 500 (float_of_int 1) Llama3_70B) = Some r ∧
    SavingsPct r = float_of_int 100.
Proof.
  edestruct (full_reuse_saves_everything (env_at fzero [] 0) (λ i, env_at (decimal 5 1) [] (Z.of_nat i)))
    as (r & Hr & _ & _ & _ & Hs).
  - intros i. reflexivity.
  - apply list_elem_of_here.
  - exists r. split; [exact Hr|exact Hs].
Defined.

Definition small_rag : RAGConfig := mk_RAG Llama3_8B 5 8 2 1 3 (decimal 12 1) 100.

(** The sets {1, 2}, {1, 2} drawn the other way round, and {0, 3}. *)
Definition rag_draws (i : nat) : env :=
  env_at fzero (match i with 0 => [2; 1]%Z | 1 => [1; 2]%Z | _ => [0; 3]%Z end) 0.

Lemma rag_sets : retrieved_sets small_rag rag_draws = [[1; 2]; [1; 2]; [0; 3]]%Z.
Proof. vm_compute. reflexivity. Qed.

Lemma rag_draws_differ :
  HashPrefix (prefix_tokens 1 [1; 2]%Z) ≠ HashPrefix (prefix_tokens 1 [0; 3]%Z).
Proof. apply (bool_decide_eq_false_1 (_ = _)). vm_compute. reflexivity. Qed.

Lemma small_no_collision : no_collision small_rag rag_draws.
Proof.
  intros l l'. rewrite rag_sets. change (QueryTokens small_rag) with 1%Z.
  pose proof rag_draws_differ as Hne. rewrite !elem_of_cons, !elem_of_nil.
  intros [->|[->|[->|[]]]] [->|[->|[->|[]]]] Heq; try reflexivity; exfalso;
    [exact (Hne Heq)|exact (Hne Heq)|exact (Hne (eq_sym Heq))|exact (Hne (eq_sym Heq))].
Qed.

Lemma small_rag_ok : rag_ok small_rag rag_draws.
Proof.
  split; [vm_compute; discriminate..|vm_compute; reflexivity|split; vm_compute; discriminate|].
  intros i j. unfold rag_draws, env_at, index_ok. simpl.
  destruct i as [|[|i]]; destruct j as [|[|j]]; simpl; rewrite ?lookup_nil; simpl; lia.
Qed.

Lemma rag_misses_distinct_sets_witness :
  ∃ r, RunRAGSimulation (λ _, 0%Z) rag_draws small_rag = Some r ∧
    TotalRequests (rr_Stats r) = 3%Z ∧ CacheMisses (rr_Stats r) = 2%Z ∧ CacheHits (rr_Stats r) = 1%Z.
Proof.
  destruct (rag_misses_distinct_sets small_rag rag_draws (λ _, 0%Z) small_rag_ok small_no_collision)
    as (r & Hr & H1 & H2 & H3 & _).
  assert (Hm : size (list_to_set (retrieved_sets small_rag rag_draws) : gset (list Z)) = 2)
    by (rewrite rag_sets; vm_compute; reflexivity).
  rewrite Hm in *. exists r. split; [exact Hr|]. split; [exact H1|]. split; [exact H2|exact H3].
Defined.

(** Thousands separators count the sign of a negative number as a digit, and
    the money format loses the sign of an amount below one dollar. *)
Theorem formatting_of_negative_amounts :
  formatInt 1234567 = "1,234,567" ∧ formatInt (-100) = "-,100" ∧
  formatMoney (decimal (-5) 1) = Some "0.50".
Proof. vm_compute. done. Qed.
End Llm.
