(* ===== verification/Benchmark.v ===== *)
(** The benchmarks of [src/internal/benchmark]: a workload of reads and writes
    against a cache with each eviction policy ([eviction.go]) and with each
    invalidation strategy ([invalidation.go]), and the statistics they report. *)
From S2P Require Import Prelude Policy Lru Lfu TtlPolicy RandomPolicy Cache Node Json Invalidation GoNumbers.
From Stdlib Require Import SpecFloat.

Module Benchmark.

Record EvictionResult := mk_EvictionResult {
  PolicyName : string;
  HitCount : Z;
  MissCount : Z;
  EvictionCount : Z;
  MeanLatencyMs : float64;
  P99LatencyMs : option float64;
  Error : string
}.

Definition HitRate (r : EvictionResult) : float64 :=
  let total := wrap64 (HitCount r + MissCount r) in
  if (total =? 0)%Z then fzero
  else fmul (fdiv (float_of_int (HitCount r)) (float_of_int total)) (float_of_int 100).

Record EvictionBenchmarkConfig := mk_Config {
  CacheCapacity : Z;
  TotalOps : Z;
  ReadRatio : float64;
  KeySpaceSize : Z;
  ZipfExponent : float64
}.

Definition DefaultEvictionConfig : EvictionBenchmarkConfig :=
  mk_Config 100 10000 (decimal 8 1) 500 (float_of_int 1).

Record benchOp := mk_Op { key : string; isRead : bool }.

(** The draws are pairs of a Zipf number and a coin. The Zipf generator is nil,
    and panics when drawn from, for an exponent of zero or less; [make] panics on
    a negative length. *)
Definition generateWorkload (draws : nat → Z * float64) (cfg : EvictionBenchmarkConfig)
    : option (list benchOp) :=
  let nil_zipf := SFleb (fadd (ZipfExponent cfg) (float_of_int 1)) (float_of_int 1) in
  if (TotalOps cfg <? 0)%Z || nil_zipf && (0 <? TotalOps cfg)%Z then None
  else Some (map (λ i, mk_Op ("key:" +:+ pretty (draws i).1) (SFltb (draws i).2 (ReadRatio cfg)))
               (seq 0 (Z.to_nat (TotalOps cfg)))).

Definition mean (values : list float64) : float64 :=
  match values with
  | [] => fzero
  | _ => fdiv (foldl fadd fzero values) (float_of_int (Z.of_nat (length values)))
  end.

(** The inner loop of the insertion sort, on the part already sorted, largest
    first: the new element moves past the ones it is less than. *)
Fixpoint insert_down (x : float64) (sorted : list float64) : list float64 :=
  match sorted with
  | [] => [x]
  | y :: sorted => if SFltb x y then y :: insert_down x sorted else x :: y :: sorted
  end.

Definition insertion_sort (values : list float64) : list float64 :=
  rev (foldl (λ sorted x, insert_down x sorted) [] values).

(** [int(math.Ceil(v))]. *)
Definition int_ceil (v : float64) : option Z :=
  t ← int_of_float v;
  Some (if SFltb (float_of_int t) v then (t + 1)%Z else t).

Definition percentile (values : list float64) (n : float64) : option float64 :=
  match values with
  | [] => Some fzero
  | _ =>
      let sorted := insertion_sort values in
      let len := Z.of_nat (length sorted) in
      c ← int_ceil (fmul (fdiv n (float_of_int 100)) (float_of_int len));
      let idx := wrap64 (c - 1) in
      let idx := if (idx <? 0)%Z then 0%Z else idx in
      let idx := if (len <=? idx)%Z then (len - 1)%Z else idx in
      sorted !! Z.to_nat idx
  end.

(** [[]byte("value")]. *)
Definition bench_value : bytes := [Byte.x76; Byte.x61; Byte.x6c; Byte.x75; Byte.x65].
Definition bench_ttl : Duration := (60 * Second)%Z.

(** [float64(d.Microseconds()) / 1000.0]. *)
Definition latency_ms (d : Duration) : float64 := fdiv (float_of_int (d ÷ 1000)) (float_of_int 1000).

Section Run.
Context {P : Type} `{!EvictionPolicy P}.

Record bench := mk_bench {
  cache : Cache.InMemoryCache P;
  hits : Z;
  misses : Z;
  evictions : Z;
  latencies : list float64
}.

(** One operation; its clock reads [start], the readings of the cache calls, and
    the end. *)
Definition bench_step (cap : Z) (b : bench) (op : benchOp) (now : Clock) : option bench :=
  let lat := latency_ms (now 6 - now 0) in
  if isRead op then
    '(c, found) ← Cache.Get (λ i, now (1 + i)) (key op) (cache b);
    match found with
    | Some _ => Some (mk_bench c (hits b +₆₄ 1)%go (misses b) (evictions b) (latencies b ++ [lat]))
    | None =>
        '(c, _) ← Cache.Set_ (λ i, now (4 + i)) (key op) bench_value bench_ttl c;
        Some (mk_bench c (hits b) (misses b +₆₄ 1)%go (evictions b) (latencies b ++ [lat]))
    end
  else
    let before := Cache.Len (cache b) in
    '(c, _) ← Cache.Set_ (λ i, now (1 + i)) (key op) bench_value bench_ttl (cache b);
    let after := Cache.Len c in
    let evictions := if ((after <=? before) && (cap <=? before))%Z then wrap64 (evictions b + 1) else evictions b in
    Some (mk_bench c (hits b) (misses b) evictions (latencies b ++ [lat])).

Fixpoint bench_run (cap : Z) (b : bench) (ops : list benchOp) (clocks : nat → Clock) : option bench :=
  match ops with
  | [] => Some b
  | op :: ops => b' ← bench_step cap b op (clocks 0); bench_run cap b' ops (λ i, clocks (S i))
  end.

Definition runSingleEvictionBenchmark (policy : P) (cfg : EvictionBenchmarkConfig) (ops : list benchOp)
    (clocks : nat → Clock) : option EvictionResult :=
  b ← bench_run (CacheCapacity cfg) (mk_bench (Cache.New (CacheCapacity cfg) policy) 0 0 0 []) ops clocks;
  Some (mk_EvictionResult (Name (Cache.policy (cache b))) (hits b) (misses b) (evictions b)
          (mean (latencies b)) (percentile (latencies b) (float_of_int 99)) "").
End Run.
Arguments bench P : clear implicits.

(** The four policies in the order they run, each against the same workload;
    [None] is a panic. *)
Definition bench_policies (seed : nat → Z) : option (list Node.AnyPolicy) :=
  lfu ← LFU.NewLFU; ttl ← TTLOnly.NewTTLOnly;
  Some [Node.PLru LRU.NewLRU; Node.PLfu lfu; Node.PTtl ttl; Node.PRandom (Random.NewRandom seed)].

Definition RunEvictionBenchmark (seed : nat → Z) (draws : nat → Z * float64)
    (clocks : nat → nat → Clock) (cfg : EvictionBenchmarkConfig) : option (list EvictionResult) :=
  policies ← bench_policies seed;
  ops ← generateWorkload draws cfg;
  mapM (λ ip, runSingleEvictionBenchmark ip.2 cfg ops (clocks ip.1)) (imap pair policies).

(** ** The invalidation benchmark *)

Record InvalidationResult := mk_InvalidationResult {
  StrategyName : string;
  WriteLatencyMs : float64;
  ReadLatencyMs : float64;
  inv_HitRate : float64;
  inv_Error : string
}.

Record InvalidationBenchmarkConfig := mk_InvConfig {
  inv_CacheCapacity : Z;
  inv_TotalOps : Z;
  WriteRatio : float64;
  inv_KeySpaceSize : Z
}.

Definition DefaultInvalidationConfig : InvalidationBenchmarkConfig :=
  mk_InvConfig 100 5000 (decimal 2 1) 200.

(** The bytes of [{"updated":true}]. *)
Definition updated_value : bytes :=
  String.list_byte_of_string (Json.encode_object [("updated", "true")]).

Record inv_bench := mk_inv_bench {
  ib_cache : Cache.InMemoryCache LRU.LRU;
  ib_tasks : list Invalidation.task;
  ib_hits : Z;
  ib_total : Z;
  ib_reads : list float64;
  ib_writes : list float64
}.

(** The deletions that write-behind left to goroutines: before an operation
    those among the ones that are due run that the scheduler chooses. *)
Fixpoint run_due (now : Time) (fire : Invalidation.task → bool) (tasks : list Invalidation.task)
    (c : Cache.InMemoryCache LRU.LRU) : option (Cache.InMemoryCache LRU.LRU * list Invalidation.task) :=
  match tasks with
  | [] => Some (c, [])
  | t :: tasks =>
      if (Invalidation.not_before t <=? now)%Z && fire t then
        c' ← Invalidation.run_task t c; run_due now fire tasks c'
      else
        '(c', rest) ← run_due now fire tasks c; Some (c', t :: rest)
  end.

(** What happens around one operation: its clock reads the start, the readings
    of the calls, and the end. *)
Record occasion := mk_occasion { at_op : benchOp; at_clock : Clock; at_fire : Invalidation.task → bool }.

Definition inv_step (s : Invalidation.strategy) (b : inv_bench) (o : occasion) : option inv_bench :=
  let now := at_clock o in
  let op := at_op o in
  '(c, tasks) ← run_due (now 0) (at_fire o) (ib_tasks b) (ib_cache b);
  let lat := latency_ms (now 6 - now 0) in
  if isRead op then
    '(c, found) ← Cache.Get (λ i, now (1 + i)) (key op) c;
    match found with
    | Some _ =>
        Some (mk_inv_bench c tasks (ib_hits b +₆₄ 1)%go (ib_total b +₆₄ 1)%go
                (ib_reads b ++ [lat]) (ib_writes b))
    | None =>
        '(c, _) ← Cache.Set_ (λ i, now (4 + i)) (key op) bench_value bench_ttl c;
        Some (mk_inv_bench c tasks (ib_hits b) (ib_total b +₆₄ 1)%go (ib_reads b ++ [lat]) (ib_writes b))
    end
  else
    '(c, t, _) ← Invalidation.OnWrite s (λ i, now (1 + i)) (key op) updated_value c;
    Some (mk_inv_bench c (tasks ++ option_list t) (ib_hits b) (ib_total b) (ib_reads b)
            (ib_writes b ++ [lat])).

Fixpoint inv_run (s : Invalidation.strategy) (b : inv_bench) (os : list occasion) : option inv_bench :=
  match os with
  | [] => Some b
  | o :: os => b' ← inv_step s b o; inv_run s b' os
  end.

Definition inv_start (cfg : InvalidationBenchmarkConfig) : inv_bench :=
  mk_inv_bench (Cache.New (inv_CacheCapacity cfg) LRU.NewLRU) [] 0 0 [] [].

Definition inv_result (s : Invalidation.strategy) (b : inv_bench) : InvalidationResult :=
  mk_InvalidationResult (Invalidation.strategy_Name s) (mean (ib_writes b)) (mean (ib_reads b))
    (if (0 <? ib_total b)%Z then
       fmul (fdiv (float_of_int (ib_hits b)) (float_of_int (ib_total b))) (float_of_int 100)
     else fzero) "".

Definition runSingleInvalidationBenchmark (s : Invalidation.strategy) (cfg : InvalidationBenchmarkConfig)
    (os : list occasion) : option InvalidationResult :=
  inv_result s <$> inv_run s (inv_start cfg) os.

(** The same workload for the three strategies. *)
Definition RunInvalidationBenchmark (draws : nat → Z * float64)
    (clocks : nat → nat → Clock) (fires : nat → nat → Invalidation.task → bool)
    (cfg : InvalidationBenchmarkConfig) : option (list InvalidationResult) :=
  ops ← generateWorkload draws
          (mk_Config 0 (inv_TotalOps cfg) (fsub (float_of_int 1) (WriteRatio cfg)) (inv_KeySpaceSize cfg)
             (float_of_int 1));
  mapM (λ js, runSingleInvalidationBenchmark js.2 cfg
                (imap (λ i op, mk_occasion op (clocks js.1 i) (fires js.1 i)) ops))
    (imap pair [Invalidation.TTL; Invalidation.WriteThrough; Invalidation.WriteBehind]).

(** ** The sample statistics *)

Lemma insert_down_perm x l : insert_down x l ≡ₚ x :: l.
Proof.
  induction l as [|y l IH]; simpl; [done|]. destruct (SFltb x y); [|done].
  rewrite IH. apply Permutation_swap.
Qed.

Lemma insertion_sort_perm l : insertion_sort l ≡ₚ l.
Proof.
  unfold insertion_sort. rewrite <-Permutation_rev.
  assert (H : ∀ acc, foldl (λ sorted x, insert_down x sorted) acc l ≡ₚ l ++ acc).
  { induction l as [|x l IH]; intros acc; [done|]. simpl. rewrite IH, insert_down_perm.
    symmetry. apply Permutation_middle. }
  by rewrite H, app_nil_r.
Qed.

(** A percentile is one of the samples: the clamped index never leaves the
    sorted slice. *)
Lemma percentile_sample l n v : l ≠ [] → percentile l n = Some v → v ∈ l.
Proof.
  intros Hne. unfold percentile. destruct l as [|x l]; [done|].
  destruct (int_ceil _) as [c|]; [|done]. bind. intros Hv%list_elem_of_lookup_2.
  by rewrite insertion_sort_perm in Hv.
Qed.

(** ** Counting *)

Section Counts.
Context {P : Type} `{!EvictionPolicy P, !EvictionPolicySpec P}.

Definition reads (ops : list benchOp) : list benchOp := filter (λ op, isRead op = true) ops.

(** The state of a benchmark after [r] reads and [w] writes. *)
Record bench_ok (cap r w : Z) (b : bench P) : Prop := {
  ok_inv : Cache.cache_inv (cache b);
  ok_cap : Cache.capacity (cache b) = cap;
  ok_bound : Cache.bounded (cache b);
  ok_reads : (hits b + misses b)%Z = r;
  ok_hits : (0 ≤ hits b)%Z;
  ok_misses : (0 ≤ misses b)%Z;
  ok_evictions : (0 ≤ evictions b ≤ w)%Z
}.

Lemma bench_step_ok cap r w b op now :
  bench_ok cap r w b → (1 ≤ cap)%Z → (r < int64_max)%Z → (w < int64_max)%Z →
  ∃ b', bench_step cap b op now = Some b' ∧
        bench_ok cap (if isRead op then r + 1 else r)%Z (if isRead op then w else w + 1)%Z b'.
Proof.
  intros [Hinv Hcap Hb Hr Hh Hm He] Hc Hrmax Hwmax. unfold bench_step.
  destruct (isRead op).
  - destruct (Cache.Get_refines (λ i, now (1 + i)) (key op) (cache b) cap Hinv Hcap)
      as (c & found & -> & Hinv1 & Hcap1 & Hb1 & _). bind.
    destruct found as [v|].
    + eexists. split; [done|].
      split; simpl; [done|done|auto|..]; unwrap64; lia.
    + destruct (Cache.Set_refines (λ i, now (4 + i)) (key op) bench_value bench_ttl c cap Hinv1 Hcap1 Hc)
        as (c' & e & -> & Hinv2 & Hcap2 & Hb2 & _). bind.
      eexists. split; [done|].
      split; simpl; [done|done|auto|..]; unwrap64; lia.
  - destruct (Cache.Set_refines (λ i, now (1 + i)) (key op) bench_value bench_ttl (cache b) cap Hinv Hcap Hc)
      as (c' & e & -> & Hinv2 & Hcap2 & Hb2 & _). bind.
    eexists. split; [done|]. split; simpl; [done|done|auto|done|done|done|].
    destruct (_ && _)%bool; unwrap64; lia.
Qed.

Lemma bench_run_ok cap ops r w b clocks :
  bench_ok cap r w b → (1 ≤ cap)%Z → (0 ≤ r)%Z →
  (r + Z.of_nat (length ops) ≤ int64_max)%Z → (w + Z.of_nat (length ops) ≤ int64_max)%Z →
  ∃ b', bench_run cap b ops clocks = Some b' ∧
        bench_ok cap (r + Z.of_nat (length (reads ops)))
          (w + Z.of_nat (length ops) - Z.of_nat (length (reads ops)))%Z b'.
Proof.
  revert r w b clocks. induction ops as [|op ops IH]; intros r w b clocks Hok Hc Hr0 Hr Hw.
  { exists b. split; [done|]. cbn [reads length filter list_filter].
    rewrite Z.add_0_r, Z.sub_0_r, Z.add_0_r. done. }
  cbn [length] in Hr, Hw. cbn [bench_run].
  destruct (bench_step_ok cap r w b op (clocks 0) Hok Hc) as (b1 & -> & Hok1); [lia|lia|].
  bind.
  destruct (IH _ _ b1 (λ i, clocks (S i)) Hok1 Hc) as (b2 & -> & Hok2); [destruct (isRead op); lia..|].
  exists b2. split; [done|]. unfold reads in *. cbn [length]. rewrite filter_cons.
  destruct (isRead op); [rewrite decide_True by done|rewrite decide_False by done]; cbn [length].
  - replace (r + Z.of_nat (S _))%Z with (r + 1 + Z.of_nat (length (filter (λ op, isRead op = true) ops)))%Z by lia.
    replace (w + _ - _)%Z with (w + Z.of_nat (length ops) - Z.of_nat (length (filter (λ op, isRead op = true) ops)))%Z by lia.
    done.
  - by replace (w + Z.of_nat (S (length ops)))%Z with (w + 1 + Z.of_nat (length ops))%Z by lia.
Qed.

(** The benchmark counts every read once. Against any policy that meets the
    cache's contract the workload runs to its end without a panic, every read is
    a hit or a miss and none is both, and the evictions it reports are at most
    its writes, whatever the clock. *)
Theorem benchmark_counts (pol : P) (cfg : EvictionBenchmarkConfig) (ops : list benchOp)
    (clocks : nat → Clock) :
  policy_wf pol → tracked pol = ∅ → (1 ≤ CacheCapacity cfg)%Z →
  (Z.of_nat (length ops) ≤ int64_max)%Z →
  ∃ r, runSingleEvictionBenchmark pol cfg ops clocks = Some r ∧
    (HitCount r + MissCount r)%Z = Z.of_nat (length (reads ops)) ∧
    (0 ≤ HitCount r)%Z ∧ (0 ≤ MissCount r)%Z ∧
    (0 ≤ EvictionCount r ≤ Z.of_nat (length ops) - Z.of_nat (length (reads ops)))%Z.
Proof.
  intros Hwf Ht Hc Hlen. destruct (Cache.inv_new (CacheCapacity cfg) pol Hwf Ht Hc) as (Hinv & Hb & _).
  destruct (bench_run_ok (CacheCapacity cfg) ops 0 0
    (mk_bench (Cache.New (CacheCapacity cfg) pol) 0 0 0 []) clocks) as (b & Hrun & Hok);
    [by split|done|done|lia|lia|].
  unfold runSingleEvictionBenchmark. rewrite Hrun. bind.
  eexists. split; [done|]. destruct Hok. simpl in *. lia.
Qed.
End Counts.

(** ** The invalidation benchmark counts its reads *)

Definition is_read (o : occasion) : Prop := isRead (at_op o) = true.

Record inv_ok (cap r : Z) (b : inv_bench) : Prop := {
  iok_inv : Cache.cache_inv (ib_cache b);
  iok_cap : Cache.capacity (ib_cache b) = cap;
  iok_total : ib_total b = r;
  iok_hits : (0 ≤ ib_hits b ≤ r)%Z
}.

Lemma run_due_ok now fire tasks c cap :
  Cache.cache_inv c → Cache.capacity c = cap →
  ∃ c' rest, run_due now fire tasks c = Some (c', rest) ∧ Cache.cache_inv c' ∧ Cache.capacity c' = cap.
Proof.
  revert c. induction tasks as [|t tasks IH]; intros c Hinv Hcap; simpl; [by eexists _, _|].
  destruct (_ && _).
  - unfold Invalidation.run_task.
    destruct (Cache.Delete_spec (Invalidation.task_key t) c Hinv) as (c' & -> & Hinv' & Hcap' & _).
    bind. apply IH; [done|congruence].
  - destruct (IH c Hinv Hcap) as (c' & rest & -> & ? & ?). by eexists _, _.
Qed.

Lemma inv_step_ok s cap r b o :
  inv_ok cap r b → (1 ≤ cap)%Z → (r < int64_max)%Z →
  ∃ b', inv_step s b o = Some b' ∧ inv_ok cap (if isRead (at_op o) then r + 1 else r)%Z b'.
Proof.
  intros [Hinv Hcap Ht Hh] Hc Hr. unfold inv_step.
  destruct (run_due_ok (at_clock o 0) (at_fire o) (ib_tasks b) (ib_cache b) cap Hinv Hcap)
    as (c & tasks & -> & Hinv1 & Hcap1). bind. destruct (isRead (at_op o)).
  - destruct (Cache.Get_refines (λ i, at_clock o (1 + i)) (key (at_op o)) c cap Hinv1 Hcap1)
      as (c2 & found & -> & Hinv2 & Hcap2 & _). bind. destruct found as [v|].
    + eexists. split; [done|]. split; simpl; [done|done|..]; unwrap64; lia.
    + destruct (Cache.Set_refines (λ i, at_clock o (4 + i)) (key (at_op o)) bench_value bench_ttl c2 cap
        Hinv2 Hcap2 Hc) as (c3 & e & -> & Hinv3 & Hcap3 & _). bind.
      eexists. split; [done|]. split; simpl; [done|done|..]; unwrap64; lia.
  - destruct s; cbn [Invalidation.OnWrite]; [by eexists|..|by eexists].
    unfold Invalidation.WriteThrough_OnWrite.
    destruct (Cache.Set_refines (λ i, at_clock o (1 + i)) (key (at_op o)) updated_value
      Invalidation.writeThroughTTL c cap Hinv1 Hcap1 Hc) as (c3 & e & -> & Hinv3 & Hcap3 & _). by eexists.
Qed.

Lemma inv_run_ok s cap os r b :
  inv_ok cap r b → (1 ≤ cap)%Z → (r + Z.of_nat (length os) ≤ int64_max)%Z →
  ∃ b', inv_run s b os = Some b' ∧ inv_ok cap (r + Z.of_nat (length (filter is_read os))) b'.
Proof.
  revert r b. induction os as [|o os IH]; intros r b Hok Hc Hr.
  { exists b. split; [done|]. by rewrite Z.add_0_r. }
  cbn [length] in Hr. cbn [inv_run].
  destruct (inv_step_ok s cap r b o Hok Hc) as (b1 & -> & Hok1); [lia|]. bind.
  destruct (IH _ b1 Hok1 Hc) as (b2 & -> & Hok2); [destruct (isRead (at_op o)); lia|].
  exists b2. split; [done|]. rewrite filter_cons. destruct (decide (is_read o)) as [E|E].
  2:{ unfold is_read in E. by rewrite (not_true_is_false _ E) in Hok2. }
  rewrite E in Hok2. cbn [length]. by replace (r + Z.of_nat (S _))%Z with (r + 1 + Z.of_nat (length (filter is_read os)))%Z by lia.
Qed.

(** What the reads see: the cache, the tasks, and the counts. *)
Definition seen (b : inv_bench) : Cache.InMemoryCache LRU.LRU * list Invalidation.task * Z * Z * list float64 :=
  (ib_cache b, ib_tasks b, ib_hits b, ib_total b, ib_reads b).

Lemma ttl_step_write b o :
  isRead (at_op o) = false → ib_tasks b = [] →
  ∃ b', inv_step Invalidation.TTL b o = Some b' ∧ seen b' = seen b.
Proof. intros Ho Ht. unfold inv_step. rewrite Ht, Ho. simpl. eexists. split; [done|]. unfold seen. by rewrite Ht. Qed.

Lemma ttl_step_read b b' o :
  isRead (at_op o) = true → ib_tasks b = [] → seen b = seen b' →
  seen <$> inv_step Invalidation.TTL b o = seen <$> inv_step Invalidation.TTL b' o ∧
  ∀ b1, inv_step Invalidation.TTL b o = Some b1 → ib_tasks b1 = [].
Proof.
  intros Ho Ht Hs. destruct b as [c ts h t rs ws], b' as [c' ts' h' t' rs' ws'].
  injection Hs as <- <- <- <- <-. simpl in Ht. subst ts. unfold inv_step. simpl. rewrite Ho.
  destruct (Cache.Get _ _ c) as [[c2 [v|]]|]; simpl; [by split; [|intros b1 [= <-]]| |done].
  destruct (Cache.Set_ _ _ _ _ c2) as [[c3 e]|]; simpl; [|done]. by split; [|intros b1 [= <-]].
Qed.

(** With the TTL strategy a write does nothing, so the reads alone decide. *)
Lemma ttl_run_reads os b b' :
  ib_tasks b = [] → seen b = seen b' →
  seen <$> inv_run Invalidation.TTL b os = seen <$> inv_run Invalidation.TTL b' (filter is_read os).
Proof.
  revert b b'. induction os as [|o os IH]; intros b b' Ht Hs; [simpl; by rewrite Hs|].
  rewrite filter_cons. cbn [inv_run]. destruct (decide (is_read o)) as [Ho|Ho%not_true_is_false].
  - destruct (ttl_step_read b b' o Ho Ht Hs) as [Heq Hts]. cbn [inv_run].
    destruct (inv_step _ b o) as [b1|], (inv_step _ b' o) as [b1'|]; try done.
    apply (inj Some) in Heq. cbn [mbind option_bind].
    apply IH; [by apply Hts|done].
  - destruct (ttl_step_write b o Ho Ht) as (b1 & -> & Hb1). bind. apply IH; [|congruence].
    unfold seen in Hb1. congruence.
Qed.

(** What the invalidation benchmark measures. For every strategy the
    workload runs to its end without a panic however the background deletions
    are scheduled, every read is counted once and the hits are among the reads;
    with the TTL strategy the hit rate and the read latencies are those of the
    reads alone, as if the writes had not been there. *)
Theorem invalidation_benchmark_exact (s : Invalidation.strategy) (cfg : InvalidationBenchmarkConfig)
    (os : list occasion)
    (Hcap : (1 ≤ inv_CacheCapacity cfg)%Z) (Hlen : (Z.of_nat (length os) ≤ int64_max)%Z) :
  ∃ b, inv_run s (inv_start cfg) os = Some b ∧
    runSingleInvalidationBenchmark s cfg os = Some (inv_result s b) ∧
    ib_total b = Z.of_nat (length (filter is_read os)) ∧ (0 ≤ ib_hits b ≤ ib_total b)%Z ∧
    (s = Invalidation.TTL → ∃ b', inv_run s (inv_start cfg) (filter is_read os) = Some b' ∧
       inv_HitRate (inv_result s b) = inv_HitRate (inv_result s b') ∧
       ReadLatencyMs (inv_result s b) = ReadLatencyMs (inv_result s b')).
Proof.
  destruct (Cache.inv_new (inv_CacheCapacity cfg) LRU.NewLRU) as (Hinv & _ & _);
    [exists []; apply LRU.recency_new|done|done|].
  destruct (inv_run_ok s (inv_CacheCapacity cfg) os 0 (inv_start cfg)) as (b & Hrun & [_ _ Ht Hh]);
    [by split|done|lia|].
  exists b. split; [done|]. unfold runSingleInvalidationBenchmark. rewrite Hrun.
  split; [done|]. split; [done|]. split; [lia|]. intros ->.
  pose proof (ttl_run_reads os (inv_start cfg) (inv_start cfg) eq_refl eq_refl) as Heq.
  rewrite Hrun in Heq. destruct (inv_run _ _ (filter is_read os)) as [b'|]; [|done].
  exists b'. split; [done|]. injection Heq as _ _ Eh Et Er. unfold inv_result. simpl.
  by rewrite Eh, Et, Er.
Qed.

(** ** Concrete workloads *)

Definition read_write_read : list occasion :=
  [mk_occasion (mk_Op "a" true) (λ _, Second) (λ _, true);
   mk_occasion (mk_Op "a" false) (λ _, (2 * Second)%Z) (λ _, true);
   mk_occasion (mk_Op "a" true) (λ _, (3 * Second)%Z) (λ _, true)].

(** The deletion that the write left behind turns the second read into a miss. *)
Lemma invalidation_benchmark_exact_witness :
  (∃ b, inv_run Invalidation.WriteBehind (inv_start DefaultInvalidationConfig) read_write_read = Some b ∧
        ib_total b = 2%Z) ∧
  (ib_hits <$> inv_run Invalidation.WriteBehind (inv_start DefaultInvalidationConfig) read_write_read = Some 0%Z) ∧
  (ib_hits <$> inv_run Invalidation.TTL (inv_start DefaultInvalidationConfig) read_write_read = Some 1%Z).
Proof.
  split; [|split; vm_compute; reflexivity].
  destruct (invalidation_benchmark_exact Invalidation.WriteBehind DefaultInvalidationConfig read_write_read)
    as (b & Hrun & _ & Ht & _).
  - vm_compute. discriminate.
  - vm_compute. discriminate.
  - exists b. split; [exact Hrun|exact Ht].
Defined.

Definition second_clock (i : nat) : Clock := λ _, (Z.of_nat i * Second)%Z.

Definition one_entry : EvictionBenchmarkConfig := mk_Config 1 2 (decimal 8 1) 2 (float_of_int 1).

Definition write_twice : list benchOp := [mk_Op "a" false; mk_Op "a" false].
Definition write_then_miss : list benchOp := [mk_Op "a" false; mk_Op "b" true].

Lemma benchmark_counts_witness :
  ∃ r, runSingleEvictionBenchmark LRU.NewLRU one_entry write_then_miss second_clock = Some r ∧
       (HitCount r + MissCount r)%Z = 1%Z.
Proof.
  destruct (benchmark_counts LRU.NewLRU one_entry write_then_miss second_clock) as (r & Hr & Hsum & _).
  - exists []. apply LRU.recency_new.
  - reflexivity.
  - vm_compute. discriminate.
  - vm_compute. discriminate.
  - exists r. split; [exact Hr|exact Hsum].
Defined.

(** The eviction counter of the benchmark does not count evictions. In a
    cache of one entry, writing one key twice evicts nothing and is reported as
    an eviction, since the length did not grow; writing a key and then missing
    another evicts the first and reports none, since only writes are counted. *)
Theorem benchmark_miscounts_evictions :
  (EvictionCount <$> runSingleEvictionBenchmark LRU.NewLRU one_entry write_twice second_clock) = Some 1%Z ∧
  (EvictionCount <$> runSingleEvictionBenchmark LRU.NewLRU one_entry write_then_miss second_clock) = Some 0%Z ∧
  (λ b, dom (Cache.entries (cache b))) <$>
    bench_run 1 (mk_bench (Cache.New 1 LRU.NewLRU) 0 0 0 []) write_then_miss second_clock = Some {["b"]}.
Proof. vm_compute. done. Qed.
End Benchmark.
