(* ===== verification/Report.v ===== *)
(** What the command-line tools print: the tables of
    [src/internal/benchmark/report.go], the reports of [src/internal/llm] and
    the commands [src/cmd/benchmark] and [src/cmd/llmsim], as the text they write
    to standard output; and that the numbers in it are correctly rounded. *)
From S2P Require Import Prelude GoStrings Json GoFmt GoNumbers Decimal Llm Benchmark.
From Stdlib Require Import SpecFloat Ascii.

Module Report.
Import GoFmt.

(** ** Formatting *)

(** [utf8.RuneCountInString]. *)
Fixpoint rune_count (skip : nat) (s : string) : nat :=
  match s with
  | EmptyString => 0
  | String a s =>
      match skip with
      | S skip => rune_count skip s
      | 0 => S (rune_count (default 0 (Json.rune_tail a s)) s)
      end
  end.

Fixpoint Repeat (s : string) (n : nat) : string :=
  match n with 0 => "" | S n => s +:+ Repeat s n end.

(** [%<w>s] and [%-<w>s]: a width counts characters. *)
Definition right (w : nat) (s : string) : string := Repeat " " (w - rune_count 0 s) +:+ s.
Definition left (w : nat) (s : string) : string := s +:+ Repeat " " (w - rune_count 0 s).

(** [%.<prec>f] and [%<w>.<prec>f]. *)
Abbreviation fixed := format_fixed (only parsing).
Definition fixed_right (w prec : nat) (v : float64) : string := right w (format_fixed prec v).

(** A line, and lines one after the other. *)
Definition println (s : string) : string := s +:+ nl.
Definition lines (l : list string) : string := foldr String.append "" (map println l).

Definition hundred : float64 := float_of_int 100.

(** ** The benchmark tables *)

Definition eviction_row (r : Benchmark.EvictionResult) : option string :=
  if decide (Benchmark.Error r = "") then
    p99 ← Benchmark.P99LatencyMs r;
    let hit := Benchmark.HitRate r in
    Some ("║ " +:+ left 10 (Benchmark.PolicyName r) +:+ " ║  " +:+ fixed_right 5 1 hit +:+ "%  ║  " +:+
          fixed_right 5 1 (fsub hundred hit) +:+ "%  ║ " +:+ right 9 (pretty (Benchmark.EvictionCount r)) +:+
          " ║ " +:+ fixed_right 8 3 (Benchmark.MeanLatencyMs r) +:+ " ║ " +:+ fixed_right 8 3 p99 +:+ " ║")
  else Some ("║ " +:+ left 10 (Benchmark.PolicyName r) +:+ " ║ ERROR: " +:+ left 55 (Benchmark.Error r) +:+ " ║").

Definition PrintEvictionReport (results : list Benchmark.EvictionResult) : option string :=
  rows ← mapM eviction_row results;
  Some (lines (
    [nl +:+ "╔══════════════════════════════════════════════════════════════════════╗";
     "║              EVICTION POLICY BENCHMARK RESULTS                      ║";
     "╠════════════╦══════════╦══════════╦═══════════╦══════════╦══════════╣";
     "║ Policy     ║ Hit Rate ║Miss Rate ║ Evictions ║ Mean(ms) ║  P99(ms) ║";
     "╠════════════╬══════════╬══════════╬═══════════╬══════════╬══════════╣"] ++ rows ++
    ["╚════════════╩══════════╩══════════╩═══════════╩══════════╩══════════╝"])).

Definition invalidation_row (r : Benchmark.InvalidationResult) : string :=
  if decide (Benchmark.inv_Error r = "") then
    "║ " +:+ left 14 (Benchmark.StrategyName r) +:+ " ║ " +:+ fixed_right 12 3 (Benchmark.WriteLatencyMs r) +:+
    " ║ " +:+ fixed_right 11 3 (Benchmark.ReadLatencyMs r) +:+ " ║ " +:+
    fixed_right 12 1 (Benchmark.inv_HitRate r) +:+ "% ║"
  else "║ " +:+ left 14 (Benchmark.StrategyName r) +:+ " ║ ERROR: " +:+ left 43 (Benchmark.inv_Error r) +:+ " ║".

Definition PrintInvalidationReport (results : list Benchmark.InvalidationResult) : string :=
  lines (
    [nl +:+ "╔══════════════════════════════════════════════════════════════╗";
     "║           INVALIDATION STRATEGY BENCHMARK RESULTS           ║";
     "╠════════════════╦══════════════╦═════════════╦═══════════════╣";
     "║ Strategy       ║ Write(ms)    ║ Read(ms)    ║ Hit Rate      ║";
     "╠════════════════╬══════════════╬═════════════╬═══════════════╣"] ++ map invalidation_row results ++
    ["╚════════════════╩══════════════╩═════════════╩═══════════════╝"]).

(** The line [RunEvictionBenchmark] prints after each policy, and
    [RunInvalidationBenchmark] after each strategy. *)
Definition eviction_progress (r : Benchmark.EvictionResult) : option string :=
  p99 ← Benchmark.P99LatencyMs r;
  let hit := Benchmark.HitRate r in
  Some ("  [" +:+ Benchmark.PolicyName r +:+ "] hit=" +:+ fixed 1 hit +:+ "% miss=" +:+
        fixed 1 (fsub hundred hit) +:+ "% evictions=" +:+ pretty (Benchmark.EvictionCount r) +:+ " mean=" +:+
        fixed 2 (Benchmark.MeanLatencyMs r) +:+ "ms p99=" +:+ fixed 2 p99 +:+ "ms").

Definition invalidation_progress (r : Benchmark.InvalidationResult) : string :=
  "  [" +:+ Benchmark.StrategyName r +:+ "] write=" +:+ fixed 2 (Benchmark.WriteLatencyMs r) +:+ "ms read=" +:+
  fixed 2 (Benchmark.ReadLatencyMs r) +:+ "ms hit=" +:+ fixed 1 (Benchmark.inv_HitRate r) +:+ "%".

(** The lines they print first. *)
Definition eviction_heading (cfg : Benchmark.EvictionBenchmarkConfig) : string :=
  nl +:+ "Eviction Benchmark: capacity=" +:+ pretty (Benchmark.CacheCapacity cfg) +:+ " ops=" +:+
  pretty (Benchmark.TotalOps cfg) +:+ " keyspace=" +:+ pretty (Benchmark.KeySpaceSize cfg) +:+
  " read_ratio=" +:+ fixed 0 (fmul (Benchmark.ReadRatio cfg) hundred) +:+ "%".
Definition invalidation_heading (cfg : Benchmark.InvalidationBenchmarkConfig) : string :=
  nl +:+ "Invalidation Benchmark: capacity=" +:+ pretty (Benchmark.inv_CacheCapacity cfg) +:+
  " ops=" +:+ pretty (Benchmark.inv_TotalOps cfg) +:+ " keyspace=" +:+
  pretty (Benchmark.inv_KeySpaceSize cfg) +:+ " write_ratio=" +:+
  fixed 0 (fmul (Benchmark.WriteRatio cfg) hundred) +:+ "%".

(** [runEviction] and [runInvalidation] of the benchmark command. *)
Definition runEviction (seed : nat → Z) (draws : nat → Z * float64) (clocks : nat → nat → Clock)
    : option string :=
  let cfg := Benchmark.DefaultEvictionConfig in
  results ← Benchmark.RunEvictionBenchmark seed draws clocks cfg;
  progress ← mapM eviction_progress results;
  report ← PrintEvictionReport results;
  Some (lines (eviction_heading cfg :: progress) +:+ report).

Definition runInvalidation (draws : nat → Z * float64) (clocks : nat → nat → Clock)
    (fires : nat → nat → Invalidation.Invalidation.task → bool) : option string :=
  let cfg := Benchmark.DefaultInvalidationConfig in
  results ← Benchmark.RunInvalidationBenchmark draws clocks fires cfg;
  Some (lines (invalidation_heading cfg :: map invalidation_progress results) +:+ PrintInvalidationReport results).

(** [main] of the benchmark command, for the value of the mode flag: what it
    prints, what it writes to the standard error, and the exit code. *)
Definition benchmark_main (IsPrint : string → bool) (mode : string) (seed : nat → Z)
    (draws : nat → Z * float64) (clocks : nat → nat → Clock) (inv_draws : nat → Z * float64)
    (inv_clocks : nat → nat → Clock) (fires : nat → nat → Invalidation.Invalidation.task → bool)
    : option (string * string * Z) :=
  if decide (mode = "eviction") then
    a ← runEviction seed draws clocks; Some (a, "", 0%Z)
  else if decide (mode = "invalidation") then
    b ← runInvalidation inv_draws inv_clocks fires; Some (b, "", 0%Z)
  else if decide (mode = "both") then
    a ← runEviction seed draws clocks;
    b ← runInvalidation inv_draws inv_clocks fires;
    Some (a +:+ b, "", 0%Z)
  else
    Some ("", println ("unknown mode " +:+ Quote IsPrint mode +:+ " — use eviction, invalidation, or both"), 1%Z).

(** ** Durations *)

(** The fraction of [u] below [10^prec], without trailing zeros. *)
Fixpoint trim_zeros (prec : nat) (u : Z) : nat * Z :=
  match prec with
  | 0 => (0, 0%Z)
  | S p => if (u mod 10 =? 0)%Z then trim_zeros p (u / 10)%Z else (prec, u)
  end.

Definition fmtFrac (prec : nat) (u : Z) : string :=
  let p := (10 ^ Z.of_nat prec)%Z in
  match trim_zeros prec (u mod p)%Z with
  | (0, _) => ""
  | (k, f) => "." +:+ pad_zeros k (pretty f)
  end.

(** [Duration.String]. *)
Definition Duration_String (d : Duration) : string :=
  let u := Z.abs d in
  let sign := if (d <? 0)%Z then "-" else "" in
  let with_unit prec unit := pretty (u / 10 ^ Z.of_nat prec)%Z +:+ fmtFrac prec u +:+ unit in
  if (u =? 0)%Z then "0s"
  else if (u <? 1000)%Z then sign +:+ with_unit 0 "ns"
  else if (u <? 1000000)%Z then sign +:+ with_unit 3 "µs"
  else if (u <? Second)%Z then sign +:+ with_unit 6 "ms"
  else
    let secs := (u / Second)%Z in
    let mins := (secs / 60)%Z in
    let hours := (mins / 60)%Z in
    sign +:+
    (if (0 <? hours)%Z then pretty hours +:+ "h" else "") +:+
    (if (0 <? mins)%Z then pretty (mins mod 60)%Z +:+ "m" else "") +:+
    pretty (secs mod 60)%Z +:+ fmtFrac 9 u +:+ "s".

(** [Duration.Round], halves away from zero, saturating. *)
Definition Duration_Round (d m : Duration) : Duration :=
  if (m <=? 0)%Z then d
  else
    let r := Z.rem d m in
    if (d <? 0)%Z then
      let r := (- r)%Z in
      if (r + r <? m)%Z then (d + r)%Z
      else let d1 := (d - m + r)%Z in if (int64_min <=? d1)%Z then d1 else int64_min
    else if (r + r <? m)%Z then (d - r)%Z
    else let d1 := (d + m - r)%Z in if (d1 <=? int64_max)%Z then d1 else int64_max.

(** ** The reports of the simulators *)

Definition FormatTFLOPs (tflops : float64) : string :=
  if SFleb (float_of_int 1000) tflops then fixed 1 (fdiv tflops (float_of_int 1000)) +:+ " PFLOPs"
  else if SFleb (float_of_int 1) tflops then fixed 2 tflops +:+ " TFLOPs"
  else fixed 4 tflops +:+ " TFLOPs".

Definition PrintResults (r : Llm.ScenarioResult) : string :=
  let s := Llm.res_Scenario r in
  let st := Llm.res_Stats r in
  let m := Llm.sc_Model s in
  let sep := Repeat "─" 70 in
  lines
    [nl +:+ sep;
     "  Scenario:   " +:+ Llm.sc_Name s;
     "  Company:    " +:+ Llm.Company s;
     "  Model:      " +:+ Llm.Name m +:+ " (" +:+ fixed 0 (Llm.ParamsBillion m) +:+ "B params)";
     "  Prefix:     " +:+ pretty (Llm.SystemPromptLen s) +:+ " tokens | Requests: " +:+
       pretty (Llm.NumRequests s) +:+ " | Reuse rate: " +:+ fixed 0 (fmul (Llm.PrefixReuseRate s) hundred) +:+ "%";
     sep;
     "  Cache hit rate:      " +:+ fixed 1 (Llm.HitRate st) +:+ "% (" +:+ pretty (Llm.CacheHits st) +:+ "/" +:+
       pretty (Llm.TotalRequests st) +:+ " requests)";
     "  Prefix cost/req:     $" +:+ fixed 6 (Llm.CostUSD_of m (Llm.SystemPromptLen s)) +:+ " (" +:+
       fixed 4 (Llm.AttentionTFLOPs m (Llm.SystemPromptLen s)) +:+ " TFLOPs)";
     "  Cost WITHOUT cache:  $" +:+ fixed 4 (Llm.WithoutCacheCost r);
     "  Cost WITH cache:     $" +:+ fixed 4 (Llm.WithCacheCost r);
     "  ✦ Compute saved:     " +:+ FormatTFLOPs (Llm.st_TotalSavedTFLOPs st);
     "  ✦ Cost saved:        $" +:+ fixed 4 (Llm.SavingsUSD r) +:+ " (" +:+ fixed 1 (Llm.SavingsPct r) +:+
       "% reduction)";
     "  Simulation time:     " +:+ Duration_String (Llm.Duration_ r)].

Definition PrintModelComparison (results : list Llm.ScenarioResult) : string :=
  lines
    ([nl +:+ left 20 "Model" +:+ " " +:+ right 8 "Hit Rate" +:+ " " +:+ right 12 "Cost/Req" +:+ " " +:+
        right 12 "Saved Total" +:+ " " +:+ right 10 "Reduction";
      Repeat "─" 70] ++
     map (λ r,
       let s := Llm.res_Scenario r in
       let st := Llm.res_Stats r in
       left 20 (Llm.Name (Llm.sc_Model s)) +:+ " " +:+ fixed_right 7 1 (Llm.HitRate st) +:+ "% $" +:+
       fixed_right 10 6 (Llm.CostUSD_of (Llm.sc_Model s) (Llm.SystemPromptLen s)) +:+ " " +:+
       right 11 (FormatTFLOPs (Llm.st_TotalSavedTFLOPs st)) +:+ " " +:+
       fixed_right 9 1 (Llm.SavingsPct r) +:+ "%") results).

Definition PrintRAGResult (r : Llm.RAGResult) : option string :=
  let cfg := Llm.rr_Config r in
  let st := Llm.rr_Stats r in
  let m := Llm.rag_Model cfg in
  let sep := Repeat "─" 70 in
  without ← Llm.formatMoney (Llm.MonthlyWithout r);
  with_ ← Llm.formatMoney (Llm.MonthlyWith r);
  saved ← Llm.formatMoney (Llm.MonthlySavings r);
  Some (lines
    [nl +:+ sep;
     "  RAG PIPELINE COST SIMULATION";
     sep;
     "  Knowledge base:   " +:+ pretty (Llm.NumDocuments cfg) +:+ " documents × " +:+
       pretty (Llm.TokensPerDoc cfg) +:+ " tokens";
     "  Retrieval:        top-" +:+ pretty (Llm.TopK cfg) +:+ " documents per query (Zipf popularity)";
     "  Prefix size:      " +:+ pretty (Llm.PrefixTokens r) +:+ " tokens (" +:+ pretty (Llm.TopK cfg) +:+
       " docs + " +:+ pretty (Llm.QueryTokens cfg) +:+ " query)";
     "  Model:            " +:+ Llm.Name m +:+ " (" +:+ fixed 0 (Llm.ParamsBillion m) +:+ "B params)";
     "  Requests:         " +:+ pretty (Llm.rag_NumRequests cfg) +:+ " simulated";
     sep;
     "  Cache hit rate:   " +:+ fixed 1 (Llm.HitRate st) +:+ "% (" +:+ pretty (Llm.CacheHits st) +:+ " hits / " +:+
       pretty (Llm.TotalRequests st) +:+ " requests)";
     "  Compute saved:    " +:+ FormatTFLOPs (Llm.st_TotalSavedTFLOPs st);
     "  Cost per uncached prefix: $" +:+ fixed 6 (Llm.CostPerMissUSD r);
     sep;
     "  PER-RUN TOTALS";
     "    Without caching:  $" +:+ fixed 4 (Llm.WithoutCacheUSD r);
     "    With caching:     $" +:+ fixed 4 (Llm.WithCacheUSD r);
     "    ✦ Saved:          $" +:+ fixed 4 (Llm.rr_SavingsUSD r) +:+ " (" +:+ fixed 1 (Llm.rr_SavingsPct r) +:+
       "% reduction)";
     sep;
     "  MONTHLY PROJECTION (at " +:+ Llm.formatInt (Llm.RequestsPerDay cfg) +:+ " requests/day)";
     "    Without caching:  $" +:+ without +:+ " / month";
     "    With caching:     $" +:+ with_ +:+ " / month";
     "    ✦ Saved:          $" +:+ saved +:+ " / month";
     sep;
     "  Simulation time:  " +:+ Duration_String (Duration_Round (Llm.rr_Duration r) Millisecond)]).

(** ** The simulator's command *)

Definition scenarios_heading : string :=
  lines [nl +:+ "▶ REAL-WORLD SCENARIO SIMULATIONS";
         "  Each scenario simulates a different business use case for prefix caching."].
Definition models_heading : string :=
  lines [nl +:+ "▶ OPEN-SOURCE MODEL COMPARISON (1024-token prefix, 1000 requests, 90% reuse)";
         "  Same workload across all 6 models — shows cost difference at different scales."].

Definition runScenarios (warmup : nat → Llm.env) (requests : nat → nat → Llm.env) : option string :=
  results ← mapM (λ im, Llm.RunScenario (warmup im.1) (requests im.1) im.2)
              (imap pair (take 4 Llm.DefaultScenarios));
  Some (scenarios_heading +:+ foldr String.append "" (map PrintResults results)).

Definition runModelComparison (warmup : nat → Llm.env) (requests : nat → nat → Llm.env) : option string :=
  results ← Llm.RunAllModelsComparison warmup requests 1024 1000 (decimal 90 2);
  Some (models_heading +:+ PrintModelComparison results).

Definition cost_row (m : Llm.ModelConfig) : string :=
  let cell n := FormatTFLOPs (Llm.AttentionTFLOPs m n) in
  "  " +:+ left 20 (Llm.Name m) +:+ "  " +:+ right 10 (cell 128%Z) +:+ "  " +:+ right 12 (cell 512%Z) +:+ "  " +:+
  right 12 (cell 1024%Z) +:+ "  " +:+ right 14 (cell 2048%Z).

Definition cost_line (seqLen : Z) : string :=
  let cost := Llm.CostUSD_of Llm.Llama3_70B seqLen in
  "    " +:+ right 5 (pretty seqLen) +:+ " tokens → $" +:+ fixed 6 cost +:+ "/req  →  $" +:+
  fixed 4 (fmul cost (float_of_int 900)) +:+ " saved per 1000 reqs (90% hit rate)".

Definition runCostAnalysis : string :=
  lines
    ([nl +:+ "▶ COST ANALYSIS — Attention FLOPs vs Prefix Length";
      "  Demonstrates the quadratic scaling of attention with sequence length.";
      nl +:+ "  " +:+ left 20 "Model" +:+ "  " +:+ right 10 "128 tokens" +:+ "  " +:+ right 12 "512 tokens" +:+
        "  " +:+ right 12 "1024 tokens" +:+ "  " +:+ right 14 "2048 tokens";
      "  " +:+ Repeat "─" 72] ++
     map cost_row Llm.AllModels ++
     [nl +:+ "  H100 pricing: ~$2.50/hr, ~312 TFLOPS";
      nl +:+ "  Dollar cost per prefix computation (Llama-3-70B):"] ++
     map cost_line [128; 512; 1024; 2048; 4096]%Z).

(** What the command prints first and last. *)
Definition banner : string :=
  lines ["╔══════════════════════════════════════════════════════════════════════╗";
         "║          LLM Prefix Cache Simulation — Compute Cost Savings         ║";
         "║     Open-source models: Llama-3, Mistral, Mixtral, Qwen, DeepSeek   ║";
         "╚══════════════════════════════════════════════════════════════════════╝"].
Definition closing : string :=
  lines [nl +:+ "╔══════════════════════════════════════════════════════════════════════╗";
         "║  ✅ Simulation complete — metrics ready for resume & portfolio       ║";
         "╚══════════════════════════════════════════════════════════════════════╝"].

(** [main], for the value of the mode flag. *)
Definition llmsim_main (mode : string) (warmup : nat → Llm.env) (requests : nat → nat → Llm.env)
    : option string :=
  middle ←
    (if decide (mode = "scenarios") then runScenarios warmup requests
     else if decide (mode = "models") then runModelComparison warmup requests
     else if decide (mode = "cost") then Some runCostAnalysis
     else
       a ← runScenarios warmup requests;
       b ← runModelComparison (λ i, warmup (4 + i)) (λ i, requests (4 + i));
       Some (a +:+ nl +:+ b +:+ nl +:+ runCostAnalysis));
  Some (banner +:+ middle +:+ closing).

(** ** Printed numbers are correctly rounded *)

(** The digits of a natural number, padded to [k] places that are enough for it. *)
Lemma pretty_nonneg n :
  (0 ≤ n)%Z → digits (pretty n) = Some n ∧ Json.all_digits (pretty n) = true ∧ pretty n ≠ "" ∧
  ∀ k, (0 < k) → (n < 10 ^ Z.of_nat k)%Z → String.length (pretty n) ≤ k.
Proof.
  intros Hn. destruct n as [|p|p]; [|..|lia].
  - split_and!; [done..|]. intros k Hk _. simpl. lia.
  - change (pretty (Z.pos p)) with (pretty p).
    destruct (Json.pretty_positive_spec p) as (a & t & E & _ & _ & Hall & Hd).
    split; [done|]. split; [done|]. split; [by rewrite E|]. intros k _ Hk.
    destruct (Decimal.pretty_length (Z.pos p)) as (_ & Hlo & _); [lia|].
    change (pretty (Z.pos p)) with (pretty p) in Hlo.
    assert (10 ^ (Z.of_nat (String.length (pretty p)) - 1) < 10 ^ Z.of_nat k)%Z as Hlt by lia.
    apply Z.pow_lt_mono_r_iff in Hlt; lia.
Qed.

Lemma digits_some s n : digits s = Some n → digits_from 0 s = Some n.
Proof. by destruct s. Qed.

Lemma pad_zeros_spec k n :
  (0 < k) → (0 ≤ n < 10 ^ Z.of_nat k)%Z →
  String.length (pad_zeros k (pretty n)) = k ∧ digits_from 0 (pad_zeros k (pretty n)) = Some n.
Proof.
  intros Hk [H0 Hn]. destruct (pretty_nonneg n H0) as (Hd & _ & _ & Hlen).
  specialize (Hlen k Hk Hn). unfold pad_zeros. split.
  - rewrite Json.str_app_length. assert (∀ l, String.length (String.string_of_list_ascii l) = length l) as ->.
    { induction l as [|a l IH]; simpl; by rewrite ?IH. }
    rewrite length_replicate. lia.
  - rewrite Decimal.digits_from_app.
    rewrite <-(Nat2Z.id (k - String.length (pretty n))) at 1. fold (Decimal.zeros (Z.of_nat (k - String.length (pretty n)))).
    rewrite Decimal.digits_from_zeros. by apply digits_some in Hd.
Qed.

(** The number a text of an integer part and a fraction stands for, in units of
    the last place. *)
Definition units (ip fp : string) : option Z :=
  i ← digits ip; f ← digits_from 0 fp; Some (i * 10 ^ Z.of_nat (String.length fp) + f)%Z.

Lemma fixed_text_spec prec n :
  (0 ≤ n)%Z →
  ∃ ip fp, fixed_text prec n = ip +:+ (if decide (prec = 0) then "" else "." +:+ fp) ∧
    String.length fp = prec ∧ units ip fp = Some n.
Proof.
  intros Hn. unfold fixed_text. assert (0 < 10 ^ Z.of_nat prec)%Z as Hp by (apply Z.pow_pos_nonneg; lia).
  pose proof (Z.div_pos n _ Hn Hp) as Hq. destruct (pretty_nonneg _ Hq) as (Hd & _).
  pose proof (Z.div_mod n (10 ^ Z.of_nat prec) ltac:(lia)) as Hdm.
  pose proof (Z.mod_pos_bound n _ Hp) as Hr. unfold units. destruct prec as [|prec].
  - exists (pretty (n / 10 ^ Z.of_nat 0)%Z), "". split; [done|]. split; [done|]. rewrite Hd. simpl.
    f_equal. rewrite Z.div_1_r. lia.
  - destruct (pad_zeros_spec (S prec) (n mod 10 ^ Z.of_nat (S prec))) as [Hlen Hf]; [lia|lia|].
    eexists _, _. split; [reflexivity|]. split; [exact Hlen|]. rewrite Hd. bind. rewrite Hf, Hlen. bind.
    f_equal. lia.
Qed.

(** [text] is [v] correctly rounded to [prec] places: its sign, an integer part,
    and (for a positive precision) a point and exactly that many digits; read
    back, it differs from the exact binary value [m * 2^e], which is the fraction
    [scaled], by at most half a unit of its last place. *)
Definition prints (prec : nat) (v : float64) (text : string) : Prop :=
  match v with
  | S754_finite s m e =>
      let '(num, den) := scaled prec m e in
      ∃ ip fp n,
        text = (if s then "-" else "") +:+ ip +:+ (if decide (prec = 0) then "" else "." +:+ fp) ∧
        String.length fp = prec ∧ units ip fp = Some n ∧
        (num * 2 ^ Z.max 0 (- e) = Z.pos m * 2 ^ Z.max 0 e * 10 ^ Z.of_nat prec * den)%Z ∧
        (2 * Z.abs (n * den - num) ≤ den)%Z
  | S754_zero s => text = (if s then "-" else "") +:+ fixed_text prec 0
  | S754_infinity s => text = if s then "-Inf" else "+Inf"
  | S754_nan => text = "NaN"
  end.

Lemma format_fixed_prints prec v : prints prec v (format_fixed prec v).
Proof.
  destruct v as [s|s| |s m e]; [done..|]. unfold prints, format_fixed.
  pose proof (scaled_den prec m e) as Hden.
  assert (0 ≤ (scaled prec m e).1)%Z as Hnum.
  { pose proof (Z.pow_nonneg 10 (Z.of_nat prec) ltac:(lia)).
    unfold scaled. destruct (Z.leb_spec 0 e); simpl; [pose proof (Z.pow_nonneg 2 e ltac:(lia))|]; nia. }
  assert ((scaled prec m e).1 * 2 ^ Z.max 0 (- e) =
    Z.pos m * 2 ^ Z.max 0 e * 10 ^ Z.of_nat prec * (scaled prec m e).2)%Z as Hval.
  { unfold scaled. destruct (Z.leb_spec 0 e); simpl.
    - rewrite Z.max_l, Z.max_r by lia. lia.
    - rewrite (Z.max_r 0 (- e)), (Z.max_l 0 e) by lia. lia. }
  destruct (scaled prec m e) as [num den]. simpl in *.
  assert (0 ≤ round_half_even num den)%Z as Hpos.
  { unfold round_half_even. pose proof (Z.div_pos _ _ Hnum Hden).
    destruct (_ <? _)%Z; [done|]. destruct (_ <? _)%Z; [lia|]. destruct (Z.even _); lia. }
  destruct (fixed_text_spec prec _ Hpos) as (ip & fp & Htext & Hlen & Hunits).
  exists ip, fp, (round_half_even num den). rewrite Htext. split_and!; try done.
  by apply round_half_even_spec.
Qed.

(** Printed costs are correctly rounded. [FormatTFLOPs] prints a number of at
    least 1000 in PFLOPs with one decimal, of at least 1 with two and any other
    with four, each correctly rounded; and a line of the cost table shows the
    cost of a prefix and of 900 of them, correctly rounded to six and to four
    decimals. *)
Theorem printed_costs_accurate (tflops : float64) (seqLen : Z) :
  (∃ t, if SFleb (float_of_int 1000) tflops then
          FormatTFLOPs tflops = t +:+ " PFLOPs" ∧ prints 1 (fdiv tflops (float_of_int 1000)) t
        else FormatTFLOPs tflops = t +:+ " TFLOPs" ∧
             prints (if SFleb (float_of_int 1) tflops then 2 else 4) tflops t) ∧
  (∃ c s, cost_line seqLen = "    " +:+ right 5 (pretty seqLen) +:+ " tokens → $" +:+ c +:+ "/req  →  $" +:+ s +:+
            " saved per 1000 reqs (90% hit rate)" ∧
          prints 6 (Llm.CostUSD_of Llm.Llama3_70B seqLen) c ∧
          prints 4 (fmul (Llm.CostUSD_of Llm.Llama3_70B seqLen) (float_of_int 900)) s).
Proof.
  split.
  - unfold FormatTFLOPs. destruct (SFleb (float_of_int 1000) tflops).
    { eexists. split; [done|]. apply format_fixed_prints. }
    destruct (SFleb (float_of_int 1) tflops); (eexists; split; [done|]; apply format_fixed_prints).
  - eexists _, _. split; [reflexivity|]. split; apply format_fixed_prints.
Qed.

Example cost_of_4096 :
  cost_line 4096 = "     4096 tokens → $0.000098/req  →  $0.0881 saved per 1000 reqs (90% hit rate)".
Proof. vm_compute. reflexivity. Qed.
End Report.
