(* ===== verification/Commands.v ===== *)
(** The commands of [src/cmd] that take a command line only: the proxy process
    ([src/cmd/proxy/main.go]), the prefix-cache simulator ([src/cmd/llmsim/main.go])
    and the benchmarks ([src/cmd/benchmark/main.go]), from their arguments on. *)
From S2P Require Import Prelude Policy Lru Heap IndexedHeap Lfu TtlPolicy RandomPolicy Cache Node GoStrings GoFmt GoNumbers Flags Proxy Json Invalidation Llm Benchmark Report.
From Stdlib Require Import SpecFloat.

Module Commands.
Import Flags Report.

(** ** The proxy process *)

Definition proxy_flags : flag_set :=
  list_to_map [("port", FInt 8080); ("upstream", FString "http://api:8081")].

(** The server that starts, with the address it listens on, or the exit code. *)
Definition proxy_main (args : list string) : (string * Proxy.Proxy) + Z :=
  match Parse args proxy_flags with
  | inr e => inr (exit_code e)
  | inl (fs, _) =>
      inl (":" +:+ pretty (int_flag "port" fs), Proxy.NewProxy (string_flag "upstream" fs))
  end.

(** ** The simulator and the benchmarks *)

Definition llmsim_flags : flag_set := {["mode" := FString "all"]}.

(** A command ends in [flag.Parse], after a usage message, or at its own end: what
    it has written to the standard output and the standard error, and its exit
    code. *)
Inductive ending :=
| UsageExit (code : Z)
| Finished (out err : string) (code : Z).

Definition llmsim (args : list string) (warmup : nat → Llm.env) (requests : nat → nat → Llm.env)
    : option ending :=
  match Parse args llmsim_flags with
  | inr e => Some (UsageExit (exit_code e))
  | inl (fs, _) =>
      out ← llmsim_main (string_flag "mode" fs) warmup requests; Some (Finished out "" 0)
  end.

Definition benchmark_flags : flag_set := {["mode" := FString "both"]}.

Definition benchmark (IsPrint : string → bool) (args : list string) (seed : nat → Z)
    (draws : nat → Z * float64) (clocks : nat → nat → Clock) (inv_draws : nat → Z * float64)
    (inv_clocks : nat → nat → Clock) (fires : nat → nat → Invalidation.task → bool)
    : option ending :=
  match Parse args benchmark_flags with
  | inr e => Some (UsageExit (exit_code e))
  | inl (fs, _) =>
      '(out, err, code) ←
        benchmark_main IsPrint (string_flag "mode" fs) seed draws clocks inv_draws inv_clocks fires;
      Some (Finished out err code)
  end.

(** ** The commands end *)

Lemma mapM_total {A B} (f : A → option B) l :
  (∀ x, x ∈ l → is_Some (f x)) → ∃ k, mapM f l = Some k.
Proof.
  intros Hf. apply mapM_is_Some_2, Forall_forall. exact Hf.
Qed.

(** *** The reports of the simulator *)

Section Reports.
Context (warmup : nat → Llm.env) (requests : nat → nat → Llm.env).

(** The results of scenarios that are run one after the other. *)
Definition scenario_results (scenarios : list Llm.Scenario) : option (list Llm.ScenarioResult) :=
  mapM (λ im, Llm.RunScenario (warmup im.1) (requests im.1) im.2) (imap pair scenarios).

(** A report of the results of the first four scenarios. *)
Definition scenarios_report (report : string) : Prop :=
  ∃ rs, scenario_results (take 4 Llm.DefaultScenarios) = Some rs ∧ length rs = 4 ∧
    report = scenarios_heading +:+ foldr String.append "" (map PrintResults rs).

(** The scenario of a model in the comparison, and the report of the six. *)
Definition model_scenario (m : Llm.ModelConfig) : Llm.Scenario :=
  Llm.mk_Scenario (Llm.Name m) "" "" 1024 0 1000 (decimal 90 2) m.
Definition models_report (report : string) : Prop :=
  ∃ rs, scenario_results (model_scenario <$> Llm.AllModels) = Some rs ∧ length rs = 6 ∧
    report = models_heading +:+ PrintModelComparison rs.

Lemma scenario_results_total scenarios : Forall (λ s, 0 ≤ Llm.SystemPromptLen s)%Z scenarios →
  ∃ rs, scenario_results scenarios = Some rs ∧ length rs = length scenarios.
Proof.
  intros Hs. destruct (mapM_total (λ im, Llm.RunScenario (warmup im.1) (requests im.1) im.2) (imap pair scenarios))
    as [rs Hrs].
  - intros [i s] Hin. apply elem_of_lookup_imap in Hin as (k & q & [= -> ->] & Hq). cbn [fst snd].
    eapply Forall_lookup_1 in Hs; [|exact Hq]. unfold Llm.RunScenario.
    destruct (Z.ltb_spec (Llm.SystemPromptLen q) 0); [lia|]. by eexists.
  - exists rs. split; [exact Hrs|]. apply length_mapM in Hrs. by rewrite <-Hrs, length_imap.
Qed.

Lemma runScenarios_report : ∃ out, runScenarios warmup requests = Some out ∧ scenarios_report out.
Proof.
  destruct (scenario_results_total (take 4 Llm.DefaultScenarios)) as (rs & Hrs & Hlen); [by repeat constructor|].
  unfold runScenarios. unfold scenario_results in Hrs. rewrite Hrs. bind. eexists. split; [reflexivity|]. by exists rs.
Qed.

Lemma runModelComparison_report : ∃ out, runModelComparison warmup requests = Some out ∧ models_report out.
Proof.
  destruct (scenario_results_total (model_scenario <$> Llm.AllModels)) as (rs & Hrs & Hlen); [by repeat constructor|].
  unfold runModelComparison.
  assert (Llm.RunAllModelsComparison warmup requests 1024 1000 (decimal 90 2) = Some rs) as -> by exact Hrs.
  bind. eexists. split; [reflexivity|]. by exists rs.
Qed.
End Reports.

(** The benchmark's percentile picks a sample, for the workload it runs. *)
Lemma percentile_total (l : list float64) :
  Z.of_nat (length l) = 10000%Z → is_Some (Benchmark.percentile l (float_of_int 99)).
Proof.
  intros Hl. destruct l as [|x l]; [done|]. unfold Benchmark.percentile.
  pose proof (Permutation_length (Benchmark.insertion_sort_perm (x :: l))) as Hs.
  rewrite Hs, Hl. assert (Benchmark.int_ceil (fmul (fdiv (float_of_int 99) (float_of_int 100))
    (float_of_int 10000)) = Some 9900%Z) as -> by (vm_compute; reflexivity).
  bind. apply lookup_lt_is_Some_2. rewrite Hs.
  replace (Z.to_nat _) with (Z.to_nat 9899) by reflexivity. lia.
Qed.

Section Latencies.
Context {P : Type} `{!EvictionPolicy P}.

Lemma bench_run_latencies cap ops (b b' : Benchmark.bench P) clocks :
  Benchmark.bench_run cap b ops clocks = Some b' →
  length (Benchmark.latencies b') = length (Benchmark.latencies b) + length ops.
Proof.
  revert b clocks. induction ops as [|op ops IH]; intros b clocks; cbn [Benchmark.bench_run length].
  { intros [= <-]. lia. }
  destruct (Benchmark.bench_step cap b op (clocks 0)) as [b1|] eqn:E; [|done]. bind.
  intros H. apply IH in H. rewrite H.
  assert (length (Benchmark.latencies b1) = length (Benchmark.latencies b) + 1) as ->; [|lia].
  unfold Benchmark.bench_step in E. destruct (Benchmark.isRead op).
  - destruct (Cache.Get _ _ _) as [[c [v|]]|]; [|cbn [mbind option_bind] in E|done].
    + injection E as <-. simpl. by rewrite length_app.
    + destruct (Cache.Set_ _ _ _ _ _) as [[c' e]|]; [|done]. injection E as <-. simpl. by rewrite length_app.
  - destruct (Cache.Set_ _ _ _ _ _) as [[c' e]|]; [|done]. injection E as <-. simpl. by rewrite length_app.
Qed.
End Latencies.

(** A workload is generated for a positive exponent. *)
Lemma workload_total draws cfg :
  (0 <=? Benchmark.TotalOps cfg)%Z && negb (SFleb (fadd (Benchmark.ZipfExponent cfg) (float_of_int 1)) (float_of_int 1))
    = true →
  ∃ ops, Benchmark.generateWorkload draws cfg = Some ops ∧ Z.of_nat (length ops) = Benchmark.TotalOps cfg.
Proof.
  intros [H1 H2]%andb_prop. apply negb_true_iff in H2. unfold Benchmark.generateWorkload. rewrite H2.
  assert ((Benchmark.TotalOps cfg <? 0)%Z = false) as -> by lia.
  eexists. split; [reflexivity|]. rewrite length_map, length_seq. lia.
Qed.

Lemma bench_policies_ok seed : ∃ ps, Benchmark.bench_policies seed = Some ps ∧
  Forall (λ p : Node.AnyPolicy, policy_wf p ∧ tracked p = ∅) ps.
Proof.
  eexists. split; [reflexivity|]. repeat constructor.
  - exists []. apply LRU.recency_new.
  - exists ∅. apply hp_rep_empty.
  - exists ∅. apply hp_rep_empty.
Qed.

(** *** The benchmark keeps its policies apart *)

Lemma names_kept (p : Node.AnyPolicy) :
  (∀ now k p', OnAccess now k p = Some p' → Name p' = Name p) ∧
  (∀ now k e p', OnInsert now k e p = Some p' → Name p' = Name p) ∧
  (∀ k p', OnEvict k p = Some p' → Name p' = Name p) ∧
  (∀ v p', Evict p = Some (v, p') → Name p' = Name p).
Proof.
  destruct p as [p|p|p|p]; split_and!; intros *; cbn [OnAccess OnInsert OnEvict Evict Node.AnyPolicy_policy];
    intros (x & _ & E)%fmap_Some; unfold prod_map in E; by simplify_eq.
Qed.

Local Abbreviation label c := (Name (Cache.policy c)).
Implicit Types c : Cache.InMemoryCache Node.AnyPolicy.

Lemma drop_key_label k c c' : Cache.drop_key k c = Some c' → label c' = label c.
Proof.
  unfold Cache.drop_key. destruct (OnEvict k (Cache.policy c)) as [p|] eqn:E; [|done]. intros [= <-].
  by apply (names_kept (Cache.policy c)) in E.
Qed.

Lemma Get_label now key c c' v : Cache.Get now key c = Some (c', v) → label c' = label c.
Proof.
  unfold Cache.Get, Cache.Get_expire, Cache.Get_hit. intros H.
  destruct (Cache.Get_lookup key c) as [l|]; [|by injection H as <- _].
  destruct (Cache.mem c !! l) as [e|]; [|done]. cbn [mbind option_bind] in H.
  destruct (Cache.IsExpired e (now 0)).
  - destruct (Cache.entries c !! key) as [l'|]; [|by cbn [mbind option_bind] in H; injection H as <- _].
    destruct (Cache.mem c !! l') as [e'|]; [|done]. cbn [mbind option_bind] in H.
    destruct (Cache.IsExpired e' (now 1)); [|by cbn [mbind option_bind] in H; injection H as <- _].
    destruct (Cache.drop_key key c) as [c1|] eqn:E; [|done]. cbn [mbind option_bind] in H; injection H as <- _. by apply drop_key_label in E.
  - destruct (OnAccess (now 2) key (Cache.policy c)) as [p|] eqn:E; [|done]. cbn [mbind option_bind] in H.
    destruct (Cache.mem _ !! l); [|done]. cbn [mbind option_bind] in H; injection H as <- _. by apply (names_kept (Cache.policy c)) in E.
Qed.

Lemma make_room_label c c' : Cache.make_room c = Some c' → label c' = label c.
Proof.
  unfold Cache.make_room. destruct (_ <=? _)%Z; [|by intros [= <-]].
  destruct (Evict (Cache.policy c)) as [[[k|] p]|] eqn:E; [| |done]; cbn [mbind option_bind].
  - intros ->%drop_key_label. by apply (names_kept (Cache.policy c)) in E.
  - intros [= <-]. by apply (names_kept (Cache.policy c)) in E.
Qed.

Lemma Set_label now key value ttl c c' err : Cache.Set_ now key value ttl c = Some (c', err) → label c' = label c.
Proof.
  unfold Cache.Set_, Cache.Set_locked. intros H. destruct (ttl <? 0)%Z; [by injection H as <- _|].
  destruct (Cache.maxTTL <? ttl)%Z; [by injection H as <- _|]. destruct (Cache.entries c !! key) as [l|].
  - destruct (Cache.mem c !! l) as [e|]; [|done]. cbn [mbind option_bind] in H.
    destruct (OnAccess (now 1) key (Cache.policy c)) as [p|] eqn:E; [|done]. cbn [mbind option_bind] in H; injection H as <- _.
    by apply (names_kept (Cache.policy c)) in E.
  - destruct (Cache.make_room c) as [c1|] eqn:E1; [|done]. cbn [mbind option_bind] in H.
    destruct (OnInsert (now 1) key _ (Cache.policy c1)) as [p|] eqn:E; [|done]. cbn [mbind option_bind] in H; injection H as <- _.
    apply (names_kept (Cache.policy c1)) in E. etrans; [exact E|]. by apply make_room_label.
Qed.

Lemma bench_run_label cap ops b b' clocks :
  Benchmark.bench_run cap b ops clocks = Some b' → label (Benchmark.cache b') = label (Benchmark.cache b).
Proof.
  revert b clocks. induction ops as [|op ops IH]; intros b clocks; cbn [Benchmark.bench_run]; [by intros [= <-]|].
  destruct (Benchmark.bench_step cap b op (clocks 0)) as [b1|] eqn:E; [|done]. bind. intros ->%IH.
  unfold Benchmark.bench_step in E. destruct (Benchmark.isRead op).
  - destruct (Cache.Get _ _ _) as [[c [v|]]|] eqn:Eg; [|cbn [mbind option_bind] in E|done].
    + injection E as <-. by apply Get_label in Eg.
    + destruct (Cache.Set_ _ _ _ _ _) as [[c' e]|] eqn:Es; [|done]. injection E as <-.
      apply Set_label in Es. apply Get_label in Eg. cbn [Benchmark.cache]. by rewrite Es.
  - destruct (Cache.Set_ _ _ _ _ _) as [[c' e]|] eqn:Es; [|done]. injection E as <-. by apply Set_label in Es.
Qed.

(** *** The reports of the benchmarks *)

(** A line and a row of the table per result. *)
Definition evictions_report (rs : list Benchmark.EvictionResult) (report : string) : Prop :=
  ∃ progress table, mapM eviction_progress rs = Some progress ∧ PrintEvictionReport rs = Some table ∧
    report = lines (eviction_heading Benchmark.DefaultEvictionConfig :: progress) +:+ table.
Definition invalidations_report (rs : list Benchmark.InvalidationResult) (report : string) : Prop :=
  report = lines (invalidation_heading Benchmark.DefaultInvalidationConfig :: map invalidation_progress rs) +:+
           PrintInvalidationReport rs.

Lemma mapM_results {A B C} (f : A → option B) (g : A → C) (h : B → C) l :
  (∀ x, x ∈ l → ∃ y, f x = Some y ∧ h y = g x) → ∃ k, mapM f l = Some k ∧ h <$> k = g <$> l.
Proof.
  induction l as [|x l IH]; intros Hf; [by exists []|].
  destruct (Hf x) as (y & Hy & Hh); [left|]. destruct IH as (k & Hk & E); [intros z Hz; apply Hf; by right|].
  exists (y :: k). change (mapM f (x :: l)) with (a ← f x; b ← mapM f l; Some (a :: b)). rewrite Hy, Hk.
  split; [done|]. by rewrite !fmap_cons, Hh, E.
Qed.

Lemma single_benchmark pol ops clocks : policy_wf pol → tracked pol = ∅ → Z.of_nat (length ops) = 10000%Z →
  ∃ r, Benchmark.runSingleEvictionBenchmark pol Benchmark.DefaultEvictionConfig ops clocks = Some r ∧
    (Benchmark.PolicyName r, Benchmark.Error r, bool_decide (is_Some (Benchmark.P99LatencyMs r))) = (Name pol, "", true).
Proof.
  intros Hwf Ht Hlen.
  destruct (Benchmark.benchmark_counts pol Benchmark.DefaultEvictionConfig ops clocks Hwf Ht)
    as (r & Hr & _); [done|rewrite Hlen; done|]. exists r. split; [done|].
  unfold Benchmark.runSingleEvictionBenchmark in Hr.
  destruct (Benchmark.bench_run _ _ _ _) as [b|] eqn:Eb; [|done]. injection Hr as <-.
  cbn [Benchmark.P99LatencyMs Benchmark.PolicyName Benchmark.Error].
  rewrite bool_decide_true; [|apply percentile_total; by rewrite (bench_run_latencies _ _ _ _ _ Eb)].
  pose proof (bench_run_label _ _ _ _ _ Eb) as Hl. f_equal. f_equal. exact Hl.
Qed.

Lemma runEviction_report seed draws clocks : ∃ out rs, runEviction seed draws clocks = Some out ∧
  Benchmark.RunEvictionBenchmark seed draws clocks Benchmark.DefaultEvictionConfig = Some rs ∧
  (λ r, (Benchmark.PolicyName r, Benchmark.Error r)) <$> rs = [("lru", ""); ("lfu", ""); ("ttl", ""); ("random", "")] ∧
  evictions_report rs out.
Proof.
  unfold runEviction, Benchmark.RunEvictionBenchmark.
  assert (∃ ps, Benchmark.bench_policies seed = Some ps ∧ Forall (λ p : Node.AnyPolicy, policy_wf p ∧ tracked p = ∅) ps ∧
    Name <$> ps = ["lru"; "lfu"; "ttl"; "random"]) as (ps & -> & Hps & Hnames).
  { destruct (bench_policies_ok seed) as (ps & E & Hps). exists ps. split; [done|]. split; [done|].
    unfold Benchmark.bench_policies in E. by injection E as <-. }
  bind.
  destruct (workload_total draws Benchmark.DefaultEvictionConfig) as (ops & -> & Hlen);
    [vm_compute; reflexivity|]. cbn [Benchmark.TotalOps Benchmark.DefaultEvictionConfig] in Hlen. bind.
  destruct (mapM_results (λ ip, Benchmark.runSingleEvictionBenchmark ip.2 Benchmark.DefaultEvictionConfig ops (clocks ip.1))
    (λ ip : nat * Node.AnyPolicy, (Name ip.2, "", true))
    (λ r, (Benchmark.PolicyName r, Benchmark.Error r, bool_decide (is_Some (Benchmark.P99LatencyMs r))))
    (imap pair ps)) as (rs & Hrs & Hinfo).
  { intros [i p] Hp. apply elem_of_lookup_imap in Hp as (k & q & [= -> ->] & Hq).
    rewrite Forall_forall in Hps. destruct (Hps q) as [Hwf Ht]; [by eapply list_elem_of_lookup_2|].
    by apply single_benchmark. }
  rewrite Hrs. bind.
  assert ((λ r, (Benchmark.PolicyName r, Benchmark.Error r)) <$> rs = (λ n, (n, "")) <$> (Name <$> ps)) as Hfields.
  { apply (f_equal (fmap fst)) in Hinfo. rewrite <-!list_fmap_compose in Hinfo. rewrite <-list_fmap_compose.
    etrans; [exact Hinfo|]. rewrite fmap_imap. clear. generalize 0. intros _. apply list_eq. intros i.
    rewrite list_lookup_imap, list_lookup_fmap. by destruct (ps !! i). }
  rewrite Hnames in Hfields.
  assert (∀ r, r ∈ rs → is_Some (Benchmark.P99LatencyMs r)) as Hp99.
  { intros r Hr. apply list_elem_of_lookup in Hr as [i Hi]. apply (f_equal (lookup i)) in Hinfo.
    rewrite !list_lookup_fmap, Hi in Hinfo. destruct (imap pair ps !! i); [|done].
    cbn [fmap option_fmap option_map] in Hinfo. injection Hinfo as _ _ Hb. by apply bool_decide_eq_true in Hb. }
  destruct (mapM_total eviction_progress rs) as [progress Hprogress].
  { intros r Hr. unfold eviction_progress. destruct (Hp99 r Hr) as [v ->]. by eexists. }
  rewrite Hprogress. bind. destruct (mapM_total eviction_row rs) as [rows Hrows].
  { intros r Hr. unfold eviction_row. destruct (Hp99 r Hr) as [v ->]. destruct (decide _); by eexists. }
  unfold evictions_report, PrintEvictionReport. rewrite Hrows. bind.
  eexists _, rs. split; [reflexivity|]. split; [done|]. split; [exact Hfields|].
  rewrite Hrows. bind. eexists progress, _. split; [done|]. split; reflexivity.
Qed.

Lemma runInvalidation_report draws clocks fires : ∃ out rs, runInvalidation draws clocks fires = Some out ∧
  Benchmark.RunInvalidationBenchmark draws clocks fires Benchmark.DefaultInvalidationConfig = Some rs ∧
  (λ r, (Benchmark.StrategyName r, Benchmark.inv_Error r)) <$> rs = [("ttl", ""); ("write-through", ""); ("write-behind", "")] ∧
  invalidations_report rs out.
Proof.
  unfold runInvalidation, Benchmark.RunInvalidationBenchmark.
  match goal with |- context [Benchmark.generateWorkload draws ?c] =>
    destruct (workload_total draws c) as (ops & -> & Hlen); [vm_compute; reflexivity|] end.
  cbn [Benchmark.TotalOps Benchmark.inv_TotalOps Benchmark.DefaultInvalidationConfig] in Hlen. bind.
  match goal with |- context [mapM ?f ?l] =>
    destruct (mapM_results f (λ js : nat * Invalidation.strategy, (Invalidation.strategy_Name js.2, ""))
      (λ r, (Benchmark.StrategyName r, Benchmark.inv_Error r)) l) as (rs & -> & Hrs) end.
  - intros [j s] _. cbn [fst snd].
    destruct (Benchmark.invalidation_benchmark_exact s Benchmark.DefaultInvalidationConfig
      (imap (λ i op, Benchmark.mk_occasion op (clocks j i) (fires j i)) ops)) as (b & _ & -> & _);
      [done|rewrite length_imap, Hlen; done|by eexists].
  - bind. eexists _, rs. split; [reflexivity|]. split; [done|]. split; [exact Hrs|].
    reflexivity.
Qed.

(** A mode that is one of the list. *)
Ltac listed := let H := fresh in intros H; exfalso; apply H, (bool_decide_eq_true_1 (_ ∈ _)); reflexivity.

(** C37: the commands end, with the reports their arguments ask for. Whatever the
    command line, the random numbers, the clock and the scheduling, neither the
    simulator nor the benchmarks panic. If the arguments do not parse as their one
    flag they exit with the usage message. Otherwise the simulator prints, between
    its banner and its closing lines, the report of the first four scenarios, that
    of the six models or the cost analysis, or all three in this order for any
    other mode, and exits with 0. The benchmarks print for [eviction] the report
    of the four policies, for [invalidation] that of the three strategies, and for
    [both] the one after the other, none of them with an error, and exit with 0;
    for any other mode they print nothing but the error that names the mode, and
    exit with 1. *)
Theorem commands_end (IsPrint : string → bool) (args : list string)
    (warmup : nat → Llm.env) (requests : nat → nat → Llm.env)
    (seed : nat → Z) (draws inv_draws : nat → Z * float64) (clocks inv_clocks : nat → nat → Clock)
    (fires : nat → nat → Invalidation.task → bool) :
  (∃ e, llmsim args warmup requests = Some e ∧
     match Parse args llmsim_flags with
     | inr err => e = UsageExit (exit_code err)
     | inl (fs, _) =>
         let mode := string_flag "mode" fs in
         ∃ body, e = Finished (banner +:+ body +:+ closing) "" 0 ∧
           (mode = "scenarios" → scenarios_report warmup requests body) ∧
           (mode = "models" → models_report warmup requests body) ∧
           (mode = "cost" → body = runCostAnalysis) ∧
           (mode ∉ ["scenarios"; "models"; "cost"] →
              ∃ s m, scenarios_report warmup requests s ∧
                models_report (λ i, warmup (4 + i)) (λ i, requests (4 + i)) m ∧
                body = s +:+ GoFmt.nl +:+ m +:+ GoFmt.nl +:+ runCostAnalysis)
     end) ∧
  (∃ e, benchmark IsPrint args seed draws clocks inv_draws inv_clocks fires = Some e ∧
     match Parse args benchmark_flags with
     | inr err => e = UsageExit (exit_code err)
     | inl (fs, _) =>
         let mode := string_flag "mode" fs in
         ∃ ev inv evs invs,
           Benchmark.RunEvictionBenchmark seed draws clocks Benchmark.DefaultEvictionConfig = Some evs ∧
           (λ r, (Benchmark.PolicyName r, Benchmark.Error r)) <$> evs =
             [("lru", ""); ("lfu", ""); ("ttl", ""); ("random", "")] ∧ evictions_report evs ev ∧
           Benchmark.RunInvalidationBenchmark inv_draws inv_clocks fires Benchmark.DefaultInvalidationConfig = Some invs ∧
           (λ r, (Benchmark.StrategyName r, Benchmark.inv_Error r)) <$> invs =
             [("ttl", ""); ("write-through", ""); ("write-behind", "")] ∧ invalidations_report invs inv ∧
           (mode = "eviction" → e = Finished ev "" 0) ∧ (mode = "invalidation" → e = Finished inv "" 0) ∧
           (mode = "both" → e = Finished (ev +:+ inv) "" 0) ∧
           (mode ∉ ["eviction"; "invalidation"; "both"] →
              e = Finished "" ("unknown mode " +:+ GoFmt.Quote IsPrint mode +:+
                               " — use eviction, invalidation, or both" +:+ GoFmt.nl) 1)
     end).
Proof.
  cbv zeta. split.
  - unfold llmsim. destruct (Parse args llmsim_flags) as [[fs rest]|e]; [|by eexists].
    generalize (string_flag "mode" fs) as mode. intros mode. unfold llmsim_main.
    destruct (runScenarios_report warmup requests) as (s & -> & Hs).
    destruct (runModelComparison_report warmup requests) as (m & -> & Hm).
    destruct (runModelComparison_report (λ i, warmup (4 + i)) (λ i, requests (4 + i))) as (m' & -> & Hm'). bind.
    set (P := scenarios_report) in *. set (Q := models_report) in *.
    clearbody P Q. generalize runCostAnalysis banner closing. intros cost first last.
    destruct (decide (mode = "scenarios")) as [->|H1]; [|destruct (decide (mode = "models")) as [->|H2];
      [|destruct (decide (mode = "cost")) as [->|H3]]]; bind;
      (eexists; split; [reflexivity|]); (eexists; split; [reflexivity|]); split_and!; try done.
    1-3: listed. by exists s, m'.
  - unfold benchmark. destruct (Parse args benchmark_flags) as [[fs rest]|e]; [|by eexists].
    generalize (string_flag "mode" fs) as mode. intros mode. unfold benchmark_main.
    destruct (runEviction_report seed draws clocks) as (ev & evs & -> & Hevs & Hn & Hev).
    destruct (runInvalidation_report inv_draws inv_clocks fires) as (inv & invs & -> & Hinvs & Hin & Hinv). bind.
    set (P := evictions_report) in *. set (Q := invalidations_report) in *. clearbody P Q.
    destruct (decide (mode = "eviction")) as [->|H1]; [|destruct (decide (mode = "invalidation")) as [->|H2];
      [|destruct (decide (mode = "both")) as [->|H3]]]; bind;
      (eexists; split; [reflexivity|]); exists ev, inv, evs, invs; split_and!; try done.
    1-3: listed.
    unfold println. by rewrite !Json.Json.str_app_assoc.
Qed.
End Commands.
