(* ===== verification/Scripts.v ===== *)
(** The measurement scripts, [src/scripts]: the in-memory cluster and the timing
    summary of [raft_election.go], and the counters, statistics and requests of
    [simulate.go] against a running system. *)
From S2P Require Import Prelude Lru Cache Raft RaftCluster GoStrings Json StateFile Invalidation Db Api.
From S2P Require Import GoFmt GoNumbers Benchmark Report.
From Stdlib Require Import SpecFloat Ascii.

Module Scripts.
Import Raft RaftCluster.

(** ** raft_election.go: the cluster in memory *)

(** The transport's map, keyed by address; [None] is the error of an unknown
    peer. The handlers run on the node itself. *)
Definition inMemoryTransport : Type := gmap string RaftNode.

Definition transport_RequestVote (io : nat → bool) (peerAddr : string) (req : RequestVoteRequest)
    (t : inMemoryTransport) : inMemoryTransport * option RequestVoteResponse :=
  match (t : gmap string RaftNode) !! peerAddr with
  | None => (t, None)
  | Some n => let '(n', resp) := HandleRequestVote io req n in (<[peerAddr := n']> (t : gmap string RaftNode), Some resp)
  end.

Definition transport_AppendEntries (io : bool) (now : Time) (peerAddr : string) (req : AppendEntriesRequest)
    (t : inMemoryTransport) : inMemoryTransport * option AppendEntriesResponse :=
  match (t : gmap string RaftNode) !! peerAddr with
  | None => (t, None)
  | Some n => let '(n', resp) := HandleAppendEntries io now req n in (<[peerAddr := n']> (t : gmap string RaftNode), Some resp)
  end.

Definition cluster_ids : list string := ["node1"; "node2"; "node3"].

Definition peers_of (id : string) : list PeerConfig :=
  (λ pid, mk_Peer pid pid) <$> filter (λ pid, pid ≠ id) cluster_ids.

(** [makeCluster]: the nodes read their state files in the shared directory with
    the files [fs]; [None] is the panic on a file that does not load. *)
Definition makeCluster (fs : gmap string string) (stateDir : string) : option (list RaftNode * inMemoryTransport) :=
  nodes ← mapM (λ id, NewRaftNode id (peers_of id) (StateFile.as_file fs stateDir id)) cluster_ids;
  Some (nodes, list_to_map (zip cluster_ids nodes)).

(** [Stop] closes the channel, which panics the second time; [safeStop] recovers. *)
Definition Stop (stopped : bool) : option bool := if stopped then None else Some true.
Definition safeStop (stopped : bool) : bool := default stopped (Stop stopped).

(** The first leader announced before the timeout; [arrivals] are the times at
    which the channels deliver, in the order the goroutines pass them on. *)
Fixpoint earliest (best : option (Duration * string)) (arrivals : list (Duration * string))
    : option (Duration * string) :=
  match arrivals with
  | [] => best
  | a :: arrivals =>
      earliest (match best with
                | Some b => if (a.1 <? b.1)%Z then Some a else best
                | None => Some a
                end) arrivals
  end.
Definition waitForLeader (arrivals : list (Duration * string)) (timeout : Duration) : string * Duration * bool :=
  match earliest None (filter (λ a, (a.1 < timeout)%Z) arrivals) with
  | Some (d, id) => (id, d, true)
  | None => ("", timeout, false)
  end.

Fixpoint find_index {A} (p : A → bool) (i : nat) (l : list A) : option nat :=
  match l with
  | [] => None
  | a :: l => if p a then Some i else find_index p (S i) l
  end.

(** The node to stop: the first in state leader, or the one announced. *)
Definition leader_index (nodes : list RaftNode) (firstLeader : string) : option nat :=
  match find_index (λ n, bool_decide (state n = Leader)) 0 nodes with
  | Some i => Some i
  | None => find_index (λ id, bool_decide (id = firstLeader)) 0 cluster_ids
  end.

(** The survivor found in state leader when polling. *)
Definition new_leader (nodes : list RaftNode) (leaderIdx : nat) : option string :=
  i ← find_index (λ jn, negb (bool_decide (jn.1 = leaderIdx)) && bool_decide (state jn.2 = Leader)) 0
        (imap pair nodes);
  Some ("node" +:+ pretty (i + 1)).

(** Minimum, maximum and average of the trials. *)
Definition summary_step (acc : Z * Z * Z) (t : Duration) : Z * Z * Z :=
  let '(sum, mn, mx) := acc in
  (wrap64 (sum + t), if (t <? mn)%Z then t else mn, if (mx <? t)%Z then t else mx).
Definition summary (times : list Duration) : option (Duration * Duration * Duration) :=
  match times with
  | [] => None
  | t0 :: _ =>
      let '(sum, mn, mx) := foldl summary_step (0, t0, t0)%Z times in
      Some (mn, mx, (sum ÷ Z.of_nat (length times))%Z)
  end.

(** The loop that polls the survivors every 20 ms for 5 s; [polls i] are the nodes
    at the [i]-th poll. [None] is the fuel at its end. *)
Definition poll_limit : Duration := (5 * Second)%Z.
Definition poll_interval : Duration := (20 * Millisecond)%Z.

Fixpoint poll (fuel : nat) (elapsed : Duration) (i : nat) (leaderIdx : nat) (polls : nat → list RaftNode)
    : option (option string) :=
  match fuel with
  | 0 => None
  | S fuel =>
      if (elapsed <? poll_limit)%Z then
        match new_leader (polls i) leaderIdx with
        | Some newLeader => Some (Some newLeader)
        | None => poll fuel (elapsed + poll_interval) (S i) leaderIdx polls
        end
      else Some None
  end.

(** What a trial observes: its state directory, the announcements of the first
    election, the nodes when the leader is looked for and at each poll, and the
    time the polling took. *)
Record trial := mk_trial {
  t_dir : string;
  t_arrivals : list (Duration * string);
  t_nodes : list RaftNode;
  t_polls : nat → list RaftNode;
  t_elapsed : Duration
}.

Definition ms (d : Duration) : string := Report.Duration_String (Report.Duration_Round d Millisecond).

(** One iteration of the trial loop: the line it prints and the time it adds;
    [None] is the panic of [makeCluster], or the fuel of the polling loop at its
    end. *)
Definition run_trial (fs : gmap string string) (i : nat) (t : trial) : option (string * option Duration) :=
  _ ← makeCluster fs (t_dir t);
  let head := "    Trial " +:+ pretty (i + 1) +:+ ": " in
  let '(firstLeader, _, ok) := waitForLeader (t_arrivals t) poll_limit in
  if ok then
    match leader_index (t_nodes t) firstLeader with
    | None => Some (head +:+ "could not identify leader node", None)
    | Some leaderIdx =>
        reElected ← poll 251 0 0 leaderIdx (t_polls t);
        Some match reElected with
             | Some newLeader =>
                 (head +:+ newLeader +:+ " elected in " +:+ ms (t_elapsed t) +:+ " (after " +:+ firstLeader +:+
                  " failed)", Some (t_elapsed t))
             | None => (head +:+ "no re-election within 5s", None)
             end
    end
  else Some (head +:+ "no initial leader", None).

Definition double_rule : string := "═══════════════════════════════════════════════════════════════".

Definition test1 (arrivals : list (Duration * string)) : list string :=
  let '(leader, elapsed, ok) := waitForLeader arrivals poll_limit in
  if ok then
    ["  Leader: " +:+ leader +:+ " elected in " +:+ ms elapsed; "  ✦ Initial election time: " +:+ ms elapsed]
  else ["  No leader within 5s"].

Definition print_summary (times : list Duration) : list string :=
  match summary times with
  | None => []
  | Some (mn, mx, avg) =>
      [GoFmt.nl +:+ "  ✦ Re-election timing across " +:+ pretty (length times) +:+ " trials:";
       "     Min: " +:+ ms mn; "     Max: " +:+ ms mx; "     Avg: " +:+ ms avg]
  end.

(** [main] of the script, for the files there are, the directory of the first
    test, and what the two tests observe. *)
Definition election_main (fs : gmap string string) (dir : string) (arrivals : list (Duration * string))
    (trials : list trial) : option string :=
  _ ← makeCluster fs dir;
  results ← mapM (λ it, run_trial fs it.1 it.2) (imap pair trials);
  Some (Report.lines (
    [double_rule; "  Raft Leader Election Timing Test (in-memory transport)"; double_rule;
     GoFmt.nl +:+ "▶ Test 1: Initial election (3 nodes, fresh start)"] ++ test1 arrivals ++
    [GoFmt.nl +:+ "▶ Test 2: Re-election after leader failure (5 trials)"] ++ results.*1 ++
    print_summary (omap snd results) ++
    [GoFmt.nl +:+ double_rule; "  ✅ Raft election test complete"; double_rule])).

(** ** simulate.go: counting and statistics *)

(** [math.Round]: halves away from zero. *)
Definition math_Round (v : float64) : option Z :=
  match v with
  | S754_zero _ => Some 0%Z
  | S754_finite s m e =>
      let z := if (0 <=? e)%Z then (Z.pos m * 2 ^ e)%Z
               else ((2 * Z.pos m + 2 ^ (- e)) / (2 * 2 ^ (- e)))%Z in
      in_int64 (if s then (- z)%Z else z)
  | _ => None
  end.

(** [stats]: the median, the 99th percentile and the mean; [None] is an index
    out of range. The samples are latencies, which are not NaN. *)
Definition stats (values : list float64) : option (float64 * float64 * float64) :=
  match values with
  | [] => Some (fzero, fzero, fzero)
  | _ =>
      let sorted := Benchmark.insertion_sort values in
      let n := Z.of_nat (length sorted) in
      let mean := fdiv (foldl fadd fzero sorted) (float_of_int n) in
      r50 ← math_Round (fmul (float_of_int n) (decimal 50 2));
      r99 ← math_Round (fmul (float_of_int n) (decimal 99 2));
      let i50 := (r50 - 1)%Z in
      let i99 := (r99 - 1)%Z in
      let i50 := if (i50 <? 0)%Z then 0%Z else i50 in
      let i99 := if (i99 <? 0)%Z then 0%Z else i99 in
      let i99 := if (n <=? i99)%Z then (n - 1)%Z else i99 in
      p50 ← (if (i50 <? 0)%Z then None else sorted !! Z.to_nat i50);
      p99 ← (if (i99 <? 0)%Z then None else sorted !! Z.to_nat i99);
      Some (p50, p99, mean)
  end.

(** An answer as the script sees it: the status and the two cache headers. *)
Record answer := mk_answer { a_status : Z; a_proxyCache : string; a_apiCache : string }.

(** One request of phase 1; [None] is an error of the client. *)
Definition phase1_count (acc : Z * Z) (r : option answer) : Z * Z :=
  let '(hits, misses) := acc in
  match r with
  | None => (hits, (misses +₆₄ 1)%go)
  | Some a =>
      if bool_decide (a_proxyCache a = "HIT") || bool_decide (a_apiCache a = "HIT")
      then ((hits +₆₄ 1)%go, misses) else (hits, (misses +₆₄ 1)%go)
  end.
Definition phase1 (responses : list (option answer)) : Z * Z := foldl phase1_count (0, 0)%Z responses.

(** The requests of phases 1 to 4. *)
Definition proxyBase : string := "http://localhost:8080".
Definition apiBase : string := "http://localhost:8081".
Definition sample_products : list string :=
  ["prod-001"; "prod-002"; "prod-003"; "prod-004"; "prod-005"; "prod-006"; "prod-007"; "prod-008";
   "prod-009"; "prod-010"].

Definition warm_up : list string :=
  concat (map (λ p, replicate 3 (proxyBase +:+ "/products/" +:+ p)) sample_products).

(** [fmt.Sprintf("%s/products/prod-%03d", apiBase, (i%10)+1)]. *)
Definition miss_url (i : nat) : string :=
  apiBase +:+ "/products/prod-" +:+ pad_zeros 3 (pretty (i `mod` 10 + 1)).

(** The body of the [n]-th write: the price with two decimals. *)
Definition write_price (n : nat) : float64 := fadd (float_of_int 10) (float_of_int (Z.of_nat (n `mod` 100))).
Definition write_url (n : nat) : string := apiBase +:+ "/products/" +:+ default "" (sample_products !! (n `mod` 10)).
Definition write_body (n : nat) : string :=
  "{" +:+ Json.encode_string "price_usd" +:+ ": " +:+ format_fixed 2 (write_price n) +:+ "}".

(** The counter of phases 3 and 4. *)
Definition count_success (acc : Z) (r : option answer) : Z :=
  match r with Some a => if (a_status a =? 200)%Z then wrap64 (acc + 1) else acc | None => acc end.

(** ** The cluster of the script is an initial cluster *)

Definition script_members : list PeerConfig := (λ id, mk_Peer id id) <$> cluster_ids.

(** In a directory without state files of the three nodes the script builds the
    initial state of the cluster model, so what holds of its runs holds of the
    script's elections. *)
Theorem makeCluster_init (fs : gmap string string) (stateDir : string)
    (Hfresh : ∀ id, id ∈ cluster_ids → fs !! StateFile.statePath stateDir id = None) :
  makeCluster fs stateDir =
    Some (init_node script_members <$> script_members, RaftCluster.nodes (init script_members)) ∧
  members_ok script_members.
Proof.
  assert (∀ id, id ∈ cluster_ids → StateFile.as_file fs stateDir id = NotExist) as Hfile.
  { intros id Hid. unfold StateFile.as_file. by rewrite Hfresh. }
  split.
  - unfold makeCluster. cbn [mapM cluster_ids]. rewrite !Hfile by set_solver. reflexivity.
  - split.
    + apply (bool_decide_eq_true_1 (NoDup _)). reflexivity.
    + apply (bool_decide_eq_true_1 (NoDup _)). reflexivity.
    + apply (bool_decide_eq_true_1 (¬ _)). reflexivity.
Qed.

(** [Stop] ends the event loop of a node and nothing else. After the first leader
    is stopped it still votes: the new leader of term 2 is elected with its vote,
    and no step is one of its own loop. *)
Theorem stopped_leader_still_votes :
  (λ s, (won s, (λ n, (state n, VotedFor (ps n))) <$> nodes s !! "node1")) <$>
    sys_run (init script_members)
      (win "node1" "node1" 1 "node3" true ++
       [Beat "node1"; RecvAppend "node1" "node2" (mk_AppendEntries 1 "node1") Millisecond true] ++
       win "node2" "node2" 2 "node1" true) =
  Some ([(2%Z, "node2"); (1%Z, "node1")], Some (Follower, "node2")).
Proof. vm_compute. reflexivity. Qed.

(** ** The statistics *)

Lemma summary_fold times sum mn mx :
  (0 ≤ sum)%Z → (mn ≤ mx)%Z → (∀ t, t ∈ times → 0 ≤ t)%Z →
  (sum + foldr Z.add 0 times ≤ int64_max)%Z →
  let '(sum', mn', mx') := foldl summary_step (sum, mn, mx) times in
  sum' = (sum + foldr Z.add 0 times)%Z ∧ (mn' ≤ mn)%Z ∧ (mx ≤ mx')%Z ∧
  (mn' = mn ∨ mn' ∈ times) ∧ (mx' = mx ∨ mx' ∈ times) ∧ ∀ t, t ∈ times → (mn' ≤ t ≤ mx')%Z.
Proof.
  revert sum mn mx. induction times as [|t times IH]; intros sum mn mx Hs Hm Hpos Hmax.
  { simpl. split_and!; [lia|lia|lia|by left|by left|]. intros t Ht. by apply elem_of_nil in Ht. }
  cbn [foldl summary_step]. simpl in Hmax.
  assert (0 ≤ t)%Z as Ht by (apply Hpos; by left).
  assert (∀ t, t ∈ times → 0 ≤ t)%Z as Hpos' by (intros u Hu; apply Hpos; by right).
  assert (0 ≤ foldr Z.add 0 times)%Z as Hrest.
  { clear -Hpos'. induction times as [|u times IH]; simpl; [lia|].
    pose proof (Hpos' u (list_elem_of_here _ _)). specialize (IH (λ v Hv, Hpos' v (list_elem_of_further _ _ _ Hv))). lia. }
  rewrite wrap64_id by (unfold int64_min; lia).
  specialize (IH (sum + t)%Z (if (t <? mn)%Z then t else mn) (if (mx <? t)%Z then t else mx)).
  destruct (foldl _ _ times) as [[sum' mn'] mx'].
  destruct IH as (-> & Hmn & Hmx & Hmn' & Hmx' & Hall); [lia| |done|lia|].
  { destruct (Z.ltb_spec t mn), (Z.ltb_spec mx t); lia. }
  split; [simpl; lia|].
  destruct (Z.ltb_spec t mn), (Z.ltb_spec mx t); (split_and!; [lia|lia| | |]);
    try (destruct Hmn' as [->|]; [first [by left|right; by left]|right; by right]);
    try (destruct Hmx' as [->|]; [first [by left|right; by left]|right; by right]);
    (intros u [->|Hu]%elem_of_cons; [lia|by apply Hall]).
Qed.

(** The summary of the trials: the minimum and the maximum are times that were
    measured and the average lies between them. *)
Theorem summary_bounds (times : list Duration)
    (Hne : times ≠ []) (Hpos : ∀ t, t ∈ times → (0 ≤ t)%Z) (Hsum : (foldr Z.add 0 times ≤ int64_max)%Z) :
  ∃ mn mx avg, summary times = Some (mn, mx, avg) ∧ mn ∈ times ∧ mx ∈ times ∧ (mn ≤ avg ≤ mx)%Z.
Proof.
  destruct times as [|t0 times]; [done|]. unfold summary.
  pose proof (summary_fold (t0 :: times) 0 t0 t0) as Hf.
  destruct (foldl summary_step (0%Z, t0, t0) (t0 :: times)) as [[sum mn] mx].
  destruct Hf as (-> & _ & _ & Hmn & Hmx & Hall); [lia|lia|done|lia|].
  eexists _, _, _. split; [reflexivity|].
  split; [destruct Hmn as [->|]; [by left|done]|]. split; [destruct Hmx as [->|]; [by left|done]|].
  assert (∀ l, (∀ t, t ∈ l → (mn ≤ t ≤ mx)%Z) →
    (Z.of_nat (length l) * mn ≤ foldr Z.add 0 l ≤ Z.of_nat (length l) * mx)%Z) as Hbound.
  { clear. intros l Hl. induction l as [|t l IH]; [simpl; lia|].
    pose proof (Hl t (list_elem_of_here _ _)).
    specialize (IH (λ v Hv, Hl v (list_elem_of_further _ _ _ Hv))). cbn [length foldr]. lia. }
  specialize (Hbound (t0 :: times) Hall). rewrite Z.add_0_l.
  assert (0 < Z.of_nat (length (t0 :: times)))%Z as Hlen by (simpl; lia).
  assert (0 ≤ mn)%Z as Hmn0.
  { destruct Hmn as [->|Hin]; [|by apply Hpos]. apply Hpos. by left. }
  rewrite Z.quot_div_nonneg by lia. split.
  - apply Z.div_le_lower_bound; lia.
  - apply Z.div_le_upper_bound; lia.
Qed.

(** ** The trials *)

Lemma find_index_spec {A} (p : A → bool) (l : list A) i :
  match find_index p i l with
  | Some j => ∃ k a, j = i + k ∧ l !! k = Some a ∧ p a = true
  | None => ∀ a, a ∈ l → p a = false
  end.
Proof.
  revert i. induction l as [|a l IH]; intros i; simpl; [intros a Ha; by apply elem_of_nil in Ha|].
  destruct (p a) eqn:Ha; [exists 0, a; by rewrite Nat.add_0_r|]. specialize (IH (S i)).
  destruct (find_index p (S i) l) as [j|].
  - destruct IH as (k & b & -> & Hk & Hb). exists (S k), b. split; [lia|done].
  - intros b [->|Hb]%elem_of_cons; [done|by apply IH].
Qed.

(** A survivor in state leader. *)
Definition leads_at (nodes : list RaftNode) (leaderIdx : nat) (name : string) : Prop :=
  ∃ i n, i ≠ leaderIdx ∧ nodes !! i = Some n ∧ state n = Leader ∧ name = "node" +:+ pretty (i + 1).

Lemma new_leader_spec nodes leaderIdx :
  match new_leader nodes leaderIdx with
  | Some name => leads_at nodes leaderIdx name
  | None => ∀ i n, nodes !! i = Some n → i ≠ leaderIdx → state n ≠ Leader
  end.
Proof.
  unfold new_leader.
  pose proof (find_index_spec (λ jn : nat * RaftNode, negb (bool_decide (jn.1 = leaderIdx)) && bool_decide (state jn.2 = Leader))
    (imap pair nodes) 0) as H. destruct (find_index _ 0 _) as [j|]; bind.
  - destruct H as (k & [i n] & -> & Hk & Hp). rewrite list_lookup_imap in Hk.
    destruct (nodes !! k) as [m|] eqn:Em; [|done]. simpl in Hk. injection Hk as <- <-.
    apply andb_prop in Hp as [H1 H2]. apply negb_true_iff, bool_decide_eq_false in H1.
    apply bool_decide_eq_true in H2. by exists k, m.
  - intros i n Hi Hne Hs. assert ((i, n) ∈ imap pair nodes) as Hin.
    { apply elem_of_lookup_imap. by exists i, n. }
    specialize (H _ Hin). simpl in H. rewrite bool_decide_eq_false_2, bool_decide_eq_true_2 in H by done. done.
Qed.

(** The polling loop stops after at most 250 polls, at the first that sees a
    survivor leading. *)
Lemma poll_spec k fuel i leaderIdx polls :
  i + k = 250 → k < fuel →
  ∃ r, poll fuel (Z.of_nat i * poll_interval) i leaderIdx polls = Some r ∧
    match r with
    | Some name => ∃ j, i ≤ j < 250 ∧ leads_at (polls j) leaderIdx name
    | None => ∀ j, i ≤ j < 250 → new_leader (polls j) leaderIdx = None
    end.
Proof.
  revert fuel i. induction k as [|k IH]; intros fuel i Hk Hf; (destruct fuel as [|fuel]; [lia|]); cbn [poll].
  - rewrite (proj2 (Z.ltb_ge _ _)) by (unfold poll_interval, poll_limit, Second, Millisecond; lia).
    exists None. split; [done|]. intros j Hj. lia.
  - rewrite (proj2 (Z.ltb_lt _ _)) by (unfold poll_interval, poll_limit, Second, Millisecond; lia).
    pose proof (new_leader_spec (polls i) leaderIdx) as Hn.
    destruct (new_leader (polls i) leaderIdx) as [name|] eqn:E.
    + exists (Some name). split; [done|]. exists i. split; [lia|done].
    + replace (Z.of_nat i * poll_interval + poll_interval)%Z with (Z.of_nat (S i) * poll_interval)%Z by lia.
      destruct (IH fuel (S i)) as (r & -> & Hr); [lia|lia|]. exists r. split; [done|]. destruct r as [name|].
      * destruct Hr as (j & Hj & Hl). exists j. split; [lia|done].
      * intros j Hj. destruct (decide (j = i)) as [->|]; [done|]. apply Hr. lia.
Qed.

(** Announcements are made by the nodes of the cluster. *)
Definition announced_by_members (arrivals : list (Duration * string)) : Prop :=
  Forall (λ a, a.2 ∈ cluster_ids) arrivals.

Lemma earliest_in best arrivals d id :
  earliest best arrivals = Some (d, id) → best = Some (d, id) ∨ (d, id) ∈ arrivals.
Proof.
  revert best. induction arrivals as [|a arrivals IH]; intros best; simpl; [by left|].
  intros [H|H]%IH; [|right; by right].
  destruct best as [b|]; [destruct (a.1 <? b.1)%Z|]; first [by left|right; apply elem_of_cons; left; congruence].
Qed.

Lemma leader_found arrivals nodes id d :
  announced_by_members arrivals → waitForLeader arrivals poll_limit = (id, d, true) →
  ∃ i, leader_index nodes id = Some i.
Proof.
  intros Hm. unfold waitForLeader. destruct (earliest _ _) as [[d' id']|] eqn:E; [|done].
  intros [= -> ->]. destruct (earliest_in _ _ _ _ E) as [|Hin]; [done|].
  apply list_elem_of_filter in Hin as [_ Hin].
  assert (id ∈ cluster_ids) as Hid.
  { unfold announced_by_members in Hm. rewrite Forall_forall in Hm. exact (Hm _ Hin). }
  unfold leader_index. destruct (find_index _ 0 nodes) as [i|]; [by exists i|].
  pose proof (find_index_spec (λ x, bool_decide (x = id)) cluster_ids 0) as Hf.
  destruct (find_index _ 0 cluster_ids) as [i|]; [by exists i|].
  specialize (Hf id Hid). by rewrite bool_decide_eq_true_2 in Hf.
Qed.

(** A directory none of the three nodes has a state file in. *)
Definition fresh_dir (fs : gmap string string) (stateDir : string) : Prop :=
  ∀ id, id ∈ cluster_ids → fs !! StateFile.statePath stateDir id = None.

(** A trial that saw a re-election: a leader was announced in time, and one of the
    first 250 polls saw another node in state leader. *)
Definition reelected (t : trial) : Prop :=
  ∃ first d leaderIdx j name,
    waitForLeader (t_arrivals t) poll_limit = (first, d, true) ∧
    leader_index (t_nodes t) first = Some leaderIdx ∧ j < 250 ∧ leads_at (t_polls t j) leaderIdx name.

Definition reports (t : trial) (r : string * option Duration) : Prop :=
  (r.2 = Some (t_elapsed t) ∧ reelected t) ∨ (r.2 = None ∧ ¬ reelected t).

Lemma run_trial_spec fs i t :
  fresh_dir fs (t_dir t) → announced_by_members (t_arrivals t) →
  ∃ r, run_trial fs i t = Some r ∧ reports t r.
Proof.
  intros Hfresh Hm. unfold run_trial. rewrite (proj1 (makeCluster_init fs (t_dir t) Hfresh)). bind.
  destruct (waitForLeader (t_arrivals t) poll_limit) as [[first d] ok] eqn:Ew.
  destruct ok.
  2:{ eexists. split; [reflexivity|]. right. split; [done|]. intros (? & ? & ? & ? & ? & E & _).
      by rewrite Ew in E. }
  destruct (leader_found _ (t_nodes t) _ _ Hm Ew) as [idx Hidx]. rewrite Hidx.
  destruct (poll_spec 250 251 0 idx (t_polls t)) as (r & Hp & Hr); [done|lia|].
  change (Z.of_nat 0 * poll_interval)%Z with 0%Z in Hp. rewrite Hp. bind.
  eexists. split; [reflexivity|]. destruct r as [name|].
  - left. split; [done|]. destruct Hr as (j & Hj & Hl).
    exists first, d, idx, j, name. split_and!; [done|done|lia|done].
  - right. split; [done|]. intros (first' & d' & idx' & j & name & E & Hidx' & Hj & Hl).
    rewrite Ew in E. injection E as <- <-. rewrite Hidx in Hidx'. injection Hidx' as <-.
    specialize (Hr j ltac:(lia)). pose proof (new_leader_spec (t_polls t j) idx) as Hn. rewrite Hr in Hn.
    destruct Hl as (k & n & Hk & Hlook & Hs & _). by apply (Hn k n).
Qed.

Lemma run_trials_spec fs (g : nat → nat) ts :
  Forall (λ t, fresh_dir fs (t_dir t) ∧ announced_by_members (t_arrivals t)) ts →
  ∃ results, mapM (λ it, run_trial fs it.1 it.2) (imap (λ k t, (g k, t)) ts) = Some results ∧
    Forall2 reports ts results.
Proof.
  revert g. induction ts as [|t ts IH]; intros g Hts; [by exists []|].
  apply Forall_cons in Hts as [[Hf Ha] Hts]. rewrite imap_cons. cbn [mapM].
  destruct (run_trial_spec fs (g 0) t Hf Ha) as (r & Hr & Hrep). cbn [fst snd]. rewrite Hr.
  destruct (IH (g ∘ S) Hts) as (results & Hres & Hall). exists (r :: results). split; [|by constructor].
  change ((λ k t, (g k, t)) ∘ S) with (λ k (t : trial), ((g ∘ S) k, t)). by rewrite Hres.
Qed.

(** The election script reports what it saw. In fresh directories, with
    announcements by the nodes, it runs to its end; each trial is counted exactly
    when it saw a re-election, with the time measured; and if one did, the minimum
    and the maximum printed are of measured times and the average lies between
    them. *)
Theorem election_report_exact (fs : gmap string string) (dir : string) (arrivals : list (Duration * string))
    (trials : list trial)
    (Hdir : fresh_dir fs dir)
    (Htrials : Forall (λ t, fresh_dir fs (t_dir t) ∧ announced_by_members (t_arrivals t)) trials)
    (Hpos : ∀ t, t ∈ trials → (0 ≤ t_elapsed t)%Z) :
  ∃ out results, election_main fs dir arrivals trials = Some out ∧
    mapM (λ it, run_trial fs it.1 it.2) (imap pair trials) = Some results ∧
    Forall2 reports trials results ∧
    let times := omap snd results in
    (times ≠ [] → (foldr Z.add 0 times ≤ int64_max)%Z →
     ∃ mn mx avg, print_summary times =
       [GoFmt.nl +:+ "  ✦ Re-election timing across " +:+ pretty (length times) +:+ " trials:";
        "     Min: " +:+ ms mn; "     Max: " +:+ ms mx; "     Avg: " +:+ ms avg] ∧
       mn ∈ times ∧ mx ∈ times ∧ (mn ≤ avg ≤ mx)%Z).
Proof.
  destruct (run_trials_spec fs (λ k, k) trials Htrials) as (results & Hres & Hall).
  unfold election_main. rewrite (proj1 (makeCluster_init fs dir Hdir)). bind.
  change (imap (λ k t, (k, t)) trials) with (imap pair trials) in Hres. rewrite Hres. bind.
  eexists _, results. split; [reflexivity|]. split; [done|]. split; [done|]. cbv zeta. intros Hne Hsum.
  destruct (summary_bounds (omap snd results) Hne) as (mn & mx & avg & E & Hmn & Hmx & Havg); [|done|].
  - intros t Ht. apply list_elem_of_omap in Ht as (r & Hr & Et).
    apply list_elem_of_lookup in Hr as [k Hk]. destruct (Forall2_lookup_r _ _ _ _ _ Hall Hk) as (x & Hx & Hrep).
    destruct Hrep as [[E _]|[E _]]; rewrite Et in E; [|done]. injection E as ->. apply Hpos.
    by eapply list_elem_of_lookup_2.
  - exists mn, mx, avg. unfold print_summary. by rewrite E.
Qed.

(** Phase 1 counts every request once. *)
Theorem phase1_counts (responses : list (option answer))
    (Hlen : (Z.of_nat (length responses) ≤ int64_max)%Z) :
  let '(hits, misses) := phase1 responses in
  (hits + misses)%Z = Z.of_nat (length responses) ∧ (0 ≤ hits)%Z ∧ (0 ≤ misses)%Z.
Proof.
  unfold phase1. assert (∀ l h m, (0 ≤ h)%Z → (0 ≤ m)%Z → (h + m + Z.of_nat (length l) ≤ int64_max)%Z →
    let '(h', m') := foldl phase1_count (h, m) l in
    (h' + m')%Z = (h + m + Z.of_nat (length l))%Z ∧ (0 ≤ h')%Z ∧ (0 ≤ m')%Z) as Hgo.
  { clear. induction l as [|r l IH]; intros h m Hh Hm Hmax; [simpl; lia|]. cbn [length] in Hmax.
    assert (∃ h' m', phase1_count (h, m) r = (h', m') ∧ (h' + m' = h + m + 1)%Z ∧ (0 ≤ h')%Z ∧ (0 ≤ m')%Z)
      as (h' & m' & E & Hs & Hh' & Hm').
    { unfold phase1_count. destruct r as [a|]; [destruct (_ || _)|]; eexists _, _;
        (split; [done|]); rewrite wrap64_id by (unfold int64_min; lia); lia. }
    cbn [foldl]. rewrite E. specialize (IH h' m' Hh' Hm').
    destruct (foldl phase1_count (h', m') l) as [h'' m'']. cbn [length]. lia. }
  specialize (Hgo responses 0%Z 0%Z). destruct (foldl _ _ responses) as [h m]. simpl in Hgo. lia.
Qed.

(** The indices of [stats] for [n] samples are within them. *)
Definition stats_in_range (n : nat) : bool :=
  match math_Round (fmul (float_of_int (Z.of_nat n)) (decimal 50 2)),
        math_Round (fmul (float_of_int (Z.of_nat n)) (decimal 99 2)) with
  | Some r50, Some _ => (r50 - 1 <? Z.of_nat n)%Z
  | _, _ => false
  end.

Lemma stats_in_range_300 : forallb stats_in_range (seq 1 300) = true.
Proof. vm_compute. reflexivity. Qed.

(** Phase 2 takes at most 300 samples: on these [stats] never indexes out of
    range, and the median and the percentile it returns are samples. *)
Theorem stats_samples (values : list float64) (Hne : values ≠ []) (Hlen : length values ≤ 300) :
  ∃ p50 p99 mean, stats values = Some (p50, p99, mean) ∧ p50 ∈ values ∧ p99 ∈ values.
Proof.
  pose proof (Benchmark.insertion_sort_perm values) as Hperm.
  pose proof (Permutation_length Hperm) as Hl.
  assert (0 < length values) as Hpos by (destruct values; [done|simpl; lia]).
  assert (stats_in_range (length values) = true) as Hr.
  { pose proof stats_in_range_300 as H. rewrite forallb_forall in H. apply H, in_seq. lia. }
  unfold stats. destruct values as [|v values]; [done|]. set (vs := v :: values) in *.
  rewrite Hl. unfold stats_in_range in Hr.
  destruct (math_Round (fmul _ (decimal 50 2))) as [r50|]; [|done].
  destruct (math_Round (fmul _ (decimal 99 2))) as [r99|]; [|done]. cbn [mbind option_bind].
  apply Z.ltb_lt in Hr.
  assert (∀ i, (0 ≤ i < Z.of_nat (length vs))%Z →
    ∃ x, (if (i <? 0)%Z then None else Benchmark.insertion_sort vs !! Z.to_nat i) = Some x ∧ x ∈ vs) as Hidx.
  { intros i Hi. destruct (Z.ltb_spec i 0); [lia|].
    destruct (lookup_lt_is_Some_2 (Benchmark.insertion_sort vs) (Z.to_nat i)) as [x Hx]; [lia|].
    exists x. split; [done|]. rewrite <-Hperm. by eapply list_elem_of_lookup_2. }
  set (i50 := if (r50 - 1 <? 0)%Z then 0%Z else (r50 - 1)%Z).
  destruct (Hidx i50) as (x & -> & Hx); [unfold i50; destruct (Z.ltb_spec (r50 - 1) 0); lia|].
  set (j := if (r99 - 1 <? 0)%Z then 0%Z else (r99 - 1)%Z).
  set (i99 := if (Z.of_nat (length vs) <=? j)%Z then (Z.of_nat (length vs) - 1)%Z else j).
  destruct (Hidx i99) as (y & -> & Hy).
  { unfold i99. assert (0 ≤ j)%Z by (unfold j; destruct (Z.ltb_spec (r99 - 1) 0); lia).
    destruct (Z.leb_spec (Z.of_nat (length vs)) j); lia. }
  cbn [mbind option_bind]. eauto 10.
Qed.

(** ** Phase 2 does not measure misses *)

Definition ten_products : Db.MemPg :=
  list_to_map (map (λ id, (id, Db.mk_Product id "p" "" 79 "c" 0 0)) sample_products).

(** The identifier at the end of a URL of phase 2. *)
Definition url_product (url : string) : string := TrimPrefix url (apiBase +:+ "/products/").

Definition served (st : Api.cache_status) (r : Api.http_response) : bool :=
  match Api.x_cache r, st with
  | Some Api.HIT, Api.HIT | Some Api.MISS, Api.MISS => true
  | _, _ => false
  end.

(** The hundred requests whose latencies are taken for those of the database:
    the API answers ten of them with a miss and the other ninety from its own
    cache. *)
Theorem phase2_measures_hits :
  (λ '(_, resps), (length (List.filter (served Api.MISS) resps), length (List.filter (served Api.HIT) resps)))
    <$> Api.serve_all (Api.mk_CacheAside (Cache.New 10000 LRU.NewLRU) ten_products Invalidation.WriteThrough)
          (map (λ i, Api.RGet (λ _, (Z.of_nat i * Millisecond + Second)%Z) (url_product (miss_url i))) (seq 0 100))
  = Some (10, 90).
Proof. vm_compute. reflexivity. Qed.
End Scripts.
