(* ===== verification/Simulate.v ===== *)
(** The metrics script [src/scripts/simulate.go]: its six phases, with what each
    sends and prints, and the pool of goroutines that phases 3 and 4 send their
    requests with. The answers of the system and the times they take are
    arguments; random numbers and the date too. *)
From S2P Require Import Prelude GoStrings Json GoFmt GoNumbers Report Scripts.
From Stdlib Require Import SpecFloat.

Module Simulate.
Import Scripts Report.

Definition sep : string := double_rule.

(** [float64(d.Microseconds()) / 1000.0] and [d.Seconds()]. *)
Definition millis (d : Duration) : float64 := fdiv (float_of_int (d ÷ 1000)) (float_of_int 1000).
Definition Seconds (d : Duration) : float64 :=
  fadd (float_of_int (d ÷ Second)) (fdiv (float_of_int (Z.rem d Second)) (float_of_int 1000000000)).

(** ** Phase 1: hit rate *)

(** The requests, after the warm-up: [draws] are the numbers of the Zipf
    generator, and an index out of range is a panic. *)
Definition phase1_requests (draws : nat → nat) : option (list string) :=
  mapM (λ i, p ← sample_products !! draws i; Some (proxyBase +:+ "/products/" +:+ p)) (seq 0 1000).

Definition phase1_report (responses : list (option answer)) : list string :=
  let '(hits, misses) := phase1 responses in
  let hitRate := fmul (fdiv (float_of_int hits) (float_of_int 1000)) (float_of_int 100) in
  ["  Requests:   1000"; "  HITs:       " +:+ pretty hits; "  MISSes:     " +:+ pretty misses;
   "  ✦ Hit Rate: " +:+ format_fixed 1 hitRate +:+ "%"].

(** The phase against [net], which answers the [i]-th request. *)
Definition phase1HitRate (draws : nat → nat) (net : nat → string → option answer) : option (list string) :=
  urls ← phase1_requests draws;
  Some ([GoFmt.nl +:+ "▶ Phase 1: Cache Hit Rate (Zipf workload, 1000 requests)"; "  Warming cache..."] ++
        phase1_report (imap (λ i url, net (length warm_up + i) url) urls)).

(** ** Phase 2: latency *)

(** The latencies of the requests that do not fail. *)
Definition latencies (net : nat → string → option answer * Duration) (urls : list string) : list float64 :=
  omap (λ '(r, d), match r with Some _ => Some (millis d) | None => None end) (imap net urls).

Definition hit_urls : list string := replicate 300 (proxyBase +:+ "/products/prod-001").
Definition miss_urls : list string := miss_url <$> seq 0 100.

Definition phase2Latency (net : nat → string → option answer * Duration) : option (list string) :=
  '(hitP50, hitP99, hitMean) ← stats (latencies (λ i, net (1 + i)) hit_urls);
  '(missP50, missP99, missMean) ← stats (latencies (λ i, net (301 + i)) miss_urls);
  let f2 := format_fixed 2 in
  Some [GoFmt.nl +:+ "▶ Phase 2: Read Latency — Cache HIT vs DB MISS";
        "  Cache HIT  — mean: " +:+ f2 hitMean +:+ "ms  p50: " +:+ f2 hitP50 +:+ "ms  p99: " +:+ f2 hitP99 +:+ "ms";
        "  DB (MISS)  — mean: " +:+ f2 missMean +:+ "ms  p50: " +:+ f2 missP50 +:+ "ms  p99: " +:+ f2 missP99 +:+ "ms";
        "  ✦ Read speedup: " +:+ format_fixed 0 (fdiv missMean hitMean) +:+ "x faster with cache";
        "  ✦ p99 HIT latency: " +:+ f2 hitP99 +:+ "ms"].

(** ** Phases 3 and 4: throughput *)

(** The goroutines of a round: the main one starts request after request, each
    once the semaphore has room; a request ends with its answer and gives its
    place back. *)
Record pool := mk_pool { spawned : nat; in_flight : list nat; success : Z }.

Inductive pool_event :=
| Spawn
| Finish (n : nat).

Definition pool_step (total concurrency : nat) (answers : nat → option answer) (p : pool) (e : pool_event)
    : option pool :=
  match e with
  | Spawn =>
      if (spawned p <? total) && (length (in_flight p) <? concurrency)
      then Some (mk_pool (S (spawned p)) (spawned p :: in_flight p) (success p)) else None
  | Finish n =>
      if decide (n ∈ in_flight p)
      then Some (mk_pool (spawned p) (filter (λ m, m ≠ n) (in_flight p)) (count_success (success p) (answers n)))
      else None
  end.

Fixpoint pool_run (total concurrency : nat) (answers : nat → option answer) (p : pool) (es : list pool_event)
    : option pool :=
  match es with
  | [] => Some p
  | e :: es => p' ← pool_step total concurrency answers p e; pool_run total concurrency answers p' es
  end.

Definition pool_start : pool := mk_pool 0 [] 0.

(** [wg.Wait] returns. *)
Definition pool_done (total : nat) (p : pool) : Prop := spawned p = total ∧ in_flight p = [].

(** The line of a round. *)
Definition throughput_line (verb unit : string) (total concurrency : nat) (success : Z) (elapsed : Duration)
    : string :=
  "  concurrency=" +:+ right 3 (pretty concurrency) +:+ " → " +:+ pretty total +:+ " " +:+ verb +:+ " in " +:+
  ms elapsed +:+ " → ✦ " +:+ format_fixed 0 (fdiv (float_of_int success) (Seconds elapsed)) +:+ " " +:+ unit +:+
  "/sec (" +:+
  format_fixed 0 (fmul (fdiv (float_of_int success) (float_of_int (Z.of_nat total))) (float_of_int 100)) +:+
  "% success)".

Definition levels : list nat := [10; 50; 100].

(** A round of a phase: the successes it counted and the time it took. *)
Definition phase3WriteThroughput (rounds : nat → Z * Duration) : list string :=
  (GoFmt.nl +:+ "▶ Phase 3: Write Throughput (concurrent PUTs)") ::
  ((λ c, throughput_line "writes" "writes" 200 c (rounds c).1 (rounds c).2) <$> levels).

Definition read_url (n : nat) : string := proxyBase +:+ "/products/" +:+ default "" (sample_products !! (n `mod` 10)).

Definition phase4ReadThroughput (rounds : nat → Z * Duration) : list string :=
  (GoFmt.nl +:+ "▶ Phase 4: Read Throughput Under Concurrent Load") ::
  ((λ c, throughput_line "reads" "req" 500 c (rounds c).1 (rounds c).2) <$> levels).

(** ** Phases 5 and 6: fixed results *)

Definition phase5_results : list (string * float64 * float64) :=
  [("lru", decimal 987 1, decimal 1 3); ("lfu", decimal 987 1, decimal 2 3);
   ("ttl", decimal 984 1, decimal 1 3); ("random", decimal 986 1, decimal 1 3)].

Definition phase5EvictionBenchmark : list string :=
  [GoFmt.nl +:+ "▶ Phase 5: Eviction Policy Hit Rate Comparison (10K ops, Zipf workload)";
   "  (Running internal benchmark — no network calls)";
   "  See 'go run ./cmd/benchmark --mode=eviction' for full results"] ++
  ((λ '(name, hitRate, meanMs), "  " +:+ left 8 name +:+ " hit=" +:+ format_fixed 1 hitRate +:+ "%  mean=" +:+
      format_fixed 3 meanMs +:+ "ms") <$> phase5_results) ++
  ["  ✦ LRU and LFU both achieve ~98.7% hit rate under Zipf workload";
   "  ✦ TTL-only 0.3pp lower — evicts soon-expiring entries regardless of popularity"].

Definition phase6NodeFailure : list string :=
  [GoFmt.nl +:+ "▶ Phase 6: Node Failure — Graceful Degradation";
   "  Skipping live node kill to protect running system.";
   "  Result from earlier manual test:";
   "  ✦ 20/20 reads succeeded with cache-node-2 down (100% success rate)";
   "  ✦ Keys owned by downed node fell through to PostgreSQL — no errors returned";
   "  ✦ Keys on healthy nodes completely unaffected"].

(** ** The script *)

Record observed := mk_observed {
  o_date : string;
  o_draws : nat → nat;
  o_phase1 : nat → string → option answer;
  o_phase2 : nat → string → option answer * Duration;
  o_writes : nat → Z * Duration;
  o_reads : nat → Z * Duration
}.

Definition simulate_main (o : observed) : option string :=
  p1 ← phase1HitRate (o_draws o) (o_phase1 o);
  p2 ← phase2Latency (o_phase2 o);
  Some (lines ([sep; "  DCG Resume Metrics Simulation — " +:+ o_date o; sep] ++ p1 ++ p2 ++
    phase3WriteThroughput (o_writes o) ++ phase4ReadThroughput (o_reads o) ++
    phase5EvictionBenchmark ++ phase6NodeFailure ++
    [sep; "  ✅ SIMULATION COMPLETE — metrics ready for resume"; sep])).

(** ** The script ends *)

Lemma phase1_requests_total draws :
  (∀ i, draws i < 10) → ∃ urls, phase1_requests draws = Some urls ∧ length urls = 1000.
Proof.
  intros Hd. unfold phase1_requests.
  destruct (mapM_is_Some_2 (λ i, p ← sample_products !! draws i; Some (proxyBase +:+ "/products/" +:+ p)) (seq 0 1000))
    as [urls E].
  { apply Forall_forall. intros i _. unfold compose. destruct (lookup_lt_is_Some_2 sample_products (draws i) (Hd i)) as [p ->].
    by eexists. }
  exists urls. split; [exact E|]. apply length_mapM in E. rewrite length_seq in E. exact (eq_sym E).
Qed.

Lemma stats_total values : length values ≤ 300 → ∃ p50 p99 mean, stats values = Some (p50, p99, mean).
Proof.
  intros Hl. destruct values as [|v values]; [by eexists _, _, _|].
  destruct (stats_samples (v :: values)) as (p50 & p99 & mean & E & _); [done|done|by eexists _, _, _].
Qed.

Lemma latencies_length net urls : length (latencies net urls) ≤ length urls.
Proof.
  unfold latencies. rewrite <-(length_imap net urls). generalize (imap net urls) as l.
  induction l as [|[[a|] d] l IH]; cbn [omap list_omap length]; lia.
Qed.

Lemma phase1_total draws net : (∀ i, draws i < 10) → ∃ out, phase1HitRate draws net = Some out.
Proof.
  intros Hd. unfold phase1HitRate. destruct (phase1_requests_total _ Hd) as (urls & E & _).
  rewrite E. eexists. reflexivity.
Qed.

Lemma phase2_total net : ∃ out, phase2Latency net = Some out.
Proof.
  assert (length hit_urls ≤ 300 ∧ length miss_urls ≤ 300) as [H1 H2] by (vm_compute; lia).
  pose proof (latencies_length (λ i, net (1 + i)) hit_urls) as Hh.
  pose proof (latencies_length (λ i, net (301 + i)) miss_urls) as Hm.
  unfold phase2Latency.
  generalize dependent (latencies (λ i, net (1 + i)) hit_urls). intros l1 Hh.
  generalize dependent (latencies (λ i, net (301 + i)) miss_urls). intros l2 Hm.
  destruct (stats_total l1) as (a & b & c & E1); [lia|].
  destruct (stats_total l2) as (d & e & f & E2); [lia|].
  rewrite E1, E2. eexists. reflexivity.
Qed.

(** With the indices the Zipf generator of the script draws, 0 to 9, the script
    runs to its end whatever the system answers, also if it answers nothing: no
    index is out of range and every phase prints its report. *)
Theorem simulation_completes (o : observed) (Hdraws : ∀ i, o_draws o i < 10) :
  ∃ out, simulate_main o = Some out.
Proof.
  unfold simulate_main. destruct (phase1_total (o_draws o) (o_phase1 o) Hdraws) as [p1 E1].
  destruct (phase2_total (o_phase2 o)) as [p2 E2]. rewrite E1, E2. eexists. reflexivity.
Qed.

(** ** The pool *)

Section Pool.
Context (total concurrency : nat) (answers : nat → option answer).
Hypothesis Htotal : (Z.of_nat total ≤ int64_max)%Z.

Definition succeeded (n : nat) : bool :=
  match answers n with Some a => (a_status a =? 200)%Z | None => false end.

(** The requests that have ended, with those in flight, are those started, and
    the counter is that of the ended ones. *)
Record pool_ok (p : pool) : Prop := {
  pool_spawned : spawned p ≤ total;
  pool_flight : length (in_flight p) ≤ concurrency;
  pool_ended : ∃ ended, ended ++ in_flight p ≡ₚ seq 0 (spawned p) ∧
    success p = Z.of_nat (length (List.filter succeeded ended))
}.

Lemma take_out (n : nat) (l : list nat) : NoDup l → n ∈ l → l ≡ₚ n :: filter (λ m, m ≠ n) l.
Proof.
  induction l as [|m l IH]; intros Hnd Hn; [by apply elem_of_nil in Hn|].
  apply NoDup_cons in Hnd as [Hm Hnd]. rewrite filter_cons.
  destruct (decide (m = n)) as [->|Hne].
  - rewrite decide_False by (intros H; by apply H).
    rewrite filter_all; [done|]. intros x Hx ->. done.
  - rewrite decide_True by done. apply elem_of_cons in Hn as [->|Hn]; [done|].
    rewrite (IH Hnd Hn) at 1. apply Permutation_swap.
Qed.

Lemma pool_step_ok p e p' :
  pool_ok p → pool_step total concurrency answers p e = Some p' → pool_ok p'.
Proof.
  intros [Hsp Hfl (ended & Hperm & Hs)]. destruct e as [|n]; cbn [pool_step].
  - destruct (Nat.ltb_spec (spawned p) total); [|done].
    destruct (Nat.ltb_spec (length (in_flight p)) concurrency); [|done]. intros [= <-].
    constructor; cbn [spawned in_flight success length]; [lia|lia|].
    exists ended. split; [|done]. rewrite seq_S, <-Hperm. simpl.
    by rewrite <-Permutation_middle, Permutation_cons_append.
  - destruct (decide (n ∈ in_flight p)) as [Hn|]; [|done]. intros [= <-].
    assert (NoDup (in_flight p)) as Hnd.
    { assert (NoDup (ended ++ in_flight p)) as H by (rewrite Hperm; apply NoDup_seq).
      by apply NoDup_app in H as (_ & _ & ?). }
    pose proof (take_out n (in_flight p) Hnd Hn) as Ht.
    constructor; cbn [spawned in_flight success]; [done| |].
    + etransitivity; [apply length_filter|done].
    + exists (n :: ended). split.
      { rewrite <-Hperm. etransitivity; [|symmetry; apply Permutation_app_head, Ht].
        by rewrite <-Permutation_middle. }
      assert (length (List.filter succeeded ended) < total) as Hlt.
      { assert (length ended + length (in_flight p) = spawned p) as Hlen
          by (rewrite <-length_app, Hperm; apply length_seq).
        assert (length (in_flight p) ≠ 0) by (destruct (in_flight p); [by apply elem_of_nil in Hn|done]).
        pose proof (List.filter_length_le succeeded ended). lia. }
      cbn [List.filter]. unfold count_success, succeeded at 1. rewrite Hs.
      destruct (answers n) as [a|]; [destruct (a_status a =? 200)%Z|]; try done.
      rewrite wrap64_id by (unfold int64_min; lia). cbn [length]. lia.
Qed.

Lemma pool_run_ok es : ∀ p p',
  pool_ok p → pool_run total concurrency answers p es = Some p' → pool_ok p'.
Proof.
  induction es as [|e es IH]; intros p p' Hok; cbn [pool_run]; [by intros [= <-]|].
  destruct (pool_step _ _ _ p e) as [p1|] eqn:E; [|done]. bind. apply IH. by eapply pool_step_ok.
Qed.

Lemma pool_start_ok : pool_ok pool_start.
Proof. constructor; simpl; [lia|lia|]. by exists []. Qed.

(** Each request takes two steps. *)
Lemma pool_run_length es : ∀ p p',
  pool_ok p → pool_run total concurrency answers p es = Some p' →
  length es + 2 * spawned p + length (in_flight p') = 2 * spawned p' + length (in_flight p).
Proof.
  induction es as [|e es IH]; intros p p' Hok; cbn [pool_run]; [intros [= <-]; simpl; lia|].
  destruct (pool_step _ _ _ p e) as [p1|] eqn:E; [|done]. bind. intros H.
  specialize (IH p1 p' (pool_step_ok _ _ _ Hok E) H).
  assert (2 * spawned p + 1 + length (in_flight p1) = 2 * spawned p1 + length (in_flight p)) as Hone;
    [|cbn [length]; lia].
  destruct e as [|n]; cbn [pool_step] in E.
  - destruct (_ && _); [|done]. injection E as <-. simpl. lia.
  - destruct (decide (n ∈ in_flight p)) as [Hn|]; [|done]. injection E as <-. cbn [spawned in_flight].
    destruct Hok as [_ _ (ended & Hperm & _)].
    assert (NoDup (in_flight p)) as Hnd.
    { assert (NoDup (ended ++ in_flight p)) as H' by (rewrite Hperm; apply NoDup_seq).
      by apply NoDup_app in H' as (_ & _ & ?). }
    pose proof (Permutation_length (take_out n (in_flight p) Hnd Hn)) as Ht. cbn [length] in Ht. lia.
Qed.
End Pool.

(** The request pool of the throughput phases. For any number of requests and
    any positive concurrency, in whatever order the goroutines run: never more
    than [concurrency] requests are in flight; as long as the round is not over
    some goroutine can go on; a round ends after exactly two steps per request;
    and then the counter is exactly the number of requests answered with 200. *)
Theorem pool_exact (total concurrency : nat) (answers : nat → option answer) (es : list pool_event) (p : pool)
    (Htotal : (Z.of_nat total ≤ int64_max)%Z) (Hc : 0 < concurrency)
    (Hrun : pool_run total concurrency answers pool_start es = Some p) :
  length (in_flight p) ≤ concurrency ∧
  length es ≤ 2 * total ∧
  (pool_done total p ∨ ∃ e p', pool_step total concurrency answers p e = Some p') ∧
  (pool_done total p → length es = 2 * total ∧
     success p = Z.of_nat (length (List.filter (succeeded answers) (seq 0 total)))).
Proof.
  pose proof (pool_run_ok total concurrency answers Htotal es _ _ (pool_start_ok total concurrency answers) Hrun)
    as [Hsp Hfl (ended & Hperm & Hs)].
  pose proof (pool_run_length total concurrency answers Htotal es _ _ (pool_start_ok total concurrency answers) Hrun)
    as Hlen. cbn [spawned in_flight pool_start length] in Hlen.
  split; [done|]. split; [lia|]. split.
  - destruct (in_flight p) as [|n l] eqn:El.
    + destruct (decide (spawned p = total)) as [|Hne]; [by left|]. right. exists Spawn. cbn [pool_step].
      rewrite El. rewrite (proj2 (Nat.ltb_lt _ _)) by lia. rewrite (proj2 (Nat.ltb_lt _ _)) by done. by eexists.
    + right. exists (Finish n). cbn [pool_step]. rewrite decide_True by (rewrite El; by left). by eexists.
  - intros [Et El]. rewrite El in *. cbn [length] in Hlen. split; [lia|]. rewrite Hs. f_equal.
    rewrite app_nil_r, Et in Hperm. clear -Hperm.
    induction Hperm; cbn [List.filter]; repeat case_match; cbn [length]; congruence.
Qed.

(** *** Witnesses *)

Definition two_answers (n : nat) : option answer :=
  match n with 0 => Some (mk_answer 200 "" "") | _ => None end.

(** Two requests, the second of which finishes first. *)
Lemma pool_exact_witness :
  ∃ p, pool_run 2 2 two_answers pool_start [Spawn; Spawn; Finish 1; Finish 0] = Some p ∧ success p = 1%Z.
Proof.
  destruct (pool_run 2 2 two_answers pool_start [Spawn; Spawn; Finish 1; Finish 0]) as [p|] eqn:E;
    [|vm_compute in E; discriminate E].
  destruct (pool_exact 2 2 two_answers [Spawn; Spawn; Finish 1; Finish 0] p) as (_ & _ & _ & Hdone).
  - vm_compute. discriminate.
  - lia.
  - exact E.
  - exists p. split; [reflexivity|]. apply Hdone. vm_compute in E. injection E as <-. split; reflexivity.
Defined.
End Simulate.
