(* ===== verification/Py.v ===== *)
(** The parts of Python the simulator package [src/python/src/llmsim] uses:
    exceptions, numbers and their conversions, [collections.OrderedDict], and
    the formatting of numbers. *)
From S2P Require Import Prelude GoNumbers FloatExact.
From Stdlib Require Import SpecFloat Ascii.

Module Py.

(** ** Exceptions *)

(** A value passed where the package asks for an [int]. *)
Inductive arg :=
| Int (z : Z)
| Bool (b : bool)
| Other (type_name : string).

(** What the package or the library calls in it raise. [Unfinished] is no
    exception: a loop has not ended within the steps a definition was given. *)
Inductive error :=
| UnknownModelError (name : string)
| SeqLenRangeError (seq_len : arg)
| UnknownScenarioError (name : string)
| ComparisonParamError (param : string)
| DocumentStoreParamError (param : string)
| RAGConfigError (field : string)
| ValueError (what : string)
| KeyError (key : string)
| OverflowError
| ZeroDivisionError
| AssertionError
| Unfinished.

Inductive res (A : Type) :=
| Ok (a : A)
| Err (e : error).
#[global] Arguments Ok {A} a.
#[global] Arguments Err {A} e.

#[global] Instance res_bind : MBind res := λ A B f r, match r with Ok a => f a | Err e => Err e end.
#[global] Instance res_fmap : FMap res := λ A B f r, match r with Ok a => Ok (f a) | Err e => Err e end.

(** [for x in l: ...] over a state. *)
Fixpoint for_each {S A} (f : S → A → res S) (s : S) (l : list A) : res S :=
  match l with
  | [] => Ok s
  | a :: l => s' ← f s a; for_each f s' l
  end.

(** [[f(x) for x in l]]. *)
Fixpoint list_of {A B} (f : A → res B) (l : list A) : res (list B) :=
  match l with
  | [] => Ok []
  | a :: l => b ← f a; bs ← list_of f l; Ok (b :: bs)
  end.

(** ** Numbers *)

(** [float(z)], and the conversion of an [int] operand. *)
Definition to_float (z : Z) : res float64 :=
  match float_of_int z with
  | S754_infinity _ => Err OverflowError
  | x => Ok x
  end.

(** [a / b] of two [int]s: the correctly rounded quotient. Operands that are exact
    as floats are divided as floats. *)
Definition true_div (a b : Z) : res float64 :=
  if (b =? 0)%Z then Err ZeroDivisionError
  else if ((Z.abs a <? 2 ^ 53) && (Z.abs b <? 2 ^ 53))%Z then Ok (fdiv (float_of_int a) (float_of_int b))
  else match SFdiv 53 1024 (unrounded a) (unrounded b) with
       | S754_infinity _ => Err OverflowError
       | q => Ok q
       end.

(** [x / y] of two [float]s. *)
Definition float_div (x y : float64) : res float64 :=
  match y with S754_zero _ => Err ZeroDivisionError | _ => Ok (fdiv x y) end.

Lemma to_float_ok z : (0 ≤ z < 2 ^ 53)%Z → to_float z = Ok (float_of_int z).
Proof.
  intros Hz. unfold to_float. destruct (decide (z = 0%Z)) as [->|Hne]; [done|].
  destruct (float_of_int_denotes z) as (c & e & -> & _); [by apply fits_small|lia|done].
Qed.

(** ** OrderedDict *)

(** The items, the oldest first. *)
Section Dict.
Context {V : Type}.
Implicit Types d : list (string * V).

Fixpoint dict_get (k : string) d : option V :=
  match d with
  | [] => None
  | (k', v) :: d => if decide (k' = k) then Some v else dict_get k d
  end.

(** [d[k] = v]: in place, or as the last item. *)
Fixpoint dict_set (k : string) (v : V) d : list (string * V) :=
  match d with
  | [] => [(k, v)]
  | (k', v') :: d => if decide (k' = k) then (k', v) :: d else (k', v') :: dict_set k v d
  end.

Fixpoint dict_remove (k : string) d : list (string * V) :=
  match d with
  | [] => []
  | (k', v') :: d => if decide (k' = k) then d else (k', v') :: dict_remove k d
  end.

Definition move_to_end (k : string) d : res (list (string * V)) :=
  match dict_get k d with
  | None => Err (KeyError k)
  | Some v => Ok (dict_remove k d ++ [(k, v)])
  end.

(** [d.popitem(last=False)]. *)
Definition popitem_first d : res (string * V * list (string * V)) :=
  match d with
  | [] => Err (KeyError "dictionary is empty")
  | kv :: d => Ok (kv, d)
  end.

Lemma dict_get_split k d v :
  dict_get k d = Some v → ∃ d1 d2, d = d1 ++ (k, v) :: d2 ∧ k ∉ d1.*1.
Proof.
  induction d as [|[k' v'] d IH]; [done|]. simpl. destruct (decide (k' = k)) as [->|Hne].
  - intros [= <-]. exists [], d. split; [done|]. by intros ?%elem_of_nil.
  - intros (d1 & d2 & -> & Hk)%IH. exists ((k', v') :: d1), d2. split; [done|].
    rewrite fmap_cons. intros [?|?]%elem_of_cons; [by subst|done].
Qed.

Lemma dict_get_none k d : dict_get k d = None ↔ k ∉ d.*1.
Proof.
  induction d as [|[k' v'] d IH]; simpl; [split; [intros _ ?%elem_of_nil|]; done|].
  rewrite not_elem_of_cons. destruct (decide (k' = k)) as [->|Hne]; [naive_solver|].
  rewrite IH. naive_solver.
Qed.

Lemma dict_get_mid k v d1 d2 : k ∉ d1.*1 → dict_get k (d1 ++ (k, v) :: d2) = Some v.
Proof.
  induction d1 as [|[k' v'] d1 IH]; simpl; [by rewrite decide_True|].
  intros [? ?]%not_elem_of_cons. rewrite decide_False by done. auto.
Qed.

Lemma dict_remove_mid k v d1 d2 : k ∉ d1.*1 → dict_remove k (d1 ++ (k, v) :: d2) = d1 ++ d2.
Proof.
  induction d1 as [|[k' v'] d1 IH]; simpl; [by rewrite decide_True|].
  intros [? ?]%not_elem_of_cons. rewrite decide_False by done. f_equal. auto.
Qed.

Lemma dict_set_mid k v v' d1 d2 : k ∉ d1.*1 → dict_set k v' (d1 ++ (k, v) :: d2) = d1 ++ (k, v') :: d2.
Proof.
  induction d1 as [|[k' w] d1 IH]; simpl; [by rewrite decide_True|].
  intros [? ?]%not_elem_of_cons. rewrite decide_False by done. f_equal. auto.
Qed.

Lemma dict_set_new k v d : k ∉ d.*1 → dict_set k v d = d ++ [(k, v)].
Proof.
  induction d as [|[k' w] d IH]; simpl; [done|].
  intros [? ?]%not_elem_of_cons. rewrite decide_False by done. f_equal. auto.
Qed.

Lemma move_to_end_mid k v d1 d2 :
  k ∉ d1.*1 → move_to_end k (d1 ++ (k, v) :: d2) = Ok (d1 ++ d2 ++ [(k, v)]).
Proof.
  intros Hk. unfold move_to_end. rewrite dict_get_mid, dict_remove_mid by done. by rewrite <- app_assoc.
Qed.
End Dict.

(** ** Formatting *)

(** [f"{v:.<prec>f}"]. *)
Definition fixed (prec : nat) (v : float64) : string :=
  match v with
  | S754_nan => "nan"
  | S754_infinity s => if s then "-inf" else "inf"
  | _ => format_fixed prec v
  end.

(** A comma before every group of three digits, counted from the end of the
    digits [s]. *)
Fixpoint group (s : string) : string :=
  match s with
  | "" => ""
  | String c s' =>
      String c (if decide (s' ≠ "" ∧ String.length s' `mod` 3 = 0) then String "," (group s') else group s')
  end.

(** [f"{z:,d}"]. *)
Definition comma_int (z : Z) : string :=
  if (z <? 0)%Z then "-" +:+ group (pretty (- z)%Z) else group (pretty z).

(** [f"{v:,.<prec>f}"]. *)
Definition comma_fixed (prec : nat) (v : float64) : string :=
  let text (n : Z) :=
    let p := (10 ^ Z.of_nat prec)%Z in
    group (pretty (n / p)%Z) +:+
    match prec with 0 => "" | _ => "." +:+ pad_zeros prec (pretty (n mod p)%Z) end in
  let sign (s : bool) := if s then "-" else "" in
  match v with
  | S754_nan => "nan"
  | S754_infinity s => if s then "-inf" else "inf"
  | S754_zero s => sign s +:+ text 0%Z
  | S754_finite s m e =>
      let '(num, den) := scaled prec m e in sign s +:+ text (round_half_even num den)
  end.

(** ["\n".join(l)] and [",".join(l)]. *)
Fixpoint join (sep : string) (l : list string) : string :=
  match l with
  | [] => ""
  | [s] => s
  | s :: l => s +:+ sep +:+ join sep l
  end.
End Py.

Ltac res_bind := cbn [mbind Py.res_bind].
