(* ===== verification/PyModels.v ===== *)
(** The model catalog of the Python simulator,
    [src/python/src/llmsim/models.py], and its relation to the Go simulator's
    [src/internal/llm/models.go]: the two compute the same costs, exactly. *)
From S2P Require Import Prelude GoNumbers FloatExact Llm Py.
From Stdlib Require Import SpecFloat.

Module PyModels.
Import Py.

Definition MAX_SEQ_LEN : Z := 1048576.

Record ModelConfig := mk_ModelConfig {
  name : string;
  num_layers : Z;
  num_kv_heads : Z;
  num_q_heads : Z;
  head_dim : Z;
  max_context_len : Z;
  params_billion : float64
}.

Definition validate_seq_len (seq_len : arg) : res () :=
  match seq_len with
  | Bool _ | Other _ => Err (SeqLenRangeError seq_len)
  | Int z =>
      if (z <? 0)%Z then Err (SeqLenRangeError seq_len)
      else if (MAX_SEQ_LEN <? z)%Z then Err (SeqLenRangeError seq_len)
      else Ok ()
  end.

(** The number an argument is in arithmetic. *)
Definition as_int (n : arg) : Z :=
  match n with Int z => z | Bool b => Z.b2z b | Other _ => 0 end.

Definition attention_flops (m : ModelConfig) (seq_len : arg) : res float64 :=
  _ ← validate_seq_len seq_len;
  layers ← to_float (num_layers m);
  q ← to_float (num_q_heads m);
  h ← to_float (head_dim m);
  s ← to_float (as_int seq_len);
  Ok (fmul layers (fmul (fmul (fmul (fmul (float_of_int 4) q) h) s) s)).

Definition attention_tflops (m : ModelConfig) (seq_len : arg) : res float64 :=
  flops ← attention_flops m seq_len;
  float_div flops (float_of_int (10 ^ 12)).

Definition cost_usd (m : ModelConfig) (seq_len : arg) : res float64 :=
  tflops ← attention_tflops m seq_len;
  per_second ← float_div tflops (float_of_int 312);
  per_hour ← float_div per_second (float_of_int 3600);
  Ok (fmul per_hour (decimal 25 1)).

Definition kv_cache_size_per_token (m : ModelConfig) : Z :=
  (2 * num_kv_heads m * head_dim m * 2 * num_layers m)%Z.

Definition LLAMA3_8B : ModelConfig := mk_ModelConfig "Llama-3-8B" 32 8 32 128 8192 (float_of_int 8).
Definition LLAMA3_70B : ModelConfig := mk_ModelConfig "Llama-3-70B" 80 8 64 128 8192 (float_of_int 70).
Definition MISTRAL_7B : ModelConfig := mk_ModelConfig "Mistral-7B" 32 8 32 128 32768 (float_of_int 7).
Definition MIXTRAL_8X7B : ModelConfig := mk_ModelConfig "Mixtral-8x7B" 32 8 32 128 32768 (decimal 467 1).
Definition QWEN2_5_72B : ModelConfig := mk_ModelConfig "Qwen2.5-72B" 80 8 64 128 131072 (float_of_int 72).
Definition DEEPSEEK_R1 : ModelConfig :=
  mk_ModelConfig "DeepSeek-R1-671B" 61 128 128 128 131072 (float_of_int 671).

Definition ALL_MODELS : list ModelConfig :=
  [LLAMA3_8B; LLAMA3_70B; MISTRAL_7B; MIXTRAL_8X7B; QWEN2_5_72B; DEEPSEEK_R1].

Fixpoint get_model_loop (models : list ModelConfig) (n : string) : res ModelConfig :=
  match models with
  | [] => Err (UnknownModelError n)
  | m :: models => if decide (name m = n) then Ok m else get_model_loop models n
  end.

Definition get_model (n : string) : res ModelConfig := get_model_loop ALL_MODELS n.

(** ** The NumPy versions *)

(** [pow2] is what the C library's [pow] gives for the exponent 2. *)
Section Vec.
Context (pow2 : float64 → float64).

(** One element of [layers * (4.0 * q_heads * head_dim * float(seq_len) ** 2)]. *)
Definition flops_elem (square : float64) (lqh : float64 * float64 * float64) : float64 :=
  let '(l, q, h) := lqh in fmul l (fmul (fmul (fmul (float_of_int 4) q) h) square).

Definition flops_vec (models : list ModelConfig) (seq_len : arg) : res (list float64) :=
  _ ← validate_seq_len seq_len;
  layers ← list_of (λ m, to_float (num_layers m)) models;
  q_heads ← list_of (λ m, to_float (num_q_heads m)) models;
  head_dims ← list_of (λ m, to_float (head_dim m)) models;
  s ← to_float (as_int seq_len);
  Ok (map (flops_elem (pow2 s)) (zip (zip layers q_heads) head_dims)).

Definition attention_tflops_vec (models : list ModelConfig) (seq_len : arg) : res (list float64) :=
  flops ← flops_vec models seq_len;
  Ok (map (λ x, fdiv x (float_of_int (10 ^ 12))) flops).

Definition cost_usd_vec (models : list ModelConfig) (seq_len : arg) : res (list float64) :=
  flops ← flops_vec models seq_len;
  let tflops := map (λ x, fdiv x (float_of_int (10 ^ 12))) flops in
  Ok (map (λ x, fmul (fdiv (fdiv x (float_of_int 312)) (float_of_int 3600)) (decimal 25 1)) tflops).
End Vec.

(** ** Relation to the Go simulator *)

Definition to_go (m : ModelConfig) : Llm.ModelConfig :=
  Llm.mk_Model (name m) (num_layers m) (num_kv_heads m) (num_q_heads m) (head_dim m) (max_context_len m)
    (params_billion m).

(** Parameters that are exact as floats. *)
Record sane (m : ModelConfig) : Prop := {
  sane_layers : (0 ≤ num_layers m < 2 ^ 53)%Z;
  sane_q : (0 ≤ num_q_heads m < 2 ^ 53)%Z;
  sane_h : (0 ≤ head_dim m < 2 ^ 53)%Z
}.

Definition seq_len_ok (s : Z) : Prop := (0 ≤ s ≤ MAX_SEQ_LEN)%Z.

Lemma validate_spec n :
  validate_seq_len n = Ok () ∧ (∃ s, n = Int s ∧ seq_len_ok s) ∨
  validate_seq_len n = Err (SeqLenRangeError n) ∧ (∀ s, n = Int s → ¬ seq_len_ok s).
Proof.
  unfold seq_len_ok. destruct n as [z|b|t]; simpl; [|by right..].
  destruct (Z.ltb_spec z 0); [right; split; [done|]; intros s [= <-]; lia|].
  destruct (Z.ltb_spec MAX_SEQ_LEN z); [right; split; [done|]; intros s [= <-]; lia|].
  left. split; [done|]. exists z. split; [done|lia].
Qed.

Lemma validate_ok s : seq_len_ok s → validate_seq_len (Int s) = Ok ().
Proof.
  intros Hs. destruct (validate_spec (Int s)) as [[-> _]|[_ Hno]]; [done|]. by destruct (Hno s).
Qed.

Lemma seq_len_float s : seq_len_ok s → to_float s = Ok (float_of_int s).
Proof. intros [??]. apply to_float_ok. unfold MAX_SEQ_LEN in *. lia. Qed.

Lemma attention_flops_go m s :
  sane m → seq_len_ok s → attention_flops m (Int s) = Ok (Llm.AttentionFLOPs (to_go m) s).
Proof.
  intros [Hl Hq Hh] Hs. unfold attention_flops. rewrite validate_ok by done. res_bind.
  rewrite (to_float_ok (num_layers m)), (to_float_ok (num_q_heads m)), (to_float_ok (head_dim m)) by done. res_bind.
  cbn [as_int]. rewrite seq_len_float by done. res_bind.
  f_equal. apply fmul_comm.
Qed.

Lemma attention_tflops_go m s :
  sane m → seq_len_ok s → attention_tflops m (Int s) = Ok (Llm.AttentionTFLOPs (to_go m) s).
Proof. intros Hm Hs. unfold attention_tflops. by rewrite attention_flops_go. Qed.

Lemma cost_usd_go m s :
  sane m → seq_len_ok s → cost_usd m (Int s) = Ok (Llm.CostUSD_of (to_go m) s).
Proof. intros Hm Hs. unfold cost_usd. by rewrite attention_tflops_go. Qed.

Lemma catalog_sane m : m ∈ ALL_MODELS → sane m.
Proof.
  intros Hm. repeat (apply elem_of_cons in Hm as [->|Hm]; [by split|]). by apply elem_of_nil in Hm.
Qed.

Lemma catalog_go : map to_go ALL_MODELS = Llm.AllModels.
Proof. reflexivity. Qed.

(** Heads times dimension is a power of two, and few layers. *)
Lemma catalog_shape m : m ∈ ALL_MODELS →
  ∃ k, (num_q_heads m * head_dim m = 2 ^ k ∧ 12 ≤ k ≤ 14 ∧ 0 < num_layers m ≤ 80 ∧
        0 < num_q_heads m ≤ 128 ∧ 0 < head_dim m ≤ 128)%Z.
Proof.
  intros Hm.
  repeat (apply elem_of_cons in Hm as [->|Hm];
          [first [by exists 12%Z|by exists 13%Z|by exists 14%Z]|]).
  by apply elem_of_nil in Hm.
Qed.

(** The partial products of the formula. *)
Lemma flops_products m s : m ∈ ALL_MODELS → seq_len_ok s →
  let x := (4 * (num_q_heads m * head_dim m))%Z in
  (0 ≤ x ∧ fits x ∧ fits (x * s) ∧ fits (x * (s * s)) ∧ fits (num_layers m * (x * (s * s))))%Z ∧
  fmul (fmul (float_of_int 4) (float_of_int (num_q_heads m))) (float_of_int (head_dim m)) = float_of_int x.
Proof.
  intros Hm [H0 Hs]. destruct (catalog_shape m Hm) as (k & Hk & Hk' & Hl & Hq & Hh).
  unfold MAX_SEQ_LEN in Hs. cbv zeta.
  assert (4 * (num_q_heads m * head_dim m) = 2 ^ (2 + k))%Z as Hx by (rewrite Hk, Z.pow_add_r by lia; lia).
  assert (s * s ≤ 2 ^ 40)%Z by nia. split.
  - rewrite Hx. split; [lia|]. split; [rewrite <- (Z.mul_1_l (2 ^ _)); apply fits_pow2; lia|].
    split; [rewrite Z.mul_comm; apply fits_pow2; lia|].
    split; [rewrite Z.mul_comm; apply fits_pow2; lia|].
    replace (num_layers m * (2 ^ (2 + k) * (s * s)))%Z with (num_layers m * (s * s) * 2 ^ (2 + k))%Z by lia.
    apply fits_pow2; nia.
  - rewrite fmul_int, fmul_int; try (apply fits_small); try lia; [|rewrite <- Z.mul_assoc, Hx].
    + f_equal. lia.
    + split; [lia|]. pose proof (Z.pow_le_mono_r 2 (2 + k) 16 ltac:(lia) ltac:(lia)). lia.
Qed.

Definition flops_count (m : ModelConfig) (s : Z) : Z :=
  (num_layers m * (4 * (num_q_heads m * head_dim m) * (s * s)))%Z.

Lemma attention_flops_exact m s : m ∈ ALL_MODELS → seq_len_ok s →
  attention_flops m (Int s) = Ok (float_of_int (flops_count m s)).
Proof.
  intros Hm Hs. rewrite attention_flops_go by (done || by apply catalog_sane).
  destruct (flops_products m s Hm Hs) as ((H0 & Hx & Hxs & Hxss & Hall) & Hqh).
  destruct (catalog_shape m Hm) as (_ & _ & _ & Hl & _).
  assert (fits s) by (apply fits_small; destruct Hs; unfold MAX_SEQ_LEN in *; lia). destruct Hs as [Hs0 _].
  unfold Llm.AttentionFLOPs. cbn [to_go Llm.NumQHeads Llm.HeadDim Llm.NumLayers].
  rewrite Hqh, fmul_int, fmul_int by (done || lia || by rewrite <- Z.mul_assoc).
  rewrite <- Z.mul_assoc, fmul_comm, fmul_int; try done; [apply fits_small; lia|lia|nia].
Qed.

Section Parity.
Context (pow2 : float64 → float64).
(** The square of an integer that is a float is that float. *)
Context (Hpow : ∀ s, seq_len_ok s → pow2 (float_of_int s) = float_of_int (s * s)%Z).

Lemma flops_vec_exact s : seq_len_ok s →
  flops_vec pow2 ALL_MODELS (Int s) = Ok (map (λ m, float_of_int (flops_count m s)) ALL_MODELS).
Proof.
  intros Hs. unfold flops_vec. rewrite validate_ok by done. res_bind.
  assert (∀ f l, (∀ m, m ∈ l → (0 ≤ f m < 2 ^ 53)%Z) →
    list_of (λ m : ModelConfig, to_float (f m)) l = Ok (map (λ m, float_of_int (f m)) l)) as Hlist.
  { intros f l. induction l as [|m l IH]; intros Hl; [done|]. cbn [list_of map].
    rewrite to_float_ok by (apply Hl; by left). res_bind.
    rewrite IH; [done|]. intros m' ?. apply Hl. by right. }
  rewrite (Hlist num_layers), (Hlist num_q_heads), (Hlist head_dim)
    by (intros m [??? ]%catalog_sane; done).
  res_bind. cbn [as_int]. rewrite seq_len_float by done. res_bind. rewrite Hpow by done. f_equal.
  assert (∀ l, (∀ m, m ∈ l → m ∈ ALL_MODELS) →
    map (flops_elem (float_of_int (s * s)))
      (zip (zip (map (λ m, float_of_int (num_layers m)) l) (map (λ m, float_of_int (num_q_heads m)) l))
           (map (λ m, float_of_int (head_dim m)) l)) =
    map (λ m, float_of_int (flops_count m s)) l) as Hmap; [|by apply Hmap].
  induction l as [|m l IH]; intros Hl; [done|]. cbn [map zip zip_with]. f_equal.
  - assert (m ∈ ALL_MODELS) as Hm by (apply Hl; by left).
    destruct (flops_products m s Hm Hs) as ((H0 & Hx & Hxs & Hxss & Hall) & Hqh).
    destruct (catalog_shape m Hm) as (_ & _ & _ & Hlay & _).
    assert (fits (s * s)) by (apply fits_small; destruct Hs; unfold MAX_SEQ_LEN in *; nia). destruct Hs as [Hs0 _].
    unfold flops_elem. rewrite Hqh, fmul_int, fmul_int; try done; try lia; try nia. apply fits_small. lia.
  - apply IH. intros m' ?. apply Hl. by right.
Qed.

Lemma list_of_map (f : ModelConfig → res float64) g l :
  (∀ m, m ∈ l → f m = Ok (g m)) → list_of f l = Ok (map g l).
Proof.
  induction l as [|m l IH]; intros Hl; [done|]. cbn [list_of map].
  rewrite Hl by (by left). res_bind. rewrite IH; [done|]. intros m' ?. apply Hl. by right.
Qed.

Lemma flops_go_map s : seq_len_ok s →
  map (λ m, float_of_int (flops_count m s)) ALL_MODELS = map (λ m, Llm.AttentionFLOPs (to_go m) s) ALL_MODELS.
Proof.
  intros Hs. apply map_ext_in. intros m Hm%list_elem_of_In.
  pose proof (attention_flops_exact m s Hm Hs) as He.
  rewrite attention_flops_go in He by (done || by apply catalog_sane). by injection He.
Qed.

Lemma tflops_exact s : seq_len_ok s →
  attention_tflops_vec pow2 ALL_MODELS (Int s) = Ok (map (λ m, Llm.AttentionTFLOPs (to_go m) s) ALL_MODELS).
Proof.
  intros Hs. unfold attention_tflops_vec. rewrite flops_vec_exact, flops_go_map by done. res_bind. by rewrite map_map.
Qed.

Lemma costs_exact s : seq_len_ok s →
  ∃ costs, cost_usd_vec pow2 ALL_MODELS (Int s) = Ok costs ∧
    list_of (λ m, cost_usd m (Int s)) ALL_MODELS = Ok costs ∧
    costs = map (λ m, Llm.CostUSD_of m s) Llm.AllModels.
Proof.
  intros Hs. exists (map (λ m, Llm.CostUSD_of (to_go m) s) ALL_MODELS). unfold cost_usd_vec.
  rewrite flops_vec_exact, flops_go_map by done. res_bind. split_and!.
  - by rewrite !map_map.
  - apply list_of_map. intros m Hm. by apply cost_usd_go; [apply catalog_sane|].
  - by rewrite <- catalog_go, map_map.
Qed.

(** C16: the cost model is exact, and the same in both languages. Let C's [pow]
    give, for an accepted sequence length and the exponent 2, the float of its
    square. For every model of the catalog and every accepted sequence length,
    [attention_flops] is the float of exactly [4 * layers * heads * dim * n^2],
    no rounding happens; the NumPy functions give, element by element, what the
    scalar methods give, so the parity assertion of the comparison never fails;
    and the cost is the one the Go simulator computes, to the last bit. *)
Theorem python_costs_exact (s : Z) (Hs : seq_len_ok s) :
  (∀ m, m ∈ ALL_MODELS →
     attention_flops m (Int s) = Ok (float_of_int (4 * num_layers m * num_q_heads m * head_dim m * s ^ 2))) ∧
  (∃ tflops, attention_tflops_vec pow2 ALL_MODELS (Int s) = Ok tflops ∧
     list_of (λ m, attention_tflops m (Int s)) ALL_MODELS = Ok tflops) ∧
  (∃ costs, cost_usd_vec pow2 ALL_MODELS (Int s) = Ok costs ∧
     list_of (λ m, cost_usd m (Int s)) ALL_MODELS = Ok costs ∧
     costs = map (λ m, Llm.CostUSD_of m s) Llm.AllModels).
Proof.
  split; [|split; [|by apply costs_exact]].
  - intros m Hm. rewrite attention_flops_exact by done. unfold flops_count. do 2 f_equal. ring.
  - eexists. split; [by apply tflops_exact|]. apply list_of_map. intros m Hm.
    by apply attention_tflops_go; [apply catalog_sane|].
Qed.
End Parity.

Lemma python_costs_exact_witness :
  ∃ costs, cost_usd_vec (λ x, fmul x x) ALL_MODELS (Int 1024) = Ok costs ∧
           costs = map (λ m, Llm.CostUSD_of m 1024) Llm.AllModels.
Proof.
  destruct (python_costs_exact (λ x, fmul x x)) with (s := 1024%Z) as (_ & _ & costs & Hv & _ & Hgo).
  - intros s [??]. unfold MAX_SEQ_LEN in *. apply fmul_int; try (apply fits_small); nia.
  - split; [lia|]. unfold MAX_SEQ_LEN. lia.
  - exists costs. by split.
Defined.

(** Lookup by name finds exactly the catalog, and an invalid length is refused
    by every cost function before anything is computed. *)
Theorem get_model_exact (n : string) :
  (∃ m, get_model n = Ok m ∧ m ∈ ALL_MODELS ∧ name m = n) ∨
  (get_model n = Err (UnknownModelError n) ∧ n ∉ (name <$> ALL_MODELS)).
Proof.
  unfold get_model. induction ALL_MODELS as [|m l IH]; cbn [get_model_loop].
  - right. split; [done|]. by intros ?%elem_of_nil.
  - destruct (decide (name m = n)) as [Hn|Hn].
    + left. exists m. split; [done|]. split; [by left|done].
    + destruct IH as [(m' & ? & ? & ?)|[-> Hno]].
      * left. exists m'. split; [done|]. split; [by right|done].
      * right. split; [done|]. rewrite fmap_cons. by intros [?|?]%elem_of_cons.
Qed.

Theorem bad_seq_len_refused (pow2 : float64 → float64) (m : ModelConfig) (ms : list ModelConfig) (n : arg)
    (Hn : ∀ s, n = Int s → ¬ seq_len_ok s) :
  cost_usd m n = Err (SeqLenRangeError n) ∧ cost_usd_vec pow2 ms n = Err (SeqLenRangeError n).
Proof.
  destruct (validate_spec n) as [[_ (s & -> & Hs)]|[Hv _]]; [by destruct (Hn s)|].
  unfold cost_usd, attention_tflops, attention_flops, cost_usd_vec, attention_tflops_vec, flops_vec.
  by rewrite Hv.
Qed.
End PyModels.
