(* ===== verification/PyCache.v ===== *)
(** The prefix cache of the Python simulator,
    [src/python/src/llmsim/prefix_cache.py], and its relation to the Go
    simulator's [src/internal/llm/prefix_cache.go]: an ordered dictionary against
    a map with timestamps. *)
From S2P Require Import Prelude Json GoNumbers FloatExact Llm Py PyModels.
From Stdlib Require Import SpecFloat.

Module PyCache.
Import Py.

(** [json.dumps(list(tokens), separators=(",", ":"))]. *)
Definition json_dumps (tokens : list Z) : string := "[" +:+ join "," (map pretty tokens) +:+ "]".

Definition hash_prefix (tokens : list Z) : string :=
  hex_string (take 16 (Sha256.Sum256 (json_dumps tokens))).

Record CacheEntry := mk_CacheEntry {
  prefix_hash : string;
  model : string;
  token_count : Z;
  tflops_cost : float64;
  cost_usd : float64;
  hit_count : Z
}.

Definition saved_tflops (e : CacheEntry) : res float64 :=
  n ← to_float (hit_count e); Ok (fmul (tflops_cost e) n).
Definition saved_usd (e : CacheEntry) : res float64 :=
  n ← to_float (hit_count e); Ok (fmul (cost_usd e) n).

Record CacheStats := mk_CacheStats {
  total_requests : Z;
  cache_hits : Z;
  cache_misses : Z;
  hit_rate : float64;
  entries_stored : Z;
  total_saved_tflops : float64;
  total_saved_usd : float64
}.

(** The entries are only reached through the dictionary, so they are kept by
    value. *)
Record PrefixCache := mk_PrefixCache {
  _capacity : Z;
  _entries : list (string * CacheEntry);
  _total_requests : Z;
  _cache_hits : Z;
  _total_saved_tflops : float64;
  _total_saved_usd : float64
}.

Definition new_PrefixCache (capacity : Z) : res PrefixCache :=
  if (capacity <? 1)%Z then Err (ValueError "capacity")
  else Ok (mk_PrefixCache capacity [] 0 0 fzero fzero).

Definition hit (e : CacheEntry) : CacheEntry :=
  mk_CacheEntry (prefix_hash e) (model e) (token_count e) (tflops_cost e) (cost_usd e) (hit_count e + 1).

Definition lookup (h : string) (c : PrefixCache) : res (PrefixCache * option CacheEntry) :=
  let requests := (_total_requests c + 1)%Z in
  match dict_get h (_entries c) with
  | None =>
      Ok (mk_PrefixCache (_capacity c) (_entries c) requests (_cache_hits c) (_total_saved_tflops c)
            (_total_saved_usd c), None)
  | Some entry =>
      moved ← move_to_end h (_entries c);
      let entry := hit entry in
      Ok (mk_PrefixCache (_capacity c) (dict_set h entry moved) requests (_cache_hits c + 1)
            (fadd (_total_saved_tflops c) (tflops_cost entry))
            (fadd (_total_saved_usd c) (cost_usd entry)), Some entry)
  end.

Definition with_entries (c : PrefixCache) (d : list (string * CacheEntry)) : PrefixCache :=
  mk_PrefixCache (_capacity c) d (_total_requests c) (_cache_hits c) (_total_saved_tflops c)
    (_total_saved_usd c).

Definition store (entry : CacheEntry) (c : PrefixCache) : res PrefixCache :=
  let h := prefix_hash entry in
  match dict_get h (_entries c) with
  | Some _ =>
      d ← move_to_end h (dict_set h entry (_entries c));
      Ok (with_entries c d)
  | None =>
      d ← (if (_capacity c <=? Z.of_nat (length (_entries c)))%Z
           then '(_, d) ← popitem_first (_entries c); Ok d
           else Ok (_entries c));
      d ← move_to_end h (dict_set h entry d);
      Ok (with_entries c d)
  end.

Definition stats (c : PrefixCache) : res CacheStats :=
  rate ← (if (0 <? _total_requests c)%Z then
            r ← true_div (_cache_hits c) (_total_requests c); Ok (fmul r (float_of_int 100))
          else Ok fzero);
  Ok (mk_CacheStats (_total_requests c) (_cache_hits c) (_total_requests c - _cache_hits c) rate
        (Z.of_nat (length (_entries c))) (_total_saved_tflops c) (_total_saved_usd c)).

Definition new_entry_for_prefix (tokens : list Z) (m : PyModels.ModelConfig) : res CacheEntry :=
  let h := hash_prefix tokens in
  let n := Int (Z.of_nat (length tokens)) in
  tflops ← PyModels.attention_tflops m n;
  cost ← PyModels.cost_usd m n;
  Ok (mk_CacheEntry h (PyModels.name m) (Z.of_nat (length tokens)) tflops cost 0).

Definition format_tflops (tflops : float64) : string :=
  if SFleb (float_of_int 1000) tflops then fixed 1 (fdiv tflops (float_of_int 1000)) +:+ " PFLOPs"
  else if SFleb (float_of_int 1) tflops then fixed 2 tflops +:+ " TFLOPs"
  else fixed 4 tflops +:+ " TFLOPs".

(** ** Hashes agree *)

Lemma json_dumps_go tokens : json_dumps tokens = Llm.json_ints tokens.
Proof.
  unfold json_dumps, Llm.json_ints. destruct tokens as [|z l]; [done|]. f_equal.
  revert z. induction l as [|z' l IH]; intros z; [done|].
  change (join "," (map pretty (z :: z' :: l))) with (pretty z +:+ "," +:+ join "," (map pretty (z' :: l))).
  cbn [Llm.json_tail]. by rewrite !Json.str_app_assoc, IH.
Qed.

Lemma hash_prefix_go tokens : hash_prefix tokens = Llm.HashPrefix tokens.
Proof. unfold hash_prefix, Llm.HashPrefix. by rewrite json_dumps_go. Qed.

Lemma compress_length h b : length h = 8%nat → length (Sha256.compress h b) = 8%nat.
Proof.
  intros Hh. unfold Sha256.compress. rewrite length_zip_with.
  assert (∀ l v, length v = 8%nat → length (foldl Sha256.round v l) = 8%nat) as ->; [|lia|done].
  clear. induction l as [|kw l IH]; intros v Hv; [done|]. cbn [foldl]. apply IH.
  do 9 (destruct v as [|? v]; try done).
Qed.

Lemma hash_nonempty tokens : Llm.HashPrefix tokens ≠ "".
Proof.
  unfold Llm.HashPrefix. set (w := Llm.json_ints tokens). unfold Sha256.Sum256.
  assert (∀ n h ws, length h = 8%nat → length (Sha256.blocks n h ws) = 8%nat) as Hb.
  { induction n as [|n IH]; intros h ws Hh; [done|]. cbn [Sha256.blocks]. apply IH. by apply compress_length. }
  set (ws := Sha256.words _). specialize (Hb (length ws / 16)%nat Sha256.H0 ws eq_refl).
  by destruct (Sha256.blocks _ _ _).
Qed.

(** ** Simulation of the Go cache *)

(** The Go cache holds the same items, and the order of the dictionary is that
    of the last accesses, all of them at [t] at the latest. *)
Definition same_entry (g : string * Llm.PrefixCacheEntry) (p : string * CacheEntry) : Prop :=
  g.1 = p.1 ∧ g.1 ≠ "" ∧ Llm.TFLOPsCost g.2 = tflops_cost p.2 ∧ Llm.CostUSD g.2 = cost_usd p.2.

Definition accessed_before (g g' : string * Llm.PrefixCacheEntry) : Prop :=
  (Llm.LastAccessedAt g.2 < Llm.LastAccessedAt g'.2)%Z.

Record simulates (t : Time) (g : Llm.PrefixCache) (p : PrefixCache) : Prop := {
  sim_items : ∃ items, Llm.entries g = list_to_map items ∧ NoDup items.*1 ∧
                Forall2 same_entry items (_entries p) ∧ StronglySorted accessed_before items ∧
                Forall (λ i, (Llm.LastAccessedAt i.2 ≤ t)%Z) items;
  sim_capacity : Llm.maxSize g = _capacity p;
  sim_positive : (1 ≤ _capacity p)%Z;
  sim_requests : Llm.totalRequests g = _total_requests p;
  sim_hits : Llm.cacheHits g = _cache_hits p;
  sim_tflops : Llm.totalSavedTFLOPs g = _total_saved_tflops p;
  sim_usd : Llm.totalSavedUSD g = _total_saved_usd p;
  sim_counts : (0 ≤ _cache_hits p ≤ _total_requests p)%Z
}.

Lemma sorted_snoc {A} (R : A → A → Prop) l x :
  StronglySorted R l → Forall (λ y, R y x) l → StronglySorted R (l ++ [x]).
Proof.
  induction 1 as [|y l Hs IH Hy]; intros Hx; simpl; [by repeat constructor|].
  apply Forall_cons in Hx as [??]. constructor; [auto|]. apply Forall_app. by repeat constructor.
Qed.

Lemma sorted_remove {A} (R : A → A → Prop) l1 x l2 :
  StronglySorted R (l1 ++ x :: l2) → StronglySorted R (l1 ++ l2).
Proof.
  induction l1 as [|y l1 IH]; simpl; intros Hs; inversion Hs as [|?? Hs' Hy]; subst; [done|].
  constructor; [auto|]. rewrite Forall_app, Forall_cons in Hy. rewrite Forall_app. naive_solver.
Qed.

(** An item as the last one of a list without its key. *)
Lemma to_map_snoc (items : list (string * Llm.PrefixCacheEntry)) k e :
  NoDup items.*1 → k ∉ items.*1 →
  (list_to_map (items ++ [(k, e)]) : gmap string Llm.PrefixCacheEntry) = <[k := e]> (list_to_map items) ∧
  NoDup (items ++ [(k, e)]).*1.
Proof.
  intros Hnd Hk. rewrite fmap_app. simpl.
  assert (NoDup (items.*1 ++ [k])) as Hnd'.
  { apply NoDup_app. split; [done|]. split; [|apply NoDup_singleton]. by intros x Hx ->%list_elem_of_singleton. }
  split; [|done].
  rewrite (list_to_map_proper (items ++ [(k, e)]) ((k, e) :: items)); [done| |by rewrite Permutation_app_comm].
  by rewrite fmap_app.
Qed.

Lemma to_map_move (i1 i2 : list (string * Llm.PrefixCacheEntry)) k e e' :
  NoDup (i1 ++ (k, e) :: i2).*1 →
  (list_to_map (i1 ++ i2 ++ [(k, e')]) : gmap string Llm.PrefixCacheEntry) =
    <[k := e']> (list_to_map (i1 ++ (k, e) :: i2)) ∧
  NoDup (i1 ++ i2 ++ [(k, e')]).*1 ∧ k ∉ (i1 ++ i2).*1.
Proof.
  intros Hnd.
  assert (i1 ++ (k, e) :: i2 ≡ₚ (k, e) :: i1 ++ i2) as Hp by (by rewrite Permutation_middle).
  assert (NoDup ((k, e) :: i1 ++ i2).*1) as Hnd' by by rewrite <- Hp.
  rewrite (list_to_map_proper _ _ Hnd Hp). rewrite fmap_cons in Hnd'. apply NoDup_cons in Hnd' as [Hk Hnd'].
  rewrite (app_assoc i1 i2). destruct (to_map_snoc (i1 ++ i2) k e' Hnd' Hk) as [-> ?].
  split; [|done]. by rewrite list_to_map_cons, insert_insert_eq.
Qed.

Lemma same_keys items d : Forall2 same_entry items d → items.*1 = d.*1.
Proof. induction 1 as [|g p items d [Heq _] _ IH]; [done|]. rewrite !fmap_cons. by f_equal. Qed.

Lemma same_nonempty items d : Forall2 same_entry items d → ∀ i, i ∈ items → i.1 ≠ "".
Proof.
  induction 1 as [|g p items d (_ & Hne & _) _ IH]; intros i Hi; [by apply elem_of_nil in Hi|].
  apply elem_of_cons in Hi as [->|Hi]; [done|]. by apply IH.
Qed.

Lemma lookup_sim t now h g p :
  simulates t g p → (t < now)%Z → (_total_requests p < int64_max)%Z →
  ∃ p' r, lookup h p = Ok (p', r) ∧
    simulates (match r with Some _ => now | None => t end) (Llm.Lookup now h g).1 p' ∧
    (is_Some r ↔ is_Some (Llm.Lookup now h g).2) ∧
    _total_requests p' = (_total_requests p + 1)%Z ∧ _capacity p' = _capacity p ∧
    (r = None → dict_get h (_entries p') = None).
Proof.
  intros [(items & Hmap & Hnd & Hsame & Hsort & Hle) Hcap Hpos Hreq Hhits Htf Husd Hcnt] Ht Hmax.
  assert (Forall (λ i : string * Llm.PrefixCacheEntry, (Llm.LastAccessedAt i.2 ≤ now)%Z) items) as Hle'
    by (eapply Forall_impl; [exact Hle|]; simpl; lia).
  unfold lookup, Llm.Lookup. destruct (dict_get h (_entries p)) as [pe|] eqn:Eh.
  - apply dict_get_split in Eh as (d1 & d2 & Hd & Hk). rewrite Hd in *.
    apply Forall2_app_inv_r in Hsame as (i1 & i2' & Hs1 & Hs2 & ->).
    apply Forall2_cons_inv_r in Hs2 as ([k ge] & i2 & Hge & Hs2 & ->).
    destruct Hge as (Heq & Hne & Htc & Hcu). simpl in Heq, Hne, Htc, Hcu. subst k.
    assert (Llm.entries g !! h = Some ge) as ->.
    { rewrite Hmap. apply elem_of_list_to_map_1; [done|]. apply elem_of_app. right. by left. }
    rewrite move_to_end_mid by done. res_bind.
    destruct (to_map_move i1 i2 h ge (Llm.mk_Entry (Llm.PrefixHash ge) (Llm.Model ge) (Llm.TokenCount ge)
      (Llm.TFLOPsCost ge) (Llm.CostUSD ge) (wrap64 (Llm.HitCount ge + 1)) (Llm.CachedAt ge) now) Hnd)
      as (Hm & Hnd' & Hk').
    assert (h ∉ (d1 ++ d2).*1) as Hkd.
    { rewrite <- (same_keys (i1 ++ i2) (d1 ++ d2)); [done|]. by apply Forall2_app. }
    rewrite app_assoc, dict_set_mid, <- app_assoc by done.
    eexists _, _. split; [reflexivity|]. cbn [fst snd].
    split_and!; cbn; try done.
    split; cbn; try done; [|unwrap64; lia|unwrap64; lia|by rewrite Htf, Htc|by rewrite Husd, Hcu|lia].
    eexists. rewrite Hmap. split; [symmetry; exact Hm|]. split; [exact Hnd'|]. split; [|split].
    + apply Forall2_app; [done|]. apply Forall2_app; [done|]. by repeat constructor.
    + rewrite app_assoc. apply sorted_snoc; [by eapply sorted_remove|].
      rewrite Forall_app, Forall_cons in Hle. apply Forall_app.
      split; (eapply Forall_impl; [apply Hle|]); unfold accessed_before; simpl; lia.
    + rewrite Forall_app, Forall_cons in Hle'. rewrite !Forall_app, Forall_singleton. simpl. split_and!; try apply Hle'. lia.
  - assert (Llm.entries g !! h = None) as ->.
    { rewrite Hmap. apply not_elem_of_list_to_map_1. rewrite (same_keys _ _ Hsame). by apply dict_get_none. }
    eexists _, _. split; [reflexivity|]. cbn [fst snd].
    split_and!; cbn; try done.
    split; cbn; try done; [|unwrap64; lia|lia].
    exists items. by split_and!.
Qed.

Lemma store_sim t it ge pe g p :
  simulates t g p → (t < Llm.LastAccessedAt ge)%Z → Llm.iterates it →
  same_entry (Llm.PrefixHash ge, ge) (prefix_hash pe, pe) →
  dict_get (prefix_hash pe) (_entries p) = None →
  ∃ p', store pe p = Ok p' ∧ simulates (Llm.LastAccessedAt ge) (Llm.Store it ge g) p' ∧
        _total_requests p' = _total_requests p.
Proof.
  intros [(items & Hmap & Hnd & Hsame & Hsort & Hle) Hcap Hpos Hreq Hhits Htf Husd Hcnt] Ht Hit Hse Hnew.
  unfold store, Llm.Store. rewrite Hnew.
  assert (length items = length (_entries p)) as Hlen by (by eapply Forall2_length).
  assert (size (Llm.entries g) = length (_entries p)) as Hsize.
  { rewrite Hmap, <- Hlen. by apply map_size_list_to_map. }
  rewrite Hsize, Hcap. apply dict_get_none in Hnew. rewrite <- (same_keys _ _ Hsame) in Hnew.
  destruct Hse as (Heq & Hse). simpl in Heq.
  assert (∃ items' d', (if (_capacity p <=? Z.of_nat (length (_entries p)))%Z
       then '(_, d) ← popitem_first (_entries p); Ok d else Ok (_entries p)) = Ok d' ∧
     (if (_capacity p <=? Z.of_nat (length (_entries p)))%Z
       then delete (Llm.oldest_key (it (Llm.entries g))) (Llm.entries g) else Llm.entries g) = list_to_map items' ∧
     NoDup items'.*1 ∧ Forall2 same_entry items' d' ∧ StronglySorted accessed_before items' ∧
     Forall (λ i, (Llm.LastAccessedAt i.2 ≤ t)%Z) items' ∧ prefix_hash pe ∉ items'.*1)
    as (items' & d' & -> & -> & Hnd' & Hsame' & Hsort' & Hle' & Hnew').
  { destruct (Z.leb_spec (_capacity p) (Z.of_nat (length (_entries p)))) as [Hfull|_];
      [|by exists items, (_entries p)].
    destruct items as [|[k0 g0] items]; [simpl in Hlen; lia|].
    apply Forall2_cons_inv_l in Hsame as ([k0' p0] & d' & Hh & Hsame & ->).
    exists items, d'. inversion Hsort as [|?? Hsort' Hfirst]; subst. rewrite fmap_cons in Hnd, Hnew.
    apply NoDup_cons in Hnd as [Hk0 Hnd]. apply not_elem_of_cons in Hnew as [_ Hnew].
    apply Forall_cons in Hle as [_ Hle]. split_and!; try done.
    destruct (Llm.oldest_key_spec (it (Llm.entries g))) as (e & Hin & Hmin).
    - intros Hnil. pose proof (Hit (Llm.entries g)) as Hp. rewrite Hnil in Hp.
      apply Permutation_nil_l in Hp. symmetry in Hp. apply map_to_list_empty_iff in Hp.
      rewrite Hmap, list_to_map_cons in Hp. by apply insert_non_empty in Hp.
    - intros [k e] Hin%(Llm.iterates_elem it); [|done]. rewrite Hmap in Hin.
      apply elem_of_list_to_map_2 in Hin. simpl.
      apply elem_of_cons in Hin as [[= -> ->]|Hin]; [apply Hh|].
      by apply (same_nonempty _ _ Hsame (k, e)).
    - remember (Llm.oldest_key (it (Llm.entries g))) as k eqn:Ek. clear Ek.
      apply (Llm.iterates_elem it) in Hin; [|done]. rewrite Hmap in Hin.
      assert (k = k0) as ->.
      { apply elem_of_list_to_map_2 in Hin. apply elem_of_cons in Hin as [[= ? _]|Hin]; [done|].
        rewrite Forall_forall in Hfirst. apply Hfirst in Hin. unfold accessed_before in Hin. simpl in Hin.
        specialize (Hmin (k0, g0)). simpl in Hmin. rewrite (Llm.iterates_elem it), Hmap in Hmin by done.
        rewrite list_to_map_cons, lookup_insert_eq in Hmin. specialize (Hmin eq_refl). lia. }
      rewrite Hmap, list_to_map_cons. apply delete_insert_id. by apply not_elem_of_list_to_map_1. }
  res_bind.
  assert (prefix_hash pe ∉ d'.*1) as Hnd2 by by rewrite <- (same_keys _ _ Hsame').
  rewrite dict_set_new by done. rewrite (move_to_end_mid (prefix_hash pe) pe d' []) by done. res_bind.
  eexists. split; [reflexivity|]. split; [|done].
  rewrite Heq. destruct (to_map_snoc items' (prefix_hash pe) ge Hnd' Hnew') as [Hm Hnd3].
  split; cbn; try done. exists (items' ++ [(prefix_hash pe, ge)]). split_and!; try done.
  - apply Forall2_app; [done|]. constructor; [|constructor]. split; [done|]. by rewrite Heq in Hse.
  - apply sorted_snoc; [done|]. eapply Forall_impl; [exact Hle'|]. unfold accessed_before. simpl. lia.
  - apply Forall_app. split; [|by constructor; [simpl; lia|]]. eapply Forall_impl; [exact Hle'|]. simpl. lia.
Qed.

(** The two statistics report the same numbers. *)
Record same_stats (g : Llm.CacheStats) (p : CacheStats) : Prop := {
  same_requests : Llm.TotalRequests g = total_requests p;
  same_hits : Llm.CacheHits g = cache_hits p;
  same_misses : Llm.CacheMisses g = cache_misses p;
  same_rate : Llm.HitRate g = hit_rate p;
  same_stored : Llm.EntriesStored g = entries_stored p;
  same_tflops : Llm.st_TotalSavedTFLOPs g = total_saved_tflops p;
  same_usd : Llm.st_TotalSavedUSD g = total_saved_usd p
}.

Lemma stats_sim t g p :
  simulates t g p → (_total_requests p < 2 ^ 53)%Z →
  ∃ st, stats p = Ok st ∧ same_stats (Llm.Stats g) st ∧ cache_misses st = (_total_requests p - _cache_hits p)%Z.
Proof.
  intros [(items & Hmap & Hnd & Hsame & _) Hcap Hpos Hreq Hhits Htf Husd Hcnt] Hmax.
  assert (size (Llm.entries g) = length (_entries p)) as Hsize.
  { rewrite Hmap, <- (Forall2_length _ _ _ Hsame). by apply map_size_list_to_map. }
  assert ((if (0 <? _total_requests p)%Z then
     r ← true_div (_cache_hits p) (_total_requests p); Ok (fmul r (float_of_int 100)) else Ok fzero) =
     Ok (Llm.HitRate (Llm.Stats g))) as Hrate.
  { unfold Llm.Stats. cbn [Llm.HitRate]. rewrite Hreq, Hhits.
    destruct (Z.ltb_spec 0 (_total_requests p)) as [H0|]; [|done]. unfold true_div.
    rewrite (proj2 (Z.eqb_neq _ _)) by lia. rewrite !(proj2 (Z.ltb_lt _ _)) by lia. done. }
  unfold stats. rewrite Hrate. res_bind. eexists. split; [reflexivity|]. split; [|done].
  split; cbn; try done; [|by rewrite Hsize]. rewrite Hreq, Hhits. unwrap64. lia.
Qed.

Lemma new_entry_go tokens m now :
  PyModels.sane m → PyModels.seq_len_ok (Z.of_nat (length tokens)) →
  ∃ pe, new_entry_for_prefix tokens m = Ok pe ∧ prefix_hash pe = hash_prefix tokens ∧
    let ge := Llm.NewEntryForPrefix now tokens (PyModels.to_go m) in
    same_entry (Llm.PrefixHash ge, ge) (prefix_hash pe, pe).
Proof.
  intros Hm Hs. unfold new_entry_for_prefix.
  rewrite PyModels.attention_tflops_go, PyModels.cost_usd_go by done. res_bind.
  eexists. split; [reflexivity|]. split; [done|].
  split; [exact (eq_sym (hash_prefix_go tokens))|]. split; [exact (hash_nonempty tokens)|done].
Qed.

Lemma new_cache_sim t cap : (1 ≤ cap)%Z →
  ∃ p, new_PrefixCache cap = Ok p ∧ simulates t (Llm.NewPrefixCache cap) p ∧ _total_requests p = 0%Z ∧
       _entries p = [].
Proof.
  intros Hc. unfold new_PrefixCache. rewrite (proj2 (Z.ltb_ge _ _)) by lia.
  eexists. split; [reflexivity|]. split; [|done]. split; cbn; try done. exists []. by repeat constructor.
Qed.
End PyCache.
