(* ===== verification/PyScenarios.v ===== *)
(** The scenario simulator of [src/python/src/llmsim/scenarios.py]. Given the
    same random numbers it reports what the Go simulator of
    [src/internal/llm/simulator.go] reports. *)
From S2P Require Import Prelude GoNumbers FloatExact Llm Py PyModels PyCache.
From Stdlib Require Import SpecFloat.

Module PyScenarios.
Import Py PyModels PyCache.

Record Scenario := mk_Scenario {
  sc_name : string;
  description : string;
  company : string;
  system_prompt_len : Z;
  user_message_len : Z;
  num_requests : Z;
  prefix_reuse_rate : float64;
  sc_model : ModelConfig
}.

Record ScenarioResult := mk_ScenarioResult {
  scenario : Scenario;
  sr_stats : CacheStats;
  without_cache_cost : float64;
  with_cache_cost : float64;
  savings_usd : float64;
  savings_pct : float64
}.

Definition default_scenarios : list Scenario := [
  mk_Scenario "Customer Service Bot"
    "500 users share the same 512-token system prompt. User messages vary."
    "SaaS companies (Salesforce, HubSpot, Zendesk)" 512 64 500 (float_of_int 1) LLAMA3_70B;
  mk_Scenario "Code Assistant (RAG)"
    "200 developers, same 1024-token codebase context prepended to each query."
    "AI coding tools (Cursor, GitHub Copilot, Sourcegraph)" 1024 128 1000 (decimal 85 2) LLAMA3_70B;
  mk_Scenario "RAG Pipeline (Document QA)"
    "1000 queries over the same 2048-token retrieved document. Maximum prefix reuse."
    "Enterprise AI (Glean, Notion AI, Perplexity Enterprise)" 2048 96 1000 (decimal 92 2) LLAMA3_70B;
  mk_Scenario "Legal Document Analysis"
    "500 queries over the same 3000-token legal context. Fixed domain knowledge prefix."
    "Vertical AI (Harvey, Lexion, ContractPodAi)" 3000 128 500 (decimal 99 2) QWEN2_5_72B;
  mk_Scenario "Open Source Model Comparison"
    "1000 requests across all 6 open-source models with 1024-token shared prefix."
    "LLM API providers (Groq, Together.ai, Fireworks.ai)" 1024 64 1000 (decimal 90 2) LLAMA3_8B
].

Fixpoint get_scenario_loop (l : list Scenario) (n : string) : res Scenario :=
  match l with
  | [] => Err (UnknownScenarioError n)
  | s :: l => if decide (sc_name s = n) then Ok s else get_scenario_loop l n
  end.

Definition get_scenario (n : string) : res Scenario := get_scenario_loop default_scenarios n.

(** What one request draws from NumPy's generator: [rng.random()], and
    [rng.integers(200000, 300000, size=n).tolist()]. *)
Record draw := mk_draw {
  random : float64;
  integers : Z → res (list Z)
}.

(** The tail of the loops: look the hash up, on a miss store a new entry. *)
Definition lookup_or_store (h : string) (new : res CacheEntry) (c : PrefixCache) : res PrefixCache :=
  '(c, found) ← lookup h c;
  match found with
  | Some _ => Ok c
  | None => e ← new; store e c
  end.

Definition request (s : Scenario) (shared_prefix : list Z) (shared_hash : string) (c : PrefixCache) (d : draw)
    : res PrefixCache :=
  '(prefix_tokens, h) ←
    (if SFltb (random d) (prefix_reuse_rate s) then Ok (shared_prefix, shared_hash)
     else tokens ← integers d (system_prompt_len s); Ok (tokens, hash_prefix tokens));
  lookup_or_store h (new_entry_for_prefix prefix_tokens (sc_model s)) c.

Definition run_scenario (draws : nat → draw) (s : Scenario) : res ScenarioResult :=
  let m := sc_model s in
  let shared_prefix := map (λ i, (1000 + Z.of_nat i)%Z) (seq 0 (Z.to_nat (system_prompt_len s))) in
  cache ← new_PrefixCache 10000;
  entry ← new_entry_for_prefix shared_prefix m;
  cache ← store entry cache;
  let shared_hash := hash_prefix shared_prefix in
  cache ← for_each (request s shared_prefix shared_hash) cache (map draws (seq 0 (Z.to_nat (num_requests s))));
  st ← stats cache;
  prefix_cost ← PyModels.cost_usd m (Int (system_prompt_len s));
  n ← to_float (num_requests s);
  let without_cache := fmul prefix_cost n in
  misses ← to_float (cache_misses st);
  let with_cache := fmul prefix_cost misses in
  let savings := fsub without_cache with_cache in
  pct ← (if SFltb fzero without_cache
         then q ← float_div savings without_cache; Ok (fmul q (float_of_int 100)) else Ok fzero);
  Ok (mk_ScenarioResult s st without_cache with_cache savings pct).

(** [allclose] is NumPy's, for the tolerances of the call. The generator is
    seeded anew for every model, so all of them draw the same numbers. *)
Definition run_all_models_comparison (pow2 : float64 → float64) (allclose : list float64 → list float64 → bool)
    (draws : nat → draw) (prefix_len num_requests : Z) (reuse_rate : float64) : res (list ScenarioResult) :=
  if (prefix_len <? 1)%Z then Err (ComparisonParamError "prefix_len")
  else if (num_requests <? 1)%Z then Err (ComparisonParamError "num_requests")
  else if negb (SFleb fzero reuse_rate && SFleb reuse_rate (float_of_int 1))
  then Err (ComparisonParamError "reuse_rate")
  else
    vec ← cost_usd_vec pow2 ALL_MODELS (Int prefix_len);
    scalar ← list_of (λ m, PyModels.cost_usd m (Int prefix_len)) ALL_MODELS;
    if allclose vec scalar then
      list_of (λ m, run_scenario draws (mk_Scenario (name m) "" "" prefix_len 64 num_requests reuse_rate m))
        ALL_MODELS
    else Err AssertionError.

(** ** The same numbers as the Go simulator *)

Definition to_go (s : Scenario) : Llm.Scenario :=
  Llm.mk_Scenario (sc_name s) (description s) (company s) (system_prompt_len s) (user_message_len s)
    (num_requests s) (prefix_reuse_rate s) (PyModels.to_go (sc_model s)).

Lemma scenarios_go : map to_go default_scenarios = Llm.DefaultScenarios.
Proof. reflexivity. Qed.

(** The draws of a Go request, as NumPy would hand them out. *)
Definition draw_of (e : Llm.env) : draw :=
  mk_draw (Llm.coin e)
    (λ n, if (n <? 0)%Z then Err (ValueError "negative dimensions")
          else Ok (map (λ j, (Llm.intn e j + 200000)%Z) (seq 0 (Z.to_nat n)))).

(** The Go clock moves on between requests, and not backwards within one. *)
Fixpoint ticks (t : Time) (es : list Llm.env) : Prop :=
  match es with
  | [] => True
  | e :: es => (t < Llm.clock e 0 ≤ Llm.clock e 2)%Z ∧ ticks (Llm.clock e 2%nat) es
  end.

(** A scenario whose lengths and counts are within the accepted ranges. *)
Record scenario_ok (s : Scenario) : Prop := {
  ok_model : sane (sc_model s);
  ok_prompt : seq_len_ok (system_prompt_len s);
  ok_count : (0 ≤ num_requests s < 2 ^ 53)%Z
}.

Lemma shared_go n : seq_len_ok (Z.of_nat n) →
  map (λ i, (1000 + Z.of_nat i)%Z) (seq 0 n) = Llm.shared_prefix n.
Proof.
  intros [_ Hn]. unfold Llm.shared_prefix, MAX_SEQ_LEN in *. apply map_ext_in. intros i Hi%in_seq.
  rewrite wrap64_id; unfold int64_min, int64_max; lia.
Qed.

(** One trip through the tail of the loop, in both simulators. *)
Lemma serve_sim t e h ge pe g p :
  simulates t g p → (t < Llm.clock e 0 ≤ Llm.clock e 2)%Z → Llm.iterates (Llm.iter e) →
  (_total_requests p < int64_max)%Z → prefix_hash pe = h →
  (let ge := ge (λ i, Llm.clock e (S i)) in
   same_entry (Llm.PrefixHash ge, ge) (prefix_hash pe, pe) ∧ Llm.LastAccessedAt ge = Llm.clock e 2%nat) →
  ∃ p', lookup_or_store h (Ok pe) p = Ok p' ∧
    simulates (Llm.clock e 2%nat) (Llm.lookup_or_store e h ge g) p' ∧
    _total_requests p' = (_total_requests p + 1)%Z.
Proof.
  intros Hsim Ht Hit Hmax Hh [Hse Hlast]. unfold lookup_or_store, Llm.lookup_or_store.
  destruct (lookup_sim t (Llm.clock e 0%nat) h g p Hsim) as (p1 & r & -> & Hsim1 & Hr & Hreq & _ & Hnone);
    [lia|done|]. res_bind.
  destruct (Llm.Lookup _ h g) as [g1 r']. cbn [fst snd] in *.
  destruct r as [x|].
  - destruct r' as [x'|]; [|by destruct (proj1 Hr ltac:(by eexists))].
    exists p1. split; [done|]. split; [|done]. destruct Hsim1 as [(items & ? & ? & ? & ? & Hle) ? ? ? ? ? ? ?].
    split; try done. exists items. split_and!; try done. eapply Forall_impl; [exact Hle|]. simpl. lia.
  - destruct r' as [x'|]; [by destruct (proj2 Hr ltac:(by eexists))|].
    destruct (store_sim t (Llm.iter e) (ge (λ i, Llm.clock e (S i))) pe g1 p1 Hsim1)
      as (p2 & Hst & Hsim2 & Hreq2); [rewrite Hlast; lia|done|done|rewrite Hh; by apply Hnone|].
    exists p2. res_bind. split; [done|]. rewrite Hlast in Hsim2. split; [done|]. lia.
Qed.

Lemma request_sim s t e g p :
  scenario_ok s → simulates t g p → (t < Llm.clock e 0 ≤ Llm.clock e 2)%Z → Llm.iterates (Llm.iter e) →
  (_total_requests p < int64_max)%Z →
  let shared := Llm.shared_prefix (Z.to_nat (system_prompt_len s)) in
  ∃ p', request s shared (hash_prefix shared) p (draw_of e) = Ok p' ∧
    simulates (Llm.clock e 2%nat) (Llm.scenario_request (to_go s) g e) p' ∧
    _total_requests p' = (_total_requests p + 1)%Z.
Proof.
  intros [Hm Hs _] Hsim Ht Hit Hmax shared. unfold request, Llm.scenario_request.
  set (tokens := Llm.prefix_of_request (to_go s) e).
  assert ((if SFltb (random (draw_of e)) (prefix_reuse_rate s) then Ok (shared, hash_prefix shared)
           else tokens ← integers (draw_of e) (system_prompt_len s); Ok (tokens, hash_prefix tokens)) =
          Ok (tokens, hash_prefix tokens)) as ->.
  { unfold tokens, Llm.prefix_of_request. cbn [to_go Llm.SystemPromptLen Llm.PrefixReuseRate draw_of random integers].
    destruct (SFltb _ _); [done|]. destruct Hs as [Hs _]. by rewrite (proj2 (Z.ltb_ge _ _) Hs). }
  assert (length tokens = Z.to_nat (system_prompt_len s)) as Hlen.
  { unfold tokens, Llm.prefix_of_request. cbn [to_go Llm.SystemPromptLen].
    destruct (SFltb _ _); unfold Llm.shared_prefix, Llm.unique_prefix; by rewrite length_map, length_seq. }
  res_bind. destruct (new_entry_go tokens (sc_model s) (λ i, Llm.clock e (S i)) Hm) as (pe & -> & Hh & Hse).
  { rewrite Hlen, Z2Nat.id; [done|apply Hs]. }
  rewrite <- hash_prefix_go.
  by apply (serve_sim t e (hash_prefix tokens) (λ now, Llm.NewEntryForPrefix now tokens (Llm.sc_Model (to_go s))) pe g p).
Qed.

Lemma requests_sim s es : ∀ t g p,
  scenario_ok s → simulates t g p → ticks t es → Forall (λ e, Llm.iterates (Llm.iter e)) es →
  (_total_requests p + Z.of_nat (length es) ≤ int64_max)%Z →
  let shared := Llm.shared_prefix (Z.to_nat (system_prompt_len s)) in
  ∃ t' p', for_each (request s shared (hash_prefix shared)) p (map draw_of es) = Ok p' ∧
    simulates t' (foldl (Llm.scenario_request (to_go s)) g es) p' ∧
    _total_requests p' = (_total_requests p + Z.of_nat (length es))%Z.
Proof.
  induction es as [|e es IH]; intros t g p Hok Hsim Ht Hit Hmax; cbn [map for_each foldl length] in *.
  { exists t, p. split; [done|]. split; [done|]. lia. }
  destruct Ht as [Ht Hts]. apply Forall_cons in Hit as [Hit Hits].
  destruct (request_sim s t e g p Hok Hsim Ht Hit) as (p1 & -> & Hsim1 & Hreq1); [lia|]. res_bind.
  destruct (IH _ _ _ Hok Hsim1 Hts Hits) as (t' & p' & -> & Hsim' & Hreq'); [lia|].
  exists t', p'. split; [done|]. split; [done|]. lia.
Qed.

(** The results agree. *)
Record same_result (g : Llm.ScenarioResult) (p : ScenarioResult) : Prop := {
  same_statistics : same_stats (Llm.res_Stats g) (sr_stats p);
  same_without : Llm.WithoutCacheCost g = without_cache_cost p;
  same_with : Llm.WithCacheCost g = with_cache_cost p;
  same_savings : Llm.SavingsUSD g = savings_usd p;
  same_pct : Llm.SavingsPct g = savings_pct p
}.

(** C15: the two simulators agree. Take a scenario with a sane model, an
    accepted prompt length and fewer than 2^53 requests, let the Python
    simulator draw the random numbers the Go one draws, and let the Go clock
    move on between requests. Then both complete, and they report the same
    requests, hits, misses, hit rate, stored entries, savings and costs, bit for
    bit, evictions of a full cache included: the ordered dictionary gives up the
    entry the Go cache finds by its timestamps, whatever order that map is
    visited in. *)
Theorem python_scenario_matches_go (warmup : Llm.env) (requests : nat → Llm.env) (s : Scenario)
    (Hok : scenario_ok s) (Hiter : ∀ i, Llm.iterates (Llm.iter (requests i)))
    (Hclock : ticks (Llm.clock warmup 1%nat) (map requests (seq 0 (Z.to_nat (num_requests s))))) :
  ∃ g p, Llm.RunScenario warmup requests (to_go s) = Some g ∧
    run_scenario (λ i, draw_of (requests i)) s = Ok p ∧ same_result g p.
Proof.
  pose proof Hok as [Hm Hs Hn]. set (t0 := (Llm.clock warmup 1%nat - 1)%Z).
  destruct (new_cache_sim t0 10000) as (p0 & Hp0 & Hsim0 & Hreq0 & Hent0); [lia|].
  unfold run_scenario, Llm.RunScenario. cbn [to_go Llm.SystemPromptLen Llm.NumRequests Llm.sc_Model].
  rewrite (proj2 (Z.ltb_ge _ _) (proj1 Hs)), Hp0. res_bind.
  rewrite shared_go by (rewrite Z2Nat.id; [done|apply Hs]).
  set (shared := Llm.shared_prefix (Z.to_nat (system_prompt_len s))).
  destruct (new_entry_go shared (sc_model s) (Llm.clock warmup) Hm) as (pe & -> & Hh & Hse).
  { unfold shared, Llm.shared_prefix. rewrite length_map, length_seq, Z2Nat.id; [done|apply Hs]. }
  res_bind. set (ge := Llm.NewEntryForPrefix (Llm.clock warmup) shared _) in *.
  assert (∃ p1, store pe p0 = Ok p1 ∧
    simulates (Llm.clock warmup 1%nat) (Llm.Store (Llm.iter warmup) ge (Llm.NewPrefixCache 10000)) p1 ∧
    _total_requests p1 = 0%Z) as (p1 & -> & Hsim1 & Hreq1).
  { destruct (store_sim t0 map_to_list ge pe (Llm.NewPrefixCache 10000) p0 Hsim0) as (p1 & Hst & Hsim1 & Hreq1);
      [unfold t0; cbn; lia|by intros m|done|by rewrite Hent0|].
    exists p1. split; [done|]. split; [exact Hsim1|]. lia. }
  res_bind. rewrite <- (map_map requests draw_of).
  set (es := map requests (seq 0 (Z.to_nat (num_requests s)))) in *.
  assert (Z.of_nat (length es) = num_requests s) as Hlen by (unfold es; rewrite length_map, length_seq; lia).
  destruct (requests_sim s es _ _ _ Hok Hsim1 Hclock) as (t' & p2 & Hrun & Hsim2 & Hreq2).
  { apply Forall_forall. by intros e (i & -> & _)%list_elem_of_fmap_1. }
  { rewrite Hreq1, Hlen. unfold int64_max. lia. }
  fold shared in Hrun. rewrite Hrun. res_bind. destruct (stats_sim _ _ _ Hsim2) as (st & -> & Hst & Hmis); [lia|]. res_bind.
  rewrite cost_usd_go by done. res_bind. rewrite (to_float_ok (num_requests s) Hn). res_bind.
  pose proof (sim_counts _ _ _ Hsim2) as Hcnt. rewrite to_float_ok by lia. res_bind.
  pose proof (same_misses _ _ Hst) as Hmiss. rewrite Hmiss.
  set (wo := fmul _ (float_of_int (num_requests s))). set (wi := fmul _ (float_of_int (cache_misses st))).
  assert ((if SFltb fzero wo then q ← float_div (fsub wo wi) wo; Ok (fmul q (float_of_int 100)) else Ok fzero) =
          Ok (if SFltb fzero wo then fmul (fdiv (fsub wo wi) wo) (float_of_int 100) else fzero)) as ->.
  { clearbody wo wi. by destruct wo as [[]|[]| |[]]. }
  res_bind. eexists _, _. split; [reflexivity|]. split; [reflexivity|]. by split.
Qed.

(** ** Runs complete *)

(** What keeps the cache from raising. *)
Record cache_ok (n : Z) (c : PrefixCache) : Prop := {
  cok_capacity : (1 ≤ _capacity c)%Z;
  cok_requests : _total_requests c = n;
  cok_hits : (0 ≤ _cache_hits c ≤ n)%Z
}.

Lemma dict_get_set {V} k (v : V) d : dict_get k (dict_set k v d) = Some v.
Proof.
  induction d as [|[k' v'] d IH]; simpl; [by rewrite decide_True|].
  destruct (decide (k' = k)) as [->|Hne]; simpl; [by rewrite decide_True|by rewrite decide_False].
Qed.

Lemma store_completes n e c : cache_ok n c → ∃ c', store e c = Ok c' ∧ cache_ok n c'.
Proof.
  intros [Hcap Hreq Hhits]. unfold store, move_to_end.
  destruct (dict_get _ (_entries c)); [rewrite dict_get_set; res_bind; eexists; split; [reflexivity|by split]|].
  destruct (Z.leb_spec (_capacity c) (Z.of_nat (length (_entries c)))).
  - destruct (_entries c) as [|kv d]; [simpl in *; lia|]. cbn [popitem_first]. res_bind.
    rewrite dict_get_set. res_bind. eexists. split; [reflexivity|by split].
  - res_bind. rewrite dict_get_set. res_bind. eexists. split; [reflexivity|by split].
Qed.

Lemma lookup_completes n h c : cache_ok n c → ∃ c' r, lookup h c = Ok (c', r) ∧ cache_ok (n + 1) c'.
Proof.
  intros [Hcap Hreq Hhits]. unfold lookup, move_to_end. destruct (dict_get h (_entries c)) as [e|]; res_bind;
    eexists _, _; (split; [reflexivity|]); split; cbn; lia.
Qed.

Lemma new_entry_completes tokens m :
  sane m → seq_len_ok (Z.of_nat (length tokens)) → ∃ e, new_entry_for_prefix tokens m = Ok e.
Proof.
  intros Hm Hs. unfold new_entry_for_prefix. rewrite attention_tflops_go, PyModels.cost_usd_go by done. by eexists.
Qed.

(** NumPy hands out as many numbers as it is asked for. *)
Definition draws_ok (draws : nat → draw) (n : Z) : Prop :=
  ∀ i, ∃ tokens, integers (draws i) n = Ok tokens ∧ Z.of_nat (length tokens) = n.

Lemma requests_complete s draws shared h l : ∀ n c,
  scenario_ok s → draws_ok draws (system_prompt_len s) → Z.of_nat (length shared) = system_prompt_len s →
  cache_ok n c → ∃ c', for_each (request s shared h) c (map draws l) = Ok c' ∧
                       cache_ok (n + Z.of_nat (length l)) c'.
Proof.
  induction l as [|i l IH]; intros n c Hok Hd Hlen Hc; cbn [map for_each length].
  { exists c. split; [done|]. by rewrite Z.add_0_r. }
  pose proof Hok as [Hm Hs _].
  assert (∃ c1, request s shared h c (draws i) = Ok c1 ∧ cache_ok (n + 1) c1) as (c1 & -> & Hc1).
  { unfold request. destruct (Hd i) as (tokens & Htok & Hl).
    assert (∃ ts h', (if SFltb (random (draws i)) (prefix_reuse_rate s) then Ok (shared, h)
       else tokens ← integers (draws i) (system_prompt_len s); Ok (tokens, hash_prefix tokens)) = Ok (ts, h') ∧
       Z.of_nat (length ts) = system_prompt_len s) as (ts & h' & -> & Hts).
    { rewrite Htok. res_bind. destruct (SFltb _ _); by eexists _, _. }
    res_bind. unfold lookup_or_store. destruct (lookup_completes n h' c Hc) as (c1 & r & -> & Hc1). res_bind.
    destruct r; [by eexists|]. destruct (new_entry_completes ts (sc_model s) Hm) as [e ->]; [by rewrite Hts|].
    res_bind. by apply store_completes. }
  res_bind. destruct (IH (n + 1)%Z c1 Hok Hd Hlen Hc1) as (c' & -> & Hc').
  exists c'. split; [done|]. by replace (n + Z.of_nat (S (length l)))%Z with (n + 1 + Z.of_nat (length l))%Z by lia.
Qed.

Lemma run_completes draws s :
  scenario_ok s → draws_ok draws (system_prompt_len s) →
  ∃ r, run_scenario draws s = Ok r ∧ scenario r = s ∧ total_requests (sr_stats r) = num_requests s.
Proof.
  intros Hok Hd. pose proof Hok as [Hm Hs Hn]. unfold run_scenario.
  set (shared := map _ (seq 0 (Z.to_nat (system_prompt_len s)))).
  assert (Z.of_nat (length shared) = system_prompt_len s) as Hlen
    by (unfold shared; rewrite length_map, length_seq, Z2Nat.id; [done|apply Hs]).
  clearbody shared. change (new_PrefixCache 10000) with (Ok (mk_PrefixCache 10000 [] 0 0 fzero fzero)). res_bind.
  destruct (new_entry_completes shared (sc_model s) Hm) as [e ->]; [by rewrite Hlen|]. res_bind.
  destruct (store_completes 0 e (mk_PrefixCache 10000 [] 0 0 fzero fzero)) as (c & -> & Hc); [by split|].
  res_bind. destruct (requests_complete s draws shared (hash_prefix shared)
    (seq 0 (Z.to_nat (num_requests s))) 0 c Hok Hd Hlen Hc) as (c' & -> & [Hcap Hreq Hhits]). res_bind.
  rewrite length_seq, Z2Nat.id in Hreq, Hhits by lia.
  assert (∃ st, stats c' = Ok st ∧ total_requests st = num_requests s ∧ (0 ≤ cache_misses st < 2 ^ 53)%Z)
    as (st & -> & Ht & Hmis).
  { unfold stats. rewrite Hreq. destruct (Z.ltb_spec 0 (0 + num_requests s)).
    - unfold true_div. rewrite (proj2 (Z.eqb_neq _ _)) by lia. rewrite !(proj2 (Z.ltb_lt _ _)) by lia. res_bind.
      eexists. split; [reflexivity|]. cbn. lia.
    - res_bind. eexists. split; [reflexivity|]. cbn. lia. }
  res_bind. rewrite PyModels.cost_usd_go by done. res_bind. rewrite (to_float_ok (num_requests s)) by done. res_bind.
  rewrite to_float_ok by done. res_bind. set (wo := fmul _ (float_of_int (num_requests s))).
  assert (∃ q, (if SFltb fzero wo then q ← float_div (fsub wo (fmul (Llm.CostUSD_of (PyModels.to_go (sc_model s))
     (system_prompt_len s)) (float_of_int (cache_misses st)))) wo; Ok (fmul q (float_of_int 100)) else Ok fzero) = Ok q)
    as [q ->].
  { clearbody wo. destruct wo as [[]|[]| |[]]; by eexists. }
  res_bind. by eexists.
Qed.

(** ** The comparison of all models *)

Lemma cost_not_nan m s : m ∈ ALL_MODELS → seq_len_ok s → Llm.CostUSD_of (PyModels.to_go m) s ≠ S754_nan.
Proof.
  intros Hm Hs. unfold Llm.CostUSD_of, Llm.AttentionTFLOPs.
  pose proof (attention_flops_exact m s Hm Hs) as He.
  rewrite attention_flops_go in He by (done || by apply catalog_sane). injection He as ->.
  apply fmul_not_nan, fdiv_not_nan, fdiv_not_nan, fdiv_not_nan.
  destruct (flops_products m s Hm Hs) as ((H0 & _ & _ & _ & Hall) & _).
  destruct (catalog_shape m Hm) as (_ & _ & _ & Hl & _). destruct Hs as [Hs _].
  unfold flops_count in *. destruct (decide (s = 0%Z)) as [->|Hne].
  - replace (num_layers m * (4 * (num_q_heads m * head_dim m) * (0 * 0)))%Z with 0%Z by lia. done.
  - destruct (float_of_int_denotes _ Hall) as (c & e & -> & _); [|done].
    destruct (catalog_shape m Hm) as (k & Hk & ? & _ & ? & ?). nia.
Qed.

(** The parameters the comparison accepts. *)
Definition params_ok (prefix_len n : Z) (rate : float64) : bool :=
  ((1 <=? prefix_len) && (1 <=? n))%Z && (SFleb fzero rate && SFleb rate (float_of_int 1)).

(** The comparison is refused, before any work, exactly when a parameter is out of
    range, and then with a [ComparisonParamError] unless it is only the prefix
    that is longer than any sequence may be; otherwise it completes with one
    result per model, in the order of the catalog, each of the scenario with that
    model: the parity assertion does not fail. *)
Theorem comparison_complete (pow2 : float64 → float64) (allclose : list float64 → list float64 → bool)
    (draws : nat → draw) (prefix_len n : Z) (rate : float64)
    (Hpow : ∀ s, seq_len_ok s → pow2 (float_of_int s) = float_of_int (s * s)%Z)
    (Hclose : ∀ l, S754_nan ∉ l → allclose l l = true)
    (Hd : draws_ok draws prefix_len) (Hn : (n < 2 ^ 53)%Z) :
  if params_ok prefix_len n rate then
    if (MAX_SEQ_LEN <? prefix_len)%Z then
      run_all_models_comparison pow2 allclose draws prefix_len n rate = Err (SeqLenRangeError (Int prefix_len))
    else
      ∃ results, run_all_models_comparison pow2 allclose draws prefix_len n rate = Ok results ∧
        (sc_model ∘ scenario) <$> results = ALL_MODELS ∧
        Forall (λ r, run_scenario draws (scenario r) = Ok r ∧ total_requests (sr_stats r) = n ∧
                     system_prompt_len (scenario r) = prefix_len ∧ prefix_reuse_rate (scenario r) = rate) results
  else ∃ p, run_all_models_comparison pow2 allclose draws prefix_len n rate = Err (ComparisonParamError p).
Proof.
  unfold params_ok, run_all_models_comparison.
  destruct (Z.leb_spec 1 prefix_len); [|rewrite (proj2 (Z.ltb_lt prefix_len 1)) by lia; by eexists].
  rewrite (proj2 (Z.ltb_ge prefix_len 1)) by lia.
  destruct (Z.leb_spec 1 n); [|rewrite (proj2 (Z.ltb_lt n 1)) by lia; by eexists].
  rewrite (proj2 (Z.ltb_ge n 1)) by lia. cbn [andb].
  destruct (SFleb fzero rate && SFleb rate (float_of_int 1)); cbn [negb]; [|by eexists].
  destruct (Z.ltb_spec MAX_SEQ_LEN prefix_len) as [Hbig|Hle].
  { destruct (bad_seq_len_refused pow2 LLAMA3_8B ALL_MODELS (Int prefix_len)) as [_ ->]; [|done].
    intros s [= <-] [_ ?]. lia. }
  assert (seq_len_ok prefix_len) as Hs by (split; lia).
  destruct (costs_exact pow2 Hpow prefix_len Hs) as (costs & -> & -> & Hgo). res_bind.
  rewrite Hclose.
  2: { rewrite Hgo, <- catalog_go, map_map. intros (m & Hnan & Hm)%list_elem_of_fmap_1.
       symmetry in Hnan. by apply (cost_not_nan m prefix_len) in Hnan. }
  assert (∀ l, (∀ m, m ∈ l → sane m) → ∃ results,
    list_of (λ m, run_scenario draws (mk_Scenario (name m) "" "" prefix_len 64 n rate m)) l = Ok results ∧
    (sc_model ∘ scenario) <$> results = l ∧
    Forall (λ r, run_scenario draws (scenario r) = Ok r ∧ total_requests (sr_stats r) = n ∧
                 system_prompt_len (scenario r) = prefix_len ∧ prefix_reuse_rate (scenario r) = rate) results) as Hall;
    [|apply Hall, catalog_sane].
  induction l as [|m l IH]; intros Hl; cbn [list_of].
  { exists []. split; [done|]. by split. }
  destruct (run_completes draws (mk_Scenario (name m) "" "" prefix_len 64 n rate m)) as (r & Hr & Hsc & Ht);
    [split; [apply Hl; by left|done|cbn; lia]|done|].
  rewrite Hr. res_bind. destruct IH as (results & -> & Hmap & Hf); [intros; apply Hl; by right|]. res_bind.
  exists (r :: results). split; [done|]. split; [rewrite fmap_cons, Hmap; cbn; by rewrite Hsc|].
  constructor; [|done]. by rewrite Hsc.
Qed.

(** ** A run *)

Definition small_scenario : Scenario := mk_Scenario "demo" "" "" 3 1 3 (decimal 5 1) LLAMA3_8B.

(** The first and the last request share the prefix, the second does not. *)
Definition small_requests (i : nat) : Llm.env :=
  Llm.mk_env (if decide (i = 1) then decimal 7 1 else decimal 1 1) (λ j, Z.of_nat j)
    (λ k, (Z.of_nat (10 * S i + k))%Z) map_to_list.

Lemma python_scenario_matches_go_witness :
  ∃ g p, Llm.RunScenario (small_requests 0) (λ i, small_requests (S i)) (to_go small_scenario) = Some g ∧
    run_scenario (λ i, draw_of (small_requests (S i))) small_scenario = Ok p ∧ same_result g p.
Proof.
  apply (python_scenario_matches_go (small_requests 0) (λ i, small_requests (S i)) small_scenario).
  - split; [by split|split; [done|by unfold MAX_SEQ_LEN; cbn; lia]|cbn; lia].
  - by intros i m.
  - repeat split; vm_compute; congruence.
Defined.
End PyScenarios.
