(* ===== verification/PyRag.v ===== *)
(** The retrieval simulator of [src/python/src/llmsim/rag.py]: what its misses
    count, and where it departs from [src/internal/llm/rag.go]. *)
From S2P Require Import Prelude GoNumbers FloatExact Llm Py PyModels PyCache PyScenarios.
From Stdlib Require Import SpecFloat.

Module PyRag.
Import Py PyModels PyCache.

Record Document := mk_Document { doc_id : string; doc_token_count : Z }.

Definition DocumentStore : Type := list Document.

Definition new_DocumentStore (num_docs tokens_per_doc : Z) : res DocumentStore :=
  if (num_docs <? 1)%Z then Err (DocumentStoreParamError "num_docs")
  else if (tokens_per_doc <? 1)%Z then Err (DocumentStoreParamError "tokens_per_doc")
  else Ok (map (λ i, mk_Document ("doc-" +:+ pad_zeros 3 (pretty (S i))) tokens_per_doc)
             (seq 0 (Z.to_nat num_docs))).

Definition num_docs (s : DocumentStore) : Z := Z.of_nat (length s).

Definition retrieve (s : DocumentStore) (doc_indices : list Z) : list Document :=
  omap (λ idx, if ((0 <=? idx) && (idx <? num_docs s))%Z then s !! Z.to_nat idx else None) doc_indices.

Record RAGConfig := mk_RAGConfig {
  rag_model : ModelConfig;
  num_documents : Z;
  tokens_per_doc : Z;
  top_k : Z;
  query_tokens : Z;
  rag_num_requests : Z;
  zipf_exponent : float64;
  requests_per_day : Z
}.

Definition between (lo z hi : Z) : bool := ((lo <=? z) && (z <=? hi))%Z.

Definition validate (c : RAGConfig) : res () :=
  if negb (between 1 (num_documents c) 1000000) then Err (RAGConfigError "num_documents")
  else if negb (between 1 (tokens_per_doc c) 1000000) then Err (RAGConfigError "tokens_per_doc")
  else if negb (between 1 (top_k c) (num_documents c)) then Err (RAGConfigError "top_k")
  else if negb (between 0 (query_tokens c) 1000000) then Err (RAGConfigError "query_tokens")
  else if negb (between 1 (rag_num_requests c) 10000000) then Err (RAGConfigError "num_requests")
  else if negb (SFltb fzero (zipf_exponent c)) then Err (RAGConfigError "zipf_exponent")
  else if negb (between 1 (requests_per_day c) 1000000000) then Err (RAGConfigError "requests_per_day")
  else Ok ().

Record RAGResult := mk_RAGResult {
  config : RAGConfig;
  rr_stats : CacheStats;
  prefix_tokens : Z;
  cost_per_miss_usd : float64;
  without_cache_usd : float64;
  with_cache_usd : float64;
  rr_savings_usd : float64;
  rr_savings_pct : float64;
  per_req_without_usd : float64;
  per_req_with_usd : float64;
  monthly_requests : Z;
  monthly_without : float64;
  monthly_with : float64;
  monthly_savings : float64
}.

(** [sorted(set(doc_indices))]. *)
Definition unique_sorted (doc_indices : list Z) : list Z := merge_sort Z.le (remove_dups doc_indices).

Definition build_prefix_tokens (doc_indices : list Z) (query_tokens : Z) : list Z :=
  concat (map (λ idx, replicate 8 (500000 + idx)%Z) (unique_sorted doc_indices)) ++
  map (λ j, (900000 + Z.of_nat j)%Z) (seq 0 (Z.to_nat query_tokens)).

Definition new_entry_for_token_count (h : string) (token_count : Z) (m : ModelConfig) : res CacheEntry :=
  tflops ← attention_tflops m (Int token_count);
  cost ← PyModels.cost_usd m (Int token_count);
  Ok (mk_CacheEntry h (name m) token_count tflops cost 0).

(** The rejection sampling of one request: [zipf a size j] is the [j]-th batch
    NumPy's generator hands it. The loop ends when enough draws were below
    [num_documents], which no number of batches guarantees: [fuel] bounds them. *)
Section Sample.
Context (zipf : float64 → Z → nat → res (list Z)) (cfg : RAGConfig).

Fixpoint sample (fuel j : nat) (indices : list Z) : res (list Z) :=
  if (Z.of_nat (length indices) <? top_k cfg)%Z then
    match fuel with
    | 0 => Err Unfinished
    | S fuel =>
        raw ← zipf (fadd (zipf_exponent cfg) (float_of_int 1)) (top_k cfg * 4)%Z j;
        sample fuel (S j) (indices ++ filter (λ z, (z < num_documents cfg)%Z) (map (λ z, (z - 1)%Z) raw))
    end
  else Ok indices.

Definition sampled (fuel : nat) : res (list Z) :=
  indices ← sample fuel 0 []; Ok (take (Z.to_nat (top_k cfg)) indices).
End Sample.

Definition rag_request (cfg : RAGConfig) (fuel : nat) (n : Z) (c : PrefixCache)
    (zipf : float64 → Z → nat → res (list Z)) : res PrefixCache :=
  doc_indices ← sampled zipf cfg fuel;
  let h := hash_prefix (build_prefix_tokens doc_indices (query_tokens cfg)) in
  PyScenarios.lookup_or_store h (new_entry_for_token_count h n (rag_model cfg)) c.

Definition run_rag_simulation (fuel : nat) (draws : nat → float64 → Z → nat → res (list Z)) (cfg : RAGConfig)
    : res RAGResult :=
  _ ← validate cfg;
  _ ← new_DocumentStore (num_documents cfg) (tokens_per_doc cfg);
  cache ← new_PrefixCache 100000;
  let n := (top_k cfg * tokens_per_doc cfg + query_tokens cfg)%Z in
  cache ← for_each (rag_request cfg fuel n) cache (map draws (seq 0 (Z.to_nat (rag_num_requests cfg))));
  st ← stats cache;
  cost_per_miss ← PyModels.cost_usd (rag_model cfg) (Int n);
  requests ← to_float (rag_num_requests cfg);
  let without_cache := fmul cost_per_miss requests in
  misses ← to_float (cache_misses st);
  let with_cache := fmul cost_per_miss misses in
  let savings := fsub without_cache with_cache in
  pct ← (if SFltb fzero without_cache
         then q ← float_div savings without_cache; Ok (fmul q (float_of_int 100)) else Ok fzero);
  per_req_without ← float_div without_cache requests;
  per_req_with ← float_div with_cache requests;
  let monthly := (requests_per_day cfg * 30)%Z in
  monthly_f ← to_float monthly;
  let monthly_without := fmul per_req_without monthly_f in
  let monthly_with := fmul per_req_with monthly_f in
  Ok (mk_RAGResult cfg st n cost_per_miss without_cache with_cache savings pct per_req_without per_req_with
        monthly monthly_without monthly_with (fsub monthly_without monthly_with)).

Definition default_rag_config : RAGConfig := mk_RAGConfig LLAMA3_70B 200 512 3 64 5000 (decimal 12 1) 1000000.

(** ** Prefixes stand for document sets *)

Lemma markers_length l : length (concat (map (λ idx, replicate 8 (500000 + idx)%Z) l)) = (8 * length l)%nat.
Proof. induction l as [|x l IH]; [done|]. cbn [map concat]. rewrite length_app, length_replicate, IH. simpl. lia. Qed.

Lemma markers_inj l : ∀ l' (q q' : list Z), length l = length l' →
  concat (map (λ idx, replicate 8 (500000 + idx)%Z) l) ++ q =
  concat (map (λ idx, replicate 8 (500000 + idx)%Z) l') ++ q' → l = l'.
Proof.
  induction l as [|x l IH]; intros [|x' l'] q q' Hlen; try done. simpl.
  intros [= Hx _ _ _ _ _ _ _ Heq]. f_equal; [lia|]. by eapply IH; [injection Hlen|].
Qed.

Lemma unique_sorted_set l l' :
  unique_sorted l = unique_sorted l' ↔ (list_to_set l : gset Z) = list_to_set l'.
Proof.
  assert (∀ l, unique_sorted l ≡ₚ remove_dups l) as Hp by (intros; apply merge_sort_Permutation).
  split.
  - intros Heq. apply set_eq. intros x. rewrite !elem_of_list_to_set, <- (elem_of_remove_dups l), <- (elem_of_remove_dups l').
    by rewrite <- (Hp l), <- (Hp l'), Heq.
  - intros Heq. apply (StronglySorted_unique Z.le); [apply StronglySorted_merge_sort; apply _..|].
    rewrite !Hp. apply NoDup_Permutation; [apply NoDup_remove_dups..|].
    intros x. rewrite !elem_of_remove_dups, <- !(elem_of_list_to_set (C := gset Z)). by rewrite Heq.
Qed.

(** The tokens of a prefix determine the document set, and it them. *)
Lemma prefix_tokens_set l l' q :
  build_prefix_tokens l q = build_prefix_tokens l' q ↔ (list_to_set l : gset Z) = list_to_set l'.
Proof.
  rewrite <- unique_sorted_set. unfold build_prefix_tokens. split; [|by intros ->].
  intros Heq. pose proof (f_equal length Heq) as Hlen. rewrite !length_app, !markers_length in Hlen.
  eapply markers_inj; [|exact Heq]. lia.
Qed.

(** The Go simulator takes the retrieved documents with their multiplicity: two
    requests that draw the same documents, one of them twice, are one document
    set here and two prefixes there. *)
Theorem go_prefix_counts_repeats :
  build_prefix_tokens [0; 0; 1]%Z 64 = build_prefix_tokens [0; 1; 1]%Z 64 ∧
  Llm.prefix_tokens 64 [0; 0; 1]%Z ≠ Llm.prefix_tokens 64 [0; 1; 1]%Z.
Proof. split; [by apply prefix_tokens_set|]. vm_compute. discriminate. Qed.

(** ** Sampling ends *)

Definition valid_draws (cfg : RAGConfig) (raw : list Z) : list Z :=
  filter (λ z, (z < num_documents cfg)%Z) (map (λ z, (z - 1)%Z) raw).

(** Batches that hold enough draws of documents that exist end the loop. *)
Lemma sample_ends zipf cfg batches : ∀ fuel j indices,
  (∀ k b, batches !! k = Some b →
     zipf (fadd (zipf_exponent cfg) (float_of_int 1)) (top_k cfg * 4)%Z (j + k) = Ok b) →
  (top_k cfg ≤ Z.of_nat (length indices + length (concat (map (valid_draws cfg) batches))))%Z →
  length batches ≤ fuel → ∃ l, sample zipf cfg fuel j indices = Ok l.
Proof.
  induction batches as [|b bs IH]; intros fuel j indices Hz Hlen Hf.
  - destruct fuel; cbn [sample]; simpl in Hlen; rewrite (proj2 (Z.ltb_ge _ _)) by lia; by eexists.
  - destruct fuel as [|fuel]; [simpl in Hf; lia|]. cbn [sample].
    destruct (Z.ltb_spec (Z.of_nat (length indices)) (top_k cfg)); [|by eexists].
    pose proof (Hz 0 b eq_refl) as Hz0. rewrite Nat.add_0_r in Hz0. rewrite Hz0. res_bind. apply IH.
    + intros k b' Hk. rewrite <- (Hz (S k) b' Hk). f_equal. lia.
    + cbn [map concat] in Hlen. rewrite length_app in Hlen. rewrite length_app. unfold valid_draws at 1 in Hlen. lia.
    + simpl in Hf. lia.
Qed.

(** ** Misses are document sets *)

Section Run.
Context (cfg : RAGConfig) (fuel : nat) (draws : nat → float64 → Z → nat → res (list Z)).

Definition docs (i : nat) : list Z := match sampled (draws i) cfg fuel with Ok l => l | Err _ => [] end.
Definition request_tokens (i : nat) : list Z := build_prefix_tokens (docs i) (query_tokens cfg).
Definition total_tokens : Z := (top_k cfg * tokens_per_doc cfg + query_tokens cfg)%Z.
Definition request_ids : list nat := seq 0 (Z.to_nat (rag_num_requests cfg)).

(** The document sets the requests retrieve. *)
Definition document_sets : list (gset Z) := (λ i, list_to_set (docs i)) <$> request_ids.

(** A workload the simulator accepts, whose prefixes are no longer than any
    sequence may be, with room in the cache for every request, and for which the
    generator hands every request enough existing documents within [fuel]
    batches. *)
Record rag_ok : Prop := {
  ok_valid : validate cfg = Ok ();
  ok_model : sane (rag_model cfg);
  ok_length : (total_tokens ≤ MAX_SEQ_LEN)%Z;
  ok_room : (rag_num_requests cfg ≤ 100000)%Z;
  ok_draws i : ∃ batches, length batches ≤ fuel ∧
    (∀ k b, batches !! k = Some b →
       draws i (fadd (zipf_exponent cfg) (float_of_int 1)) (top_k cfg * 4)%Z k = Ok b) ∧
    (top_k cfg ≤ Z.of_nat (length (concat (map (valid_draws cfg) batches))))%Z
}.

(** No two prefixes of this run collide in the truncated digest. *)
Definition no_collision : Prop :=
  ∀ i j, i ∈ request_ids → j ∈ request_ids →
    hash_prefix (request_tokens i) = hash_prefix (request_tokens j) → request_tokens i = request_tokens j.

Lemma config_bounds : validate cfg = Ok () →
  (1 ≤ num_documents cfg ≤ 1000000 ∧ 1 ≤ tokens_per_doc cfg ≤ 1000000 ∧ 1 ≤ top_k cfg ≤ num_documents cfg ∧
   0 ≤ query_tokens cfg ≤ 1000000 ∧ 1 ≤ rag_num_requests cfg ≤ 10000000 ∧
   1 ≤ requests_per_day cfg ≤ 1000000000)%Z.
Proof.
  unfold validate, between.
  repeat match goal with
  | |- context [(?a <=? ?b)%Z && (?b <=? ?c)%Z] =>
      destruct (Z.leb_spec a b); destruct (Z.leb_spec b c); cbn [andb negb]; try done
  | |- context [SFltb ?a ?b] => destruct (SFltb a b); cbn [negb]; try done
  end.
Qed.

Lemma sampled_docs i : rag_ok → sampled (draws i) cfg fuel = Ok (docs i).
Proof.
  intros Hok. unfold docs, sampled. destruct (ok_draws Hok i) as (bs & Hlen & Hz & Henough).
  destruct (sample_ends (draws i) cfg bs fuel 0 [] Hz) as [l ->]; [simpl; lia|done|]. done.
Qed.

(** The Go cache that the run is compared with: it serves the same hashes at
    increasing times. *)
Definition at_request (i : nat) : Llm.env :=
  Llm.mk_env fzero (λ _, Z.of_nat i) (λ k, Z.of_nat (3 * i + k + 1)) map_to_list.

Definition go_hash (e : Llm.env) : string := hash_prefix (request_tokens (Z.to_nat (Llm.intn e 0))).
Definition go_entry (e : Llm.env) (now : Clock) : Llm.PrefixCacheEntry :=
  Llm.newEntryForTokenCount now (go_hash e) total_tokens (PyModels.to_go (rag_model cfg)).

Lemma total_tokens_ok : rag_ok → seq_len_ok total_tokens.
Proof.
  intros Hok. pose proof (ok_length Hok). pose proof (config_bounds (ok_valid Hok)).
  split; [|done]. unfold total_tokens. nia.
Qed.

Lemma rag_request_sim i t g p :
  rag_ok → simulates t g p → (t < Z.of_nat (3 * i + 1))%Z → (_total_requests p < int64_max)%Z →
  ∃ p', rag_request cfg fuel total_tokens p (draws i) = Ok p' ∧
    simulates (Z.of_nat (3 * i + 3)) (Llm.serve go_hash go_entry g (at_request i)) p' ∧
    _total_requests p' = (_total_requests p + 1)%Z.
Proof.
  intros Hok Hsim Ht Hmax. unfold rag_request. rewrite sampled_docs by done. res_bind.
  fold (request_tokens i). unfold new_entry_for_token_count.
  rewrite attention_tflops_go, PyModels.cost_usd_go by (apply (ok_model Hok) || by apply total_tokens_ok). res_bind.
  assert (go_hash (at_request i) = hash_prefix (request_tokens i)) as Hgh
    by (unfold go_hash; cbn [at_request Llm.intn]; by rewrite Nat2Z.id).
  set (pe := mk_CacheEntry _ _ _ _ _ _).
  destruct (PyScenarios.serve_sim t (at_request i) (hash_prefix (request_tokens i)) (go_entry (at_request i)) pe g p)
    as (p' & Hp' & Hsim' & Hreq'); try done.
  - cbn [at_request Llm.clock]. lia.
  - by intros m.
  - split; [|done]. split; [exact Hgh|]. split; [|done]. cbn [fst].
    change (go_hash (at_request i) ≠ ""). rewrite Hgh, hash_prefix_go. apply hash_nonempty.
  - exists p'. split; [done|]. split; [|done]. unfold Llm.serve. rewrite Hgh.
    replace (Z.of_nat (3 * i + 3)) with (Llm.clock (at_request i) 2%nat) by (cbn [at_request Llm.clock]; lia). done.
Qed.

Lemma rag_requests_sim n : ∀ i t g p,
  rag_ok → simulates t g p → (t < Z.of_nat (3 * i + 1))%Z → (_total_requests p + Z.of_nat n ≤ int64_max)%Z →
  ∃ t' p', for_each (rag_request cfg fuel total_tokens) p (map draws (seq i n)) = Ok p' ∧
    simulates t' (foldl (Llm.serve go_hash go_entry) g (map at_request (seq i n))) p' ∧
    _total_requests p' = (_total_requests p + Z.of_nat n)%Z.
Proof.
  induction n as [|n IH]; intros i t g p Hok Hsim Ht Hmax; cbn [seq map for_each foldl].
  { exists t, p. split; [done|]. split; [done|]. lia. }
  destruct (rag_request_sim i t g p Hok Hsim Ht) as (p1 & -> & Hsim1 & Hreq1); [lia|]. res_bind.
  destruct (IH (S i) _ _ _ Hok Hsim1) as (t' & p' & -> & Hsim' & Hreq'); [lia|lia|].
  exists t', p'. split; [done|]. split; [done|]. lia.
Qed.

(** The hashes served, and the sets they stand for. *)
Lemma served_sets :
  no_collision →
  size (list_to_set (go_hash <$> map at_request request_ids) : gset string) =
  size (list_to_set document_sets : gset (gset Z)).
Proof.
  intros Hnc. assert (go_hash <$> map at_request request_ids = (hash_prefix ∘ request_tokens) <$> request_ids) as ->.
  { change (map at_request request_ids) with (at_request <$> request_ids). rewrite <- list_fmap_compose.
    apply list_fmap_ext. intros k i _. unfold go_hash. cbn [compose at_request Llm.intn]. by rewrite Nat2Z.id. }
  unfold document_sets. revert Hnc. unfold no_collision. generalize request_ids as ids.
  induction ids as [|i ids IH]; intros Hnc; [done|]. rewrite !fmap_cons, !list_to_set_cons.
  pose proof (IH ltac:(intros a b ? ?; apply Hnc; by right)) as IH'.
  assert (∀ j, j ∈ ids → hash_prefix (request_tokens i) = hash_prefix (request_tokens j) ↔
               (list_to_set (docs i) : gset Z) = list_to_set (docs j)) as Hiff.
  { intros j Hj. unfold request_tokens. rewrite <- (prefix_tokens_set _ _ (query_tokens cfg)).
    split; [|by intros ->]. apply Hnc; [by left|by right]. }
  destruct (decide (list_to_set (docs i) ∈ ((λ j, list_to_set (docs j)) <$> ids : list (gset Z)))) as [Hin|Hout].
  - pose proof Hin as (j & Hj & Hjin)%list_elem_of_fmap_1.
    rewrite (subseteq_union_1_L {[list_to_set (docs i)]}) by (by apply singleton_subseteq_l, elem_of_list_to_set).
    rewrite (subseteq_union_1_L {[(hash_prefix ∘ request_tokens) i]}); [done|].
    apply singleton_subseteq_l, elem_of_list_to_set, list_elem_of_fmap. exists j. split; [by apply Hiff|done].
  - rewrite !size_union, !size_singleton; [lia|..]; apply disjoint_singleton_l; rewrite elem_of_list_to_set; [done|].
    intros (j & Hj & Hjin)%list_elem_of_fmap_1. apply Hout, list_elem_of_fmap. exists j. split; [by apply Hiff|done].
Qed.

(** A run completes, and its cache is the one that served the hashes. *)
Lemma rag_completes (Hok : rag_ok) :
  ∃ r t p, run_rag_simulation fuel draws cfg = Ok r ∧
    simulates t (foldl (Llm.serve go_hash go_entry) (Llm.NewPrefixCache 100000) (map at_request request_ids)) p ∧
    same_stats (Llm.Stats (foldl (Llm.serve go_hash go_entry) (Llm.NewPrefixCache 100000) (map at_request request_ids)))
      (rr_stats r) ∧
    _total_requests p = rag_num_requests cfg ∧ cache_misses (rr_stats r) = (_total_requests p - _cache_hits p)%Z ∧
    with_cache_usd r = fmul (Llm.CostUSD_of (PyModels.to_go (rag_model cfg)) (prefix_tokens r))
                         (float_of_int (cache_misses (rr_stats r))).
Proof.
  pose proof (config_bounds (ok_valid Hok)) as Hv. pose proof (ok_room Hok) as Hroom.
  unfold run_rag_simulation. rewrite (ok_valid Hok). res_bind.
  unfold new_DocumentStore. rewrite !(proj2 (Z.ltb_ge _ _)) by lia. res_bind.
  destruct (new_cache_sim 0 100000) as (p0 & -> & Hsim0 & Hreq0 & _); [lia|]. res_bind. fold total_tokens.
  destruct (rag_requests_sim (Z.to_nat (rag_num_requests cfg)) 0 0 _ p0 Hok Hsim0) as (t & p & -> & Hsim & Hreq);
    [lia|unfold int64_max; lia|]. res_bind.
  fold request_ids in Hsim. destruct (stats_sim _ _ _ Hsim) as (st & Hst & Hsame & Hcm); [lia|].
  rewrite Hst. res_bind.
  rewrite PyModels.cost_usd_go by (apply (ok_model Hok) || by apply total_tokens_ok). res_bind.
  rewrite (to_float_ok (rag_num_requests cfg)) by lia. res_bind.
  pose proof (sim_counts _ _ _ Hsim). rewrite (to_float_ok (cache_misses st)) by lia. res_bind.
  assert (∀ x, float_div x (float_of_int (rag_num_requests cfg)) = Ok (fdiv x (float_of_int (rag_num_requests cfg))))
    as Hdiv.
  { intros x. destruct (float_of_int_denotes (rag_num_requests cfg)) as (c & e & -> & _); [apply fits_small; lia|lia|done]. }
  set (wo := fmul _ (float_of_int (rag_num_requests cfg))). set (wi := fmul _ (float_of_int (cache_misses st))).
  assert (∃ q, (if SFltb fzero wo then q ← float_div (fsub wo wi) wo; Ok (fmul q (float_of_int 100)) else Ok fzero) = Ok q)
    as [q ->] by (clearbody wo; destruct wo as [[]|[]| |[]]; by eexists).
  res_bind. rewrite !Hdiv. res_bind. rewrite to_float_ok by lia. res_bind.
  eexists _, t, p. split; [reflexivity|]. cbn [rr_stats with_cache_usd prefix_tokens]. split_and!; try done. lia.
Qed.

(** C36: the retrieval simulation counts document sets. Let a configuration pass
    the checks of the simulator, its prefixes be no longer than 1048576 tokens, and
    its requests no more than the 100000 entries the cache holds; let the generator
    hand every request enough existing documents, and no two prefixes of the run
    have the same truncated digest. Then the run completes; its misses are exactly
    the distinct sets of documents the requests retrieve, whatever the order and the
    repetitions of the draws, all other requests are hits, and the cost with caching
    is that of the misses. *)
Theorem python_rag_counts_sets (Hok : rag_ok) (Hnc : no_collision) :
  ∃ r, run_rag_simulation fuel draws cfg = Ok r ∧
    let m := Z.of_nat (size (list_to_set document_sets : gset (gset Z))) in
    total_requests (rr_stats r) = rag_num_requests cfg ∧
    cache_misses (rr_stats r) = m ∧ cache_hits (rr_stats r) = (rag_num_requests cfg - m)%Z ∧
    entries_stored (rr_stats r) = m ∧
    with_cache_usd r = fmul (Llm.CostUSD_of (PyModels.to_go (rag_model cfg)) (prefix_tokens r)) (float_of_int m).
Proof.
  pose proof (config_bounds (ok_valid Hok)) as Hv. pose proof (ok_room Hok) as Hroom.
  destruct (rag_completes Hok) as (r & t & p & Hrun & Hsim & Hsame & Hreq & Hcm & Hwith).
  destruct (Llm.serve_run go_hash go_entry (λ _ _, eq_refl) (map at_request request_ids) (Llm.NewPrefixCache 100000))
    as (Hc & Htot & Hdom & Hmis); [done| | |].
  { unfold request_ids. rewrite length_map, length_seq. cbn [Llm.NewPrefixCache Llm.totalRequests]. unfold int64_max. lia. }
  { unfold request_ids. rewrite length_map, length_seq. cbn [Llm.NewPrefixCache Llm.entries Llm.maxSize].
    rewrite map_size_empty. lia. }
  cbn [Llm.NewPrefixCache Llm.entries] in Hmis, Hdom. rewrite dom_empty_L in Hmis, Hdom.
  autorewrite with go in Hmis, Hdom. rewrite served_sets in Hmis by done.
  assert (cache_misses (rr_stats r) = Z.of_nat (size (list_to_set document_sets : gset (gset Z)))) as Hm.
  { rewrite Hcm, <- (sim_requests _ _ _ Hsim), <- (sim_hits _ _ _ Hsim). exact Hmis. }
  exists r. split; [done|]. rewrite Hwith, <- Hm.
  rewrite <- (same_requests _ _ Hsame), <- (same_hits _ _ Hsame), <- (same_stored _ _ Hsame).
  cbn [Llm.Stats Llm.TotalRequests Llm.CacheHits Llm.EntriesStored]. rewrite <- size_dom, Hdom, served_sets by done.
  rewrite (sim_requests _ _ _ Hsim), (sim_hits _ _ _ Hsim). split_and!; try done; lia.
Qed.
End Run.

(** ** A run *)

(** Three requests for two of four documents; their draws are [1, 1], then an
    unknown document and [1, 2] in the second batch, then [2, 1, 1]. *)
Definition small_rag : RAGConfig := mk_RAGConfig LLAMA3_8B 4 16 2 1 3 (float_of_int 1) 10.

Definition small_draws (i : nat) (a : float64) (size : Z) (j : nat) : res (list Z) :=
  Ok match i, j with
     | 0, _ => [2; 2]%Z
     | 1, 0 => [9; 2]%Z
     | 1, _ => [3]%Z
     | _, _ => [3; 2; 2]%Z
     end.

(** The two prefixes of the run. *)
Definition only_first : list Z := build_prefix_tokens [1]%Z 1.
Definition first_two : list Z := build_prefix_tokens [1; 2]%Z 1.

Lemma small_hashes_differ : hash_prefix only_first ≠ hash_prefix first_two.
Proof. vm_compute. discriminate. Qed.

Lemma small_tokens i : i ∈ request_ids small_rag →
  request_tokens small_rag 2 small_draws i = only_first ∨ request_tokens small_rag 2 small_draws i = first_two.
Proof.
  intros Hi. apply elem_of_cons in Hi as [->|Hi]; [left; reflexivity|right].
  repeat (apply elem_of_cons in Hi as [->|Hi]; [reflexivity|]). by apply elem_of_nil in Hi.
Qed.

Lemma small_run_no_collision : no_collision small_rag 2 small_draws.
Proof.
  intros i j Hi%small_tokens Hj%small_tokens Heq. pose proof small_hashes_differ as Hne.
  revert Heq Hne. generalize hash_prefix as h. intros h Heq Hne.
  destruct Hi as [Hi|Hi], Hj as [Hj|Hj]; rewrite Hi, Hj in *; congruence.
Qed.

Lemma python_rag_counts_sets_witness :
  ∃ r, run_rag_simulation 2 small_draws small_rag = Ok r ∧ cache_misses (rr_stats r) = 2%Z.
Proof.
  destruct (python_rag_counts_sets small_rag 2 small_draws) as (r & Hr & _ & Hm & _).
  - split; [reflexivity|by split|by vm_compute|by vm_compute|].
    intros [|[|i]].
    + exists [[2; 2]]%Z. split; [simpl; lia|]. split; [by intros [|[]] b [= <-]|by vm_compute].
    + exists [[9; 2]; [3]]%Z. split; [simpl; lia|]. split; [by intros [|[|[]]] b [= <-]|by vm_compute].
    + exists [[3; 2; 2]]%Z. split; [simpl; lia|]. split; [by intros [|[]] b [= <-]|by vm_compute].
  - exact small_run_no_collision.
  - exists r. split; [exact Hr|]. rewrite Hm. unfold document_sets, request_ids. vm_compute. reflexivity.
Defined.

(** A configuration that [validate] accepts can still be refused in the run, by
    the limit on the length of a sequence. *)
Definition long_documents : RAGConfig := mk_RAGConfig LLAMA3_8B 4 1000000 2 1 1 (float_of_int 1) 10.

Example valid_config_refused :
  validate long_documents = Ok () ∧
  run_rag_simulation 2 small_draws long_documents = Err (SeqLenRangeError (Int 2000001)).
Proof. split; vm_compute; reflexivity. Qed.
End PyRag.
