(* ===== verification/PyReport.v ===== *)
(** The reports and the command line of the Python simulator,
    [src/python/src/llmsim/report.py] and [cli.py], as the text they produce. *)
From S2P Require Import Prelude GoStrings Json GoFmt GoNumbers FloatExact Llm Benchmark Report.
From S2P Require Import Py PyModels PyCache PyScenarios PyRag.
From Stdlib Require Import SpecFloat Ascii.

Module PyReport.
Import Py PyModels PyCache PyScenarios PyRag.

(** ** Formatters *)

Definition format_money (value : float64) : string := comma_fixed 2 value.
Definition format_int (value : Z) : string := comma_int value.
Definition format_percent (value : float64) : string := fixed 1 value.

Definition format_tflops (value : float64) : string :=
  if SFleb (float_of_int 1000) value then fixed 1 (fdiv value (float_of_int 1000)) +:+ " PFLOPs"
  else if SFleb (float_of_int 1) value then fixed 2 value +:+ " TFLOPs"
  else fixed 4 value +:+ " TFLOPs".

(** ** Reports *)

Definition SEP : string := Report.Repeat "─" 70.

Definition render_scenario_result (result : ScenarioResult) : res string :=
  let s := scenario result in
  let st := sr_stats result in
  cost ← PyModels.cost_usd (sc_model s) (Int (system_prompt_len s));
  tflops ← attention_tflops (sc_model s) (Int (system_prompt_len s));
  Ok (join GoFmt.nl [
    "";
    SEP;
    "  Scenario:   " +:+ sc_name s;
    "  Company:    " +:+ company s;
    "  Model:      " +:+ name (sc_model s) +:+ " (" +:+ fixed 0 (params_billion (sc_model s)) +:+ "B params)";
    "  Prefix:     " +:+ pretty (system_prompt_len s) +:+ " tokens | Requests: " +:+ pretty (num_requests s) +:+
      " | Reuse rate: " +:+ fixed 0 (fmul (prefix_reuse_rate s) (float_of_int 100)) +:+ "%";
    SEP;
    "  Cache hit rate:      " +:+ format_percent (hit_rate st) +:+ "% (" +:+ pretty (cache_hits st) +:+ "/" +:+
      pretty (total_requests st) +:+ " requests)";
    "  Prefix cost/req:     $" +:+ fixed 6 cost +:+ " (" +:+ format_tflops tflops +:+ ")";
    "  Cost WITHOUT cache:  $" +:+ fixed 4 (without_cache_cost result);
    "  Cost WITH cache:     $" +:+ fixed 4 (with_cache_cost result);
    "  ✦ Compute saved:     " +:+ format_tflops (total_saved_tflops st);
    "  ✦ Cost saved:        $" +:+ fixed 4 (savings_usd result) +:+ " (" +:+ format_percent (savings_pct result) +:+
      "% reduction)"]).

Definition comparison_row (r : ScenarioResult) : res string :=
  let m := sc_model (scenario r) in
  cost ← PyModels.cost_usd m (Int (system_prompt_len (scenario r)));
  Ok (Report.left 20 (name m) +:+ " " +:+ Report.right 7 (fixed 1 (hit_rate (sr_stats r))) +:+ "% $" +:+
      Report.right 10 (fixed 6 cost) +:+ " " +:+
      Report.right 11 (format_tflops (total_saved_tflops (sr_stats r))) +:+ " " +:+
      Report.right 9 (fixed 1 (savings_pct r)) +:+ "%").

Definition render_model_comparison (results : list ScenarioResult) : res string :=
  rows ← list_of comparison_row results;
  Ok (join GoFmt.nl
        ((GoFmt.nl +:+ Report.left 20 "Model" +:+ " " +:+ Report.right 8 "Hit Rate" +:+ " " +:+
          Report.right 12 "Cost/Req" +:+ " " +:+ Report.right 12 "Saved Total" +:+ " " +:+
          Report.right 10 "Reduction") :: SEP :: rows)).

Definition render_rag_result (result : RAGResult) : string :=
  let cfg := config result in
  let st := rr_stats result in
  join GoFmt.nl [
    "";
    SEP;
    "  RAG PIPELINE COST SIMULATION";
    SEP;
    "  Knowledge base:   " +:+ pretty (num_documents cfg) +:+ " documents × " +:+ pretty (tokens_per_doc cfg) +:+
      " tokens";
    "  Retrieval:        top-" +:+ pretty (top_k cfg) +:+ " documents per query (Zipf popularity)";
    "  Prefix size:      " +:+ pretty (prefix_tokens result) +:+ " tokens (" +:+ pretty (top_k cfg) +:+
      " docs + " +:+ pretty (query_tokens cfg) +:+ " query)";
    "  Model:            " +:+ name (rag_model cfg) +:+ " (" +:+ fixed 0 (params_billion (rag_model cfg)) +:+
      "B params)";
    "  Requests:         " +:+ pretty (rag_num_requests cfg) +:+ " simulated";
    SEP;
    "  Cache hit rate:   " +:+ format_percent (hit_rate st) +:+ "% (" +:+ pretty (cache_hits st) +:+ " hits / " +:+
      pretty (total_requests st) +:+ " requests)";
    "  Compute saved:    " +:+ format_tflops (total_saved_tflops st);
    "  Cost per uncached prefix: $" +:+ fixed 6 (cost_per_miss_usd result);
    SEP;
    "  PER-RUN TOTALS";
    "    Without caching:  $" +:+ fixed 4 (without_cache_usd result);
    "    With caching:     $" +:+ fixed 4 (with_cache_usd result);
    "    ✦ Saved:          $" +:+ fixed 4 (rr_savings_usd result) +:+ " (" +:+
      format_percent (rr_savings_pct result) +:+ "% reduction)";
    SEP;
    "  MONTHLY PROJECTION (at " +:+ format_int (requests_per_day cfg) +:+ " requests/day)";
    "    Without caching:  $" +:+ format_money (monthly_without result) +:+ " / month";
    "    With caching:     $" +:+ format_money (monthly_with result) +:+ " / month";
    "    ✦ Saved:          $" +:+ format_money (monthly_savings result) +:+ " / month";
    SEP].

(** ** The command line *)

Definition VALID_MODES : list string := ["prefix-cache"; "all-models"; "rag"].
Definition DEFAULT_MODE : string := "prefix-cache".

(** What [main] prints and its exit code, or the mode its error message names. *)
Inductive outcome :=
| Exit0 (stdout : string)
| UnrecognizedMode (mode : string).

(** The draws of the [i]-th scenario, of the comparison and of the retrieval
    run, each from a generator seeded with 42. *)
Record world := mk_world {
  w_pow2 : float64 → float64;
  w_allclose : list float64 → list float64 → bool;
  w_scenarios : nat → nat → draw;
  w_comparison : nat → draw;
  w_rag : nat → float64 → Z → nat → res (list Z);
  w_fuel : nat
}.

Definition main (w : world) (mode : string) : res outcome :=
  if decide (mode ∉ VALID_MODES) then Ok (UnrecognizedMode mode)
  else if decide (mode = "prefix-cache") then
    texts ← list_of (λ k, r ← run_scenario (w_scenarios w k.1) k.2; t ← render_scenario_result r;
                           Ok (t +:+ GoFmt.nl)) (imap pair default_scenarios);
    Ok (Exit0 (join "" texts))
  else if decide (mode = "all-models") then
    results ← run_all_models_comparison (w_pow2 w) (w_allclose w) (w_comparison w) 1024 1000 (decimal 90 2);
    t ← render_model_comparison results;
    Ok (Exit0 (t +:+ GoFmt.nl))
  else
    r ← run_rag_simulation (w_fuel w) (w_rag w) default_rag_config;
    Ok (Exit0 (render_rag_result r +:+ GoFmt.nl)).

(** ** Thousands separators *)

Lemma str_app_empty s : s +:+ "" = s.
Proof. induction s as [|c s IH]; [done|]. rewrite Json.str_app_cons. by f_equal. Qed.

(** The Go loop writes what [group] writes, after the comma the position asks
    for. *)
Lemma formatInt_loop_group n s : ∀ i out,
  String.length s + i = n →
  Llm.formatInt_loop n i s out =
  out +:+ (if decide (0 < i ∧ s ≠ "" ∧ String.length s `mod` 3 = 0) then "," else "") +:+ group s.
Proof.
  induction s as [|c s IH]; intros i out Hn; cbn [Llm.formatInt_loop group String.length] in *.
  { rewrite decide_False by naive_solver. by rewrite str_app_empty. }
  replace (n - i) with (S (String.length s)) by lia. rewrite IH by lia.
  assert ((if decide (0 < S i ∧ s ≠ "" ∧ String.length s `mod` 3 = 0) then "," else "") +:+ group s =
          if decide (s ≠ "" ∧ String.length s `mod` 3 = 0) then String "," (group s) else group s) as ->.
  { destruct (decide (s ≠ "" ∧ _)) as [[Hs Hm]|Hno]; [by rewrite decide_True by (split_and!; done || lia)|].
    rewrite decide_False; [done|]. intros (_ & ? & ?). by apply Hno. }
  assert ((if decide (0 < i ∧ S (String.length s) `mod` 3 = 0) then out +:+ "," else out) =
          out +:+ (if decide (0 < i ∧ String c s ≠ "" ∧ S (String.length s) `mod` 3 = 0) then "," else "")) as ->.
  { destruct (decide (0 < i ∧ S (String.length s) `mod` 3 = 0)) as [[??]|Hno].
    - by rewrite decide_True by done.
    - rewrite decide_False; [by rewrite str_app_empty|]. intros (? & _ & ?). by apply Hno. }
  by rewrite !Json.str_app_assoc.
Qed.

(** Non-negative numbers look the same in the reports of both simulators. *)
Theorem format_int_matches_go (z : Z) (Hz : (0 ≤ z)%Z) : Llm.formatInt z = format_int z.
Proof.
  unfold Llm.formatInt, format_int, comma_int. rewrite (proj2 (Z.ltb_ge _ _) Hz).
  rewrite formatInt_loop_group by lia. by rewrite decide_False by lia.
Qed.

(** ** Every mode completes *)

(** Random numbers as NumPy documents them, and its comparison of arrays. *)
Record world_ok (w : world) : Prop := {
  wok_pow2 s : seq_len_ok s → w_pow2 w (float_of_int s) = float_of_int (s * s)%Z;
  wok_allclose l : S754_nan ∉ l → w_allclose w l l = true;
  wok_scenarios i s : default_scenarios !! i = Some s → draws_ok (w_scenarios w i) (system_prompt_len s);
  wok_comparison : draws_ok (w_comparison w) 1024;
  wok_rag : rag_ok default_rag_config (w_fuel w) (w_rag w)
}.

Lemma scenario_renders r :
  sane (sc_model (scenario r)) → seq_len_ok (system_prompt_len (scenario r)) →
  (∃ t, render_scenario_result r = Ok t) ∧ ∃ t, comparison_row r = Ok t.
Proof.
  intros Hm Hs. unfold render_scenario_result, comparison_row.
  rewrite attention_tflops_go, PyModels.cost_usd_go by done. res_bind. split; by eexists.
Qed.

Lemma list_of_completes {A B} (f : A → res B) (l : list A) :
  (∀ a, a ∈ l → ∃ b, f a = Ok b) → ∃ bs, list_of f l = Ok bs.
Proof.
  induction l as [|a l IH]; intros Hl; cbn [list_of]; [by eexists|].
  destruct (Hl a) as [b ->]; [by left|]. res_bind. destruct IH as [bs ->]; [intros; apply Hl; by right|].
  res_bind. by eexists.
Qed.

(** The command line completes. Given the random numbers NumPy promises, each
    of the three modes runs without an exception, every simulation and every
    report of it included, and exits with code 0; any other mode is refused. *)
Theorem python_main_completes (w : world) (mode : string) (Hw : world_ok w) :
  (mode ∈ VALID_MODES ∧ ∃ stdout, main w mode = Ok (Exit0 stdout)) ∨
  ((mode ∉ VALID_MODES) ∧ main w mode = Ok (UnrecognizedMode mode)).
Proof.
  unfold main. destruct (decide (mode ∉ VALID_MODES)) as [Hno|Hyes]; [by right|]. left.
  apply dec_stable in Hyes. split; [done|].
  destruct (decide (mode = "prefix-cache")) as [_|Hp]; [|destruct (decide (mode = "all-models")) as [_|Ha]].
  - destruct (list_of_completes (λ k : nat * Scenario, r ← run_scenario (w_scenarios w k.1) k.2;
      t ← render_scenario_result r; Ok (t +:+ GoFmt.nl)) (imap pair default_scenarios)) as [ts ->]; [|by eexists].
    intros [i s] Hin. apply elem_of_lookup_imap in Hin as (i' & s' & [= <- <-] & Hs). cbn [fst snd].
    assert (scenario_ok s) as Hok.
    { apply list_elem_of_lookup_2 in Hs.
      repeat (apply elem_of_cons in Hs as [->|Hs];
              [split; [by split|by split; vm_compute|by vm_compute]|]). by apply elem_of_nil in Hs. }
    destruct (run_completes (w_scenarios w i) s Hok) as (r & -> & Hsc & _); [by apply (wok_scenarios w Hw)|]. res_bind.
    destruct (scenario_renders r) as [[t ->] _]; [rewrite Hsc; apply Hok..|]. by eexists.
  - pose proof (comparison_complete (w_pow2 w) (w_allclose w) (w_comparison w) 1024 1000 (decimal 90 2)
      (wok_pow2 w Hw) (wok_allclose w Hw) (wok_comparison w Hw) eq_refl) as Hc.
    change (params_ok 1024 1000 (decimal 90 2)) with true in Hc. cbn match in Hc.
    change (MAX_SEQ_LEN <? 1024)%Z with false in Hc. cbn match in Hc.
    destruct Hc as (results & -> & Hmodels & Hall). res_bind. unfold render_model_comparison.
    destruct (list_of_completes comparison_row results) as [rows ->]; [|by eexists].
    intros r Hr. rewrite Forall_forall in Hall. destruct (Hall r Hr) as (_ & _ & Hlen & _).
    apply scenario_renders; [|rewrite Hlen; by split; vm_compute].
    apply catalog_sane. rewrite <- Hmodels. apply list_elem_of_fmap. by exists r.
  - destruct (rag_completes default_rag_config (w_fuel w) (w_rag w) (wok_rag w Hw)) as (r & t & p & -> & _). res_bind. by eexists.
Qed.

(** A world in which every request repeats the same numbers. *)
Definition same_draw : draw :=
  mk_draw fzero (λ n, if (n <? 0)%Z then Err (ValueError "size") else Ok (replicate (Z.to_nat n) 200000%Z)).

Definition steady_world : world :=
  mk_world (λ x, fmul x x) (λ _ _, true) (λ _ _, same_draw) (λ _, same_draw) (λ _ _ _ _, Ok [1; 2; 3]%Z) 1.

Lemma python_main_completes_witness :
  ∃ stdout, main steady_world "rag" = Ok (Exit0 stdout).
Proof.
  destruct (python_main_completes steady_world "rag") as [[_ H]|[H _]]; [|exact H|].
  - split.
    + intros s [??]. unfold MAX_SEQ_LEN in *. apply fmul_int; try (apply fits_small); nia.
    + by intros.
    + intros i s Hs j. apply list_elem_of_lookup_2 in Hs. exists (replicate (Z.to_nat (system_prompt_len s)) 200000%Z).
      rewrite length_replicate.
      repeat (apply elem_of_cons in Hs as [->|Hs]; [by split|]). by apply elem_of_nil in Hs.
    + intros j. exists (replicate 1024 200000%Z). rewrite length_replicate. by split.
    + split; [by vm_compute|by split|by vm_compute|by vm_compute|]. intros i. exists [[1; 2; 3]]%Z.
      split; [simpl; lia|]. split; [by intros [|[]] b [= <-]|by vm_compute].
  - exfalso. apply H. right. right. by left.
Defined.
End PyReport.
